(* ===== verification/_CoqProject ===== *)
-Q . S2P
Prelude.v
Join.v
RustStd.v
Float64.v
NetAddr.v
TlsSetup.v
Net.v
Target.v
Aead.v
Vless.v
Shadowsocks.v
ShadowsocksClient.v
Vmess.v
Hysteria.v
HysteriaServer.v
HysteriaConn.v
Xhttp.v
XhttpServer.v
Tuic.v
TuicConn.v
TuicAuth.v
TuicError.v
AnyTlsPadding.v
AnyTls.v
AnyTlsRelay.v
AnyTlsConn.v
Trojan.v
Socks.v
Der.v
Reality.v
Websocket.v
Listeners.v
Masquerade.v
WgIface.v
WgStack.v
WgServer.v
Congestion.v
Config.v
HysteriaAuth.v
Servers.v
XhttpStreams.v
UdpServers.v
Main.v
Generate.v
