(* ===== verification/Prelude.v ===== *)
(** * ruproxy: a verification library

    ruproxy is a proxy server: for each entry of its configuration it runs one
    server of some protocol, which accepts clients, authenticates them, reads
    where they want to go, connects there and relays bytes both ways.  This
    library models the protocols' own code, as it is written under [src/src/], and
    proves what each server promises.  This file holds what all the others
    share; it is also the documentation of the whole.

    ** How the program is modelled

    - Outcomes and effects ([Prelude]).  A call returns, fails with an error or
      panics ([outcome]).  Code that changes state is a function in the monad
      [M S]; the state survives an error.  Machine integers are [Z] at their
      width, with [wrap] where the code wraps; bytes are [Z] below 256, strings
      and buffers lists of them.
    - The standard library ([RustStd]): indexing and slicing with their panics,
      UTF-8 (strict and lossy), number parsing and printing, splitting and
      trimming, hexadecimal, IP addresses as text.
    - The network ([Net]).  [Source] is the interface of something bytes are
      read from ([AsyncRead], [Buf]); the decoders are written against it, and
      [reads], [sound], [quiet] and [rejects] state what a decoder does on
      every source that satisfies [SourceLaws].  [conn] is a connection with
      the trace of what the server did on it (connect, write, relay), and
      [does] the rule to reason about such traces.  [env] decides what the
      network answers.  A write is one event, recorded when it has succeeded: of a
      write that fails, what had got out before is not in the trace.
    - Cryptography ([Aead], and parameters of the sections that use it).  Ciphers,
      hashes and key exchanges are crates: parameters of the definitions.  Where a
      theorem needs a law (a sealed text opens; what opens was sealed), it is a
      named hypothesis, and a concrete instance shows it can hold.
    - Concurrency.  [Join]: two loops of one task on the two halves of a stream
      ([tokio::join!]) do what each does alone, whatever the order of their
      turns.  Where tasks share state, one step of one task is a function
      on the shared state ([sstep] and [hstep] of Hysteria2, [tstep] and
      [au_step] of TUIC, [mstep], [rstep] and [astep] of AnyTLS, [xstep] of
      XHTTP, [wstep] of WireGuard), and a theorem speaks of every sequence of
      steps.  A step that cannot happen (a full channel, a held lock) is not
      taken: [server_delivers_authentic] says when WireGuard's receive loop waits and
      for what.  Inside a stack's message ([WgStack]) the waits for the relays' channels
      are not steps of their own; nor are, in [Tuic], the parts of a login, which
      [TuicAuth] takes apart.

    ** The files

    - [Float64] ([f64]): arithmetic of [SpecFloat], conversions, parsing; integers
      below 2^53 are exact.  [NetAddr]: socket and IP addresses as text.
    - [Target]: the destination as clients send it (type, host, port), shared
      by Trojan, SOCKS and AnyTLS.
    - [Vless] ([vless/protocol.rs], [process_vless_stream] and [relay] of
      [vless/listener.rs]): request decoder, response, UUID parser, handler.
    - [Reality] and [Der] ([vless/tls/reality.rs]): which ClientHello is let in,
      what happens to the others, and the certificate with its signature
      replaced.
    - [Shadowsocks] ([shadowsocks/protocol.rs], [process] of
      [shadowsocks/server.rs]): sealed chunks, headers, a whole session.
    - [Vmess] ([vmess/mod.rs]): headers, key derivation, chunk streams with
      masking and padding in both directions, a whole session.
    - [ShadowsocksClient] (what [protocol.rs] has besides): the request header a
      client writes, and a read that fills a buffer.
    - [Hysteria], [HysteriaServer], [HysteriaConn], [HysteriaAuth]
      ([hysteria2/auth.rs], [proxy.rs], [server.rs]): proxied streams, UDP frames
      and fragments; the authentication phase and the map of UDP sessions; the
      whole connection; the answers to authentication requests.
    - [Xhttp], [XhttpServer], [XhttpStreams] ([common/transport/xhttp.rs]): router
      and the reader that puts numbered packets in order; the server with its
      sessions, timers, handlers, body pumps and responses; the streams it hands
      out, on which the tasks of [Servers] run.
    - [Tuic], [TuicConn], [TuicAuth], [TuicError] ([tuic/proto.rs],
      [tuic/connection.rs], [tuic/error.rs]): commands and addresses, a connection
      as a state machine over streams, datagrams, resolver and targets; what
      confines it; the flag its tasks wait on; its errors.
    - [AnyTlsPadding], [AnyTls], [AnyTlsRelay], [AnyTlsConn]
      ([anytls/padding.rs], [session.rs], [server.rs]): padding schemes, the
      multiplexer, a stream's relay and its lock, and all tasks of a
      connection together.
    - [Trojan] ([trojan/mod.rs]), [Socks] ([socks/mod.rs]): decoders and handlers.
    - [Websocket] ([common/transport/websocket.rs]): the upgrade check and the byte
      stream over messages.
    - [Listeners] ([handle_conn] or [handle] of the VLESS, Shadowsocks, Trojan and
      VMess servers): the layers of a connection (class [Layers]), then the
      protocol's handler.
    - [TlsSetup] ([common/tls/], [hysteria2/tls.rs], [tuic/server.rs]): certificates
      and keys from files or generated (class [TlsLib]).
    - [Masquerade] ([hysteria2/server.rs]): what an unauthenticated HTTP/3 client sees.
    - [WgIface], [WgStack], [WgServer] ([wireguard/]): the virtual device; a
      peer's flow tables over smoltcp (class [Smoltcp]); peers, AllowedIPs and
      the tasks of the server over boringtun (class [Tunn]).
    - [Congestion] ([hysteria2/congestion.rs]): Brutal's windows and statistics.
    - [Config] ([config.rs]): the configuration, one table or many, defaults, tags,
      bandwidths.
    - [Servers] ([run] of the VLESS, Trojan, Shadowsocks, VMess, SOCKS and AnyTLS
      servers): set-up, accept loops, one task per connection.
    - [UdpServers] ([run] of the Hysteria2, TUIC and WireGuard servers): set-up,
      the endpoint's loop, the stacks of the WireGuard peers.
    - [Main] ([main.rs]): command line, start of the nodes.
    - [Generate] ([generate.rs]): key generation, and that what is printed is
      read back.

    A connection's way through the library: [Main.main] reads the configuration
    and starts the nodes; [Main.node_run] is a node's server, over TCP one of
    [Servers], over UDP one of [UdpServers].  Over TCP a task runs
    [Listeners.open_io] (TLS, WebSocket) and the protocol's [process] or
    [handle], or, with the XHTTP transport, [process] on a stream that the XHTTP
    server's run has brought ([XhttpStreams.logical_streams]); over QUIC it runs the connection's machine ([HysteriaConn.hrun],
    [Tuic.trun]); WireGuard runs one machine for all peers.

    ** What is shown

    - The whole program, from the command line to what any of its nine kinds of
      server does for anyone: [program_gate]; and a node that is configured
      well serves, one that is not reports an error and serves nobody:
      [node_serves_or_reports], which also says what a WireGuard server's failed
      set-up leaves running.
    - No visible action before authentication: [shadowsocks_listener_actions],
      [vmess_listener_actions], [vless_listener_actions],
      [trojan_listener_actions] (from the accepted connection on, over every
      transport), [auth_phase_gate], [hysteria_confined], [tuic_confined],
      [server_delivers_authentic].  Each says what the input must have been for
      the server to do anything, and what it then does.
    - Authenticated clients are served: [process_relays],
      [vmess_process_relays], [socks_serves], [udp_is_relayed],
      [received_data_relayed]; a task that waits for the authentication wakes
      up ([wait_no_lost_wakeup]).  Of the web site the others see, [masquerade_faithful]
      says what is passed on and what is not.
    - Decoders accept exactly the wire format: the theorems named [.._exact].
    - What one side writes the other reads: [chunk_stream_roundtrip],
      [body_roundtrip], [request_header_roundtrip], [udp_packets_survive],
      [websocket_carries_bytes], [replace_signature_correct]; and what the
      program generates it accepts: [generated_keys_accepted].
    - Numbers: [bandwidth_units], [brutal_windows], [padding_sizes_valid].
    - Streams stay apart and in order under every interleaving:
      [anytls_session], [hysteria_confined], [upstream_in_order],
      [sessions_are_separate], [connection_carries], [stack_only_relays].
    - Sealed streams forward only authenticated plaintext, and loops end:
      [uplink_authentic], [relay_up_authentic] (VMess without security has nothing
      that is sealed: its bytes pass as they are).
    - Lemmas without a claim number that show defects of the program, for
      example [auth_len_not_readable], [stale_packet_blocks],
      [duplicate_fragment_completes], [evicted_relay_panics],
      [spoofed_datagram_redirects], [jammed_forever],
      [live_connection_cut_by_timer], [downlink_held_open],
      [stalled_stack_stops_all], [overlapping_logins], [short_header_refused].

    ** Bounds and fuel

    Loops over input run with a fuel: the relays' is one more than the bytes of
    the input, of which each round takes at least one; [LINE_FUEL] of Trojan is
    the code's own limit of a line; [drain_udp_loop]'s is the length of the queue
    it empties; [timers_loop]'s is the law [due] of a tunnel.  The channel to a WireGuard
    stack has the program's own bound, [STACK_CHANNEL].  Running out of
    fuel is a panic (or [None]), and the theorems show that it does not happen.

    ** Not modelled

    The QUIC, TLS, HTTP and WebSocket libraries; the TOML parser and serde, which fill
    the fields of the configuration's tables; logging; closing on ctrl-c.  That hyper
    reads the requests of the XHTTP server from the connections it is fed is not
    stated: any requests may come.  Time is not modelled: a timer is a step that
    may be taken. *)
From Stdlib Require Export ZArith Lia.
From stdpp Require Export base tactics option gmap strings list.
Open Scope Z_scope.

(** ** Outcomes

    A Rust call returns a value, returns an error ([?], [bail!], [Err]) or
    panics (index out of range, [unwrap] on [None]/[Err]). *)
Inductive error :=
| EEof                    (** [ErrorKind::UnexpectedEof] *)
| EIo                     (** any other [std::io::Error] *)
| EUtf8                   (** [String::from_utf8] failed *)
| EParse                  (** [str::parse] failed *)
| EBail (msg : string).   (** [bail!] / [anyhow!], by its fixed text *)

#[export] Instance error_eq_dec : EqDecision error.
Proof. solve_decision. Defined.

Inductive outcome (A : Type) :=
| Done (a : A)
| Fail (e : error)
| Panic.
Arguments Done {A} _.
Arguments Fail {A} _.
Arguments Panic {A}.

#[export] Instance outcome_eq_dec {A} `{EqDecision A} : EqDecision (outcome A).
Proof. solve_decision. Defined.

Definition bind_outcome {A B} (f : A -> outcome B) (o : outcome A) : outcome B :=
  match o with Done a => f a | Fail e => Fail e | Panic => Panic end.

#[export] Instance outcome_ret : MRet outcome := fun _ => Done.
#[export] Instance outcome_bind : MBind outcome := fun _ _ => bind_outcome.

(** [ok_or]: an option as an outcome. *)
Definition ok_or {A} (e : error) (o : option A) : outcome A :=
  match o with Some a => Done a | None => Fail e end.

(** ** The state and error monad the handlers run in

    [M S A]: a computation over a mutable state [S].  The state survives a
    failure, as it does in the program ([&mut self]). *)
Definition M (S A : Type) : Type := S -> outcome A * S.

#[export] Instance M_ret {S} : MRet (M S) := fun _ a s => (Done a, s).
#[export] Instance M_bind {S} : MBind (M S) := fun _ _ f m s =>
  match m s with
  | (Done a, s') => f a s'
  | (Fail e, s') => (Fail e, s')
  | (Panic, s') => (Panic, s')
  end.

Definition fail {S A} (e : error) : M S A := fun s => (Fail e, s).
Definition bail {S A} (msg : string) : M S A := fail (EBail msg).
Definition panic {S A} : M S A := fun s => (Panic, s).
Definition lift {S A} (o : outcome A) : M S A := fun s => (o, s).
Definition get_st {S} : M S S := fun s => (Done s, s).
Definition put_st {S} (s' : S) : M S unit := fun _ => (Done tt, s').
Definition modify {S} (f : S -> S) : M S unit := fun s => (Done tt, f s).
(** [let _ = m;]: the error is dropped, the effects stay, a panic unwinds. *)
Definition ignore {S A} (m : M S A) : M S unit := fun s =>
  match m s with
  | (Panic, s') => (Panic, s')
  | (_, s') => (Done tt, s')
  end.

(** [match m { Ok(a) => .., Err(e) => .. }]: the error becomes a value. *)
Definition attempt {S A} (m : M S A) : M S (A + error) := fun s =>
  match m s with
  | (Done a, s') => (Done (inl a), s')
  | (Fail e, s') => (Done (inr e), s')
  | (Panic, s') => (Panic, s')
  end.

Lemma bind_Done {S A B} (m : M S A) (f : A -> M S B) s b s' :
  (m ≫= f) s = (Done b, s') <->
  exists a s1, m s = (Done a, s1) /\ f a s1 = (Done b, s').
Proof.
  unfold mbind, M_bind. split.
  - destruct (m s) as [[a|e|] s1]; naive_solver.
  - intros (a & s1 & -> & ?). done.
Qed.

Lemma bind_step {S A B} (m : M S A) (f : A -> M S B) s a s1 :
  m s = (Done a, s1) -> (m ≫= f) s = f a s1.
Proof. intros H. unfold mbind, M_bind. by rewrite H. Qed.

Lemma bind_fail {S A B} (m : M S A) (f : A -> M S B) s e s1 :
  m s = (Fail e, s1) -> (m ≫= f) s = (Fail e, s1).
Proof. intros H. unfold mbind, M_bind. by rewrite H. Qed.

(** ** Machine integers and bytes

    A [u8] is a [Z] in [0, 256); arithmetic at width [w] wraps modulo [2^w]. *)
Definition wrap (w z : Z) : Z := z mod 2 ^ w.
Abbreviation u8 z := (wrap 8 z).
Abbreviation u16 z := (wrap 16 z).
Abbreviation u32 z := (wrap 32 z).
Abbreviation u64 z := (wrap 64 z).

Definition byte_ok (b : Z) : Prop := 0 <= b < 256.
Abbreviation bytes_ok := (Forall byte_ok).

#[export] Instance byte_ok_dec b : Decision (byte_ok b).
Proof. unfold byte_ok. apply _. Defined.

(** Byte strings: the source's literals, as their ASCII bytes. *)
Definition str (s : string) : list Z :=
  (fun a => Z.of_N (Ascii.N_of_ascii a)) <$> String.list_ascii_of_string s.

(** [to_be_bytes] / [from_be_bytes] for an [n]-byte integer. *)
Fixpoint be_bytes (n : nat) (z : Z) : list Z :=
  match n with
  | O => []
  | S n => be_bytes n (z / 256) ++ [z mod 256]
  end.

Definition be_val (bs : list Z) : Z := foldl (fun acc b => acc * 256 + b) 0 bs.

(** [from_le_bytes]. *)
Fixpoint le_val (bs : list Z) : Z :=
  match bs with [] => 0 | b :: bs => b + 256 * le_val bs end.

(** ** Lemmas on endian encodings *)

Lemma length_be_bytes n z : length (be_bytes n z) = n.
Proof. revert z; induction n; intros z; simpl; [done|]. rewrite length_app, IHn; simpl; lia. Qed.

Lemma be_bytes_ok n z : bytes_ok (be_bytes n z).
Proof.
  revert z; induction n; intros z; simpl; [constructor|].
  apply Forall_app; split; [apply IHn|]. constructor; [|constructor].
  unfold byte_ok. apply Z.mod_pos_bound. lia.
Qed.

Lemma be_val_app bs b : be_val (bs ++ [b]) = be_val bs * 256 + b.
Proof. unfold be_val. by rewrite foldl_app. Qed.

Lemma be_val_cons b bs : be_val (b :: bs) = b * 256 ^ Z.of_nat (length bs) + be_val bs.
Proof.
  induction bs as [|c bs IH] using rev_ind; [unfold be_val; simpl; lia|].
  change (b :: bs ++ [c]) with ((b :: bs) ++ [c]). rewrite !be_val_app, IH, length_app.
  rewrite Nat2Z.inj_add, Z.pow_add_r by lia. change (256 ^ Z.of_nat (length [c])) with 256. lia.
Qed.

Lemma be_val_be_bytes n z : be_val (be_bytes n z) = z mod 256 ^ Z.of_nat n.
Proof.
  revert z; induction n; intros z.
  - by rewrite Z.mod_1_r.
  - cbn [be_bytes]. rewrite be_val_app, IHn, Nat2Z.inj_succ, Z.pow_succ_r by lia.
    rewrite Z.rem_mul_r by lia. lia.
Qed.

Lemma be_val_bound bs : bytes_ok bs -> 0 <= be_val bs < 256 ^ Z.of_nat (length bs).
Proof.
  induction bs as [|b bs IH] using rev_ind; intros H; [done|].
  apply Forall_app in H as [H1 H2]. apply Forall_inv in H2. unfold byte_ok in H2.
  rewrite be_val_app, length_app. cbn [length].
  rewrite Nat2Z.inj_add, Z.pow_add_r by lia. specialize (IH H1).
  change (256 ^ Z.of_nat 1) with 256. lia.
Qed.

Lemma be_bytes_be_val bs : bytes_ok bs -> be_bytes (length bs) (be_val bs) = bs.
Proof.
  induction bs as [|b bs IH] using rev_ind; intros H; [done|].
  apply Forall_app in H as [H1 H2]. apply Forall_inv in H2. unfold byte_ok in H2.
  rewrite length_app, Nat.add_1_r. cbn [be_bytes]. rewrite be_val_app.
  replace ((be_val bs * 256 + b) / 256) with (be_val bs)
    by (rewrite Z.div_add_l by lia; rewrite Z.div_small by lia; lia).
  rewrite IH by done. f_equal. f_equal.
  rewrite Z.add_comm, Z.mod_add by lia. by rewrite Z.mod_small by lia.
Qed.

Lemma be_bytes_val n bs : bytes_ok bs -> length bs = n -> be_bytes n (be_val bs) = bs.
Proof. intros ? <-. by apply be_bytes_be_val. Qed.

Lemma be_val_bytes n z : 0 <= z < 256 ^ Z.of_nat n -> be_val (be_bytes n z) = z.
Proof. intros. by rewrite be_val_be_bytes, Z.mod_small. Qed.

Lemma be_bytes_cons n z : be_bytes (S n) z = (z / 256 ^ Z.of_nat n) mod 256 :: be_bytes n z.
Proof.
  revert z. induction n as [|n IH]; intros z; [by rewrite Z.div_1_r|].
  change (be_bytes (S (S n)) z) with (be_bytes (S n) (z / 256) ++ [z mod 256]).
  rewrite IH, Nat2Z.inj_succ, Z.pow_succ_r, <- Z.div_div by lia. done.
Qed.

Lemma be_bytes_add n z m : be_bytes n (m * 256 ^ Z.of_nat n + z) = be_bytes n z.
Proof.
  revert z. induction n as [|n IH]; intros z; [done|]. cbn [be_bytes].
  rewrite Nat2Z.inj_succ, Z.pow_succ_r by lia.
  replace (m * (256 * 256 ^ Z.of_nat n) + z) with (m * 256 ^ Z.of_nat n * 256 + z) by lia.
  rewrite Z.div_add_l, IH by lia. rewrite Z.add_comm, Z.mod_add by lia. done.
Qed.

(** A number as its high part and its [n] low bytes. *)
Lemma be_split n z : z = (z / 256 ^ Z.of_nat n) * 256 ^ Z.of_nat n + be_val (be_bytes n z).
Proof. rewrite be_val_be_bytes, Z.mul_comm. apply Z.div_mod. lia. Qed.

Lemma le_val_bound bs : bytes_ok bs -> 0 <= le_val bs < 256 ^ Z.of_nat (length bs).
Proof.
  induction 1 as [|b bs Hb _ IH]; [done|]. unfold byte_ok in Hb. cbn [le_val length].
  rewrite Nat2Z.inj_succ, Z.pow_succ_r by lia. lia.
Qed.

Lemma le_val_inj bs1 bs2 :
  bytes_ok bs1 -> bytes_ok bs2 -> length bs1 = length bs2 ->
  le_val bs1 = le_val bs2 -> bs1 = bs2.
Proof.
  intros H1; revert bs2; induction H1 as [|b bs Hb _ IH]; intros bs2 H2 HL HV;
    destruct bs2 as [|b2 bs2]; try done.
  apply Forall_cons_1 in H2 as [Hb2 H2]. unfold byte_ok in *. cbn in HL, HV.
  assert (b = b2 /\ le_val bs = le_val bs2) as [-> ?] by lia.
  f_equal. apply IH; auto.
Qed.

Lemma u16_be_bytes z : be_bytes 2 z = [z / 256 mod 256; z mod 256].
Proof. done. Qed.

(** ** List lemmas *)

Lemma take_drop_app_eq {A} (l k : list A) n :
  length l = n -> take n (l ++ k) = l /\ drop n (l ++ k) = k.
Proof. intros <-. split; [apply take_app_length | apply drop_app_length]. Qed.

Lemma bytes_ok_take n bs : bytes_ok bs -> bytes_ok (take n bs).
Proof. apply Forall_take. Qed.
Lemma bytes_ok_drop n bs : bytes_ok bs -> bytes_ok (drop n bs).
Proof. apply Forall_drop. Qed.
Lemma bytes_ok_app bs1 bs2 : bytes_ok bs1 -> bytes_ok bs2 -> bytes_ok (bs1 ++ bs2).
Proof. intros. apply Forall_app; auto. Qed.

(** [slice::chunks(n)]: the list cut every [n] elements, the last piece
    possibly shorter.  [fuel] bounds the number of pieces; the length of the
    list is always enough. *)
Fixpoint chunks_fuel {A} (fuel n : nat) (l : list A) : list (list A) :=
  match fuel, l with
  | _, [] => []
  | O, _ => []
  | S fuel, _ => take n l :: chunks_fuel fuel n (drop n l)
  end.
Definition chunks {A} (n : nat) (l : list A) : list (list A) := chunks_fuel (length l) n l.

Lemma chunks_fuel_concat {A} fuel n (l : list A) :
  (0 < n)%nat -> (length l <= fuel)%nat -> concat (chunks_fuel fuel n l) = l.
Proof.
  intros Hn. revert l; induction fuel as [|fuel IH]; intros l Hl; destruct l as [|x l]; try done.
  { simpl in Hl; lia. }
  cbn [chunks_fuel concat]. rewrite IH.
  - apply take_drop.
  - rewrite length_drop. simpl in *; lia.
Qed.

Lemma chunks_concat {A} n (l : list A) : (0 < n)%nat -> concat (chunks n l) = l.
Proof. intros. by apply chunks_fuel_concat. Qed.

Lemma chunks_fuel_length {A} fuel n (l : list A) c :
  (0 < n)%nat -> c ∈ chunks_fuel fuel n l -> (0 < length c <= n)%nat.
Proof.
  intros Hn. revert l; induction fuel as [|fuel IH]; intros l Hc; destruct l as [|x l];
    cbn in Hc; try (by apply not_elem_of_nil in Hc).
  apply elem_of_cons in Hc as [->|Hc]; [|by eapply IH].
  rewrite length_take. simpl; lia.
Qed.

Lemma chunks_length {A} n (l : list A) c :
  (0 < n)%nat -> c ∈ chunks n l -> (0 < length c <= n)%nat.
Proof. apply chunks_fuel_length. Qed.

Lemma chunks_fuel_count {A} fuel n (l : list A) :
  (0 < n)%nat -> (length l <= fuel)%nat ->
  length (chunks_fuel fuel n l) = ((length l + n - 1) / n)%nat.
Proof.
  intros Hn. revert l; induction fuel as [|fuel IH]; intros l Hl; destruct l as [|x l].
  - simpl. rewrite Nat.div_small; lia.
  - simpl in Hl; lia.
  - simpl. rewrite Nat.div_small; lia.
  - cbn [chunks_fuel length]. cbn [length] in Hl. rewrite IH by (rewrite length_drop; cbn; lia).
    rewrite length_drop. cbn [length]. destruct (decide (S (length l) <= n)%nat).
    + rewrite (Nat.div_small (S _ - n + n - 1)) by lia.
      apply Nat.div_unique with (r := length l); lia.
    + replace (S (length l) + n - 1)%nat with (S (length l) - n + n - 1 + 1 * n)%nat by lia.
      rewrite Nat.div_add by lia. lia.
Qed.

Lemma chunks_count {A} n (l : list A) :
  (0 < n)%nat -> length (chunks n l) = ((length l + n - 1) / n)%nat.
Proof. intros. by apply chunks_fuel_count. Qed.

(** One step of a loop that walks a list by offset in steps of at most [n]. *)
Lemma chunks_fuel_step {A} fuel n off (l : list A) :
  (off < length l)%nat ->
  let k := Nat.min (length l - off) n in
  chunks_fuel (S fuel) n (drop off l) = take k (drop off l) :: chunks_fuel fuel n (drop (off + k) l).
Proof.
  intros Hlt k. cbn [chunks_fuel]. destruct (drop off l) as [|y r] eqn:Ed.
  { apply (f_equal length) in Ed. rewrite length_drop in Ed. simpl in Ed. lia. }
  rewrite <- Ed. unfold k. destruct (decide (length l - off <= n)%nat).
  - rewrite Nat.min_l by lia. rewrite !take_ge by (rewrite length_drop; lia).
    rewrite !(drop_ge _ (_ + _)), (drop_ge _ n) by (rewrite ?length_drop; lia). done.
  - rewrite Nat.min_r by lia. by rewrite drop_drop.
Qed.

(** ** Automation *)

Create HintDb bytes.
Create Rewrite HintDb len.
#[export] Hint Resolve be_bytes_ok bytes_ok_take bytes_ok_drop bytes_ok_app : bytes.
#[export] Hint Extern 1 (byte_ok _) => (unfold byte_ok; lia) : bytes.
#[export] Hint Extern 2 (Forall byte_ok (_ :: _)) => constructor : bytes.
#[export] Hint Extern 2 (Forall byte_ok []) => constructor : bytes.
#[export] Hint Rewrite length_be_bytes @length_app @length_take @length_drop @length_replicate : len.

(** Run a monadic body one bind at a time, using equations in context. *)
Ltac mstep :=
  match goal with
  | |- context [(?m ≫= ?f) ?s] => erewrite (bind_step m f s) by (eassumption || reflexivity)
  end.
Ltac msteps := repeat mstep.

(** [lia] with the Euclidean equations of every [/] and [mod]. *)
Ltac dlia := Z.to_euclidean_division_equations; lia.

(** Invert an equation [m s = (o, s')] whose left side computes to a pair. *)
Ltac run_inv H :=
  unfold bail, fail, panic, lift, modify, mret, M_ret in H; simpl in H; simplify_eq.
