(* ===== verification/Join.v ===== *)
(** * [tokio::join!] of two loops

    A session that relays has two loops, one per direction, that run in one
    task and take turns in any order.  A loop is a round, which goes on or
    returns; the two own separate halves of the session ([tokio::io::split]).
    The theorem of this file is that turns do not matter: if each loop by itself
    returns, then under every schedule both return the same, and leave their
    halves the same. *)
From S2P Require Import Prelude.

(** One round at a time: [inl] goes on, [inr] returns. *)
Section rounds.
Context {S U A : Type}.

Fixpoint rounds (round : U -> M S (U + A)) (fuel : nat) (u : U) : M S A :=
  match fuel with
  | O => panic
  | Datatypes.S fuel =>
      u' ← round u;
      match u' with inl u => rounds round fuel u | inr a => mret a end
  end.

(** The error of a round ends the loop, and becomes its result. *)
Definition attempt_round (round : U -> M S (U + A)) (u : U) : M S (U + (A + error)) :=
  r ← attempt (round u);
  mret (match r with inl (inl u) => inl u | inl (inr a) => inr (inl a) | inr e => inr (inr e) end).

Lemma rounds_step round n u s x s1 :
  round u s = (Done x, s1) ->
  rounds round (Datatypes.S n) u s = match x with inl u => rounds round n u s1 | inr a => (Done a, s1) end.
Proof. intros E. cbn [rounds]. rewrite (bind_step _ _ _ _ _ E). by destruct x. Qed.
Lemma rounds_fail round n u s e s1 :
  round u s = (Fail e, s1) -> rounds round (Datatypes.S n) u s = (Fail e, s1).
Proof. intros E. cbn [rounds]. by apply bind_fail. Qed.

Lemma rounds_ext round1 round2 n u s :
  (forall u s, round1 u s = round2 u s) -> rounds round1 n u s = rounds round2 n u s.
Proof.
  intros E. revert u s. induction n as [|n IH]; intros u s; [done|]. cbn [rounds].
  unfold mbind, M_bind. rewrite E. destruct (round2 u s) as [[[u'|a]|e|] s1]; [apply IH|done..].
Qed.

Lemma rounds_more round n m u s o s' :
  rounds round n u s = (o, s') -> o <> Panic -> (n <= m)%nat -> rounds round m u s = (o, s').
Proof.
  revert m u s. induction n as [|n IH]; intros m u s; [by intros [= <- _]|].
  intros E No Hm. destruct m as [|m]; [lia|]. revert E. cbn [rounds]. unfold mbind, M_bind.
  destruct (round u s) as [[[u'|a]|e|] s1]; [|done..]. intros E. apply IH; [done..|lia].
Qed.
End rounds.

Lemma rounds_attempt {S U A} (round : U -> M S (U + A)) n u s :
  rounds (attempt_round round) n u s = attempt (rounds round n u) s.
Proof.
  revert u s. induction n as [|n IH]; intros u s; [done|]. cbn [rounds].
  unfold attempt_round, attempt, mbind, M_bind. destruct (round u s) as [[[u'|a]|e|] s1]; [|done..].
  cbn. rewrite IH. done.
Qed.

Lemma rounds_attempt_done {S U A} (round : U -> M S (U + A)) n u s o s' :
  rounds round n u s = (o, s') -> o <> Panic ->
  exists r, rounds (attempt_round round) n u s = (Done r, s').
Proof.
  intros E N. rewrite rounds_attempt. unfold attempt. rewrite E. destruct o; [by eexists..|done].
Qed.

Inductive side := SideUp | SideDown.

Section join.
Context {S1 S2 U D A B : Type} (up : U -> M S1 (U + A)) (down : D -> M S2 (D + B)).

Definition on_fst {X} (m : M S1 X) : M (S1 * S2) X := fun s =>
  let '(o, s1) := m s.1 in (o, (s1, s.2)).
Definition on_snd {X} (m : M S2 X) : M (S1 * S2) X := fun s =>
  let '(o, s2) := m s.2 in (o, (s.1, s2)).

(** The runtime polls one of the loops; polling a loop that has returned does
    nothing. *)
Definition poll (t : side) (x : (U + A) * (D + B)) : M (S1 * S2) ((U + A) * (D + B)) :=
  match t, x with
  | SideUp, (inl u, d) => u' ← on_fst (up u); mret (u', d)
  | SideDown, (u, inl d) => d' ← on_snd (down d); mret (u, d')
  | _, _ => mret x
  end.
Fixpoint polls (sched : list side) (x : (U + A) * (D + B)) : M (S1 * S2) ((U + A) * (D + B)) :=
  match sched with [] => mret x | t :: sched => x' ← poll t x; polls sched x' end.

(** Both loops to their end: first as [sched] says, then what is left.  Every
    order in which two loops that return can take turns is one of these. *)
Definition tokio_join (sched : list side) (nu nd : nat) (u : U) (d : D) : M (S1 * S2) (A * B) :=
  x ← polls (sched ++ replicate nu SideUp ++ replicate nd SideDown) (inl u, inl d);
  match x with (inr a, inr b) => mret (a, b) | _ => panic end.

(** A loop that is to return [a] and leave [s'], from where it is now. *)
Definition ends {S X Y} (round : X -> M S (X + Y)) (n : nat) (x : X + Y) (s : S) (a : Y) (s' : S) : Prop :=
  match x with
  | inl u => rounds round n u s = (Done a, s')
  | inr b => b = a /\ s = s'
  end.

Lemma ends_more {S X Y} (round : X -> M S (X + Y)) n m x s a s' :
  ends round n x s a s' -> (n <= m)%nat -> ends round m x s a s'.
Proof. destruct x; [|done]. simpl. intros. by eapply rounds_more. Qed.

Lemma ends_round {S X Y} (round : X -> M S (X + Y)) n u s a s' :
  ends round n (inl u) s a s' ->
  exists x s1, round u s = (Done x, s1) /\ ends round (pred n) x s1 a s'.
Proof.
  destruct n as [|n]; simpl; [done|]. unfold mbind, M_bind.
  destruct (round u s) as [[[u'|b]|e|] s1]; intros E; [..|done|done].
  - by exists (inl u'), s1.
  - injection E as -> ->. by exists (inr a), s'.
Qed.

Lemma polls_app l1 l2 x s x1 s1 :
  polls l1 x s = (Done x1, s1) -> polls (l1 ++ l2) x s = polls l2 x1 s1.
Proof.
  revert x s. induction l1 as [|t l1 IH]; intros x s; [by intros [= -> ->]|]. cbn [polls app].
  intros E. apply bind_Done in E as (y & s2 & E1 & E2). rewrite (bind_step _ _ _ _ _ E1). by apply IH.
Qed.

(** Two loops that return, each by itself. *)
Context (a : A) (s1' : S1) (b : B) (s2' : S2).
Definition both (nu nd : nat) (x : (U + A) * (D + B)) (s : S1 * S2) : Prop :=
  ends up nu x.1 s.1 a s1' /\ ends down nd x.2 s.2 b s2'.

Lemma poll_ends t nu nd x s :
  both nu nd x s -> exists x' s', poll t x s = (Done x', s') /\
    match t with SideUp => both (pred nu) nd x' s' | SideDown => both nu (pred nd) x' s' end.
Proof.
  destruct x as [xu xd], s as [s1 s2]. intros [Hu Hd]. destruct t; simpl in Hu, Hd.
  - destruct xu as [u|a']; [|by exists (inr a', xd), (s1, s2)].
    apply ends_round in Hu as (x & s1n & E & Hu). exists (x, xd), (s1n, s2).
    unfold poll, mbind, M_bind, on_fst. simpl. by rewrite E.
  - destruct xd as [d|b']; [|by exists (xu, inr b'), (s1, s2); destruct xu].
    apply ends_round in Hd as (x & s2n & E & Hd). exists (xu, x), (s1, s2n).
    unfold poll, mbind, M_bind, on_snd. simpl. rewrite E. by destruct xu.
Qed.

Lemma polls_both sched nu nd x s :
  both nu nd x s -> exists x' s', polls sched x s = (Done x', s') /\ both nu nd x' s'.
Proof.
  revert x s. induction sched as [|t sched IH]; intros x s Hb; [by exists x, s|].
  destruct (poll_ends t nu nd x s Hb) as (x1 & s1 & E & Hb1).
  destruct (IH x1 s1) as (x2 & s2 & E2 & Hb2).
  { destruct t, Hb1 as [Hu Hd]; split; by (eapply ends_more; [done|lia]). }
  exists x2, s2. cbn [polls]. by rewrite (bind_step _ _ _ _ _ E).
Qed.

Lemma polls_up n nd x s :
  both n nd x s -> exists x' s', polls (replicate n SideUp) x s = (Done x', s') /\ both 0 nd x' s'.
Proof.
  revert x s. induction n as [|n IH]; intros x s Hb; [by exists x, s|].
  destruct (poll_ends SideUp _ _ _ _ Hb) as (x1 & s1 & E & Hb1). destruct (IH x1 s1 Hb1) as (x2 & s2 & E2 & ?).
  exists x2, s2. cbn [polls replicate]. by rewrite (bind_step _ _ _ _ _ E).
Qed.
Lemma polls_down n nu x s :
  both nu n x s -> exists x' s', polls (replicate n SideDown) x s = (Done x', s') /\ both nu 0 x' s'.
Proof.
  revert x s. induction n as [|n IH]; intros x s Hb; [by exists x, s|].
  destruct (poll_ends SideDown _ _ _ _ Hb) as (x1 & s1 & E & Hb1). destruct (IH x1 s1 Hb1) as (x2 & s2 & E2 & ?).
  exists x2, s2. cbn [polls replicate]. by rewrite (bind_step _ _ _ _ _ E).
Qed.

(** Whatever the schedule, the joined loops do what each does alone. *)
Theorem tokio_join_rounds sched nu nd u d s1 s2 :
  rounds up nu u s1 = (Done a, s1') -> rounds down nd d s2 = (Done b, s2') ->
  tokio_join sched nu nd u d (s1, s2) = (Done (a, b), (s1', s2')).
Proof.
  intros Hu Hd. unfold tokio_join.
  destruct (polls_both sched nu nd (inl u, inl d) (s1, s2)) as (x1 & t1 & E1 & B1); [done|].
  destruct (polls_up _ _ _ _ B1) as (x2 & t2 & E2 & B2).
  destruct (polls_down _ _ _ _ B2) as ([xu xd] & [t3 t4] & E3 & [Hu3 Hd3]).
  erewrite bind_step by (rewrite (polls_app _ _ _ _ _ _ E1), (polls_app _ _ _ _ _ _ E2); exact E3).
  destruct xu as [|a3], xd as [|b3]; simpl in Hu3, Hd3; [done..|].
  by destruct Hu3 as [-> ->], Hd3 as [-> ->].
Qed.
End join.
