(* ===== verification/RustStd.v ===== *)
(** * Rust standard-library operations on text

    What the sources use of [std]: UTF-8 checking ([String::from_utf8],
    [from_utf8_lossy]), decimal and hexadecimal formatting and parsing, string
    splitting and trimming, and the [Display] of IP addresses.  A Rust
    [String] / [&str] is its list of UTF-8 bytes. *)
From S2P Require Import Prelude.

(** ** Slices and byte buffers *)

(** [l[i]] and [&l[i..j]]: out of range they panic. *)
Definition index {A} (l : list A) (i : nat) : outcome A :=
  match l !! i with Some x => Done x | None => Panic end.
Definition slice {A} (l : list A) (i j : nat) : outcome (list A) :=
  if decide (i <= j /\ j <= length l)%nat then Done (take (j - i) (drop i l)) else Panic.

(** A multiple of [2^k] and a number below [2^k] do not overlap. *)
Lemma lor_high k a b : 0 <= k -> 0 <= b < 2 ^ k -> Z.lor (a * 2 ^ k) b = a * 2 ^ k + b.
Proof.
  intros Hk Hb. assert (E : Z.land (a * 2 ^ k) b = 0).
  { apply Z.bits_inj'; intros n Hn. rewrite Z.land_spec, Z.bits_0.
    destruct (decide (n < k)); [by rewrite Z.mul_pow2_bits_low by lia|].
    apply andb_false_iff; right. destruct (decide (b = 0)) as [->|]; [apply Z.bits_0|].
    apply Z.bits_above_log2; [lia|]. enough (Z.log2 b < k) by lia. apply Z.log2_lt_pow2; lia. }
  rewrite <- Z.lxor_lor by done. symmetry. by apply Z.add_nocarry_lxor.
Qed.

(** [(acc << 8) | b] for a byte [b]. *)
Lemma lor_shift8 a b : 0 <= b < 256 -> Z.lor (Z.shiftl a 8) b = a * 256 + b.
Proof. intros. rewrite Z.shiftl_mul_pow2 by lia. by apply (lor_high 8). Qed.

(** [abs_diff]. *)
Definition abs_diff (a b : Z) : Z := Z.abs (a - b).

(** A [bytes::BytesMut] (a byte buffer read from the front) is its contents;
    the [get_*] methods panic on a short buffer, as documented. *)
Definition remaining : M (list Z) nat := fun s => (Done (length s), s).
Definition copy_to_slice (n : nat) : M (list Z) (list Z) := fun s =>
  if decide (n <= length s)%nat then (Done (take n s), drop n s) else (Panic, s).
Definition get_u8 : M (list Z) Z := bs ← copy_to_slice 1; mret (be_val bs).
Definition get_u16 : M (list Z) Z := bs ← copy_to_slice 2; mret (be_val bs).
Definition get_u32 : M (list Z) Z := bs ← copy_to_slice 4; mret (be_val bs).
Definition advance (n : nat) : M (list Z) unit := _ ← copy_to_slice n; mret tt.

Lemma get_u8_cons b s : get_u8 (b :: s) = (Done b, s).
Proof. unfold get_u8, mbind, M_bind, copy_to_slice. simpl. by rewrite take_0, drop_0. Qed.
Lemma remaining_cons {A} b s (m : nat -> M (list Z) A) msg :
  (rem ← remaining; if decide (rem < 1)%nat then bail msg else m rem) (b :: s)
    = m (length (b :: s)) (b :: s).
Proof. unfold mbind, M_bind, remaining. by rewrite decide_False by (simpl; lia). Qed.

Lemma index_head {A} (x : A) l : index (x :: l) 0 = Done x.
Proof. done. Qed.

Lemma app_mid {A} (l : list A) x r : l ++ x :: r = (l ++ [x]) ++ r.
Proof. by rewrite <- app_assoc. Qed.

Lemma index_app {A} (l1 : list A) x l2 i : length l1 = i -> index (l1 ++ x :: l2) i = Done x.
Proof. intros <-. unfold index. by rewrite list_lookup_middle. Qed.

Lemma index_lt {A} (l : list A) i : (i < length l)%nat -> exists x, index l i = Done x /\ l !! i = Some x.
Proof. intros [x Hx]%lookup_lt_is_Some_2. exists x. unfold index. by rewrite Hx. Qed.

Lemma slice_app {A} (l1 l2 l3 : list A) i j :
  length l1 = i -> (length l1 + length l2)%nat = j -> slice (l1 ++ l2 ++ l3) i j = Done l2.
Proof.
  intros <- <-. unfold slice. rewrite decide_True by (rewrite !length_app; lia).
  rewrite drop_app_length. f_equal. replace (_ - _)%nat with (length l2) by lia. apply take_app_length.
Qed.

Lemma slice_ok {A} (l : list A) i j :
  (i <= j <= length l)%nat -> slice l i j = Done (take (j - i) (drop i l)).
Proof. intros. unfold slice. by rewrite decide_True by lia. Qed.

(** ** UTF-8 *)

(** For a lead byte >= 0x80: the range of the second byte and the number of
    continuation bytes (Unicode table 3-7, the table of [core::str]). *)
Definition utf8_lead (b : Z) : option (Z * Z * nat) :=
  if (0xC2 <=? b) && (b <=? 0xDF) then Some (0x80, 0xBF, 1%nat)
  else if b =? 0xE0 then Some (0xA0, 0xBF, 2%nat)
  else if b =? 0xED then Some (0x80, 0x9F, 2%nat)
  else if (0xE1 <=? b) && (b <=? 0xEF) then Some (0x80, 0xBF, 2%nat)
  else if b =? 0xF0 then Some (0x90, 0xBF, 3%nat)
  else if (0xF1 <=? b) && (b <=? 0xF3) then Some (0x80, 0xBF, 3%nat)
  else if b =? 0xF4 then Some (0x80, 0x8F, 3%nat)
  else None.

(** [n] continuation bytes are still expected, the next in [lo, hi]. *)
Fixpoint utf8_run (n : nat) (lo hi : Z) (bs : list Z) : bool :=
  match n, bs with
  | O, [] => true
  | O, b :: bs =>
      if b <? 0x80 then utf8_run 0 0 0 bs
      else match utf8_lead b with
           | Some (lo, hi, k) => utf8_run k lo hi bs
           | None => false
           end
  | S _, [] => false
  | S n, b :: bs => (lo <=? b) && (b <=? hi) && utf8_run n 0x80 0xBF bs
  end.

Definition utf8_valid (bs : list Z) : bool := utf8_run 0 0 0 bs.

(** [String::from_utf8]. *)
Definition from_utf8 (bs : list Z) : outcome (list Z) :=
  if utf8_valid bs then Done bs else Fail EUtf8.

Definition REPLACEMENT : list Z := [0xEF; 0xBF; 0xBD].

(** [String::from_utf8_lossy]: every maximal ill-formed subsequence becomes
    U+FFFD.  [pend] holds the bytes of the character being read. *)
Fixpoint lossy_run (n : nat) (lo hi : Z) (pend bs : list Z) : list Z :=
  let start b k :=
    if b <? 0x80 then b :: k 0%nat 0 0 []
    else match utf8_lead b with
         | Some (lo, hi, n) => k n lo hi [b]
         | None => REPLACEMENT ++ k 0%nat 0 0 []
         end in
  match n, bs with
  | O, [] => []
  | S _, [] => REPLACEMENT
  | O, b :: bs => start b (fun n lo hi pend => lossy_run n lo hi pend bs)
  | S n, b :: bs =>
      if (lo <=? b) && (b <=? hi) then
        match n with
        | O => pend ++ b :: lossy_run 0 0 0 [] bs
        | S _ => lossy_run n 0x80 0xBF (pend ++ [b]) bs
        end
      else REPLACEMENT ++ start b (fun n lo hi pend => lossy_run n lo hi pend bs)
  end.

Definition from_utf8_lossy (bs : list Z) : list Z := lossy_run 0 0 0 [] bs.

Definition ascii_ok (b : Z) : Prop := 0 <= b < 0x80.

Lemma utf8_valid_ascii bs : Forall ascii_ok bs -> utf8_valid bs = true.
Proof.
  unfold utf8_valid. induction 1 as [|b bs Hb _ IH]; [done|]. unfold ascii_ok in Hb.
  cbn [utf8_run]. by rewrite (proj2 (Z.ltb_lt b 0x80)) by lia.
Qed.

Lemma utf8_lead_high b lo hi n :
  utf8_lead b = Some (lo, hi, n) -> 0xC2 <= b /\ (0 < n)%nat.
Proof.
  unfold utf8_lead. repeat case_match; naive_solver lia.
Qed.

(** A lossy decoding that came out pure ASCII replaced nothing. *)
Lemma lossy_run_ascii n lo hi pend bs :
  (n <> O -> exists b r, pend = b :: r /\ 0x80 <= b) ->
  Forall ascii_ok (lossy_run n lo hi pend bs) -> n = O /\ lossy_run n lo hi pend bs = bs.
Proof.
  assert (Hrep : forall l, ~ Forall ascii_ok (REPLACEMENT ++ l)).
  { intros l H. apply Forall_inv in H. unfold ascii_ok in H. lia. }
  revert n lo hi pend. induction bs as [|b bs IH]; intros n lo hi pend Hp H.
  { destruct n; [done|]. exfalso. apply Forall_inv in H. unfold ascii_ok in H; lia. }
  assert (Hpend : forall l, n <> O -> ~ Forall ascii_ok (pend ++ l)).
  { intros l Hn HF. destruct (Hp Hn) as (c & r & -> & Hc).
    apply Forall_inv in HF. unfold ascii_ok in HF. lia. }
  destruct n as [|n]; cbn [lossy_run] in H |- *.
  - split; [done|]. destruct (b <? 0x80) eqn:Eb.
    + apply Forall_cons_1 in H as [_ H]. f_equal. by apply (IH 0%nat 0 0 []).
    + destruct (utf8_lead b) as [[[lo' hi'] k]|] eqn:E; [|by apply Hrep in H].
      apply utf8_lead_high in E as [Hb Hk].
      destruct (IH k lo' hi' [b]) as [-> _]; [|done|lia]. intros _. exists b, []. split; [done|lia].
  - exfalso. destruct ((lo <=? b) && (b <=? hi)); [|by apply Hrep in H].
    destruct n as [|n]; [by eapply (Hpend _ ltac:(done)) in H|].
    destruct (Hp ltac:(done)) as (c & r & -> & Hc).
    destruct (IH (S n) 0x80 0xBF ((c :: r) ++ [b])) as [? _]; [|done|done].
    intros _. by exists c, (r ++ [b]).
Qed.

Lemma from_utf8_lossy_ascii bs s :
  Forall ascii_ok s -> from_utf8_lossy bs = s -> bs = s.
Proof.
  intros Hs <-. symmetry. by apply (lossy_run_ascii 0 0 0 []).
Qed.

Lemma lossy_of_ascii bs : Forall ascii_ok bs -> from_utf8_lossy bs = bs.
Proof.
  unfold from_utf8_lossy. induction 1 as [|b bs Hb _ IH]; [done|]. unfold ascii_ok in Hb.
  cbn [lossy_run]. rewrite (proj2 (Z.ltb_lt b 0x80)) by lia. by f_equal.
Qed.

(** ** Decimal and hexadecimal text *)

Fixpoint dec_fuel (fuel : nat) (z : Z) : list Z :=
  match fuel with
  | O => []
  | S fuel => if z <? 10 then [48 + z] else dec_fuel fuel (z / 10) ++ [48 + z mod 10]
  end.
(** [to_string] of an unsigned integer; a [u64] has at most 20 digits. *)
Definition dec (z : Z) : list Z := dec_fuel 20 z.

Definition hex_digit (d : Z) : Z := if d <? 10 then 48 + d else 87 + d.
Fixpoint hex_fuel (fuel : nat) (z : Z) : list Z :=
  match fuel with
  | O => []
  | S fuel => if z <? 16 then [hex_digit z] else hex_fuel fuel (z / 16) ++ [hex_digit (z mod 16)]
  end.
(** [{:x}] of an unsigned integer of at most 64 bits. *)
Definition hex (z : Z) : list Z := hex_fuel 16 z.

(** [hex::encode]: two lower-case digits per byte. *)
Definition hex_encode (bs : list Z) : list Z :=
  b ← bs; [hex_digit (b / 16); hex_digit (b mod 16)].

Lemma hex_digit_ascii d : 0 <= d < 16 -> 48 <= hex_digit d < 128.
Proof. unfold hex_digit. case_match; lia. Qed.

Lemma hex_encode_app bs1 bs2 : hex_encode (bs1 ++ bs2) = hex_encode bs1 ++ hex_encode bs2.
Proof. apply bind_app. Qed.

Lemma hex_encode_length bs : length (hex_encode bs) = (2 * length bs)%nat.
Proof.
  induction bs as [|b bs IH]; [done|]. change (b :: bs) with ([b] ++ bs).
  rewrite hex_encode_app, !length_app, IH. simpl. lia.
Qed.

Lemma hex_encode_ascii bs : bytes_ok bs -> Forall ascii_ok (hex_encode bs).
Proof.
  induction 1 as [|b bs Hb _ IH]; [constructor|]. unfold byte_ok in Hb.
  pose proof (hex_digit_ascii (b / 16)). pose proof (hex_digit_ascii (b mod 16)).
  repeat constructor; [unfold ascii_ok; dlia..|exact IH].
Qed.

(** Digit by digit with the overflow check of [from_str_radix]. *)
Fixpoint parse_digits (max acc : Z) (bs : list Z) : option Z :=
  match bs with
  | [] => Some acc
  | b :: bs =>
      if (48 <=? b) && (b <=? 57) then
        let v := acc * 10 + (b - 48) in
        if v <=? max then parse_digits max v bs else None
      else None
  end.
(** [str::parse] at an unsigned type whose largest value is [max]: one
    leading '+' is accepted, an empty digit string is not. *)
Definition parse_uint (max : Z) (bs : list Z) : option Z :=
  match bs with
  | [] => None
  | b :: r => if b =? 43 then (if decide (r = []) then None else parse_digits max 0 r)
              else parse_digits max 0 bs
  end.
(** [str::parse::<i64>]. *)
Definition parse_i64 (bs : list Z) : option Z :=
  match bs with
  | [] => None
  | b :: r =>
      if b =? 45 then (if decide (r = []) then None else Z.opp <$> parse_digits (2 ^ 63) 0 r)
      else parse_uint (2 ^ 63 - 1) bs
  end.

Lemma parse_digits_app max acc xs ys :
  parse_digits max acc (xs ++ ys) = parse_digits max acc xs ≫= fun v => parse_digits max v ys.
Proof. revert acc; induction xs as [|x xs IH]; intros acc; simpl; [done|]. repeat case_match; auto. Qed.

Lemma dec_fuel_digits fuel z : 0 <= z -> Forall (fun d => 48 <= d <= 57) (dec_fuel fuel z).
Proof.
  revert z; induction fuel as [|fuel IH]; intros z Hz; simpl; [constructor|].
  destruct (z <? 10) eqn:E; [constructor; [lia|constructor]|].
  apply Forall_app; split; [apply IH, Z.div_pos; lia|].
  constructor; [|constructor]. pose proof (Z.mod_pos_bound z 10). lia.
Qed.

Lemma parse_digits_dec fuel max z :
  0 <= z <= max -> z < 10 ^ Z.of_nat fuel -> parse_digits max 0 (dec_fuel fuel z) = Some z.
Proof.
  revert z; induction fuel as [|fuel IH]; intros z Hz Hf; [change (10 ^ Z.of_nat 0) with 1 in Hf|].
  { replace z with 0 by lia. done. }
  cbn [dec_fuel]. destruct (z <? 10) eqn:E.
  - simpl. rewrite !(proj2 (Z.leb_le _ _)) by lia. simpl. f_equal. lia.
  - rewrite Nat2Z.inj_succ, Z.pow_succ_r in Hf by lia.
    rewrite parse_digits_app, IH.
    + simpl. rewrite !(proj2 (Z.leb_le _ _)) by dlia. simpl. f_equal. dlia.
    + dlia.
    + apply Z.div_lt_upper_bound; lia.
Qed.

Lemma dec_not_nil z : dec z <> [].
Proof. unfold dec. cbn [dec_fuel]. case_match; [done|]. by intros [_ ?]%app_eq_nil. Qed.

Lemma parse_uint_dec max z :
  0 <= z <= max -> z < 10 ^ 20 -> parse_uint max (dec z) = Some z.
Proof.
  intros Hz Hf. pose proof (dec_fuel_digits 20 z ltac:(lia)) as Hd.
  pose proof (dec_not_nil z). unfold parse_uint. fold (dec z) in Hd.
  destruct (dec z) as [|d r] eqn:E; [done|]. apply Forall_inv in Hd.
  rewrite (proj2 (Z.eqb_neq d 43)) by lia. rewrite <- E. by apply parse_digits_dec.
Qed.

Lemma dec_ascii z : 0 <= z -> Forall ascii_ok (dec z).
Proof.
  intros H. pose proof (dec_fuel_digits 20 z H) as Hd. eapply Forall_impl; [exact Hd|].
  unfold ascii_ok. intros; simpl in *; lia.
Qed.

(** ** Splitting and trimming *)

(** [split(c)]. *)
Fixpoint split_on (c : Z) (bs : list Z) : list (list Z) :=
  match bs with
  | [] => [[]]
  | b :: bs =>
      if b =? c then [] :: split_on c bs
      else match split_on c bs with [] => [[b]] | h :: t => (b :: h) :: t end
  end.

(** [split_once(c)]: cut at the first [c]. *)
Fixpoint split_once (c : Z) (bs : list Z) : option (list Z * list Z) :=
  match bs with
  | [] => None
  | b :: bs => if b =? c then Some ([], bs)
               else '(l, r) ← split_once c bs; Some (b :: l, r)
  end.

(** [rsplit_once(c)]: cut at the last [c]. *)
Fixpoint rsplit_once (c : Z) (bs : list Z) : option (list Z * list Z) :=
  match bs with
  | [] => None
  | b :: bs =>
      match rsplit_once c bs with
      | Some (l, r) => Some (b :: l, r)
      | None => if b =? c then Some ([], bs) else None
      end
  end.

Fixpoint drop_while (p : Z -> bool) (bs : list Z) : list Z :=
  match bs with
  | [] => []
  | b :: r => if p b then drop_while p r else bs
  end.
(** [trim_start_matches] / [trim_end_matches] / [trim_matches] of ASCII characters. *)
Definition trim_start_matches := drop_while.
Definition trim_end_matches (p : Z -> bool) (bs : list Z) : list Z :=
  reverse (drop_while p (reverse bs)).
Definition trim_matches (p : Z -> bool) (bs : list Z) : list Z :=
  trim_end_matches p (trim_start_matches p bs).

(** The UTF-8 encodings of the characters with property White_Space. *)
Definition white_space : list (list Z) :=
  [[9]; [10]; [11]; [12]; [13]; [32]; [0xC2; 0x85]; [0xC2; 0xA0]; [0xE1; 0x9A; 0x80];
   [0xE2; 0x80; 0x80]; [0xE2; 0x80; 0x81]; [0xE2; 0x80; 0x82]; [0xE2; 0x80; 0x83];
   [0xE2; 0x80; 0x84]; [0xE2; 0x80; 0x85]; [0xE2; 0x80; 0x86]; [0xE2; 0x80; 0x87];
   [0xE2; 0x80; 0x88]; [0xE2; 0x80; 0x89]; [0xE2; 0x80; 0x8A]; [0xE2; 0x80; 0xA8];
   [0xE2; 0x80; 0xA9]; [0xE2; 0x80; 0xAF]; [0xE2; 0x81; 0x9F]; [0xE3; 0x80; 0x80]].

(** [strip_prefix]. *)
Fixpoint strip_prefix (p bs : list Z) : option (list Z) :=
  match p, bs with
  | [], _ => Some bs
  | a :: p, b :: bs => if a =? b then strip_prefix p bs else None
  | _ :: _, [] => None
  end.
Definition strip_suffix (p bs : list Z) : option (list Z) :=
  reverse <$> strip_prefix (reverse p) (reverse bs).

Fixpoint strip_any (ps : list (list Z)) (bs : list Z) : option (list Z) :=
  match ps with
  | [] => None
  | p :: ps => match strip_prefix p bs with Some r => Some r | None => strip_any ps bs end
  end.
Fixpoint strip_all (fuel : nat) (ps : list (list Z)) (bs : list Z) : list Z :=
  match fuel with
  | O => bs
  | S fuel => match strip_any ps bs with Some r => strip_all fuel ps r | None => bs end
  end.
(** [str::trim]; every step strips at least one byte. *)
Definition trim (bs : list Z) : list Z :=
  let s := strip_all (length bs) white_space bs in
  reverse (strip_all (length s) (reverse <$> white_space) (reverse s)).

(** [str::lines]: pieces between '\n', one '\r' before the '\n' dropped, no
    final empty line. *)
Definition strip_cr (l : list Z) : list Z :=
  match reverse l with b :: r => if b =? 13 then reverse r else l | [] => l end.
Fixpoint lines_of (pieces : list (list Z)) : list (list Z) :=
  match pieces with
  | [] => []
  | [p] => if decide (p = []) then [] else [p]
  | p :: ps => strip_cr p :: lines_of ps
  end.
Definition lines (bs : list Z) : list (list Z) := lines_of (split_on 10 bs).

Lemma split_once_none c bs : c ∉ bs -> split_once c bs = None.
Proof.
  induction bs as [|b bs IH]; intros H; [done|]. apply not_elem_of_cons in H as [Hb H].
  simpl. rewrite (proj2 (Z.eqb_neq b c)) by done. by rewrite IH.
Qed.

Lemma split_once_app c l r : c ∉ l -> split_once c (l ++ c :: r) = Some (l, r).
Proof.
  induction l as [|b l IH]; intros H; simpl; [by rewrite Z.eqb_refl|].
  apply not_elem_of_cons in H as [Hb H]. rewrite (proj2 (Z.eqb_neq b c)) by done. by rewrite IH.
Qed.

Lemma rsplit_once_none c bs : c ∉ bs -> rsplit_once c bs = None.
Proof.
  induction bs as [|b bs IH]; intros H; [done|]. apply not_elem_of_cons in H as [Hb H].
  simpl. rewrite IH by done. by rewrite (proj2 (Z.eqb_neq b c)) by done.
Qed.

Lemma rsplit_once_app c l r : c ∉ r -> rsplit_once c (l ++ c :: r) = Some (l, r).
Proof.
  intros H. induction l as [|b l IH]; simpl.
  - rewrite rsplit_once_none by done. by rewrite Z.eqb_refl.
  - by rewrite IH.
Qed.

Lemma dec_no_colon z : 0 <= z -> 58 ∉ dec z.
Proof.
  intros Hz Hin. pose proof (dec_fuel_digits 20 z Hz) as Hd.
  rewrite Forall_forall in Hd. apply Hd in Hin. lia.
Qed.

(** ** IP addresses *)

Definition join (sep : Z) (ps : list (list Z)) : list Z :=
  match ps with [] => [] | p :: ps => p ++ (q ← ps; sep :: q) end.

(** [Display for Ipv4Addr]: four decimal octets. *)
Definition ipv4_to_string (octets : list Z) : list Z := join 46 (dec <$> octets).

(** The longest run of zero segments (start, length); the first one wins. *)
Fixpoint zero_span (i : nat) (segs : list Z) (cur best : nat * nat) : nat * nat :=
  match segs with
  | [] => best
  | s :: segs =>
      if s =? 0 then
        let cur := (if decide (cur.2 = 0%nat) then i else cur.1, S cur.2) in
        zero_span (S i) segs cur (if decide (best.2 < cur.2)%nat then cur else best)
      else zero_span (S i) segs (0%nat, 0%nat) best
  end.

(** [Display for Ipv6Addr], over the eight 16-bit segments. *)
Definition ipv6_to_string (segs : list Z) : list Z :=
  if decide (take 6 segs = [0; 0; 0; 0; 0; 0xffff]) then
    str "::ffff:" ++ ipv4_to_string (be_bytes 2 (nth 6 segs 0) ++ be_bytes 2 (nth 7 segs 0))
  else
    let '(start, len) := zero_span 0 segs (0%nat, 0%nat) (0%nat, 0%nat) in
    if decide (1 < len)%nat
    then join 58 (hex <$> take start segs) ++ str "::" ++ join 58 (hex <$> drop (start + len) segs)
    else join 58 (hex <$> segs).

(** [Ipv6Addr::from([u8; 16])]: segments of two big-endian octets. *)
Fixpoint segments_of (octets : list Z) : list Z :=
  match octets with
  | a :: b :: r => a * 256 + b :: segments_of r
  | _ => []
  end.

Example ipv6_loopback : ipv6_to_string [0; 0; 0; 0; 0; 0; 0; 1] = str "::1".
Proof. reflexivity. Qed.
Example ipv6_doc : ipv6_to_string [0x2001; 0xdb8; 0; 0; 1; 0; 0; 1] = str "2001:db8::1:0:0:1".
Proof. vm_compute. reflexivity. Qed.

Example ipv6_mapped :
  ipv6_to_string [0; 0; 0; 0; 0; 0xffff; 0xc0a8; 0x0102] = str "::ffff:192.168.1.2".
Proof. vm_compute. reflexivity. Qed.

(** The characters of an address: digits, '.', ':' and 'a' to 'f'. *)
Definition ip_char (c : Z) : Prop := 46 <= c <= 58 \/ 97 <= c <= 102.

Lemma Forall_join (P : Z -> Prop) sep ps :
  P sep -> Forall (Forall P) ps -> Forall P (join sep ps).
Proof.
  intros Hs HP. destruct HP as [|p ps Hp HP]; simpl; [constructor|].
  apply Forall_app; split; [done|]. induction HP as [|q ps Hq _ IH]; simpl; [constructor|].
  by constructor; [|apply Forall_app].
Qed.

Lemma join_length k sep ps :
  Forall (fun p => length p <= k)%nat ps -> (length (join sep ps) <= (k + 1) * length ps)%nat.
Proof.
  intros HP. destruct HP as [|p ps Hp HP]; simpl; [lia|]. rewrite length_app.
  enough (length (q ← ps; sep :: q) <= (k + 1) * length ps)%nat by lia.
  induction HP as [|q ps Hq _ IH]; [simpl; lia|]. rewrite bind_cons, length_app. simpl. lia.
Qed.

Lemma dec_chars z : 0 <= z -> Forall ip_char (dec z) /\ (length (dec z) <= 20)%nat.
Proof.
  intros Hz. split.
  - eapply Forall_impl; [by apply dec_fuel_digits|]. unfold ip_char. simpl. lia.
  - unfold dec. generalize 20%nat as fuel, z. clear. induction fuel as [|fuel IH]; intros z; simpl; [lia|].
    case_match; simpl; [lia|]. rewrite length_app. specialize (IH (z / 10)). simpl. lia.
Qed.

Lemma hex_chars z : 0 <= z -> Forall ip_char (hex z) /\ (length (hex z) <= 16)%nat.
Proof.
  unfold hex. generalize 16%nat as fuel. intros fuel; revert z.
  assert (Hd : forall d, 0 <= d < 16 -> ip_char (hex_digit d))
    by (intros d Hd; unfold hex_digit, ip_char; case_match; lia).
  induction fuel as [|fuel IH]; intros z Hz; simpl; [split; [constructor|lia]|].
  case_match; simpl; [split; [by constructor; [apply Hd; lia|constructor]|lia]|].
  destruct (IH (z / 16)) as [H1 H2]; [apply Z.div_pos; lia|]. rewrite length_app. simpl.
  split; [|lia]. apply Forall_app. split; [done|]. constructor; [|constructor].
  apply Hd. apply Z.mod_pos_bound. lia.
Qed.

Lemma ipv4_chars o :
  bytes_ok o -> Forall ip_char (ipv4_to_string o) /\ (length (ipv4_to_string o) <= 21 * length o)%nat.
Proof.
  intros Hok. assert (HP : Forall (fun p => Forall ip_char p /\ (length p <= 20)%nat) (dec <$> o)).
  { apply Forall_fmap. eapply Forall_impl; [exact Hok|]. intros b Hb. apply dec_chars.
    unfold byte_ok in Hb; lia. }
  split.
  - apply Forall_join; [unfold ip_char; lia|]. eapply Forall_impl; [exact HP|]. by intros ? [].
  - rewrite <- (length_fmap dec o). apply (join_length 20). eapply Forall_impl; [exact HP|]. by intros ? [].
Qed.

Lemma hexes_chars segs :
  Forall (fun z => 0 <= z) segs ->
  Forall ip_char (join 58 (hex <$> segs)) /\ (length (join 58 (hex <$> segs)) <= 17 * length segs)%nat.
Proof.
  intros Hok. assert (HP : Forall (fun p => Forall ip_char p /\ (length p <= 16)%nat) (hex <$> segs)).
  { apply Forall_fmap. eapply Forall_impl; [exact Hok|]. intros b Hb. by apply hex_chars. }
  split.
  - apply Forall_join; [unfold ip_char; lia|]. eapply Forall_impl; [exact HP|]. by intros ? [].
  - rewrite <- (length_fmap hex segs). apply (join_length 16). eapply Forall_impl; [exact HP|]. by intros ? [].
Qed.

Lemma ipv6_chars segs :
  Forall (fun z => 0 <= z) segs -> (length segs <= 8)%nat ->
  Forall ip_char (ipv6_to_string segs) /\ (length (ipv6_to_string segs) <= 300)%nat.
Proof.
  intros Hok Hl. unfold ipv6_to_string. case_decide.
  - destruct (ipv4_chars (be_bytes 2 (nth 6 segs 0) ++ be_bytes 2 (nth 7 segs 0))) as [H1 H2];
      [auto with bytes|]. rewrite length_app. rewrite length_app, !length_be_bytes in H2.
    split; [|simpl length at 1; lia]. apply Forall_app. split; [|done].
    repeat constructor; unfold ip_char; vm_compute; intuition discriminate.
  - destruct (zero_span _ _ _ _) as [start len]. case_decide.
    + destruct (hexes_chars (take start segs)) as [H1 L1]; [by apply Forall_take|].
      destruct (hexes_chars (drop (start + len) segs)) as [H2 L2]; [by apply Forall_drop|].
      rewrite length_take in L1. rewrite length_drop in L2. rewrite !length_app.
      split; [|simpl (length (str _)); lia]. rewrite !Forall_app. split_and!; [done| |done].
      repeat constructor; unfold ip_char; vm_compute; intuition discriminate.
    + destruct (hexes_chars segs Hok) as [H1 L1]. split; [done|lia].
Qed.

Lemma segments_of_ok o :
  bytes_ok o -> Forall (fun z => 0 <= z) (segments_of o) /\ (2 * length (segments_of o) <= length o)%nat.
Proof.
  revert o. fix IH 1. intros [|a [|b r]] Hok; simpl; [split; [constructor|lia]..|].
  rewrite !Forall_cons in Hok. unfold byte_ok in Hok. destruct Hok as (Ha & Hb & Hr).
  destruct (IH r Hr). split; [constructor; [lia|done]|lia].
Qed.

Lemma ip_char_ascii s : Forall ip_char s -> Forall ascii_ok s.
Proof. intros H. eapply Forall_impl; [exact H|]. unfold ip_char, ascii_ok. simpl. lia. Qed.

Lemma drop_while_none p s : Forall (fun c => p c = false) s -> drop_while p s = s.
Proof. by destruct 1 as [|c s Hc _]; simpl; [|rewrite Hc]. Qed.

Lemma trim_matches_none p s : Forall (fun c => p c = false) s -> trim_matches p s = s.
Proof.
  intros Hs. unfold trim_matches, trim_end_matches, trim_start_matches.
  rewrite (drop_while_none p s) by done. rewrite drop_while_none by by apply Forall_reverse.
  apply reverse_involutive.
Qed.

Lemma trim_matches_wrap p l r s :
  p l = true -> p r = true -> s <> [] -> Forall (fun c => p c = false) s ->
  trim_matches p ([l] ++ s ++ [r]) = s.
Proof.
  intros Hl Hr Hne Hs. unfold trim_matches, trim_end_matches, trim_start_matches.
  destruct s as [|c s]; [done|]. simpl. rewrite Hl. pose proof (Forall_inv Hs) as Hc. simpl in Hc.
  rewrite Hc. change (c :: s ++ [r]) with ((c :: s) ++ [r]). rewrite reverse_app. simpl. rewrite Hr.
  rewrite drop_while_none by (by apply Forall_reverse). apply reverse_involutive.
Qed.

Lemma ipv4_ascii octets : bytes_ok octets -> Forall ascii_ok (ipv4_to_string octets).
Proof. intros H. by apply ip_char_ascii, ipv4_chars. Qed.

(** ** Random texts

    [(0..n).map(|_| chars[rng.gen_range(0..chars.len())])]; [draw i]: the [i]-th draw. *)
Fixpoint random_text_from (chars : list Z) (draw : nat -> nat) (i n : nat) : outcome (list Z) :=
  match n with
  | O => Done []
  | S n =>
      c ← index chars (draw i);
      r ← random_text_from chars draw (S i) n;
      Done (c :: r)
  end.
Definition random_text (chars : list Z) (draw : nat -> nat) (n : nat) : outcome (list Z) := random_text_from chars draw 0 n.

Lemma random_text_spec chars draw n : (forall i, (draw i < length chars)%nat) ->
  exists t, random_text chars draw n = Done t /\ length t = n /\ Forall (fun c => c ∈ chars) t.
Proof.
  intros Hd. unfold random_text. generalize 0%nat. induction n as [|n IH]; intros i; simpl; [by exists []|].
  destruct (index_lt chars (draw i) (Hd i)) as (c & -> & Hc). simpl. destruct (IH (S i)) as (t & -> & <- & Ht).
  simpl. exists (c :: t). split_and!; [done|done|]. constructor; [|done]. by eapply list_elem_of_lookup_2.
Qed.
