(* ===== verification/Float64.v ===== *)
(** * [f64]: the binary64 numbers of the program

    The arithmetic is the Standard Library's specification of IEEE 754
    ([SpecFloat], round to nearest, ties to even) at 53 bits; conversions and
    [str::parse::<f64>] are Rust's. *)
From Stdlib Require Import SpecFloat.
From S2P Require Import Prelude RustStd.

Abbreviation f64 := spec_float.
Definition fmul : f64 -> f64 -> f64 := SFmul 53 1024.
Definition fdiv : f64 -> f64 -> f64 := SFdiv 53 1024.
Definition fadd : f64 -> f64 -> f64 := SFadd 53 1024.
Definition fsub : f64 -> f64 -> f64 := SFsub 53 1024.
Definition flt : f64 -> f64 -> bool := SFltb.

(** [f64::max]: a NaN loses. *)
Definition fmax (a b : f64) : f64 :=
  match a with S754_nan => b | _ => if flt a b then b else a end.

(** The number nearest to [p / q]. *)
Definition f64_ratio (p : Z) (q : positive) : f64 :=
  match p with
  | Zpos p => fdiv (S754_finite false p 0) (S754_finite false q 0)
  | Zneg p => fdiv (S754_finite true p 0) (S754_finite false q 0)
  | Z0 => S754_zero false
  end.

(** [z as f64]. *)
Definition f64_of_u64 (z : Z) : f64 := binary_normalize 53 1024 z 0 false.

Definition U64_MAX : Z := 2 ^ 64 - 1.

(** [x as u64]: towards zero, saturating, 0 for a NaN. *)
Definition f64_to_u64 (x : f64) : Z :=
  match x with
  | S754_finite false m e =>
      Z.min U64_MAX (if 0 <=? e then Zpos m * 2 ^ e else Zpos m / 2 ^ (- e))
  | S754_infinity false => U64_MAX
  | _ => 0
  end.

(** ** [str::parse::<f64>] *)

Definition is_digit (c : Z) : bool := (48 <=? c) && (c <=? 57).

Fixpoint span_digits (bs : list Z) : list Z * list Z :=
  match bs with
  | [] => ([], [])
  | c :: r => if is_digit c then let '(ds, rest) := span_digits r in (c :: ds, rest) else ([], bs)
  end.

Definition digits_val (ds : list Z) : Z := foldl (fun v d => v * 10 + (d - 48)) 0 ds.

(** A sign, and what follows. *)
Definition split_sign (bs : list Z) : bool * list Z :=
  match bs with
  | c :: r => if c =? 45 then (true, r) else if c =? 43 then (false, r) else (false, bs)
  | [] => (false, [])
  end.

(** The exponent, if there is one, up to the end; it stops growing at 65536. *)
Definition parse_exponent (bs : list Z) : option Z :=
  match bs with
  | [] => Some 0
  | c :: r =>
      if (c =? 101) || (c =? 69) then
        let '(neg, r) := split_sign r in
        let '(ds, rest) := span_digits r in
        if decide (ds = [] \/ rest <> []) then None
        else
          let e := foldl (fun e d => if e <? 0x10000 then 10 * e + (d - 48) else e) 0 ds in
          Some (if neg : bool then - e else e)
      else None
  end.

Definition with_sign (neg : bool) (x : f64) : f64 := if neg then SFopp x else x.

(** The value of [w * 10 ^ e], rounded once. *)
Definition decimal (w e : Z) : f64 :=
  match w with
  | Zpos p =>
      if 0 <=? e then f64_of_u64 (Zpos p * 10 ^ e)
      else f64_ratio (Zpos p) (Z.to_pos (10 ^ (- e)))
  | _ => S754_zero false
  end.

Definition parse_number (bs : list Z) : option f64 :=
  let '(int, r) := span_digits bs in
  let '(frac, r) := match r with 46 :: r' => span_digits r' | _ => ([], r) end in
  if decide (int ++ frac = []) then None
  else
    e ← parse_exponent r;
    Some (decimal (digits_val (int ++ frac)) (e - Z.of_nat (length frac))).

Definition lower (c : Z) : Z := if (65 <=? c) && (c <=? 90) then c + 32 else c.

Definition parse_inf_nan (bs : list Z) : option f64 :=
  let s := lower <$> bs in
  if decide (s = str "inf" \/ s = str "infinity") then Some (S754_infinity false)
  else if decide (s = str "nan") then Some S754_nan
  else None.

Definition parse_f64 (bs : list Z) : option f64 :=
  let '(neg, s) := split_sign bs in
  match parse_number s with
  | Some x => Some (with_sign neg x)
  | None => with_sign neg <$> parse_inf_nan s
  end.

Example parse_f64_examples :
  parse_f64 (str "0.1") = Some (S754_finite false 7205759403792794 (-56)) /\
  parse_f64 (str "-2.5e-3") = Some (SFopp (f64_ratio 25 10000)) /\
  parse_f64 (str "1e400") = Some (S754_infinity false) /\
  parse_f64 (str ".") = None /\ parse_f64 (str "1e") = None /\ parse_f64 (str "+.5") = Some (f64_ratio 1 2).
Proof. vm_compute. split_and!; reflexivity. Qed.

(** ** Integers below 2^53 are exact *)

(** ** Exact results

    [scaled n k] represents [n * 2 ^ k] with its 53 bits. *)
Definition bits (n : positive) : Z := Zpos (digits2_pos n).
Definition scaled (n : positive) (k : Z) : f64 :=
  S754_finite false (Z.to_pos (Zpos n * 2 ^ (53 - bits n))) (bits n - 53 + k).

Lemma pow2_step d z b : 0 < d -> 2 ^ (d - 1) <= z < 2 ^ d -> 0 <= b <= 1 ->
  2 ^ (Z.succ d - 1) <= 2 * z + b < 2 ^ Z.succ d.
Proof.
  intros Hd Hz Hb. replace (Z.succ d - 1) with (Z.succ (d - 1)) by lia. rewrite !Z.pow_succ_r by lia. lia.
Qed.

Lemma digits2_pos_bound n : 2 ^ (bits n - 1) <= Zpos n < 2 ^ bits n.
Proof.
  unfold bits. induction n as [n IH|n IH|]; cbn [digits2_pos]; [| |done]; rewrite Pos2Z.inj_succ.
  - rewrite Pos2Z.inj_xI. apply pow2_step; [apply Pos2Z.is_pos|exact IH|lia].
  - replace (Zpos n~0) with (2 * Zpos n + 0) by lia. apply pow2_step; [apply Pos2Z.is_pos|exact IH|lia].
Qed.

Lemma Zdigits2_unique z d : 0 < d -> 2 ^ (d - 1) <= z < 2 ^ d -> Zdigits2 z = d.
Proof.
  intros Hd Hz. assert (0 < 2 ^ (d - 1)) by (apply Z.pow_pos_nonneg; lia).
  destruct z as [|p|p]; [lia| |lia]. cbn [Zdigits2]. pose proof (digits2_pos_bound p) as Hp. unfold bits in Hp.
  set (e := Zpos (digits2_pos p)) in *. assert (0 < e) by (subst e; lia).
  destruct (Z.lt_trichotomy e d) as [Hlt|[?|Hlt]]; [|done|].
  - pose proof (Z.pow_le_mono_r 2 e (d - 1) ltac:(lia) ltac:(lia)). lia.
  - pose proof (Z.pow_le_mono_r 2 d (e - 1) ltac:(lia) ltac:(lia)). lia.
Qed.

Lemma bits_unique n d : 0 < d -> 2 ^ (d - 1) <= Zpos n < 2 ^ d -> bits n = d.
Proof. apply (Zdigits2_unique (Zpos n)). Qed.

Lemma bits_le n d : Zpos n < 2 ^ d -> 0 <= d -> bits n <= d.
Proof.
  intros Hn Hd. pose proof (digits2_pos_bound n) as [Hb _]. destruct (Z.le_gt_cases (bits n) d) as [?|Hlt]; [done|].
  pose proof (Z.pow_le_mono_r 2 d (bits n - 1) ltac:(lia) ltac:(lia)). lia.
Qed.

(** Shifting out zeros is exact. *)
Lemma iter_shr p a : 0 < a ->
  SpecFloat.iter_pos shr_1 p (Build_shr_record (a * 2 ^ Zpos p) false false) = Build_shr_record a false false.
Proof.
  assert (Hone : forall a, 0 < a -> shr_1 (Build_shr_record (a * 2) false false) = Build_shr_record a false false).
  { intros b Hb. destruct b as [|b|]; [lia| |lia]. by rewrite Z.mul_comm. }
  revert a. induction p as [p IH|p IH|]; intros a Ha; cbn [SpecFloat.iter_pos].
  - rewrite Pos2Z.inj_xI. replace (a * 2 ^ (2 * Zpos p + 1)) with (a * 2 ^ Zpos p * 2 ^ Zpos p * 2).
    2:{ replace (2 * Zpos p + 1) with (Zpos p + Zpos p + 1) by lia. rewrite !Z.pow_add_r by lia. ring. }
    rewrite Hone by (repeat apply Z.mul_pos_pos; lia). rewrite IH by (apply Z.mul_pos_pos; lia). by apply IH.
  - change (Zpos p~0) with (2 * Zpos p). replace (a * 2 ^ (2 * Zpos p)) with (a * 2 ^ Zpos p * 2 ^ Zpos p).
    2:{ replace (2 * Zpos p) with (Zpos p + Zpos p) by lia. rewrite Z.pow_add_r by lia. ring. }
    rewrite IH by (apply Z.mul_pos_pos; lia). by apply IH.
  - change (2 ^ 1) with 2. by apply Hone.
Qed.

Lemma round_exact a e n : 2 ^ 52 <= Zpos a < 2 ^ 53 -> -1074 <= e <= 971 -> 0 <= n ->
  binary_round_aux 53 1024 false (Zpos a * 2 ^ n) (e - n) loc_Exact = S754_finite false a e.
Proof.
  intros Ha He Hn.
  assert (Hd : forall n, 0 <= n -> Zdigits2 (Zpos a * 2 ^ n) = 53 + n).
  { intros m Hm. apply Zdigits2_unique; [lia|]. replace (53 + m - 1) with (52 + m) by lia.
    rewrite !Z.pow_add_r by lia. assert (0 < 2 ^ m) by (apply Z.pow_pos_nonneg; lia). nia. }
  assert (H1 : shr_fexp 53 1024 (Zpos a * 2 ^ n) (e - n) loc_Exact = (Build_shr_record (Zpos a) false false, e)).
  { unfold shr_fexp, fexp, emin. rewrite Hd by lia.
    replace (Z.max (53 + n + (e - n) - 53) (3 - 1024 - 53) - (e - n)) with n by lia.
    destruct n as [|n|n]; [|simpl; rewrite iter_shr by lia; do 2 f_equal; lia|lia].
    cbn [shr shr_record_of_loc]. do 2 f_equal; lia. }
  unfold binary_round_aux. rewrite H1. cbn [shr_m loc_of_shr_record round_nearest_even].
  assert (H2 : shr_fexp 53 1024 (Zpos a) e loc_Exact = (Build_shr_record (Zpos a) false false, e)).
  { unfold shr_fexp, fexp, emin. pose proof (Hd 0 ltac:(lia)) as Hd0. rewrite Z.mul_1_r in Hd0. rewrite Hd0.
    replace (Z.max (53 + 0 + e - 53) (3 - 1024 - 53) - e) with 0 by lia. done. }
  rewrite H2. cbn [shr_m]. by rewrite (proj2 (Z.leb_le _ _)) by lia.
Qed.

Lemma scaled_mantissa n : Zpos n < 2 ^ 53 ->
  0 <= 53 - bits n /\ 0 < bits n /\ 2 ^ 52 <= Zpos n * 2 ^ (53 - bits n) < 2 ^ 53.
Proof.
  intros Hn. pose proof (bits_le n 53 Hn ltac:(lia)). pose proof (digits2_pos_bound n) as Hb.
  assert (0 < bits n) by (unfold bits; lia). split_and!; [lia|lia|..].
  - replace 52 with (bits n - 1 + (53 - bits n)) at 1 by lia. rewrite Z.pow_add_r by lia. nia.
  - replace 53 with (bits n + (53 - bits n)) at 2 by lia. rewrite Z.pow_add_r by lia. nia.
Qed.

(** [n * 2 ^ j] rounds to itself, whatever mantissa and exponent present it. *)
Lemma round_scaled n k m e : Zpos n < 2 ^ 53 -> -1074 <= bits n - 53 + k <= 971 ->
  Zpos n * 2 ^ (53 - bits n) * 2 ^ (bits n - 53 + k - e) = m -> e <= bits n - 53 + k ->
  binary_round_aux 53 1024 false m e loc_Exact = scaled n k.
Proof.
  intros Hn Hk <- He. destruct (scaled_mantissa n Hn) as (? & ? & Hm).
  rewrite <- (Z2Pos.id (Zpos n * 2 ^ (53 - bits n))) at 1 by lia.
  replace e with (bits n - 53 + k - (bits n - 53 + k - e)) at 2 by lia.
  rewrite round_exact; [done| |done|lia]. by rewrite Z2Pos.id by lia.
Qed.

Lemma iter_xO n p : Zpos (Pos.iter xO n p) = Zpos n * 2 ^ Zpos p.
Proof.
  induction p as [|p IH] using Pos.peano_ind; [simpl; lia|].
  rewrite Pos.iter_succ, Pos2Z.inj_succ, Z.pow_succ_r, Pos2Z.inj_xO, IH by lia. ring.
Qed.

Lemma f64_of_u64_exact n : Zpos n < 2 ^ 53 -> f64_of_u64 (Zpos n) = scaled n 0.
Proof.
  intros Hn. destruct (scaled_mantissa n Hn) as (Hb & ? & Hm).
  unfold f64_of_u64. cbn [binary_normalize]. unfold binary_round. fold (bits n).
  assert (Hf : fexp 53 1024 (bits n + 0) = bits n - 53) by (unfold fexp, emin; lia). rewrite Hf.
  unfold shl_align. rewrite Z.sub_0_r. destruct (bits n - 53) as [|p|p] eqn:Ed; [|lia|].
  - apply round_scaled; [done|lia| |lia]. rewrite Ed. simpl. replace (53 - bits n) with 0 by lia. lia.
  - apply round_scaled; [done|lia| |lia]. rewrite iter_xO, Ed. replace (Z.neg p + 0 - Z.neg p) with 0 by lia.
    replace (53 - bits n) with (Zpos p) by lia. lia.
Qed.

Lemma bits_mul a b : bits a + bits b - 1 <= bits (a * b) <= bits a + bits b.
Proof.
  pose proof (digits2_pos_bound a). pose proof (digits2_pos_bound b). pose proof (digits2_pos_bound (a * b)) as Hc.
  assert (0 < bits a) by (unfold bits; lia). assert (0 < bits b) by (unfold bits; lia). assert (0 < bits (a * b)) by (unfold bits; lia).
  rewrite Pos2Z.inj_mul in Hc. split.
  - destruct (Z.le_gt_cases (bits a + bits b - 1) (bits (a * b))) as [?|Hlt]; [done|].
    pose proof (Z.pow_le_mono_r 2 (bits (a * b)) (bits a - 1 + (bits b - 1)) ltac:(lia) ltac:(lia)) as Hp.
    rewrite Z.pow_add_r in Hp by lia. nia.
  - destruct (Z.le_gt_cases (bits (a * b)) (bits a + bits b)) as [?|Hlt]; [done|].
    pose proof (Z.pow_le_mono_r 2 (bits a + bits b) (bits (a * b) - 1) ltac:(lia) ltac:(lia)) as Hp.
    rewrite Z.pow_add_r in Hp by lia. nia.
Qed.

Lemma fmul_exact a b : Zpos (a * b) < 2 ^ 53 -> fmul (scaled a 0) (scaled b 0) = scaled (a * b) 0.
Proof.
  intros Hab. assert (Ha : Zpos a < 2 ^ 53) by (rewrite Pos2Z.inj_mul in Hab; nia).
  assert (Hb : Zpos b < 2 ^ 53) by (rewrite Pos2Z.inj_mul in Hab; nia).
  destruct (scaled_mantissa a Ha) as (? & ? & ?). destruct (scaled_mantissa b Hb) as (? & ? & ?).
  destruct (scaled_mantissa _ Hab) as (? & ? & ?). pose proof (bits_mul a b).
  unfold fmul, scaled at 1 2. cbn [SFmul xorb]. apply round_scaled; [done|lia| |lia].
  rewrite !Pos2Z.inj_mul, !Z2Pos.id by lia.
  replace (2 ^ (bits (a * b) - 53 + 0 - (bits a - 53 + 0 + (bits b - 53 + 0)))) with
    (2 ^ (53 - bits a) * 2 ^ (53 - bits b) / 2 ^ (53 - bits (a * b))).
  2:{ rewrite <- Z.pow_add_r by lia. rewrite <- Z.pow_sub_r by lia. f_equal. lia. }
  assert (Hdiv : 2 ^ (53 - bits a) * 2 ^ (53 - bits b) = 2 ^ (53 - bits (a * b)) * 2 ^ (53 + bits (a * b) - bits a - bits b)).
  { rewrite <- !Z.pow_add_r by lia. f_equal. lia. }
  rewrite Hdiv, (Z.mul_comm (2 ^ (53 - bits (a * b)))), Z.div_mul by (apply Z.pow_nonzero; lia).
  transitivity (Zpos a * Zpos b * (2 ^ (53 - bits (a * b)) * 2 ^ (53 + bits (a * b) - bits a - bits b))); [ring|].
  rewrite <- Hdiv. ring.
Qed.

Lemma fdiv8_exact n : Zpos n < 2 ^ 53 -> fdiv (scaled n 0) (f64_of_u64 8) = scaled n (-3).
Proof.
  intros Hn. destruct (scaled_mantissa n Hn) as (? & ? & Hm).
  change (f64_of_u64 8) with (S754_finite false 4503599627370496 (-49)). unfold fdiv, scaled at 1. cbn [SFdiv xorb].
  assert (Hd : Zdigits2 (Zpos (Z.to_pos (Zpos n * 2 ^ (53 - bits n)))) = 53).
  { apply Zdigits2_unique; [lia|]. rewrite Z2Pos.id by lia. exact Hm. }
  unfold SFdiv_core_binary. rewrite Hd. change (Zdigits2 4503599627370496) with 53.
  assert (He : Z.min (fexp 53 1024 (53 + (bits n - 53 + 0) - (53 + -49))) (bits n - 53 + 0 - -49) = bits n - 57)
    by (unfold fexp, emin; lia).
  rewrite He. replace (bits n - 53 + 0 - -49 - (bits n - 57)) with 53 by lia.
  rewrite Z2Pos.id, Z.shiftl_mul_pow2 by lia. set (m := Zpos n * 2 ^ (53 - bits n)).
  assert (Hq : Z.div_eucl (m * 2 ^ 53) 4503599627370496 = (m * 2, 0)).
  { pose proof (Z_div_mod (m * 2 ^ 53) 4503599627370496 ltac:(lia)) as Hdm.
    destruct (Z.div_eucl _ _) as [q r]. destruct Hdm as [Hq Hr]. f_equal; lia. }
  rewrite Hq. change (new_location 4503599627370496 0) with loc_Exact. apply round_scaled; [done|lia| |lia].
  replace (bits n - 53 + -3 - (bits n - 57)) with 1 by lia. done.
Qed.

Lemma f64_to_u64_scaled n k : Zpos n < 2 ^ 53 -> -53 <= k <= 0 -> f64_to_u64 (scaled n k) = Zpos n / 2 ^ (- k).
Proof.
  intros Hn Hk. destruct (scaled_mantissa n Hn) as (? & ? & Hm). unfold scaled, f64_to_u64.
  rewrite Z2Pos.id by lia.
  assert (Hv : (if 0 <=? bits n - 53 + k then Zpos n * 2 ^ (53 - bits n) * 2 ^ (bits n - 53 + k)
    else Zpos n * 2 ^ (53 - bits n) / 2 ^ (- (bits n - 53 + k))) = Zpos n / 2 ^ (- k)).
  { destruct (Z.leb_spec 0 (bits n - 53 + k)) as [Hle|Hlt].
    - assert (bits n = 53) as -> by lia. assert (k = 0) as -> by lia. rewrite Z.div_1_r. simpl. lia.
    - replace (- (bits n - 53 + k)) with (- k + (53 - bits n)) by lia. rewrite Z.pow_add_r by lia.
      apply Z.div_mul_cancel_r; apply Z.pow_nonzero; lia. }
  rewrite Hv. apply Z.min_r. pose proof (Z.div_le_upper_bound (Zpos n) (2 ^ (- k)) (Zpos n) ltac:(apply Z.pow_pos_nonneg; lia)) as Hu.
  assert (0 < 2 ^ (- k)) by (apply Z.pow_pos_nonneg; lia). unfold U64_MAX. nia.
Qed.

(** ** Reading a decimal number *)

Lemma digits_val_parse max v ds w : parse_digits max v ds = Some w -> foldl (fun v d => v * 10 + (d - 48)) v ds = w.
Proof.
  revert v. induction ds as [|d ds IH]; intros v; simpl; [by intros [= ->]|].
  destruct (_ && _); [|done]. cbv zeta. destruct (_ <=? max); [|done]. apply IH.
Qed.

Lemma span_digits_all ds : Forall (fun d => 48 <= d <= 57) ds -> span_digits ds = (ds, []).
Proof.
  induction 1 as [|d ds Hd _ IH]; simpl; [done|]. unfold is_digit. rewrite IH.
  by rewrite !(proj2 (Z.leb_le _ _)) by lia.
Qed.

Lemma parse_f64_dec v : 0 <= v < 2 ^ 53 -> parse_f64 (dec v) = Some (f64_of_u64 v).
Proof.
  intros Hv. pose proof (dec_fuel_digits 20 v ltac:(lia)) as Hd. fold (dec v) in Hd.
  assert (Hw : digits_val (dec v) = v) by (apply (digits_val_parse v); apply parse_digits_dec; lia).
  pose proof (dec_not_nil v) as Hn. unfold parse_f64.
  assert (split_sign (dec v) = (false, dec v)) as ->.
  { destruct (dec v) as [|d ds]; [done|]. apply Forall_cons in Hd as [Hd _]. cbn [split_sign].
    by rewrite !(proj2 (Z.eqb_neq _ _)) by lia. }
  unfold parse_number. rewrite span_digits_all by done. rewrite app_nil_r, decide_False by done.
  cbn [parse_exponent mbind option_bind]. rewrite Hw. unfold with_sign. f_equal.
  destruct v as [|p|p]; [done| |lia]. unfold decimal. by rewrite Z.mul_1_r.
Qed.

(** [v * f / 8] as the program computes it. *)
Lemma bits_to_bytes v f : 0 <= v -> 0 < f < 2 ^ 53 -> v * f < 2 ^ 53 ->
  f64_to_u64 (fdiv (fmul (f64_of_u64 v) (f64_of_u64 f)) (f64_of_u64 8)) = v * f / 8.
Proof.
  intros Hv Hf Hb. destruct v as [|v|v]; [|destruct f as [|f|f]; [lia| |lia]|lia].
  - rewrite Z.mul_0_l. cbn [f64_of_u64 binary_normalize].
    assert (fmul (S754_zero false) (f64_of_u64 f) = S754_zero false) as ->; [|reflexivity].
    destruct f as [|f|f]; [done| |lia]. by rewrite f64_of_u64_exact by lia.
  - rewrite <- Pos2Z.inj_mul in Hb |- *. rewrite (f64_of_u64_exact v), (f64_of_u64_exact f) by nia.
    rewrite fmul_exact, fdiv8_exact by done. by rewrite f64_to_u64_scaled by lia.
Qed.
