(* ===== verification/NetAddr.v ===== *)
(** * Addresses as text: [str::parse::<IpAddr>] and [str::parse::<SocketAddr>]

    The standard library's parser, as the servers use it for the address they
    listen on and WireGuard for the addresses of its interface. *)
From S2P Require Import Prelude RustStd.

(** Four octets, or eight 16-bit segments. *)
Inductive IpAddr := V4 (octets : list Z) | V6 (segments : list Z).
Inductive SocketAddr := SockV4 (octets : list Z) (port : Z) | SockV6 (segments : list Z) (scope_id port : Z).

#[export] Instance IpAddr_eq_dec : EqDecision IpAddr.
Proof. solve_decision. Defined.
#[export] Instance socket_addr_eq_dec : EqDecision SocketAddr.
Proof. solve_decision. Defined.

(** A parser takes what it reads off the front, or fails and takes nothing. *)
Definition parser (A : Type) : Type := list Z -> option (A * list Z).

Definition given_char (c : Z) : parser unit := fun bs =>
  match bs with b :: r => if b =? c then Some (tt, r) else None | [] => None end.

Definition to_digit (radix c : Z) : option Z :=
  let d := if (48 <=? c) && (c <=? 57) then c - 48
           else if (97 <=? c) && (c <=? 122) then c - 87
           else if (65 <=? c) && (c <=? 90) then c - 55 else radix in
  if d <? radix then Some d else None.

(** The loop of [read_number]: the value, and how many digits. *)
Fixpoint number_loop (radix max : Z) (max_digits : option nat) (v : Z) (count : nat) (bs : list Z)
    : option (Z * nat * list Z) :=
  match bs with
  | [] => Some (v, count, [])
  | c :: r =>
      match to_digit radix c with
      | None => Some (v, count, bs)
      | Some d =>
          let v := v * radix + d in
          if v <=? max then
            if match max_digits with Some m => (m <? S count)%nat | None => false end then None
            else number_loop radix max max_digits v (S count) r
          else None
      end
  end.

Definition read_number (radix max : Z) (max_digits : option nat) (allow_zero_prefix : bool) : parser Z := fun bs =>
  match number_loop radix max max_digits 0 0 bs with
  | Some (v, count, rest) =>
      if (count =? 0)%nat then None
      else if negb allow_zero_prefix && bool_decide (head bs = Some 48) && (1 <? count)%nat then None
      else Some (v, rest)
  | None => None
  end.

(** [read_separator]: no separator before the first item. *)
Definition after_separator {A} (sep : Z) (i : nat) (p : parser A) : parser A := fun bs =>
  match i with
  | O => p bs
  | S _ => '(_, r) ← given_char sep bs; p r
  end.

Fixpoint read_octets (n i : nat) : parser (list Z) := fun bs =>
  match n with
  | O => Some ([], bs)
  | S n =>
      '(o, r) ← after_separator 46 i (read_number 10 255 (Some 3%nat) false) bs;
      '(os, r) ← read_octets n (S i) r;
      Some (o :: os, r)
  end.
Definition read_ipv4 : parser (list Z) := read_octets 4 0.

(** [read_groups] of [n] slots from slot [i] on: the groups, and whether they
    end with an IPv4 address, for which there must be two slots. *)
Fixpoint read_groups (n i : nat) (bs : list Z) : list Z * bool * list Z :=
  match n with
  | O => ([], false, bs)
  | S n' =>
      match (if (1 <? n)%nat then after_separator 58 i read_ipv4 bs else None) with
      | Some ([a; b; c; d], r) => ([a * 256 + b; c * 256 + d], true, r)
      | _ =>
          match after_separator 58 i (read_number 16 65535 (Some 4%nat) true) bs with
          | Some (g, r) => let '(gs, v4, r) := read_groups n' (S i) r in (g :: gs, v4, r)
          | None => ([], false, bs)
          end
      end
  end.

Definition read_ipv6 : parser (list Z) := fun bs =>
  let '(head, head_v4, r) := read_groups 8 0 bs in
  if decide (length head = 8%nat) then Some (head, r)
  else if head_v4 : bool then None
  else
    '(_, r) ← given_char 58 r;
    '(_, r) ← given_char 58 r;
    let '(tail, _, r) := read_groups (7 - length head) 0 r in
    Some (head ++ replicate (8 - length head - length tail) 0 ++ tail, r).

Definition read_ip : parser IpAddr := fun bs =>
  match read_ipv4 bs with
  | Some (o, r) => Some (V4 o, r)
  | None => '(s, r) ← read_ipv6 bs; Some (V6 s, r)
  end.

Definition read_port : parser Z := fun bs =>
  '(_, r) ← given_char 58 bs;
  read_number 10 65535 None true r.

Definition read_scope_id : parser Z := fun bs =>
  '(_, r) ← given_char 37 bs;
  read_number 10 (2 ^ 32 - 1) None true r.

Definition read_socket_v4 : parser SocketAddr := fun bs =>
  '(o, r) ← read_ipv4 bs;
  '(p, r) ← read_port r;
  Some (SockV4 o p, r).

Definition read_socket_v6 : parser SocketAddr := fun bs =>
  '(_, r) ← given_char 91 bs;
  '(s, r) ← read_ipv6 r;
  let '(scope, r) := default (0, r) (read_scope_id r) in
  '(_, r) ← given_char 93 r;
  '(p, r) ← read_port r;
  Some (SockV6 s scope p, r).

(** Everything must be read. *)
Definition parse_with {A} (p : parser A) (bs : list Z) : outcome A :=
  match p bs with Some (a, []) => Done a | _ => Fail EParse end.

Definition parse_ip (bs : list Z) : outcome IpAddr := parse_with read_ip bs.
Definition parse_socket_addr (bs : list Z) : outcome SocketAddr :=
  parse_with (fun bs => match read_socket_v4 bs with Some r => Some r | None => read_socket_v6 bs end) bs.

Example parse_examples :
  parse_ip (str "::ffff:1.2.3.4") = Done (V6 [0; 0; 0; 0; 0; 0xffff; 258; 772]) /\
  parse_ip (str "fd00::1") = Done (V6 [0xfd00; 0; 0; 0; 0; 0; 0; 1]) /\
  parse_ip (str "01.2.3.4") = Fail EParse /\ parse_ip (str "1:2:3:4:5:6:7::") = Done (V6 [1; 2; 3; 4; 5; 6; 7; 0]) /\
  parse_socket_addr (str "[::]:443") = Done (SockV6 [0; 0; 0; 0; 0; 0; 0; 0] 0 443) /\
  parse_socket_addr (str "0.0.0.0:65536") = Fail EParse.
Proof. vm_compute. split_and!; reflexivity. Qed.

(** ** What the program prints is read back *)

(** The next character, if any, is no digit. *)
Definition ends_number (rest : list Z) : Prop := match rest with c :: _ => to_digit 10 c = None | [] => True end.

Lemma number_loop_app max md v count ds rest w :
  parse_digits max v ds = Some w -> ends_number rest ->
  match md with Some m => (count + length ds <= m)%nat | None => True end ->
  number_loop 10 max md v count (ds ++ rest) = Some (w, (count + length ds)%nat, rest).
Proof.
  revert v count. induction ds as [|d ds IH]; intros v count Hp Hr Hm; simpl in *.
  - injection Hp as <-. rewrite Nat.add_0_r. destruct rest as [|c rest]; simpl; [done|]. by rewrite Hr.
  - destruct ((48 <=? d) && (d <=? 57)) eqn:Ed; [|done]. unfold to_digit. rewrite Ed.
    assert (d - 48 <? 10 = true) as -> by lia. cbv zeta in *.
    destruct (v * 10 + (d - 48) <=? max) eqn:Ev; [|done].
    replace (count + S (length ds))%nat with (S count + length ds)%nat by lia.
    assert (match md with Some m => (m <? S count)%nat | None => false end = false) as ->.
    { destruct md as [m|]; [|done]. apply Nat.ltb_ge. lia. }
    apply IH; [done|done|]. destruct md; [lia|done].
Qed.

Lemma read_number_dec max md z rest : 0 <= z <= max -> z < 10 ^ 20 -> ends_number rest ->
  match md with Some m => (length (dec z) <= m)%nat | None => True end ->
  read_number 10 max md true (dec z ++ rest) = Some (z, rest).
Proof.
  intros Hz Hb Hr Hm. unfold read_number.
  rewrite (number_loop_app max md 0 0 (dec z) rest z); [|by apply parse_digits_dec|done|by destruct md].
  pose proof (dec_not_nil z). by destruct (dec z).
Qed.

(** No octet is printed with a leading zero. *)
Lemma read_octet_dec z rest : 0 <= z < 256 -> ends_number rest ->
  read_number 10 255 (Some 3%nat) false (dec z ++ rest) = Some (z, rest).
Proof.
  intros Hz Hr. unfold read_number.
  assert (Hd : dec z = if z <? 10 then [48 + z] else if z <? 100 then [48 + z / 10; 48 + z mod 10]
    else [48 + z / 100; 48 + z / 10 mod 10; 48 + z mod 10]).
  { unfold dec. do 3 (cbn [dec_fuel]). destruct (z <? 10) eqn:E1; [done|].
    destruct (z / 10 <? 10) eqn:E2; [assert (z <? 100 = true) as -> by dlia; done|].
    assert (z <? 100 = false) as -> by dlia. rewrite Z.div_div by lia.
    assert (z / (10 * 10) <? 10 = true) as -> by dlia. done. }
  rewrite (number_loop_app 255 (Some 3%nat) 0 0 (dec z) rest z);
    [|apply parse_digits_dec; lia|done|rewrite Hd; repeat case_match; simpl; lia].
  rewrite Hd. destruct (z <? 10) eqn:E1; [simpl; by rewrite andb_false_r|]. cbn [length app].
  destruct (z <? 100) eqn:E2; simpl; (rewrite bool_decide_false by (intros [= E]; dlia); done).
Qed.

Lemma read_octets_join n i os rest : length os = n -> Forall byte_ok os -> ends_number rest ->
  (forall c r, rest = c :: r -> c <> 46) ->
  read_octets n i ((match i, os with S _, _ :: _ => [46] | _, _ => [] end) ++ join 46 (dec <$> os) ++ rest) = Some (os, rest).
Proof.
  revert i os. induction n as [|n IH]; intros i os Hl Hb Hr Hdot; [by destruct os; [destruct i|]|].
  destruct os as [|o os]; [done|]. injection Hl as Hl. apply Forall_cons in Hb as [Ho Hb].
  assert (Hj : join 46 (dec <$> o :: os) ++ rest = dec o ++ (match os with _ :: _ => [46] | [] => [] end) ++ join 46 (dec <$> os) ++ rest).
  { rewrite fmap_cons. destruct os as [|o' os]; [simpl; by rewrite app_nil_r|]. rewrite fmap_cons. unfold join. rewrite bind_cons. cbn [app]. rewrite <- app_assoc. by cbn [app]. }
  rewrite Hj. set (tl := _ ++ join 46 (dec <$> os) ++ rest).
  assert (Htl : ends_number tl).
  { subst tl. destruct os as [|o' os]; [done|]. reflexivity. }
  cbn [read_octets]. assert (Hs : after_separator 46 i (read_number 10 255 (Some 3%nat) false)
      ((match i with S _ => [46] | O => [] end) ++ dec o ++ tl) = Some (o, tl)).
  { destruct i; cbn [after_separator app]; [|change (given_char 46 (46 :: dec o ++ tl)) with (Some (tt, dec o ++ tl)); simpl];
      by apply read_octet_dec. }
  destruct i; rewrite Hs; cbn [mbind option_bind]; subst tl;
    rewrite (IH (S _) os Hl Hb Hr Hdot : read_octets n _ (match os with _ :: _ => [46] | [] => [] end ++ _) = _); done.
Qed.

Lemma parse_socket_addr_v4 os port :
  length os = 4%nat -> bytes_ok os -> 0 <= port < 65536 ->
  parse_socket_addr (ipv4_to_string os ++ [58] ++ dec port) = Done (SockV4 os port).
Proof.
  intros Hl Hb Hp. unfold parse_socket_addr, parse_with, read_socket_v4, read_ipv4, ipv4_to_string.
  pose proof (read_octets_join 4 0 os ([58] ++ dec port) Hl Hb eq_refl ltac:(by intros ? ? [= <- _])) as Ho.
  cbn [app] in Ho |- *. rewrite Ho. cbn [mbind option_bind]. unfold read_port.
  change (given_char 58 (58 :: dec port)) with (Some (tt, dec port)). cbn [mbind option_bind].
  rewrite <- (app_nil_r (dec port)), read_number_dec; [done|lia|lia|done|done].
Qed.
