(* ===== verification/TlsSetup.v ===== *)
(** * Certificates and keys of the servers
    ([src/src/common/tls/standard.rs], [src/src/hysteria2/tls.rs], [build_tls] of
    [src/src/tuic/server.rs])

    Three builders of a TLS configuration: from a certificate file and a key file
    if both are configured, else with a certificate made for a domain.  Reading
    PEM, making a certificate and accepting a key are the crates' ([TlsLib]). *)
From S2P Require Import Prelude RustStd.

Record StandardTlsConfig := StandardTls {
  cert_path : option (list Z);
  key_path : option (list Z);
  self_signed_domain : option (list Z);
}.

(** What is set of a [rustls::ServerConfig]. *)
Record ServerConfig := MkTls {
  cert_chain : list (list Z);
  tls_key : list Z;
  alpn_protocols : list (list Z);
  tls13_only : bool;
  max_early_data_size : Z;
}.

Class TlsLib := {
  (** the files *)
  read_file : list Z -> outcome (list Z);
  (** [rustls_pemfile]: the certificates and the first key of a file *)
  pem_certs : list Z -> outcome (list (list Z));
  pem_key : list Z -> outcome (option (list Z));
  (** [generate_simple_self_signed]: a certificate and the serialised key *)
  self_signed : list Z -> outcome (list Z * list Z);
  key_try_from : list Z -> outcome (list Z);
  (** [with_single_cert]: whether the chain and the key are taken *)
  single_cert : list (list Z) -> list Z -> bool;
}.

Section tls.
Context `{TlsLib}.

Definition load_certs (path : list Z) : outcome (list (list Z)) :=
  f ← read_file path;
  chain ← pem_certs f;
  if decide (chain = []) then Fail (EBail "no certs") else Done chain.

Definition load_key (path : list Z) : outcome (list Z) :=
  f ← read_file path;
  k ← pem_key f;
  ok_or (EBail "no private key") k.

(** [ServerConfig::builder() ... with_single_cert]. *)
Definition server_config (chain : list (list Z)) (key : list Z) (tls13 : bool) (alpn : list (list Z)) : outcome ServerConfig :=
  if single_cert chain key then Done (MkTls chain key alpn tls13 0) else Fail (EBail "build rustls ServerConfig").

(** The chain and the key of VLESS, VMess, Trojan, Shadowsocks, AnyTLS and
    Hysteria2; [default] stands for a domain that is not configured. *)
Definition cert_and_key (default_domain : list Z) (cert key domain : option (list Z)) : outcome (list (list Z) * list Z) :=
  match cert, key with
  | Some c, Some k =>
      chain ← load_certs c;
      key ← load_key k;
      Done (chain, key)
  | _, _ =>
      '(der, k) ← self_signed (default default_domain domain);
      key ← key_try_from k;
      Done ([der], key)
  end.

Definition build_standard (cert key domain : option (list Z)) : outcome ServerConfig :=
  '(chain, key) ← cert_and_key (str "localhost") cert key domain;
  server_config chain key false [str "h2"; str "http/1.1"].

Definition build_hy2_tls (cfg : StandardTlsConfig) : outcome ServerConfig :=
  '(chain, key) ← cert_and_key (str "localhost") (cert_path cfg) (key_path cfg) (self_signed_domain cfg);
  server_config chain key false [str "h3"].

(** TUIC: an empty chain is left to [with_single_cert]; no [try_from]. *)
Definition tuic_build_tls (tls : option StandardTlsConfig) : outcome ServerConfig :=
  match tls ≫= cert_path, tls ≫= key_path with
  | Some c, Some k =>
      cert_data ← read_file c;
      key_data ← read_file k;
      certs ← pem_certs cert_data;
      key ← pem_key key_data;
      key ← ok_or (EBail "no private key found") key;
      server_config certs key true []
  | _, _ =>
      '(der, k) ← self_signed (default (str "tuic.local") (tls ≫= self_signed_domain));
      server_config [der] k true []
  end.

(** The certificate a Reality server holds without ever showing it
    ([src/src/vless/tls/reality.rs]). *)
Definition build_placeholder_config (server_name : list Z) : outcome ServerConfig :=
  '(der, k) ← self_signed server_name;
  key ← key_try_from k;
  server_config [der] key false [str "h2"; str "http/1.1"].

(** What [run] makes of it. *)
Definition tuic_tls (tls : option StandardTlsConfig) : outcome ServerConfig :=
  c ← tuic_build_tls tls;
  Done (MkTls (cert_chain c) (tls_key c) [str "h3"] (tls13_only c) (2 ^ 32 - 1)).

(** ** What a builder uses *)

(** The material of the configuration: the two files, or a certificate for the
    domain. *)
Definition configured (default_domain : list Z) (cert key domain : option (list Z)) (c : ServerConfig) : Prop :=
  match cert, key with
  | Some cp, Some kp => exists cf kf,
      read_file cp = Done cf /\ pem_certs cf = Done (cert_chain c) /\ cert_chain c <> [] /\
      read_file kp = Done kf /\ pem_key kf = Done (Some (tls_key c))
  | _, _ => exists der k, self_signed (default default_domain domain) = Done (der, k) /\
      cert_chain c = [der] /\ key_try_from k = Done (tls_key c)
  end.

Lemma bind_Done_iff {A B} (o : outcome A) (f : A -> outcome B) b :
  (o ≫= f) = Done b <-> exists a, o = Done a /\ f a = Done b.
Proof.
  destruct o as [a| |]; simpl; split; [by exists a| |done| |done|]; intros (a' & E & Ef); [|done..].
  by injection E as ->.
Qed.

Lemma load_certs_Done path chain :
  load_certs path = Done chain <-> exists f, read_file path = Done f /\ pem_certs f = Done chain /\ chain <> [].
Proof.
  unfold load_certs. rewrite bind_Done_iff. split.
  - intros (f & Ef & E). rewrite bind_Done_iff in E. destruct E as (ch & Ec & E). case_decide; [done|]. injection E as ->. eauto.
  - intros (f & Ef & Ec & Hne). exists f. split; [done|]. rewrite Ec. simpl. by case_decide.
Qed.

Lemma load_key_Done path key :
  load_key path = Done key <-> exists f, read_file path = Done f /\ pem_key f = Done (Some key).
Proof.
  unfold load_key. rewrite bind_Done_iff. split.
  - intros (f & Ef & E). rewrite bind_Done_iff in E. destruct E as ([k|] & Ek & E); [|done]. injection E as ->. eauto.
  - intros (f & Ef & Ek). exists f. split; [done|]. by rewrite Ek.
Qed.

Lemma cert_and_key_Done d cert key domain chain k :
  cert_and_key d cert key domain = Done (chain, k) <->
  forall alpn t e, configured d cert key domain (MkTls chain k alpn t e).
Proof.
  unfold cert_and_key, configured. simpl.
  assert (Hself : ('(der, k0) ← self_signed (default d domain); key0 ← key_try_from k0; Done ([der], key0)) = Done (chain, k) <->
    exists der k0, self_signed (default d domain) = Done (der, k0) /\ chain = [der] /\ key_try_from k0 = Done k).
  { rewrite bind_Done_iff. split.
    - intros ([der k0] & E1 & E2). apply bind_Done_iff in E2 as (k1 & E2 & [= <- <-]). eauto.
    - intros (der & k0 & E1 & -> & E2). exists (der, k0). split; [done|]. by rewrite E2. }
  destruct cert as [c|], key as [kp|]; try (rewrite Hself; clear; split;
    [by intros ? _ _ _|intros Hc; exact (Hc [] false 0)]).
  split.
  - intros (ch & Ec & (k0 & Ek & [= <- <-])%bind_Done_iff)%bind_Done_iff.
    apply load_certs_Done in Ec as (f & ? & ? & ?). apply load_key_Done in Ek as (kf & ? & ?).
    intros _ _ _. by exists f, kf.
  - intros Hc. destruct (Hc [] false 0) as (f & kf & Hf & Hp & Hne & Hk & Hpk).
    rewrite (proj2 (load_certs_Done c chain)) by eauto. simpl.
    by rewrite (proj2 (load_key_Done kp k)) by eauto.
Qed.

(** Every server with standard TLS presents what is configured, for HTTP/1.1
    and HTTP/2, or does not start. *)
Lemma build_standard_Done cert key domain c :
  build_standard cert key domain = Done c <->
  configured (str "localhost") cert key domain c /\ single_cert (cert_chain c) (tls_key c) = true /\
  c = MkTls (cert_chain c) (tls_key c) [str "h2"; str "http/1.1"] false 0.
Proof.
  unfold build_standard, server_config. rewrite bind_Done_iff. split.
  - intros ([chain k] & E & E2). destruct (single_cert chain k) eqn:Es; [|done]. injection E2 as <-.
    split_and!; [|done|done]. by apply cert_and_key_Done.
  - intros (Hc & Hs & E). exists (cert_chain c, tls_key c). rewrite Hs. split; [|by rewrite E].
    apply cert_and_key_Done. intros alpn t e. exact Hc.
Qed.

End tls.
