(* ===== verification/Net.v ===== *)
(** * Connections: byte sources, sockets, and a logic of decoders

    Every protocol handler of the program reads from "something that implements
    [AsyncRead]": a TCP socket, a TLS stream, a multiplexed stream, a slice.
    The interface is the class [Source]; a decoder is written once against it
    and the theorems about it are proved from the class's laws. *)
From S2P Require Import Prelude RustStd.

(** ** Observable actions of a handler *)
Inductive event :=
| EvWrite (bs : list Z)                     (** bytes sent to the client *)
| EvConnect (target : list Z)               (** [TcpStream::connect(target)] *)
| EvRelay (target : list Z) (up down : list Z)
    (** both copy loops ran to the end: [up] went to the target, [down] to the client *)
| EvForward (target bs : list Z).           (** one write of a relay to its target *)

#[export] Instance event_eq_dec : EqDecision event.
Proof. solve_decision. Defined.

(** ** The interface of a byte source *)
Class Source (S : Type) := {
  pending : S -> list Z;              (** bytes before the end of the stream *)
  trace : S -> list event;            (** what has been done so far *)
  read_exact : nat -> M S (list Z);   (** [AsyncReadExt::read_exact] *)
}.

Class SourceLaws (S : Type) `{Source S} : Prop := {
  read_exact_done n s :
    (n <= length (pending s))%nat ->
    exists s', read_exact n s = (Done (take n (pending s)), s') /\
               pending s' = drop n (pending s) /\ trace s' = trace s;
  read_exact_eof n s :
    (length (pending s) < n)%nat ->
    exists s', read_exact n s = (Fail EEof, s') /\ trace s' = trace s /\ pending s' = [];
}.

Definition read_u8 {S} `{Source S} : M S Z := bs ← read_exact 1; mret (be_val bs).
Definition read_u16 {S} `{Source S} : M S Z := bs ← read_exact 2; mret (be_val bs).

(** ** A logic of decoders *)
Section logic.
Context {S : Type} `{SourceLaws S}.

(** On input [bs ++ rest], [m] returns [a], consumes exactly [bs] and does
    nothing else. *)
Definition reads {A} (m : M S A) (bs : list Z) (a : A) : Prop :=
  forall s rest, pending s = bs ++ rest ->
  exists s', m s = (Done a, s') /\ pending s' = rest /\ trace s' = trace s.

(** On any input starting with [bs], [m] fails with [e]. *)
Definition rejects {A} (m : M S A) (bs : list Z) (e : error) : Prop :=
  forall s rest, pending s = bs ++ rest ->
  exists s', m s = (Fail e, s') /\ trace s' = trace s.

(** Whenever [m] returns [a], what it consumed is related to [a] by [P]. *)
Definition sound {A} (m : M S A) (P : list Z -> A -> Prop) : Prop :=
  forall s a s', bytes_ok (pending s) -> m s = (Done a, s') ->
  exists bs, pending s = bs ++ pending s' /\ P bs a /\ trace s' = trace s.

(** Whatever the input, [m] does not panic and has no visible effect. *)
Definition quiet {A} (m : M S A) : Prop :=
  forall s, (m s).1 <> Panic /\ trace (m s).2 = trace s.

Lemma reads_ret {A} (a : A) : reads (mret a) [] a.
Proof. intros s rest Hp. exists s. by rewrite Hp. Qed.

Lemma reads_bind {A B} (m : M S A) (f : A -> M S B) bs1 bs2 a b :
  reads m bs1 a -> reads (f a) bs2 b -> reads (m ≫= f) (bs1 ++ bs2) b.
Proof.
  intros Hm Hf s rest Hp. rewrite <- app_assoc in Hp.
  destruct (Hm _ _ Hp) as (s1 & E1 & P1 & T1).
  destruct (Hf _ _ P1) as (s2 & E2 & P2 & T2).
  exists s2. rewrite (bind_step _ _ _ _ _ E1). split_and!; congruence.
Qed.

(** The last step of a decoder: nothing more is read. *)
Lemma reads_bind_r {A B} (m : M S A) (f : A -> M S B) bs a b :
  reads m bs a -> reads (f a) [] b -> reads (m ≫= f) bs b.
Proof. intros. rewrite <- (app_nil_r bs). by eapply reads_bind. Qed.

Lemma reads_exact n bs : length bs = n -> reads (read_exact n) bs bs.
Proof.
  intros <- s rest Hp. destruct (read_exact_done (length bs) s) as (s' & E & P & T).
  { rewrite Hp, length_app. lia. }
  rewrite Hp, take_app_length in E. rewrite Hp, drop_app_length in P. by exists s'.
Qed.

Lemma reads_u8 b : reads read_u8 [b] b.
Proof.
  apply reads_bind_r with [b]; [by apply reads_exact|].
  unfold be_val; simpl. by apply reads_ret.
Qed.

Lemma reads_u16 z : 0 <= z < 65536 -> reads read_u16 (be_bytes 2 z) z.
Proof.
  intros Hz. eapply reads_bind_r; [by apply reads_exact, length_be_bytes|].
  rewrite be_val_bytes by done. apply reads_ret.
Qed.

Lemma reads_lift {A} (o : outcome A) a : o = Done a -> reads (lift o) [] a.
Proof. intros -> s rest Hp. exists s. by rewrite Hp. Qed.

Lemma rejects_fail {A} e : rejects (A := A) (fail e) [] e.
Proof. intros s rest Hp. by exists s. Qed.

Lemma rejects_lift {A} (o : outcome A) e : o = Fail e -> rejects (lift o) [] e.
Proof. intros -> s rest Hp. by exists s. Qed.

Lemma rejects_bind {A B} (m : M S A) (f : A -> M S B) bs1 bs2 a e :
  reads m bs1 a -> rejects (f a) bs2 e -> rejects (m ≫= f) (bs1 ++ bs2) e.
Proof.
  intros Hm Hf s rest Hp. rewrite <- app_assoc in Hp.
  destruct (Hm _ _ Hp) as (s1 & E1 & P1 & T1).
  destruct (Hf _ _ P1) as (s2 & E2 & T2).
  exists s2. rewrite (bind_step _ _ _ _ _ E1). split; congruence.
Qed.

Lemma rejects_bind_l {A B} (m : M S A) (f : A -> M S B) bs e :
  rejects m bs e -> rejects (m ≫= f) bs e.
Proof.
  intros Hm s rest Hp. destruct (Hm _ _ Hp) as (s1 & E1 & T1).
  exists s1. by rewrite (bind_fail _ _ _ _ _ E1).
Qed.

Lemma sound_ret {A} (a : A) (P : list Z -> A -> Prop) : P [] a -> sound (mret a) P.
Proof. intros HP s a' s' _ [= <- <-]. by exists []. Qed.

Lemma sound_fail {A} e (P : list Z -> A -> Prop) : sound (fail e) P.
Proof. by intros s a s' _ [=]. Qed.

Lemma sound_panic {A} (P : list Z -> A -> Prop) : sound panic P.
Proof. by intros s a s' _ [=]. Qed.

Lemma sound_lift {A} (o : outcome A) (P : list Z -> A -> Prop) :
  (forall a, o = Done a -> P [] a) -> sound (lift o) P.
Proof. intros HP s a s' _ [= Ho <-]. exists []. auto. Qed.

Lemma sound_impl {A} (m : M S A) (P Q : list Z -> A -> Prop) :
  sound m P -> (forall bs a, P bs a -> Q bs a) -> sound m Q.
Proof. intros Hm HPQ s a s' Hok E. destruct (Hm s a s' Hok E) as (bs & ? & ? & ?). eauto. Qed.

Lemma sound_bind {A B} (m : M S A) (f : A -> M S B)
    (P : list Z -> A -> Prop) (R : list Z -> B -> Prop) :
  sound m P ->
  (forall bs1 a, bytes_ok bs1 -> P bs1 a -> sound (f a) (fun bs2 b => R (bs1 ++ bs2) b)) ->
  sound (m ≫= f) R.
Proof.
  intros Hm Hf s b s' Hok Hb. apply bind_Done in Hb as (a & s1 & E1 & E2).
  destruct (Hm _ _ _ Hok E1) as (bs1 & P1 & Ha & T1).
  rewrite P1 in Hok. apply Forall_app in Hok as [Hok1 Hok2].
  destruct (Hf _ _ Hok1 Ha _ _ _ Hok2 E2) as (bs2 & P2 & HR & T2).
  exists (bs1 ++ bs2). rewrite P1, P2, app_assoc. split_and!; congruence.
Qed.

Lemma sound_exact n : sound (read_exact n) (fun bs x => bs = x /\ length bs = n).
Proof.
  intros s a s' _ E. destruct (decide (n <= length (pending s))%nat) as [Hl|Hl].
  - destruct (read_exact_done n s Hl) as (s1 & E1 & P1 & T1).
    rewrite E1 in E. injection E as <- <-. exists (take n (pending s)).
    rewrite P1, take_drop, length_take. split_and!; [done|done|lia|done].
  - destruct (read_exact_eof n s) as (s1 & E1 & _); [lia|]. congruence.
Qed.

Lemma sound_u8 : sound read_u8 (fun bs b => bs = [b] /\ byte_ok b).
Proof.
  eapply sound_bind; [apply sound_exact|]. intros bs1 a Hok [<- Hl].
  apply sound_ret. rewrite app_nil_r. destruct bs1 as [|b [|]]; try done.
  apply Forall_inv in Hok. split; [done|exact Hok].
Qed.

Lemma sound_u16 : sound read_u16 (fun bs z => bs = be_bytes 2 z /\ 0 <= z < 65536).
Proof.
  eapply sound_bind; [apply sound_exact|]. intros bs1 a Hok [<- Hl].
  apply sound_ret. rewrite app_nil_r, be_bytes_val by done. split; [done|].
  pose proof (be_val_bound bs1 Hok) as Hb. by rewrite Hl in Hb.
Qed.

Lemma quiet_ret {A} (a : A) : quiet (mret a).
Proof. done. Qed.
Lemma quiet_fail {A} e : quiet (A := A) (fail e).
Proof. done. Qed.
Lemma quiet_lift {A} (o : outcome A) : o <> Panic -> quiet (lift o).
Proof. done. Qed.
Lemma quiet_bind {A B} (m : M S A) (f : A -> M S B) :
  quiet m -> (forall s a s', m s = (Done a, s') -> quiet (f a)) -> quiet (m ≫= f).
Proof.
  intros Hm Hf s. unfold mbind, M_bind. destruct (Hm s) as [Hp Ht].
  destruct (m s) as [[a|e|] s1] eqn:E; simpl in *; try done.
  destruct (Hf _ _ _ E s1) as [Hp2 Ht2]. by rewrite Ht2.
Qed.
Lemma quiet_exact n : quiet (read_exact n).
Proof.
  intros s. destruct (decide (n <= length (pending s))%nat) as [Hl|Hl].
  - destruct (read_exact_done n s Hl) as (s1 & -> & _ & T1). done.
  - destruct (read_exact_eof n s) as (s1 & -> & T1 & _); [lia|]. done.
Qed.
Lemma quiet_u8 : quiet read_u8.
Proof. eapply quiet_bind; [apply quiet_exact|]. intros; apply quiet_ret. Qed.
Lemma quiet_u16 : quiet read_u16.
Proof. eapply quiet_bind; [apply quiet_exact|]. intros; apply quiet_ret. Qed.
Lemma exact_length n s a s' : read_exact n s = (Done a, s') -> length a = n.
Proof.
  intros E. destruct (decide (n <= length (pending s))%nat) as [Hl|Hl].
  - destruct (read_exact_done n s Hl) as (s1 & E1 & _). rewrite E1 in E. injection E as <- _.
    rewrite length_take. lia.
  - destruct (read_exact_eof n s) as (s1 & E1 & _); [lia|]. congruence.
Qed.

(** Soundness and quietness of one run, together. *)
Lemma run_spec {A} (m : M S A) P s o s1 :
  sound m P -> quiet m -> bytes_ok (pending s) -> m s = (o, s1) ->
  o <> Panic /\ trace s1 = trace s /\
  (forall a, o = Done a -> exists bs, pending s = bs ++ pending s1 /\ P bs a).
Proof.
  intros Hm Hq Hok E. specialize (Hq s). rewrite E in Hq. destruct Hq as [Hp Ht].
  split_and!; [done..|]. intros a ->. destruct (Hm _ _ _ Hok E) as (bs & ? & ? & _). eauto.
Qed.

End logic.

Create HintDb dec.
#[export] Hint Resolve reads_ret reads_u8 reads_u16 reads_lift : dec.
#[export] Hint Resolve rejects_fail rejects_lift : dec.
#[export] Hint Resolve sound_ret sound_fail sound_panic sound_u8 sound_u16 sound_exact : dec.
#[export] Hint Resolve quiet_ret quiet_fail quiet_lift quiet_exact quiet_u8 quiet_u16 : dec.

(** ** Two sources *)

(** A slice behind a [Cursor]. *)
#[export] Instance slice_source : Source (list Z) := {
  pending := id;
  trace := fun _ => [];
  read_exact := fun n s =>
    if decide (n <= length s)%nat then (Done (take n s), drop n s) else (Fail EEof, []);
}.
#[export] Instance slice_laws : SourceLaws (list Z).
Proof.
  split; intros n s Hn; simpl in *; unfold read_exact; simpl.
  - rewrite decide_True by done. eauto.
  - rewrite decide_False by lia. eauto.
Qed.

(** ** Byte buffers in the logic

    A buffer read with the [get_*] methods behind a test of [remaining]. *)
Section buffers.
Lemma reads_copy n bs : length bs = n -> reads (copy_to_slice n) bs bs.
Proof.
  intros <- s rest Hp. simpl in Hp. unfold id in Hp. subst s. exists rest.
  unfold copy_to_slice. rewrite decide_True by (rewrite length_app; lia).
  by rewrite take_app_length, drop_app_length.
Qed.
Lemma reads_get_u8 b : reads get_u8 [b] b.
Proof.
  apply reads_bind_r with [b]; [by apply reads_copy|]. unfold be_val; simpl. apply reads_ret.
Qed.
Lemma reads_get_u16 z : 0 <= z < 65536 -> reads get_u16 (be_bytes 2 z) z.
Proof.
  intros Hz. eapply reads_bind_r; [by apply reads_copy, length_be_bytes|].
  rewrite be_val_bytes by done. apply reads_ret.
Qed.
Lemma reads_get_u32 z : 0 <= z < 2 ^ 32 -> reads get_u32 (be_bytes 4 z) z.
Proof.
  intros Hz. eapply reads_bind_r; [by apply reads_copy, length_be_bytes|].
  rewrite be_val_bytes by done. apply reads_ret.
Qed.
Lemma reads_advance n bs : length bs = n -> reads (advance n) bs tt.
Proof. intros. eapply reads_bind_r; [by apply reads_copy|]. apply reads_ret. Qed.
Lemma reads_remaining {A} n msg (m : M (list Z) A) bs a :
  (n <= length bs)%nat -> reads m bs a ->
  reads (rem ← remaining; if decide (rem < n)%nat then bail msg else m) bs a.
Proof.
  intros Hn Hm s rest Hp. unfold mbind, M_bind, remaining.
  simpl in Hp. unfold id in Hp. subst s.
  rewrite decide_False by (rewrite length_app; lia). by apply Hm.
Qed.

Lemma sound_copy n : sound (copy_to_slice n) (fun bs x => bs = x /\ length bs = n).
Proof.
  intros s a s' _ E. unfold copy_to_slice in E. case_decide; [|done]. injection E as <- <-.
  exists (take n s). simpl. unfold id. rewrite take_drop, length_take. split_and!; auto; lia.
Qed.
Lemma sound_get_u8 : sound get_u8 (fun bs b => bs = [b] /\ byte_ok b).
Proof.
  eapply sound_bind; [apply sound_copy|]. intros bs1 a Hok [<- Hl].
  apply sound_ret. rewrite app_nil_r. destruct bs1 as [|b [|]]; try done.
  apply Forall_inv in Hok. split; [done|exact Hok].
Qed.
Lemma sound_get_u16 : sound get_u16 (fun bs z => bs = be_bytes 2 z /\ 0 <= z < 65536).
Proof.
  eapply sound_bind; [apply sound_copy|]. intros bs1 a Hok [<- Hl].
  apply sound_ret. rewrite app_nil_r, be_bytes_val by done. split; [done|].
  pose proof (be_val_bound bs1 Hok) as Hb. by rewrite Hl in Hb.
Qed.
Lemma sound_advance n : sound (advance n) (fun bs _ => length bs = n).
Proof. eapply sound_bind; [apply sound_copy|]. intros bs1 ? _ [-> <-]. apply sound_ret. by rewrite app_nil_r. Qed.
Lemma sound_remaining : sound remaining (fun bs _ => bs = []).
Proof. intros s a s' _ [= <- <-]. by exists []. Qed.

Lemma quiet_remaining : quiet remaining.
Proof. done. Qed.
(** A read behind the test that the bytes are there does not panic. *)
Lemma quiet_guarded {A B} n msg (m : M (list Z) B) (f : B -> M (list Z) A) :
  (forall s, (n <= length s)%nat -> exists b, m s = (Done b, drop n s)) ->
  (forall b, quiet (f b)) ->
  quiet (rem ← remaining; if decide (rem < n)%nat then bail msg else m ≫= f).
Proof.
  intros Hm Hf s. unfold mbind, M_bind, remaining. case_decide; [done|].
  destruct (Hm s) as [b ->]; [lia|]. exact (Hf b (drop n s)).
Qed.
Lemma copy_ok n s : (n <= length s)%nat -> exists b, copy_to_slice n s = (Done b, drop n s).
Proof. intros. unfold copy_to_slice. rewrite decide_True by done. eauto. Qed.
Lemma get_u8_ok s : (1 <= length s)%nat -> exists b, get_u8 s = (Done b, drop 1 s).
Proof.
  intros Hs. destruct (copy_ok 1 s Hs) as [b E]. unfold get_u8.
  rewrite (bind_step _ _ _ _ _ E). eexists; reflexivity.
Qed.
Lemma get_u16_ok s : (2 <= length s)%nat -> exists b, get_u16 s = (Done b, drop 2 s).
Proof.
  intros Hs. destruct (copy_ok 2 s Hs) as [b E]. unfold get_u16.
  rewrite (bind_step _ _ _ _ _ E). eexists; reflexivity.
Qed.
Lemma advance_ok n s : (n <= length s)%nat -> exists b, advance n s = (Done b, drop n s).
Proof.
  intros Hs. destruct (copy_ok n s Hs) as [b E]. unfold advance.
  rewrite (bind_step _ _ _ _ _ E). eexists; reflexivity.
Qed.
End buffers.
#[export] Hint Resolve reads_copy reads_get_u8 reads_get_u16 reads_advance : dec.
#[export] Hint Resolve sound_copy sound_get_u8 sound_get_u16 sound_advance sound_remaining : dec.
#[export] Hint Resolve quiet_remaining copy_ok get_u8_ok get_u16_ok advance_ok : dec.

(** A client socket: what the client still sends (then it closes its side), and
    the actions so far. *)
Record conn := Conn { c_in : list Z; c_trace : list event }.

#[export] Instance conn_source : Source conn := {
  pending := c_in;
  trace := c_trace;
  read_exact := fun n s =>
    if decide (n <= length (c_in s))%nat
    then (Done (take n (c_in s)), Conn (drop n (c_in s)) (c_trace s))
    else (Fail EEof, Conn [] (c_trace s));
}.
#[export] Instance conn_laws : SourceLaws conn.
Proof.
  split; intros n s Hn; simpl in *; unfold read_exact; simpl.
  - rewrite decide_True by done. eauto.
  - rewrite decide_False by lia. eauto.
Qed.

(** ** The world a handler talks to

    Whether a write to the client succeeds, how a connection attempt ends, how
    many bytes the target takes before its side breaks, and what the client gets
    of what the target sends: arbitrary functions of the actions so far, so
    every theorem holds for every behaviour of the network. *)
Inductive connect_result := ConnOk | ConnRefused | ConnTimeout.

Record env := Env {
  env_write_ok : list event -> bool;
  env_connect : list event -> list Z -> connect_result;
  env_up : list event -> list Z -> nat;
  env_remote : list event -> list Z -> list Z;
}.

Definition emit (e : event) : M conn unit :=
  modify (fun s => Conn (c_in s) (c_trace s ++ [e])).

(** [write_all]: on an error nothing is recorded, not even what of it had been written; the
    trace has the writes that succeeded. *)
Definition write_all (E : env) (bs : list Z) : M conn unit := fun s =>
  if env_write_ok E (c_trace s) then emit (EvWrite bs) s else (Fail EIo, s).

(** [TcpStream::connect]; [ConnTimeout] is only told apart by callers that wrap
    it in [tokio::time::timeout]. *)
Definition tcp_connect (E : env) (target : list Z) : M conn connect_result := fun s =>
  (Done (env_connect E (c_trace s) target),
   Conn (c_in s) (c_trace s ++ [EvConnect target])).

(** Both [tokio::io::copy] loops until each has ended: at the end of its input
    or when a write fails.  Their errors are logged and dropped. *)
Definition copy_bidirectional (E : env) (target : list Z) : M conn unit := fun s =>
  (Done tt, Conn [] (c_trace s ++
     [EvRelay target (take (env_up E (c_trace s) target) (c_in s))
                     (env_remote E (c_trace s) target)])).

(** A peer that collects what is written to it. *)
Definition list_sink (d x : list Z) : outcome unit * list Z := (Done tt, x ++ d).
(** The reads of a peer up to the first empty one. *)
Fixpoint until_eof (reads : list (list Z)) : list (list Z) :=
  match reads with [] => [] | [] :: _ => [] | x :: r => x :: until_eof r end.

(** The targets connected to, in order. *)
Definition connects (tr : list event) : list (list Z) :=
  omap (fun e => match e with EvConnect t => Some t | _ => None end) tr.
(** The bytes written to the client, in order. *)
Definition written (tr : list event) : list Z :=
  e ← tr; match e with EvWrite bs => bs | EvRelay _ _ down => down | _ => [] end.

Lemma connects_app t1 t2 : connects (t1 ++ t2) = connects t1 ++ connects t2.
Proof. apply omap_app. Qed.
Lemma written_app t1 t2 : written (t1 ++ t2) = written t1 ++ written t2.
Proof. apply bind_app. Qed.

(** Everything the client has been sent. *)
Definition sent_on (s : conn) : list Z := written (c_trace s).

Lemma sent_diff s s' l d : c_trace s' = c_trace s ++ l -> sent_on s' = sent_on s ++ d -> written l = d.
Proof. unfold sent_on. intros ->. rewrite written_app. apply app_inv_head. Qed.

Lemma write_all_ok E :
  (forall tr, env_write_ok E tr = true) ->
  forall d s, exists s', write_all E d s = (Done tt, s') /\ sent_on s' = sent_on s ++ d.
Proof.
  intros Hw d s. unfold write_all. rewrite Hw. eexists; split; [done|].
  unfold sent_on. simpl. rewrite written_app. simpl. by rewrite app_nil_r.
Qed.

(** ** The logic at a socket *)

Lemma sound_conn {A} (m : M conn A) P s a s' :
  sound m P -> bytes_ok (c_in s) -> m s = (Done a, s') ->
  exists bs, c_in s = bs ++ c_in s' /\ P bs a /\ c_trace s' = c_trace s.
Proof. intros Hm. exact (Hm s a s'). Qed.

Lemma sound_slice {A} (m : M (list Z) A) P s a s' :
  sound m P -> bytes_ok s -> m s = (Done a, s') -> exists bs, s = bs ++ s' /\ P bs a.
Proof. intros Hm Hok E. destruct (Hm s a s' Hok E) as (bs & P1 & ? & _). by exists bs. Qed.

Lemma run_conn {A} (m : M conn A) P s o s1 :
  sound m P -> quiet m -> bytes_ok (c_in s) -> m s = (o, s1) ->
  o <> Panic /\ c_trace s1 = c_trace s /\
  (forall a, o = Done a -> exists bs, c_in s = bs ++ c_in s1 /\ P bs a).
Proof. exact (run_spec m P s o s1). Qed.

Lemma quiet_conn {A} (m : M conn A) s o s' :
  quiet m -> m s = (o, s') -> o <> Panic /\ c_trace s' = c_trace s.
Proof. intros Hm E. specialize (Hm s). rewrite E in Hm. exact Hm. Qed.

Lemma reads_conn {A} (m : M conn A) bs a rest tr :
  reads m bs a -> m (Conn (bs ++ rest) tr) = (Done a, Conn rest tr).
Proof.
  intros Hm. destruct (Hm (Conn (bs ++ rest) tr) rest eq_refl) as ([i t] & E & P & T).
  simpl in *. by subst.
Qed.

Lemma rejects_conn {A} (m : M conn A) bs e rest tr :
  rejects m bs e -> exists i, m (Conn (bs ++ rest) tr) = (Fail e, Conn i tr).
Proof.
  intros Hm. destruct (Hm (Conn (bs ++ rest) tr) rest eq_refl) as ([i t] & E & T).
  simpl in *. subst. eauto.
Qed.

(** ** Handlers

    [does m P]: on every socket, what [m] consumes, what it does and how it
    ends are related by [P]. *)
Definition does {A} (m : M conn A) (P : list Z -> list event -> outcome A -> Prop) : Prop :=
  forall s o s', bytes_ok (c_in s) -> m s = (o, s') ->
  exists bs l, c_in s = bs ++ c_in s' /\ c_trace s' = c_trace s ++ l /\ P bs l o.

Lemma does_impl {A} (m : M conn A) (P Q : list Z -> list event -> outcome A -> Prop) :
  does m P -> (forall bs l o, P bs l o -> Q bs l o) -> does m Q.
Proof. intros Hm HPQ s o s' Hok E. destruct (Hm s o s' Hok E) as (bs & l & ? & ? & ?). exists bs, l. auto. Qed.

Lemma does_bind {A B} (m : M conn A) (f : A -> M conn B) P (R : list Z -> list event -> outcome B -> Prop) :
  does m P ->
  (forall bs l e, P bs l (Fail e) -> R bs l (Fail e)) ->
  (forall bs l, P bs l Panic -> R bs l Panic) ->
  (forall bs l a, bytes_ok bs -> P bs l (Done a) -> does (f a) (fun bs2 l2 o => R (bs ++ bs2) (l ++ l2) o)) ->
  does (m ≫= f) R.
Proof.
  intros Hm He Hp Hf s o s' Hok E. unfold mbind, M_bind in E. destruct (m s) as [om s1] eqn:Em.
  destruct (Hm s om s1 Hok Em) as (bs & l & E1 & E2 & HP). destruct om as [a|e|].
  - rewrite E1 in Hok. apply Forall_app in Hok as [Hok1 Hok2].
    destruct (Hf bs l a Hok1 HP s1 o s' Hok2 E) as (bs2 & l2 & E3 & E4 & HR).
    exists (bs ++ bs2), (l ++ l2). rewrite E1, E3, E4, E2, <- !app_assoc. done.
  - injection E as <- <-. exists bs, l. auto.
  - injection E as <- <-. exists bs, l. auto.
Qed.

(** A decoder in a handler. *)
Lemma does_read {A} (m : M conn A) P :
  sound m P -> quiet m -> (forall s o s', m s = (o, s') -> exists bs, c_in s = bs ++ c_in s') ->
  does m (fun bs l o => l = [] /\ o <> Panic /\ forall a, o = Done a -> P bs a).
Proof.
  intros Hm Hq Hc s o s' Hok E. destruct (run_conn m P s o s' Hm Hq Hok E) as (Hp & Ht & Hd).
  destruct o as [a|e|]; [|destruct (Hc s _ s' E) as [bs Hbs]; exists bs, []; rewrite app_nil_r; split_and!; done..].
  destruct (Hd a eq_refl) as (bs & E1 & HP). exists bs, []. rewrite app_nil_r. split_and!; [done..|].
  by intros ? [= <-].
Qed.

(** A handler only consumes. *)
Definition consumes {A} (m : M conn A) : Prop := forall s o s', m s = (o, s') -> exists bs, c_in s = bs ++ c_in s'.
Lemma consumes_ret {A} (o : outcome A) : consumes (lift o).
Proof. intros s o' s' [= _ <-]. by exists []. Qed.
Lemma consumes_exact n : consumes (read_exact n).
Proof.
  intros s o s'. unfold read_exact. simpl. case_decide; intros [= _ <-]; simpl; [|exists (c_in s); by rewrite app_nil_r].
  exists (take n (c_in s)). by rewrite take_drop.
Qed.
Lemma consumes_bind {A B} (m : M conn A) (f : A -> M conn B) :
  consumes m -> (forall a, consumes (f a)) -> consumes (m ≫= f).
Proof.
  intros Hm Hf s o s'. unfold mbind, M_bind. destruct (m s) as [om s1] eqn:Em. destruct (Hm _ _ _ Em) as [bs1 E1].
  destruct om as [a|e|]; [|intros [= _ <-]; by exists bs1..]. intros E. destruct (Hf _ _ _ _ E) as [bs2 E2].
  exists (bs1 ++ bs2). by rewrite E1, E2, app_assoc.
Qed.
Lemma consumes_u8 : consumes read_u8.
Proof. apply consumes_bind; [apply consumes_exact|]. intros a. exact (consumes_ret (Done (be_val a))). Qed.
Lemma consumes_u16 : consumes read_u16.
Proof. apply consumes_bind; [apply consumes_exact|]. intros a. exact (consumes_ret (Done (be_val a))). Qed.

Lemma does_exact n : does (read_exact n)
  (fun bs l o => l = [] /\ o <> Panic /\ forall a, o = Done a -> bs = a /\ length bs = n).
Proof. apply (does_read _ (fun bs a => bs = a /\ length bs = n)); [apply sound_exact|apply quiet_exact|apply consumes_exact]. Qed.
Lemma does_u8 : does read_u8
  (fun bs l o => l = [] /\ o <> Panic /\ forall b, o = Done b -> bs = [b] /\ byte_ok b).
Proof. apply (does_read _ (fun bs b => bs = [b] /\ byte_ok b)); [apply sound_u8|apply quiet_u8|apply consumes_u8]. Qed.
Lemma does_lift {A} (o : outcome A) : does (lift o) (fun bs l o' => bs = [] /\ l = [] /\ o' = o).
Proof. intros s o' s' _ [= <- <-]. exists [], []. by rewrite app_nil_r. Qed.
Lemma does_write E d : does (write_all E d)
  (fun bs l o => bs = [] /\ (o = Done tt /\ l = [EvWrite d] \/ o = Fail EIo /\ l = [])).
Proof.
  intros s o s' _. unfold write_all. destruct (env_write_ok E (c_trace s)); intros [= <- <-]; simpl.
  - exists [], [EvWrite d]. split_and!; auto.
  - exists [], []. rewrite app_nil_r. split_and!; auto.
Qed.
Lemma does_connect E t : does (tcp_connect E t) (fun bs l o => bs = [] /\ l = [EvConnect t] /\ exists r, o = Done r).
Proof. intros s o s' _ [= <- <-]. exists [], [EvConnect t]. split_and!; eauto. Qed.
Lemma does_copy E t : does (copy_bidirectional E t)
  (fun bs l o => o = Done tt /\ exists up down, l = [EvRelay t up down] /\ up `prefix_of` bs).
Proof.
  intros s o s' _ [= <- <-]. simpl. exists (c_in s). eexists. rewrite app_nil_r. split_and!; [done..|].
  eexists _, _. split; [done|]. eexists. symmetry. apply take_drop.
Qed.

Ltac run_inv H ::=
  unfold copy_bidirectional, emit, bail, fail, panic, lift, modify, mret, M_ret in H;
  simpl in H; simplify_eq.
