(* ===== verification/Target.v ===== *)
(** * Abstract proxy targets

    The specification side of every request decoder: a target is an IPv4
    address, a domain or an IPv6 address together with a port.  [target_text]
    is the "host:port" text the handlers hand to [TcpStream::connect];
    [host_wire] is the type-length-value form on the wire, for a protocol's
    three address-type codes. *)
From S2P Require Import Prelude RustStd Net.

Inductive host :=
| HIp4 (octets : list Z)
| HDomain (name : list Z)
| HIp6 (octets : list Z).

Definition host_ok (h : host) : Prop :=
  match h with
  | HIp4 o => length o = 4%nat /\ bytes_ok o
  | HDomain d => (length d <= 255)%nat /\ bytes_ok d /\ utf8_valid d = true
  | HIp6 o => length o = 16%nat /\ bytes_ok o
  end.

Definition host_text (h : host) : list Z :=
  match h with
  | HIp4 o => ipv4_to_string o
  | HDomain d => d
  | HIp6 o => [91] ++ ipv6_to_string (segments_of o) ++ [93]
  end.

Definition target_text (h : host) (port : Z) : list Z := host_text h ++ [58] ++ dec port.

Definition host_wire (t4 td t6 : Z) (h : host) : list Z :=
  match h with
  | HIp4 o => t4 :: o
  | HDomain d => td :: Z.of_nat (length d) :: d
  | HIp6 o => t6 :: o
  end.

Definition port_ok (p : Z) : Prop := 0 <= p < 65536.

#[export] Instance port_ok_dec p : Decision (port_ok p).
Proof. unfold port_ok. apply _. Defined.
#[export] Instance host_ok_dec h : Decision (host_ok h).
Proof. destruct h; simpl; apply _. Defined.

(** The host part can be recovered from a target text: cut at the last colon. *)
Lemma target_text_split h p :
  0 <= p -> rsplit_once 58 (target_text h p) = Some (host_text h, dec p).
Proof. intros. by apply rsplit_once_app, dec_no_colon. Qed.

(** ** Building blocks of the address decoders *)
Section blocks.
Context {S : Type} `{SourceLaws S}.

Lemma reads_utf8 d : utf8_valid d = true -> reads (lift (from_utf8 d)) [] d.
Proof. intros Hd. apply reads_lift. unfold from_utf8. by rewrite Hd. Qed.

Lemma sound_utf8 d (P : list Z -> list Z -> Prop) :
  (utf8_valid d = true -> P [] d) -> sound (lift (from_utf8 d)) P.
Proof.
  intros HP. apply sound_lift. unfold from_utf8. intros a. case_match; [|done].
  intros [= <-]. auto.
Qed.

Lemma quiet_utf8 d : quiet (lift (from_utf8 d)).
Proof. apply quiet_lift. unfold from_utf8. by case_match. Qed.
End blocks.
#[export] Hint Resolve reads_utf8 quiet_utf8 : dec.

(** Step through a decoder's binds; the tests of its guards are decided by
    [lia] or by the context. *)
Ltac guard_true := rewrite ?bool_decide_eq_true_2 by (done || lia);
  repeat match goal with
  | |- context [decide ?P] =>
      first [rewrite (decide_True (P := P)) by (done || lia)
            | rewrite (decide_False (P := P)) by (done || lia)]
  end.

Ltac sound_step :=
  first
  [ eapply sound_bind; [solve [eauto with dec] | intros ? ? ? ?; simpl in *; destruct_and?; subst]
  | apply sound_fail | apply sound_panic
  | case_decide; simplify_eq/= ].

Ltac quiet_step :=
  first
  [ solve [eauto with dec]
  | eapply quiet_bind; [|intros ? ? ? ?]
  | case_decide | case_match ].
Ltac quiet_solve := repeat quiet_step.

(** ** The SOCKS5 form of an address

    Type 1, 3 or 4, then the address; the SOCKS5 and Trojan handlers read it
    with the same code, apart from what they do at an unknown type. *)
Section socks_form.
Context {S : Type} `{SourceLaws S}.

Definition read_host (unknown : M S (list Z)) (atyp : Z) : M S (list Z) :=
  if decide (atyp = 0x01) then
    b ← read_exact 4;
    mret (ipv4_to_string b)
  else if decide (atyp = 0x03) then
    len ← read_u8;
    b ← read_exact (Z.to_nat len);
    lift (from_utf8 b)
  else if decide (atyp = 0x04) then
    b ← read_exact 16;
    mret ([91] ++ ipv6_to_string (segments_of b) ++ [93])
  else unknown.

(** The type and the address. *)
Definition read_typed_host (unknown : Z -> M S (list Z)) : M S (list Z) :=
  atyp ← read_u8; read_host (unknown atyp) atyp.

Lemma reads_typed_host unknown h :
  host_ok h -> reads (read_typed_host unknown) (host_wire 1 3 4 h) (host_text h).
Proof.
  intros Hh. unfold read_typed_host, read_host. destruct h as [o|d|o]; cbn [host_wire host_text host_ok] in *.
  - eapply (reads_bind _ _ [1] o); [apply reads_u8|]. guard_true.
    eapply reads_bind_r; [apply reads_exact; tauto|]. apply reads_ret.
  - eapply (reads_bind _ _ [3] (_ :: d)); [apply reads_u8|]. guard_true.
    eapply (reads_bind _ _ [_] d); [apply reads_u8|]. rewrite Nat2Z.id.
    eapply reads_bind_r; [by apply reads_exact|]. apply reads_utf8. tauto.
  - eapply (reads_bind _ _ [4] o); [apply reads_u8|]. guard_true.
    eapply reads_bind_r; [apply reads_exact; tauto|]. apply reads_ret.
Qed.

(** At a known type, whatever is done at an unknown one. *)
Lemma sound_known_host unknown atyp :
  atyp = 1 \/ atyp = 3 \/ atyp = 4 ->
  sound (read_host unknown atyp) (fun bs t => exists h, host_ok h /\ t = host_text h /\ atyp :: bs = host_wire 1 3 4 h).
Proof.
  intros Ht. unfold read_host. repeat case_decide; subst; [..|lia].
  - eapply sound_bind; [apply sound_exact|]. intros o o' Ho [-> Hl]. apply sound_ret. rewrite app_nil_r.
    by exists (HIp4 o').
  - eapply sound_bind; [apply sound_u8|]. intros b2 len Hlb [-> Hb].
    eapply sound_bind; [apply sound_exact|]. intros d d' Hd [-> Hl]. apply sound_utf8. intros Hu.
    rewrite app_nil_r. unfold byte_ok in Hb. exists (HDomain d'). simpl. rewrite Hl, Z2Nat.id by lia.
    split_and!; [lia|done..].
  - eapply sound_bind; [apply sound_exact|]. intros o o' Ho [-> Hl]. apply sound_ret. rewrite app_nil_r.
    by exists (HIp6 o').
Qed.

Lemma quiet_known_host unknown atyp : atyp = 1 \/ atyp = 3 \/ atyp = 4 -> quiet (read_host unknown atyp).
Proof. intros Ht. unfold read_host. repeat case_decide; subst; [quiet_solve..|lia]. Qed.
End socks_form.
