(* ===== verification/Aead.v ===== *)
(** * Authenticated encryption, as an interface

    The protocols use the ciphers of the RustCrypto crates [aes-gcm] and
    [chacha20poly1305].  They are not part of the program: a cipher is a
    parameter, with the documented behaviour of the [Aead] trait as laws.  [C]
    is the program's own cipher enumeration. *)
From S2P Require Import Prelude.

Class Aead (C : Type) := {
  aead_key : C -> list Z -> bool;
    (** [new_from_slice] accepts this key *)
  aead_seal_ad : C -> list Z -> list Z -> list Z -> list Z -> option (list Z);
    (** [encrypt] under key, nonce and associated data *)
  aead_open_ad : C -> list Z -> list Z -> list Z -> list Z -> option (list Z);
    (** [decrypt] under key, nonce and associated data *)
}.

(** Without associated data. *)
Definition aead_seal {C} `{Aead C} (c : C) (k n pt : list Z) : option (list Z) :=
  aead_seal_ad c k n [] pt.
Definition aead_open {C} `{Aead C} (c : C) (k n ct : list Z) : option (list Z) :=
  aead_open_ad c k n [] ct.

Definition TAG_LEN : nat := 16.

(** Sealing a plaintext below [2^16] bytes succeeds and appends a 16-byte tag,
    opening undoes it, and whatever opens was sealed (the tag is a function of
    key, nonce, associated data and plaintext). *)
Class AeadLaws (C : Type) `{Aead C} : Prop := {
  seal_ad_some c k n ad pt :
    aead_key c k = true -> Z.of_nat (length pt) < 65536 ->
    exists ct, aead_seal_ad c k n ad pt = Some ct;
  seal_ad_length c k n ad pt ct :
    aead_seal_ad c k n ad pt = Some ct -> length ct = (length pt + TAG_LEN)%nat;
  open_ad_seal c k n ad pt ct :
    aead_seal_ad c k n ad pt = Some ct -> aead_open_ad c k n ad ct = Some pt;
  seal_ad_open c k n ad pt ct :
    aead_open_ad c k n ad ct = Some pt -> aead_seal_ad c k n ad pt = Some ct;
  open_ad_bytes c k n ad pt ct :
    bytes_ok ct -> aead_open_ad c k n ad ct = Some pt -> bytes_ok pt;
}.

Section no_ad.
Context {C} `{AeadLaws C}.
Lemma seal_some (c : C) k n pt :
  aead_key c k = true -> Z.of_nat (length pt) < 65536 -> exists ct, aead_seal c k n pt = Some ct.
Proof. apply seal_ad_some. Qed.
Lemma seal_length (c : C) k n pt ct :
  aead_seal c k n pt = Some ct -> length ct = (length pt + TAG_LEN)%nat.
Proof. apply seal_ad_length. Qed.
Lemma open_seal (c : C) k n pt ct : aead_seal c k n pt = Some ct -> aead_open c k n ct = Some pt.
Proof. apply open_ad_seal. Qed.
Lemma seal_open (c : C) k n pt ct : aead_open c k n ct = Some pt -> aead_seal c k n pt = Some ct.
Proof. apply seal_ad_open. Qed.
Lemma open_bytes (c : C) k n pt ct : bytes_ok ct -> aead_open c k n ct = Some pt -> bytes_ok pt.
Proof. apply open_ad_bytes. Qed.
Lemma open_ad_length (c : C) k n ad ct pt :
  aead_open_ad c k n ad ct = Some pt -> length ct = (length pt + TAG_LEN)%nat.
Proof. intros E. by eapply seal_ad_length, seal_ad_open. Qed.
End no_ad.

Lemma open_length {C} `{AeadLaws C} c k n ct pt :
  aead_open c k n ct = Some pt -> length ct = (length pt + TAG_LEN)%nat.
Proof. intros E. by eapply seal_length, seal_open. Qed.

(** A cipher to run the definitions with: the plaintext in clear, and a tag
    that depends on key, nonce, associated data and plaintext. *)
Definition toy_tag (k n ad pt : list Z) : list Z :=
  be_bytes 16 (foldl (fun acc b => acc * 257 + b) 0 (k ++ n ++ ad ++ pt)).
Definition toy_seal (k n ad pt : list Z) : option (list Z) :=
  if decide (Z.of_nat (length pt) < 65536) then Some (pt ++ toy_tag k n ad pt) else None.
Definition toy_open (k n ad ct : list Z) : option (list Z) :=
  let pt := take (length ct - TAG_LEN) ct in
  if decide (toy_seal k n ad pt = Some ct) then Some pt else None.

Definition toy_aead {C} (key_len : C -> nat) : Aead C := {|
  aead_key := fun c k => bool_decide (length k = key_len c);
  aead_seal_ad := fun c k n ad pt => if decide (length k = key_len c) then toy_seal k n ad pt else None;
  aead_open_ad := fun c k n ad ct => if decide (length k = key_len c) then toy_open k n ad ct else None;
|}.

Lemma toy_aead_laws {C} (key_len : C -> nat) : @AeadLaws C (toy_aead key_len).
Proof.
  assert (Hlen : forall k n ad pt ct, toy_seal k n ad pt = Some ct ->
    length ct = (length pt + TAG_LEN)%nat /\ take (length ct - TAG_LEN) ct = pt).
  { intros k n ad pt ct. unfold toy_seal. case_decide; [|done]. intros [= <-].
    unfold toy_tag. rewrite length_app, length_be_bytes. split; [done|].
    replace (_ - _)%nat with (length pt) by (unfold TAG_LEN; lia). apply take_app_length. }
  split; simpl; intros c k n ad.
  - intros pt Hk%bool_decide_eq_true_1 Hl. rewrite decide_True by done.
    unfold toy_seal. rewrite decide_True by done. eauto.
  - intros pt ct. case_decide; [|done]. apply Hlen.
  - intros pt ct. case_decide; [|done]. intros Hs. unfold toy_open.
    destruct (Hlen _ _ _ _ _ Hs) as [_ ->]. by rewrite decide_True.
  - intros pt ct. case_decide; [|done]. unfold toy_open. case_decide; [|done].
    by intros [= <-].
  - intros pt ct Hok. case_decide; [|done]. unfold toy_open. case_decide; [|done].
    intros [= <-]. by apply Forall_take.
Qed.
