(* ===== verification/Vless.v ===== *)
(** * VLESS: request decoder, UUID parser and stream handler
    ([src/src/vless/protocol.rs], [src/src/vless/listener.rs]) *)
From S2P Require Import Prelude RustStd Net Target.

Definition VLESS_VERSION : Z := 0x00.
Definition CMD_TCP : Z := 0x01.
Definition CMD_UDP : Z := 0x02.
Definition ATYP_IPV4 : Z := 0x01.
Definition ATYP_DOMAIN : Z := 0x02.
Definition ATYP_IPV6 : Z := 0x03.

Record VlessRequest := { command : Z; target : list Z }.

Section decoder.
Context {S : Type} `{Source S}.

Definition read_address : M S (list Z) :=
  atyp ← read_u8;
  if decide (atyp = ATYP_IPV4) then
    buf ← read_exact 4;
    mret (ipv4_to_string buf)
  else if decide (atyp = ATYP_DOMAIN) then
    domain_len ← read_u8;
    if decide (domain_len = 0) then bail "vless: empty domain"
    else
      domain_buf ← read_exact (Z.to_nat domain_len);
      lift (from_utf8 domain_buf)
  else if decide (atyp = ATYP_IPV6) then
    buf ← read_exact 16;
    mret ([91] ++ ipv6_to_string (segments_of buf) ++ [93])
  else bail "vless: unknown address type".

Definition decode_request (expected_uuid : list Z) : M S VlessRequest :=
  version ← read_u8;
  if decide (version <> VLESS_VERSION) then bail "vless: unsupported version" else
  uuid_buf ← read_exact 16;
  if decide (uuid_buf <> expected_uuid) then bail "vless: invalid UUID" else
  addon_len ← read_u8;
  _ ← (if decide (0 < addon_len) then read_exact (Z.to_nat addon_len) else mret []);
  command ← read_u8;
  if decide (command <> CMD_TCP /\ command <> CMD_UDP) then bail "vless: unsupported command" else
  port ← read_u16;
  addr ← read_address;
  mret {| command := command; target := addr ++ [58] ++ dec port |}.
End decoder.

Definition encode_response (E : env) : M conn unit := write_all E [VLESS_VERSION; 0x00].

Definition process_vless_stream (E : env) (uuid_bytes : list Z) : M conn unit :=
  request ← decode_request uuid_bytes;
  if decide (command request <> CMD_TCP) then bail "vless: UDP not supported" else
  r ← tcp_connect E (target request);
  match r with
  | ConnOk =>
      encode_response E ;;
      copy_bidirectional E (target request)
  | ConnRefused => fail EIo
  | ConnTimeout => bail "connect timeout"
  end.

(** ** UUID text *)

(** [u8::from_str_radix(s, 16)]. *)
Definition hex_val (b : Z) : option Z :=
  if (48 <=? b) && (b <=? 57) then Some (b - 48)
  else if (97 <=? b) && (b <=? 102) then Some (b - 87)
  else if (65 <=? b) && (b <=? 70) then Some (b - 55)
  else None.
Fixpoint hex_digits (acc : Z) (bs : list Z) : option Z :=
  match bs with
  | [] => Some acc
  | b :: bs =>
      d ← hex_val b;
      if decide (acc * 16 + d < 256) then hex_digits (acc * 16 + d) bs else None
  end.
Definition from_str_radix_16 (bs : list Z) : option Z :=
  match bs with
  | [] => None
  | b :: r => if decide (b = 43) then (if decide (r = []) then None else hex_digits 0 r)
              else hex_digits 0 bs
  end.

(** [&s[i..j]] on a [str]: panics unless both ends are char boundaries. *)
Definition char_boundary (s : list Z) (i : nat) : bool :=
  match s !! i with
  | None => bool_decide (i = length s)
  | Some b => negb ((0x80 <=? b) && (b <=? 0xBF))
  end.
Definition str_slice (s : list Z) (i j : nat) : outcome (list Z) :=
  if decide (i <= j /\ j <= length s)%nat then
    if char_boundary s i && char_boundary s j then Done (take (j - i) (drop i s)) else Panic
  else Panic.

Fixpoint parse_uuid_bytes (hex : list Z) (n i : nat) : outcome (list Z) :=
  match n with
  | O => Done []
  | Datatypes.S n =>
      piece ← str_slice hex (i * 2) (i * 2 + 2);
      b ← ok_or (EBail "vless: invalid UUID hex") (from_str_radix_16 piece);
      bs ← parse_uuid_bytes hex n (Datatypes.S i);
      mret (b :: bs)
  end.

Definition parse_uuid (s : list Z) : outcome (list Z) :=
  let hex := filter (fun c => c <> 45) s in
  if decide (length hex <> 32%nat) then Fail (EBail "vless: invalid UUID string")
  else parse_uuid_bytes hex 16 0.

(** ** The wire format, as a specification *)

Definition host_valid (h : host) : Prop :=
  host_ok h /\ match h with HDomain d => d <> [] | _ => True end.

#[export] Instance host_valid_dec h : Decision (host_valid h).
Proof. unfold host_valid. destruct h; apply _. Defined.

Definition wire (uuid addons : list Z) (cmd : Z) (h : host) (port : Z) : list Z :=
  [VLESS_VERSION] ++ uuid ++ [Z.of_nat (length addons)] ++ addons ++ [cmd] ++
  be_bytes 2 port ++ host_wire ATYP_IPV4 ATYP_DOMAIN ATYP_IPV6 h.

Definition wire_ok (uuid addons : list Z) (cmd : Z) (h : host) (port : Z) : Prop :=
  length uuid = 16%nat /\ (length addons < 256)%nat /\ (cmd = CMD_TCP \/ cmd = CMD_UDP) /\
  host_valid h /\ port_ok port.

#[export] Instance wire_ok_dec u a c h p : Decision (wire_ok u a c h p).
Proof. unfold wire_ok. apply _. Defined.

Section decoder_lemmas.
Context {S : Type} `{SourceLaws S}.

Lemma reads_address h :
  host_valid h -> reads read_address (host_wire ATYP_IPV4 ATYP_DOMAIN ATYP_IPV6 h) (host_text h).
Proof.
  intros [Hok Hne]. destruct h as [o|d|o]; simpl in *.
  - eapply (reads_bind _ _ [_] o); [apply reads_u8|]. simpl.
    eapply reads_bind_r; [apply reads_exact; tauto|]. apply reads_ret.
  - eapply (reads_bind _ _ [_] (_ :: d)); [apply reads_u8|]. simpl.
    eapply (reads_bind _ _ [_] d); [apply reads_u8|]. simpl.
    rewrite decide_False by (destruct d; simpl; [done|lia]).
    eapply reads_bind_r; [apply reads_exact; lia|]. apply reads_utf8; tauto.
  - eapply (reads_bind _ _ [_] o); [apply reads_u8|]. simpl.
    eapply reads_bind_r; [apply reads_exact; tauto|]. apply reads_ret.
Qed.

Lemma sound_address :
  sound read_address (fun bs t => exists h, host_valid h /\ t = host_text h /\
    bs = host_wire ATYP_IPV4 ATYP_DOMAIN ATYP_IPV6 h).
Proof.
  unfold read_address.
  eapply sound_bind; [apply sound_u8|]. intros b1 atyp _ [-> Hb].
  repeat case_decide; [..|apply sound_fail]; subst.
  - eapply sound_bind; [apply sound_exact|]. intros o o' Ho [-> Hl].
    apply sound_ret. rewrite app_nil_r. by exists (HIp4 o').
  - eapply sound_bind; [apply sound_u8|]. intros b2 len _ [-> Hlen].
    case_decide; [apply sound_fail|].
    eapply sound_bind; [apply sound_exact|]. intros d d' Hd [-> Hl].
    apply sound_utf8. intros Hu. rewrite app_nil_r. exists (HDomain d').
    unfold byte_ok in Hlen. split_and!; simpl; try done.
    + split; [split_and!; [lia|done|done]|]. intros ->. simpl in Hl. lia.
    + by rewrite Hl, Z2Nat.id by lia.
  - eapply sound_bind; [apply sound_exact|]. intros o o' Ho [-> Hl].
    apply sound_ret. rewrite app_nil_r. by exists (HIp6 o').
Qed.

Lemma reads_request uuid addons cmd h port :
  wire_ok uuid addons cmd h port ->
  reads (decode_request uuid) (wire uuid addons cmd h port)
    {| command := cmd; target := target_text h port |}.
Proof.
  intros (Hu & Ha & Hc & Hh & Hp). unfold decode_request, wire.
  eapply reads_bind; [apply reads_u8|]. rewrite decide_False by auto.
  eapply reads_bind; [by apply reads_exact|]. rewrite decide_False by auto.
  eapply reads_bind; [apply reads_u8|].
  eapply reads_bind.
  { instantiate (1 := addons). case_decide; [apply reads_exact; lia|].
    replace addons with (@nil Z) by (destruct addons; simpl in *; [done|lia]). apply reads_ret. }
  eapply reads_bind; [apply reads_u8|]. rewrite decide_False by tauto.
  eapply reads_bind; [by apply reads_u16|].
  eapply reads_bind_r; [by apply reads_address|]. apply reads_ret.
Qed.

Lemma sound_request uuid :
  sound (decode_request uuid) (fun bs r => exists addons h port,
    wire_ok uuid addons (command r) h port /\ bs = wire uuid addons (command r) h port /\
    target r = target_text h port).
Proof.
  unfold decode_request.
  eapply sound_bind; [apply sound_u8|]. intros b1 version _ [-> _].
  case_decide as Hv; [apply sound_fail|]. subst version.
  eapply sound_bind; [apply sound_exact|]. intros b2 u Hok2 [-> Hl2].
  case_decide as Hu; [apply sound_fail|]. subst u.
  eapply sound_bind; [apply sound_u8|]. intros b3 alen _ [-> Halen]. unfold byte_ok in Halen.
  eapply (sound_bind _ _ (fun bs _ => length bs = Z.to_nat alen)).
  { case_decide; [|by apply sound_ret; simpl; lia].
    eapply sound_impl; [apply sound_exact|]. simpl. tauto. }
  intros addons _ _ Hadd.
  eapply sound_bind; [apply sound_u8|]. intros b4 cmd _ [-> _].
  case_decide as Hc; [apply sound_fail|].
  eapply sound_bind; [apply sound_u16|]. intros b5 port _ [-> Hport].
  eapply sound_bind; [apply sound_address|]. intros b6 t _ (h & Hh & -> & ->).
  apply sound_ret. exists addons, h, port. unfold wire_ok, wire, port_ok. simpl.
  rewrite app_nil_r, Hadd, Z2Nat.id by lia. split_and!; try (done || lia).
Qed.
End decoder_lemmas.

(** ** UUID lemmas *)

Lemma hex_val_digit d : 0 <= d < 16 -> hex_val (hex_digit d) = Some d.
Proof.
  intros Hd. unfold hex_val, hex_digit. destruct (d <? 10) eqn:E.
  - rewrite !(proj2 (Z.leb_le _ _)) by lia. simpl. f_equal. lia.
  - rewrite (proj2 (Z.leb_gt (87 + d) 57)), andb_false_r by lia.
    rewrite !(proj2 (Z.leb_le _ _)) by lia. simpl. f_equal. lia.
Qed.

Lemma hex_digits_byte b :
  byte_ok b -> hex_digits 0 [hex_digit (b / 16); hex_digit (b mod 16)] = Some b.
Proof.
  unfold byte_ok. intros Hb. cbn [hex_digits].
  rewrite (hex_val_digit (b / 16)) by dlia. cbn [mbind option_bind].
  rewrite decide_True by dlia. rewrite (hex_val_digit (b mod 16)) by dlia. cbn [mbind option_bind].
  rewrite decide_True by dlia. f_equal. dlia.
Qed.

Lemma from_str_radix_16_byte b :
  byte_ok b -> from_str_radix_16 [hex_digit (b / 16); hex_digit (b mod 16)] = Some b.
Proof.
  intros Hb. unfold from_str_radix_16; cbv beta iota. rewrite decide_False; [by apply hex_digits_byte|].
  unfold byte_ok in Hb. pose proof (hex_digit_ascii (b / 16)). dlia.
Qed.

Lemma char_boundary_ascii s i :
  Forall ascii_ok s -> (i <= length s)%nat -> char_boundary s i = true.
Proof.
  intros Hs Hi. unfold char_boundary. destruct (s !! i) as [b|] eqn:E.
  - rewrite Forall_lookup in Hs. specialize (Hs _ _ E). unfold ascii_ok in Hs.
    by rewrite (proj2 (Z.leb_gt _ _)) by lia.
  - apply lookup_ge_None in E. apply bool_decide_eq_true_2. lia.
Qed.

Lemma str_slice_ascii s i j :
  Forall ascii_ok s -> (i <= j <= length s)%nat -> str_slice s i j = Done (take (j - i) (drop i s)).
Proof.
  intros Hs Hij. unfold str_slice. rewrite decide_True by lia.
  by rewrite !char_boundary_ascii by (done || lia).
Qed.

Lemma parse_uuid_bytes_encode pre suf :
  bytes_ok (pre ++ suf) ->
  parse_uuid_bytes (hex_encode (pre ++ suf)) (length suf) (length pre) = Done suf.
Proof.
  revert pre. induction suf as [|b suf IH]; intros pre Hok; [done|].
  cbn [length parse_uuid_bytes]. rewrite str_slice_ascii.
  2: { by apply hex_encode_ascii. }
  2: { rewrite hex_encode_length, length_app. simpl. lia. }
  rewrite hex_encode_app. replace (length pre * 2)%nat with (length (hex_encode pre))
    by (rewrite hex_encode_length; lia).
  rewrite drop_app_length. replace (_ + 2 - _)%nat with 2%nat by lia.
  pose proof (proj2 (proj1 (Forall_app _ _ _) Hok)) as Hb. apply Forall_inv in Hb.
  change (b :: suf) with ([b] ++ suf). rewrite (hex_encode_app [b]), app_assoc.
  change (hex_encode [b]) with [hex_digit (b / 16); hex_digit (b mod 16)].
  cbn [app take]. cbn [mbind outcome_bind bind_outcome].
  rewrite from_str_radix_16_byte by done. cbn [ok_or bind_outcome].
  specialize (IH (pre ++ [b])). rewrite <- app_assoc, length_app, Nat.add_1_r in IH.
  rewrite !hex_encode_app, app_assoc in IH. cbn [app] in IH. 
  change (hex_encode [b]) with [hex_digit (b / 16); hex_digit (b mod 16)] in IH.
  rewrite <- ?app_assoc in IH |- *. rewrite IH; done.
Qed.

Lemma hex_digits_bound acc bs v : 0 <= acc < 256 -> hex_digits acc bs = Some v -> byte_ok v.
Proof.
  revert acc; induction bs as [|b bs IH]; intros acc Ha; simpl; [intros [= <-]; exact Ha|].
  destruct (hex_val b) as [d|] eqn:Ed; [|done]. simpl.
  assert (0 <= d) by (unfold hex_val in Ed; repeat case_match; naive_solver lia).
  case_decide; [|done]. apply IH. lia.
Qed.

Lemma parse_uuid_bytes_safe s n i :
  Forall ascii_ok s -> (length s = 2 * (n + i))%nat ->
  match parse_uuid_bytes s n i with
  | Done bs => length bs = n /\ bytes_ok bs
  | Fail _ => True
  | Panic => False
  end.
Proof.
  intros Hs. revert i; induction n as [|n IH]; intros i Hl; [by split|].
  cbn [parse_uuid_bytes]. rewrite str_slice_ascii by (done || lia).
  cbn [mbind outcome_bind bind_outcome].
  destruct (from_str_radix_16 _) as [b|] eqn:Eb; cbn [ok_or bind_outcome]; [|done].
  assert (byte_ok b).
  { unfold from_str_radix_16 in Eb. repeat case_match; try done; by eapply hex_digits_bound, Eb. }
  specialize (IH (Datatypes.S i) ltac:(lia)).
  destruct (parse_uuid_bytes s n _); [|done..]. destruct IH as [<- Hok]. split; [done|]. by constructor.
Qed.

(** ** Properties *)

(** a UUID text parses to its bytes: every string whose characters other
    than '-' are the 32 lower-case hexadecimal digits of sixteen bytes, with
    hyphens anywhere, is read back to these bytes. *)
Theorem parse_uuid_roundtrip bs s :
  length bs = 16%nat -> bytes_ok bs -> filter (fun c => c <> 45) s = hex_encode bs ->
  parse_uuid s = Done bs.
Proof.
  intros Hl Hok Hs. unfold parse_uuid. rewrite Hs.
  rewrite decide_False by (rewrite hex_encode_length, Hl; lia).
  rewrite <- Hl. by apply (parse_uuid_bytes_encode []).
Qed.

(** on ASCII text the UUID parser never panics, and what it returns is
    sixteen bytes. *)
Theorem parse_uuid_ascii_safe s :
  Forall ascii_ok s ->
  match parse_uuid s with
  | Done bs => length bs = 16%nat /\ bytes_ok bs
  | Fail _ => True
  | Panic => False
  end.
Proof.
  intros Hs. unfold parse_uuid. case_decide as Hl; [done|].
  apply parse_uuid_bytes_safe; [|lia].
  apply Forall_forall. intros c [_ Hc]%list_elem_of_filter. rewrite Forall_forall in Hs. auto.
Qed.

(** two texts that are not UUIDs: sixteen pairs "+1" are accepted, and a
    text of 32 bytes with a two-byte character across a digit pair panics
    instead of being refused. *)
Theorem parse_uuid_accepts_plus_and_panics :
  parse_uuid (str "+1+1+1+1+1+1+1+1+1+1+1+1+1+1+1+1") = Done (replicate 16 1) /\
  (let s := [48] ++ [0xC3; 0xA9] ++ replicate 29 48 in
   utf8_valid s = true /\ parse_uuid s = Panic).
Proof. vm_compute. auto. Qed.


(** C23: the VLESS request decoder accepts exactly the wire format.  On every
    byte source: an encoding of a request for the configured UUID (any addons,
    command TCP or UDP, any IPv4, non-empty UTF-8 domain or IPv6 target) is
    decoded to that command and the target text, consuming exactly the
    encoding; and whatever is accepted was such an encoding. *)
Theorem decode_request_exact {S : Type} `{SourceLaws S} (uuid : list Z) :
  (forall addons cmd h port, wire_ok uuid addons cmd h port ->
     reads (decode_request uuid) (wire uuid addons cmd h port)
       {| command := cmd; target := target_text h port |}) /\
  sound (decode_request uuid) (fun bs r => exists addons h port,
     wire_ok uuid addons (command r) h port /\ bs = wire uuid addons (command r) h port /\
     target r = target_text h port).
Proof. split; [apply reads_request | apply sound_request]. Qed.

Lemma quiet_request {S} `{SourceLaws S} uuid : quiet (decode_request uuid).
Proof. unfold decode_request, read_address. quiet_solve. Qed.

(** an unauthenticated VLESS client causes no visible action.  Whatever the
    client sends and however the network behaves, the handler's trace grows
    only after a complete request for the configured UUID with command TCP was
    received, and then by exactly one connection attempt to the requested
    target, followed (if it succeeds) by the two-byte response and the relay of
    the bytes that follow the request (up to where the target stops taking them). *)
Theorem process_vless_stream_actions (E : env) uuid s o s' :
  bytes_ok (c_in s) -> process_vless_stream E uuid s = (o, s') ->
  c_trace s' = c_trace s \/
  exists addons h port rest, wire_ok uuid addons CMD_TCP h port /\
    c_in s = wire uuid addons CMD_TCP h port ++ rest /\
    let t := target_text h port in
    let tr1 := c_trace s ++ [EvConnect t] in
    let tr2 := tr1 ++ [EvWrite [0; 0]] in
    match env_connect E (c_trace s) t with
    | ConnOk =>
        if env_write_ok E tr1
        then c_trace s' = tr2 ++ [EvRelay t (take (env_up E tr2 t) rest) (env_remote E tr2 t)] /\
             o = Done tt
        else c_trace s' = tr1
    | _ => c_trace s' = tr1
    end.
Proof.
  intros Hok. unfold process_vless_stream, mbind at 1, M_bind at 1.
  destruct (decode_request uuid s) as [d s1] eqn:Ed.
  destruct (quiet_conn _ _ _ _ (quiet_request uuid) Ed) as [_ Hq].
  destruct d as [r|e|]; [|naive_solver..].
  destruct (sound_conn _ _ _ _ _ (sound_request uuid) Hok Ed)
    as (bs & Hin & (addons & h & port & Hw & -> & Ht) & _).
  case_decide as Hc; [intros [= _ <-]; auto|].
  rewrite Hc in *. intros Hrun. right. exists addons, h, port, (c_in s1). split_and!; [done|done|].
  rewrite Ht in Hrun. unfold tcp_connect, mbind, M_bind in Hrun. rewrite Hq in Hrun.
  destruct (env_connect E (c_trace s) (target_text h port)); [|by run_inv Hrun..].
  unfold encode_response, write_all in Hrun. simpl in Hrun.
  simpl in Hrun. destruct (env_write_ok E _); by run_inv Hrun.
Qed.

(** ** Witnesses *)

Definition demo_uuid : list Z := [1; 2; 3; 4; 5; 6; 7; 8; 9; 10; 11; 12; 13; 14; 15; 16].
Definition demo_wire : list Z := wire demo_uuid [9; 9] CMD_TCP (HDomain (str "a.example")) 443.
Definition demo_conn : conn := Conn (demo_wire ++ [1; 2]) [].
Definition demo_env : env :=
  Env (fun _ => true) (fun _ _ => ConnOk) (fun _ _ => 2%nat) (fun _ _ => [3]).

Lemma demo_wire_ok : wire_ok demo_uuid [9; 9] CMD_TCP (HDomain (str "a.example")) 443.
Proof. apply (bool_decide_eq_true (wire_ok _ _ _ _ _)). vm_compute. reflexivity. Qed.

Lemma decode_request_exact_witness :
  exists s', decode_request demo_uuid (demo_wire ++ [1; 2]) =
    (Done {| command := CMD_TCP; target := str "a.example:443" |}, s') /\ s' = [1; 2].
Proof.
  destruct (proj1 (@decode_request_exact (list Z) slice_source slice_laws demo_uuid) _ _ _ _
    demo_wire_ok (demo_wire ++ [1; 2]) [1; 2] eq_refl) as (s' & E & P & _).
  exists s'. exact (conj E P).
Defined.

Lemma process_vless_stream_actions_witness :
  let s' := Conn [] [EvConnect (str "a.example:443"); EvWrite [0; 0];
                     EvRelay (str "a.example:443") [1; 2] [3]] in
  process_vless_stream demo_env demo_uuid demo_conn = (Done tt, s') /\
  exists addons h port rest, wire_ok demo_uuid addons CMD_TCP h port /\
    c_in demo_conn = wire demo_uuid addons CMD_TCP h port ++ rest.
Proof.
  assert (Hok : bytes_ok (c_in demo_conn))
    by (apply (bool_decide_eq_true (bytes_ok (c_in demo_conn))); vm_compute; reflexivity).
  intros s'.
  assert (E : process_vless_stream demo_env demo_uuid demo_conn = (Done tt, s')) by reflexivity.
  split; [exact E|].
  destruct (process_vless_stream_actions demo_env demo_uuid demo_conn _ s' Hok E)
    as [H|(addons & h & port & rest & Hw & Hin & _)]; [discriminate H|].
  exists addons, h, port, rest. exact (conj Hw Hin).
Defined.

Lemma parse_uuid_roundtrip_witness :
  parse_uuid (str "01020304-0506-0708-090a-0b0c0d0e0f10") = Done demo_uuid.
Proof.
  apply parse_uuid_roundtrip; [reflexivity| |reflexivity].
  apply (bool_decide_eq_true (bytes_ok demo_uuid)). vm_compute. reflexivity.
Defined.

Lemma parse_uuid_ascii_safe_witness : parse_uuid (str "not a uuid") <> Panic.
Proof.
  pose proof (parse_uuid_ascii_safe (str "not a uuid")) as H. intros E. rewrite E in H. apply H.
  repeat constructor; unfold ascii_ok; vm_compute; auto; discriminate.
Defined.
