(* ===== verification/Shadowsocks.v ===== *)
(** * Shadowsocks 2022: header parser, AEAD chunk stream and stream handler
    ([src/src/shadowsocks/protocol.rs], [src/src/shadowsocks/server.rs]) *)
From S2P Require Import Prelude Join RustStd Net Target Aead.

Inductive ShadowsocksCipher := Blake3Aes128Gcm | Blake3Aes256Gcm | Blake3Chacha20Poly1305.

#[export] Instance cipher_eq_dec : EqDecision ShadowsocksCipher.
Proof. solve_decision. Defined.

Definition key_len (c : ShadowsocksCipher) : nat :=
  match c with Blake3Aes128Gcm => 16 | Blake3Aes256Gcm => 32 | Blake3Chacha20Poly1305 => 32 end.
Definition salt_len (c : ShadowsocksCipher) : nat := key_len c.
Definition tag_len (c : ShadowsocksCipher) : nat := 16.

Definition MAX_CHUNK : nat := Z.to_nat 0x3FFF.
Definition MAX_TIMESTAMP_DIFF : Z := 30.
Definition STREAM_TYPE_REQUEST : Z := 0x00.
Definition STREAM_TYPE_RESPONSE : Z := 0x01.
Definition ATYP_IPV4 : Z := 0x01.
Definition ATYP_DOMAIN : Z := 0x03.
Definition ATYP_IPV6 : Z := 0x04.

(** ** Keys and time

    [derive_key] stands for [blake3::derive_key] at the program's context
    string, [base64] for the standard base64 decoder, [now] for the clock. *)
Section keys.
Context (derive_key : list Z -> list Z) (base64 : list Z -> option (list Z)).

Definition derive_session_subkey (master_key salt : list Z) (key_len : nat) : outcome (list Z) :=
  let ikm := master_key ++ salt in
  slice (derive_key ikm) 0 key_len.

Definition decode_master_key (password : list Z) (key_len : nat) : outcome (list Z) :=
  key ← ok_or (EBail "password must be base64-encoded key") (base64 (trim password));
  if decide (length key <> key_len) then Fail (EBail "key length mismatch") else Done key.
End keys.

Definition check_timestamp (now ts : Z) : outcome unit :=
  let diff := abs_diff ts now in
  if decide (diff > MAX_TIMESTAMP_DIFF) then Fail (EBail "timestamp diff exceeds limit") else Done tt.

Fixpoint increment_nonce (n : list Z) : list Z :=
  match n with
  | [] => []
  | b :: r => let b := u8 (b + 1) in if decide (b <> 0) then b :: r else b :: increment_nonce r
  end.

(** ** Header parsing *)

Definition parse_address : M (list Z) (list Z) :=
  rem ← remaining;
  if decide (rem < 1)%nat then bail "truncated address (no ATYP)" else
  atyp ← get_u8;
  host ← (
    if decide (atyp = ATYP_IPV4) then
      rem ← remaining;
      if decide (rem < 4)%nat then bail "truncated IPv4" else
      b ← copy_to_slice 4;
      mret (ipv4_to_string b)
    else if decide (atyp = ATYP_DOMAIN) then
      rem ← remaining;
      if decide (rem < 1)%nat then bail "truncated domain length" else
      len ← get_u8;
      rem ← remaining;
      if decide (rem < Z.to_nat len)%nat then bail "truncated domain" else
      b ← copy_to_slice (Z.to_nat len);
      lift (from_utf8 b)
    else if decide (atyp = ATYP_IPV6) then
      rem ← remaining;
      if decide (rem < 16)%nat then bail "truncated IPv6" else
      b ← copy_to_slice 16;
      mret ([91] ++ ipv6_to_string (segments_of b) ++ [93])
    else bail "unknown ATYP");
  rem ← remaining;
  if decide (rem < 2)%nat then bail "truncated port" else
  port ← get_u16;
  mret (host ++ [58] ++ dec port).

(** The part of [parse_request_header] that reads from [remaining]. *)
Definition parse_address_and_padding : M (list Z) (list Z) :=
  addr ← parse_address;
  rem ← remaining;
  if decide (rem < 2)%nat then bail "missing padding length" else
  padding_len ← get_u16;
  rem ← remaining;
  if decide (rem < Z.to_nat padding_len)%nat then bail "truncated padding" else
  _ ← advance (Z.to_nat padding_len);
  mret addr.

Definition parse_request_header (now : Z) (data : list Z) (expected_type : Z) : outcome (list Z) :=
  if decide (length data < 18)%nat then Fail (EBail "request header too short") else
  stream_type ← index data 0;
  if decide (stream_type <> expected_type) then Fail (EBail "wrong stream type") else
  ts ← slice data 1 (1 + 8);
  _ ← check_timestamp now (be_val ts);
  rest ← slice data 9 (length data);
  (parse_address_and_padding rest).1.

Definition parse_response_header (now : Z) (data : list Z) (key_len : nat) : outcome (list Z) :=
  if decide (length data < 1 + 8 + key_len)%nat then Fail (EBail "response header too short") else
  stream_type ← index data 0;
  if decide (stream_type <> STREAM_TYPE_RESPONSE) then Fail (EBail "wrong stream type in response") else
  ts ← slice data 1 9;
  _ ← check_timestamp now (be_val ts);
  slice data 9 (9 + key_len).

Definition build_response_header (now : Z) (request_salt : list Z) : list Z :=
  [STREAM_TYPE_RESPONSE] ++ be_bytes 8 now ++ request_salt.

(** ** The AEAD chunk stream *)
Section aead.
Context `{Aead ShadowsocksCipher}.

Definition aead_encrypt (cipher : ShadowsocksCipher) (key nonce pt : list Z) : outcome (list Z) :=
  if aead_key cipher key then ok_or (EBail "AEAD encrypt failed") (aead_seal cipher key nonce pt)
  else Fail (EBail "Invalid Length").
Definition aead_decrypt (cipher : ShadowsocksCipher) (key nonce ct : list Z) : outcome (list Z) :=
  if aead_key cipher key then ok_or (EBail "AEAD decrypt failed") (aead_open cipher key nonce ct)
  else Fail (EBail "Invalid Length").

Section reader.
Context {R : Type} `{Source R}.

Record AeadReader := MkReader {
  r_inner : R;
  r_cipher : ShadowsocksCipher;
  r_subkey : list Z;
  r_nonce : list Z;
  r_buf : list Z;
}.

Definition AeadReader_new (inner : R) (cipher : ShadowsocksCipher) (subkey : list Z) :=
  MkReader inner cipher subkey (replicate 12 0) [].

(** A read on [self.inner]. *)
Definition on_inner {A} (m : M R A) : M AeadReader A := fun r =>
  let '(o, i) := m (r_inner r) in
  (o, MkReader i (r_cipher r) (r_subkey r) (r_nonce r) (r_buf r)).
Definition set_buf (b : list Z) : M AeadReader unit :=
  modify (fun r => MkReader (r_inner r) (r_cipher r) (r_subkey r) (r_nonce r) b).
(** [aead_decrypt(&self.cipher, &self.subkey, &self.nonce, ct)?;
    increment_nonce(&mut self.nonce)]. *)
Definition decrypt_next (ct : list Z) : M AeadReader (list Z) :=
  r ← get_st;
  pt ← lift (aead_decrypt (r_cipher r) (r_subkey r) (r_nonce r) ct);
  _ ← modify (fun r =>
        MkReader (r_inner r) (r_cipher r) (r_subkey r) (increment_nonce (r_nonce r)) (r_buf r));
  mret pt.

(** The payload half of a chunk, after its sealed length. *)
Definition read_payload (len_ct : list Z) : M AeadReader (list Z) :=
  r ← get_st;
  len_pt ← decrypt_next len_ct;
  b0 ← lift (index len_pt 0);
  b1 ← lift (index len_pt 1);
  let payload_len := Z.to_nat (be_val [b0; b1]) in
  payload_ct ← on_inner (read_exact (payload_len + tag_len (r_cipher r)));
  decrypt_next payload_ct.

Definition fill_buf : M AeadReader bool :=
  r ← get_st;
  res ← attempt (on_inner (read_exact (2 + tag_len (r_cipher r))));
  match res with
  | inr EEof => mret false
  | inr e => fail e
  | inl len_ct =>
      payload_pt ← read_payload len_ct;
      r ← get_st;
      _ ← set_buf (r_buf r ++ payload_pt);
      mret true
  end.

(** The bytes copied to a [dst] of [n] bytes; the call returns their number. *)
Definition read_plain (n : nat) : M AeadReader (list Z) :=
  r ← get_st;
  filled ← (if decide (r_buf r = []) then fill_buf else mret true);
  if negb filled then mret [] else
  r ← get_st;
  let n := Nat.min (length (r_buf r)) n in
  _ ← set_buf (drop n (r_buf r));
  mret (take n (r_buf r)).

Definition read_header_chunk : M AeadReader (list Z) :=
  r ← get_st;
  len_ct ← on_inner (read_exact (2 + tag_len (r_cipher r)));
  read_payload len_ct.

(** One round of the uplink loop of [process], and the loop: what it has
    forwarded to the target when it ends.  [out_ok] says whether the next write
    to the target succeeds. *)
Definition uplink_round (out_ok : list Z -> bool) (fwd : list Z) : M AeadReader (list Z + list Z) :=
  res ← attempt (read_plain (Z.to_nat (32 * 1024)));
  mret (match res with
        | inr _ | inl [] => inr fwd
        | inl tmp => if out_ok fwd then inl (fwd ++ tmp) else inr fwd
        end).
(** A round that goes on has taken something from the buffer or the stream. *)
Definition uplink_fuel (r : AeadReader) : nat :=
  Datatypes.S (length (pending (r_inner r)) + length (r_buf r)).
Definition uplink (out_ok : list Z -> bool) : M AeadReader (list Z) := fun r =>
  rounds (uplink_round out_ok) (uplink_fuel r) [] r.
End reader.
Arguments AeadReader : clear implicits.

Section writer.
Context {W : Type} (write_all : list Z -> M W unit).

Record AeadWriter := MkWriter {
  w_inner : W;
  w_cipher : ShadowsocksCipher;
  w_subkey : list Z;
  w_nonce : list Z;
}.

Definition AeadWriter_new (inner : W) (cipher : ShadowsocksCipher) (subkey : list Z) :=
  MkWriter inner cipher subkey (replicate 12 0).

Definition write_raw (data : list Z) : M AeadWriter unit := fun w =>
  let '(o, i) := write_all data (w_inner w) in
  (o, MkWriter i (w_cipher w) (w_subkey w) (w_nonce w)).

Definition reset_subkey (new_subkey : list Z) : M AeadWriter unit :=
  modify (fun w => MkWriter (w_inner w) (w_cipher w) new_subkey (replicate 12 0)).

(** [aead_encrypt(..)?; increment_nonce(&mut self.nonce)]. *)
Definition encrypt_next (pt : list Z) : M AeadWriter (list Z) :=
  w ← get_st;
  ct ← lift (aead_encrypt (w_cipher w) (w_subkey w) (w_nonce w) pt);
  _ ← modify (fun w =>
        MkWriter (w_inner w) (w_cipher w) (w_subkey w) (increment_nonce (w_nonce w)));
  mret ct.

Definition write_header_chunk (data : list Z) : M AeadWriter unit :=
  let chunk_len := Z.of_nat (length data) in
  let len_pt := [u8 (Z.shiftr chunk_len 8); u8 chunk_len] in
  len_ct ← encrypt_next len_pt;
  payload_ct ← encrypt_next data;
  _ ← write_raw len_ct;
  write_raw payload_ct.

Fixpoint write_data_from (fuel : nat) (data : list Z) (offset : nat) : M AeadWriter unit :=
  match fuel with
  | O => panic
  | Datatypes.S fuel =>
      if decide (offset < length data)%nat then
        let chunk_len := Nat.min (length data - offset) MAX_CHUNK in
        chunk ← lift (slice data offset (offset + chunk_len));
        let len_pt := [u8 (Z.shiftr (Z.of_nat chunk_len) 8); u8 (Z.of_nat chunk_len)] in
        len_ct ← encrypt_next len_pt;
        payload_ct ← encrypt_next chunk;
        _ ← write_raw len_ct;
        _ ← write_raw payload_ct;
        write_data_from fuel data (offset + chunk_len)
      else mret tt
  end.
Definition write_data (data : list Z) : M AeadWriter unit :=
  write_data_from (Datatypes.S (length data)) data 0.

(** One round of the downlink loop of [process], and the loop, over what its
    reads of the target return until the first empty one or the first error. *)
Definition downlink_round (out_reads : list (list Z)) : M AeadWriter (list (list Z) + unit) :=
  match out_reads with
  | [] | [] :: _ => mret (inr tt)
  | tmp :: out_reads =>
      res ← attempt (write_data tmp);
      mret (match res with inl _ => inl out_reads | inr _ => inr tt end)
  end.
Definition downlink_fuel (out_reads : list (list Z)) : nat := Datatypes.S (length out_reads).
Definition downlink (out_reads : list (list Z)) : M AeadWriter unit :=
  rounds downlink_round (downlink_fuel out_reads) out_reads.
End writer.
Arguments AeadWriter : clear implicits.

(** What [process] gets from outside besides the network: two readings of the
    clock, the random response salt, the reads of the target and the success
    of the writes to it, and the order in which the two relay loops take turns. *)
Record world := World {
  w_now : Z;
  w_now_resp : Z;
  w_resp_salt : list Z;
  w_out_reads : list (list Z);
  w_out_ok : list Z -> bool;
  w_sched : list side;
}.

(** [process] once [outbound] is connected: the response salt and header,
    then the two relay loops, joined.  [split] has given one the read half of the
    stream, what the client still sends, and the other its write half. *)
Definition process_connected (E : env) (derive_key : list Z -> list Z) (cipher : ShadowsocksCipher)
    (master_key : list Z) (wd : world) (client_salt target : list Z) (aead_r : AeadReader conn)
    : M conn unit :=
  dn_subkey ← lift (derive_session_subkey derive_key master_key (w_resp_salt wd) (salt_len cipher));
  stream ← get_st;
  let '(res, aead_w) :=
    (write_raw (write_all E) (w_resp_salt wd) ;;
     reset_subkey dn_subkey ;;
     write_header_chunk (write_all E) (build_response_header (w_now_resp wd) client_salt))
      (AeadWriter_new stream cipher (replicate (salt_len cipher) 0)) in
  _ ← put_st (w_inner aead_w);
  _ ← lift res;
  stream ← get_st;
  let read_half := MkReader (c_in stream) cipher (r_subkey aead_r) (r_nonce aead_r) (r_buf aead_r) in
  let write_half := MkWriter stream cipher (w_subkey aead_w) (w_nonce aead_w) in
  let '(res, (aead_r, aead_w)) :=
    tokio_join (uplink_round (w_out_ok wd)) (downlink_round (write_all E)) (w_sched wd)
      (uplink_fuel read_half) (downlink_fuel (w_out_reads wd)) [] (w_out_reads wd)
      (read_half, write_half) in
  _ ← put_st (Conn (r_inner aead_r) (c_trace (w_inner aead_w)));
  '(up, _) ← lift res;
  emit (EvRelay target up []).

Definition process (E : env) (derive_key : list Z -> list Z) (cipher : ShadowsocksCipher)
    (master_key : list Z) (wd : world) : M conn unit :=
  client_salt ← read_exact (salt_len cipher);
  up_subkey ← lift (derive_session_subkey derive_key master_key client_salt (salt_len cipher));
  stream ← get_st;
  let '(res, aead_r) := read_header_chunk (AeadReader_new stream cipher up_subkey) in
  _ ← put_st (r_inner aead_r);
  header_data ← lift res;
  target ← lift (parse_request_header (w_now wd) header_data STREAM_TYPE_REQUEST);
  r ← tcp_connect E target;
  match r with
  | ConnTimeout => bail "connect timeout"
  | ConnRefused => fail EIo
  | ConnOk => process_connected E derive_key cipher master_key wd client_salt target aead_r
  end.
End aead.
Arguments AeadReader : clear implicits.
Arguments AeadWriter : clear implicits.

(** ** The request header on the wire *)

Definition header_wire (ty ts : Z) (h : host) (port : Z) (pad extra : list Z) : list Z :=
  [ty] ++ be_bytes 8 ts ++ host_wire ATYP_IPV4 ATYP_DOMAIN ATYP_IPV6 h ++ be_bytes 2 port ++
  be_bytes 2 (Z.of_nat (length pad)) ++ pad ++ extra.

Definition header_ok (now ts : Z) (h : host) (port : Z) (pad : list Z) : Prop :=
  0 <= ts < 2 ^ 64 /\ Z.abs (ts - now) <= 30 /\ host_ok h /\ port_ok port /\
  Z.of_nat (length pad) < 65536.

Lemma reads_host h :
  host_ok h -> forall port, port_ok port ->
  reads parse_address (host_wire ATYP_IPV4 ATYP_DOMAIN ATYP_IPV6 h ++ be_bytes 2 port)
    (target_text h port).
Proof.
  intros Hok port Hp. unfold parse_address.
  assert (Hlen : length (be_bytes 2 port) = 2%nat) by apply length_be_bytes.
  assert (Hport : forall t, reads (rem ← remaining;
      if decide (rem < 2)%nat then bail "truncated port" else
      port ← get_u16; mret (t ++ [58] ++ dec port)) (be_bytes 2 port) (t ++ [58] ++ dec port)).
  { intros t. apply reads_remaining; [lia|]. eapply reads_bind_r; [by apply reads_get_u16|].
    apply reads_ret. }
  destruct h as [o|d|o]; cbn [host_wire host_ok app] in *; destruct_and?;
    (apply reads_remaining; [simpl; lia|]);
    (eapply (reads_bind _ _ [_]); [apply reads_get_u8|]).
  - eapply reads_bind; [|apply Hport]. simpl. apply reads_remaining; [lia|].
    eapply reads_bind_r; [by apply reads_copy|]. apply reads_ret.
  - eapply (reads_bind _ _ (_ :: d)); [|apply Hport]. simpl. apply reads_remaining; [simpl; lia|].
    eapply (reads_bind _ _ [_] d); [apply reads_get_u8|].
    apply reads_remaining; [lia|].
    eapply reads_bind_r; [apply reads_copy; lia|]. by apply reads_utf8.
  - eapply reads_bind; [|apply Hport]. simpl. apply reads_remaining; [lia|].
    eapply reads_bind_r; [by apply reads_copy|]. apply reads_ret.
Qed.

Lemma sound_parse_address :
  sound parse_address (fun bs t => exists h port, host_ok h /\ port_ok port /\
    bs = host_wire ATYP_IPV4 ATYP_DOMAIN ATYP_IPV6 h ++ be_bytes 2 port /\ t = target_text h port).
Proof.
  unfold parse_address.
  eapply sound_bind; [apply sound_remaining|]. intros ? ? _ ->.
  case_decide; [apply sound_fail|].
  eapply sound_bind; [apply sound_get_u8|]. intros b1 atyp _ [-> Hb].
  eapply (sound_bind _ _ (fun bs t => exists h, host_ok h /\ t = host_text h /\
    atyp :: bs = host_wire ATYP_IPV4 ATYP_DOMAIN ATYP_IPV6 h)).
  - repeat case_decide; [..|apply sound_fail]; subst;
      (eapply sound_bind; [apply sound_remaining|]; intros ? ? _ ->; case_decide; [apply sound_fail|]).
    + eapply sound_bind; [apply sound_copy|]. intros o o' Ho [-> Hl].
      apply sound_ret. rewrite app_nil_r. by exists (HIp4 o').
    + eapply sound_bind; [apply sound_get_u8|]. intros b2 len _ [-> Hlen].
      eapply sound_bind; [apply sound_remaining|]. intros ? ? _ ->. case_decide; [apply sound_fail|].
      eapply sound_bind; [apply sound_copy|]. intros d d' Hd [-> Hl].
      apply sound_utf8. intros Hu. rewrite app_nil_r. exists (HDomain d').
      unfold byte_ok in Hlen. simpl. rewrite Hl, Z2Nat.id by lia. split_and!; (done || lia).
    + eapply sound_bind; [apply sound_copy|]. intros o o' Ho [-> Hl].
      apply sound_ret. rewrite app_nil_r. by exists (HIp6 o').
  - intros bs t _ (h & Hh & -> & E). eapply sound_bind; [apply sound_remaining|].
    intros ? ? _ ->. case_decide; [apply sound_fail|].
    eapply sound_bind; [apply sound_get_u16|]. intros b5 port _ [-> Hport].
    apply sound_ret. exists h, port. rewrite app_nil_r. simpl. rewrite <- E. by split_and!.
Qed.

Lemma reads_tail h port pad :
  host_ok h -> port_ok port -> Z.of_nat (length pad) < 65536 ->
  reads parse_address_and_padding
    ((host_wire ATYP_IPV4 ATYP_DOMAIN ATYP_IPV6 h ++ be_bytes 2 port) ++
     be_bytes 2 (Z.of_nat (length pad)) ++ pad) (target_text h port).
Proof.
  intros Hh Hp Hl. eapply reads_bind; [by apply reads_host|].
  apply reads_remaining; [rewrite length_app, length_be_bytes; lia|].
  eapply reads_bind; [apply reads_get_u16; lia|]. rewrite Nat2Z.id.
  apply reads_remaining; [lia|]. eapply reads_bind_r; [by apply reads_advance|]. apply reads_ret.
Qed.

Lemma sound_tail :
  sound parse_address_and_padding (fun bs t => exists h port pad,
    host_ok h /\ port_ok port /\ Z.of_nat (length pad) < 65536 /\ t = target_text h port /\
    bs = (host_wire ATYP_IPV4 ATYP_DOMAIN ATYP_IPV6 h ++ be_bytes 2 port) ++
         be_bytes 2 (Z.of_nat (length pad)) ++ pad).
Proof.
  eapply sound_bind; [apply sound_parse_address|]. intros b1 t _ (h & port & Hh & Hp & -> & ->).
  eapply sound_bind; [apply sound_remaining|]. intros ? ? _ ->. case_decide; [apply sound_fail|].
  eapply sound_bind; [apply sound_get_u16|]. intros b2 pl _ [-> Hpl].
  eapply sound_bind; [apply sound_remaining|]. intros ? ? _ ->. case_decide; [apply sound_fail|].
  eapply sound_bind; [apply sound_advance|]. intros pad ? _ Hpad. apply sound_ret.
  exists h, port, pad. rewrite app_nil_r, Hpad, Z2Nat.id by lia. split_and!; (done || lia).
Qed.

Lemma quiet_tail : quiet parse_address_and_padding.
Proof.
  unfold parse_address_and_padding, parse_address.
  repeat first
    [ apply quiet_guarded; [by auto with dec|intros ?]
    | case_decide
    | eapply quiet_bind; [|intros ? ? ? ?]
    | by eauto with dec ].
Qed.

Lemma check_timestamp_ok now ts : check_timestamp now ts = Done tt <-> Z.abs (ts - now) <= 30.
Proof. unfold check_timestamp, abs_diff, MAX_TIMESTAMP_DIFF. case_decide; split; (done || lia). Qed.

(** On a datum of at least 18 bytes: its type byte, timestamp and rest. *)
Lemma header_split data :
  bytes_ok data -> (18 <= length data)%nat ->
  exists ty ts rest, data = [ty] ++ be_bytes 8 ts ++ rest /\ 0 <= ts < 2 ^ 64 /\ bytes_ok rest /\
    forall now ety, parse_request_header now data ety =
      if decide (ty <> ety) then Fail (EBail "wrong stream type") else
      _ ← check_timestamp now ts; (parse_address_and_padding rest).1.
Proof.
  intros Hok Hl. destruct data as [|ty data]; [simpl in Hl; lia|]. apply Forall_cons_1 in Hok as [_ Hok].
  simpl in Hl. pose proof (take_drop 8 data) as Etd.
  assert (Hl8 : length (take 8 data) = 8%nat) by (rewrite length_take; lia).
  set (tsb := take 8 data) in *. set (rest := drop 8 data) in *.
  assert (Hb : bytes_ok tsb) by by apply Forall_take.
  exists ty, (be_val tsb), rest. rewrite <- Hl8 at 1. rewrite be_bytes_be_val by done.
  pose proof (be_val_bound _ Hb) as Hbd. rewrite Hl8 in Hbd. change (256 ^ Z.of_nat 8) with (2 ^ 64) in Hbd.
  split_and!; [by simpl; f_equal|apply Hbd|apply Hbd|by apply Forall_drop|].
  intros now ety. unfold parse_request_header. rewrite decide_False by (simpl; lia).
  rewrite index_head. cbn [mbind outcome_bind bind_outcome]. case_decide; [done|].
  rewrite <- Etd. change (ty :: tsb ++ rest) with ([ty] ++ tsb ++ rest).
  rewrite (slice_app [ty] tsb rest 1) by (simpl; lia).
  cbn [mbind outcome_bind bind_outcome].
  destruct (check_timestamp now (be_val tsb)); [cbn [bind_outcome]|done..].
  pose proof (slice_app ([ty] ++ tsb) rest [] 9 (length ([ty] ++ tsb ++ rest))) as Hs.
  rewrite app_nil_r, <- app_assoc in Hs. rewrite Hs; [done|simpl; lia|].
  simpl. rewrite length_app. lia.
Qed.

(** A well-formed header of at least 18 bytes is accepted. *)
Lemma header_accepted now ty ts h port pad extra :
  let data := header_wire ty ts h port pad extra in
  bytes_ok data -> (18 <= length data)%nat -> header_ok now ts h port pad ->
  parse_request_header now data ty = Done (target_text h port).
Proof.
  intros data Hok Hlen (Hts & Hab & Hh & Hp & Hpad).
  destruct (header_split data Hok Hlen) as (ty' & ts' & rest & Ed & Hts' & Hrest & Hrun). rewrite Hrun.
  unfold data, header_wire in Ed. apply app_inj_1 in Ed as [[= <-] Ed]; [|done].
  apply app_inj_1 in Ed as [Ets Erest]; [|by rewrite !length_be_bytes].
  assert (ts' = ts) as ->.
  { rewrite <- (be_val_bytes 8 ts), <- (be_val_bytes 8 ts'), Ets; [done|lia..]. }
  rewrite decide_False by auto. rewrite (proj2 (check_timestamp_ok now ts)) by done. simpl.
  destruct (reads_tail h port pad Hh Hp Hpad rest extra) as (s' & E & _ & _).
  { simpl. unfold id. rewrite <- Erest. by rewrite <- ?app_assoc. }
  by rewrite E.
Qed.

(** C24: the Shadowsocks 2022 request header parser.  It never panics, and it
    accepts exactly the headers of at least 18 bytes with the expected type, a
    timestamp within 30 seconds of the clock, an IPv4, domain (valid UTF-8) or
    IPv6 target, a port, and a padding of the announced length; it returns the
    target's text and ignores what follows the padding. *)
Theorem parse_request_header_exact now data ty t :
  bytes_ok data ->
  parse_request_header now data ty <> Panic /\
  (parse_request_header now data ty = Done t <->
   (18 <= length data)%nat /\
   exists ts h port pad extra, header_ok now ts h port pad /\
     data = header_wire ty ts h port pad extra /\ t = target_text h port).
Proof.
  intros Hok. destruct (decide (length data < 18)%nat) as [Hs|Hl].
  { unfold parse_request_header. rewrite decide_True by done. split; [done|].
    split; [done|lia]. }
  destruct (header_split data Hok ltac:(lia)) as (ty' & ts & rest & Ed & Hts & Hrest & Hrun).
  rewrite Hrun. unfold header_wire, header_ok. pose proof (check_timestamp_ok now ts) as Hc.
  destruct (quiet_tail rest) as [Hnp _]. split.
  - case_decide; [done|]. unfold check_timestamp in *. case_decide; [done|]. exact Hnp.
  - split.
    + case_decide as Hty; [done|]. 
      destruct (check_timestamp now ts) as [[]|e|] eqn:Ec; [|done..]. simpl. intros Ht.
      destruct (parse_address_and_padding rest) as [o rest'] eqn:Er. simpl in Ht. subst o.
      destruct (sound_tail rest t rest' Hrest Er)
        as (bs & Hbs & (h & port & pad & Hh & Hp & Hpad & -> & ->) & _).
      simpl in Hbs. unfold id in Hbs. split; [lia|]. exists ts, h, port, pad, rest'.
      split_and!; try done; try lia; [by apply Hc|].
      rewrite Ed, Hbs, Hty. simpl. by rewrite <- ?app_assoc.
    + rewrite <- Hrun. intros [_ (ts2 & h & port & pad & extra & Hh & E & ->)].
      rewrite E. apply (header_accepted now ty ts2 h port pad extra); [|unfold header_wire; rewrite <- E; lia|done].
      unfold header_wire. by rewrite <- E.
Qed.

(** ** The nonce counter *)

Lemma increment_nonce_spec n :
  bytes_ok n ->
  length (increment_nonce n) = length n /\ bytes_ok (increment_nonce n) /\
  le_val (increment_nonce n) = (le_val n + 1) mod 256 ^ Z.of_nat (length n).
Proof.
  induction 1 as [|b n Hb Hn (IHl & IHok & IHv)]; [done|].
  pose proof (le_val_bound n Hn) as Hbd. unfold byte_ok, wrap in *. cbn [increment_nonce].
  rewrite length_cons, Nat2Z.inj_succ, Z.pow_succ_r by lia. change (2 ^ 8) with 256.
  case_decide as Hz; unfold wrap in *; change (2 ^ 8) with 256 in *.
  - assert (b <> 255) by (intros ->; done). rewrite (Z.mod_small (b + 1)) by lia.
    split_and!; [done|constructor; [unfold byte_ok; lia|done]|].
    cbn [le_val]. rewrite Z.mod_small by lia. lia.
  - assert (b = 255) as -> by dlia. split_and!; [simpl; lia|by constructor|].
    cbn [le_val]. rewrite IHv.
    replace (255 + 256 * le_val n + 1) with (256 * (le_val n + 1)) by lia.
    rewrite Z.mul_mod_distr_l by lia. done.
Qed.

Lemma nonce_iter i :
  length (Nat.iter i increment_nonce (replicate 12 0)) = 12%nat /\
  bytes_ok (Nat.iter i increment_nonce (replicate 12 0)) /\
  le_val (Nat.iter i increment_nonce (replicate 12 0)) = Z.of_nat i mod 2 ^ 96.
Proof.
  induction i as [|i (Hl & Hok & Hv)]; [|].
  { split; [reflexivity|]. split; [apply Forall_replicate; unfold byte_ok; lia|reflexivity]. }
  rewrite Nat.iter_succ. destruct (increment_nonce_spec _ Hok) as (Hl' & Hok' & Hv').
  split_and!; [congruence|done|]. rewrite Hv', Hl, Hv.
  change (256 ^ Z.of_nat 12) with (2 ^ 96). rewrite Zplus_mod_idemp_l.
  by rewrite Nat2Z.inj_succ.
Qed.

(** ** Sealed streams

    [sealed c k n pts w n']: [w] is the sequence of chunks that seal the
    plaintexts [pts] in order under the nonces from [n] on, a sealed two-byte
    length and a sealed payload each, and [n'] is the next nonce. *)
Inductive sealed `{Aead ShadowsocksCipher} (c : ShadowsocksCipher) (k : list Z) :
    list Z -> list (list Z) -> list Z -> list Z -> Prop :=
| sealed_nil n : sealed c k n [] [] n
| sealed_cons n pt pts ct1 ct2 w n' :
    Z.of_nat (length pt) < 65536 ->
    aead_seal c k n (be_bytes 2 (Z.of_nat (length pt))) = Some ct1 ->
    aead_seal c k (increment_nonce n) pt = Some ct2 ->
    sealed c k (increment_nonce (increment_nonce n)) pts w n' ->
    sealed c k n (pt :: pts) (ct1 ++ ct2 ++ w) n'.

Section stream_lemmas.
Context `{AeadLaws ShadowsocksCipher}.

Lemma sealed_app c k n1 pts1 w1 n2 pts2 w2 n3 :
  sealed c k n1 pts1 w1 n2 -> sealed c k n2 pts2 w2 n3 ->
  sealed c k n1 (pts1 ++ pts2) (w1 ++ w2) n3.
Proof. induction 1; intros Hs2; [done|]. simpl. rewrite <- !app_assoc. by econstructor; eauto. Qed.

Lemma sealed_one c k n pt ct1 ct2 :
  Z.of_nat (length pt) < 65536 ->
  aead_seal c k n (be_bytes 2 (Z.of_nat (length pt))) = Some ct1 ->
  aead_seal c k (increment_nonce n) pt = Some ct2 ->
  sealed c k n [pt] (ct1 ++ ct2) (increment_nonce (increment_nonce n)).
Proof. intros. rewrite <- (app_nil_r ct2). econstructor; eauto using sealed_nil. Qed.

Lemma sealed_frame_length c k n len ct : aead_seal c k n (be_bytes 2 len) = Some ct -> length ct = 18%nat.
Proof. intros E%seal_length. by rewrite E, length_be_bytes. Qed.

(** *** The reader *)
Section reader.
Context {R : Type} `{SourceLaws R}.
Implicit Types r : AeadReader R.

Lemma decrypt_next_seal r pt ct :
  aead_key (r_cipher r) (r_subkey r) = true ->
  aead_seal (r_cipher r) (r_subkey r) (r_nonce r) pt = Some ct ->
  decrypt_next ct r = (Done pt, MkReader (r_inner r) (r_cipher r) (r_subkey r)
                                 (increment_nonce (r_nonce r)) (r_buf r)).
Proof.
  intros Hk Hs. unfold decrypt_next, aead_decrypt, mbind, M_bind, lift, get_st; simpl.
  by rewrite Hk, (open_seal _ _ _ _ _ Hs).
Qed.

Lemma decrypt_next_inv r ct o r' :
  decrypt_next ct r = (o, r') -> o <> Panic /\
  match o with
  | Done pt => aead_key (r_cipher r) (r_subkey r) = true /\
      aead_seal (r_cipher r) (r_subkey r) (r_nonce r) pt = Some ct /\
      (bytes_ok ct -> bytes_ok pt) /\
      r' = MkReader (r_inner r) (r_cipher r) (r_subkey r) (increment_nonce (r_nonce r)) (r_buf r)
  | _ => r' = r
  end.
Proof.
  unfold decrypt_next, aead_decrypt, mbind, M_bind, lift, get_st; simpl.
  destruct (aead_key _ _); [|by intros [= <- <-]].
  destruct (aead_open _ _ _ _) as [pt|] eqn:E; [|by intros [= <- <-]]. simpl. intros [= <- <-].
  split_and!; [done|done|by apply seal_open|by intros; eapply open_bytes|done].
Qed.

Lemma on_inner_read n r bs rest :
  length bs = n -> pending (r_inner r) = bs ++ rest ->
  exists i, on_inner (read_exact n) r =
    (Done bs, MkReader i (r_cipher r) (r_subkey r) (r_nonce r) (r_buf r)) /\
    pending i = rest /\ trace i = trace (r_inner r).
Proof.
  intros Hl Hp. destruct (reads_exact n bs Hl (r_inner r) rest Hp) as (i & E & P & T).
  exists i. unfold on_inner. by rewrite E.
Qed.

Lemma on_inner_inv n r o r' :
  on_inner (read_exact n) r = (o, r') ->
  (exists bs, o = Done bs /\ pending (r_inner r) = bs ++ pending (r_inner r') /\ length bs = n /\
    r' = MkReader (r_inner r') (r_cipher r) (r_subkey r) (r_nonce r) (r_buf r) /\
    trace (r_inner r') = trace (r_inner r)) \/
  (o = Fail EEof /\ (length (pending (r_inner r)) < n)%nat /\
    r' = MkReader (r_inner r') (r_cipher r) (r_subkey r) (r_nonce r) (r_buf r) /\
    trace (r_inner r') = trace (r_inner r)).
Proof.
  unfold on_inner. destruct (decide (n <= length (pending (r_inner r)))%nat) as [Hl|Hl].
  - destruct (read_exact_done n (r_inner r) Hl) as (i & -> & P & T). intros [= <- <-]. left.
    eexists; split; [done|]. simpl. rewrite P, take_drop, length_take.
    split_and!; [done|lia|done|done].
  - destruct (read_exact_eof n (r_inner r)) as (i & -> & T & _); [lia|]. intros [= <- <-]. right.
    split_and!; [done|lia|done|done].
Qed.

Lemma len_bytes len : 0 <= len < 65536 ->
  exists b0 b1, be_bytes 2 len = [b0; b1] /\ be_val [b0; b1] = len.
Proof.
  intros Hl. rewrite u16_be_bytes. do 2 eexists; split; [done|].
  rewrite <- u16_be_bytes. by apply be_val_bytes.
Qed.

Lemma read_payload_seal r pt ct1 ct2 rest :
  aead_key (r_cipher r) (r_subkey r) = true -> Z.of_nat (length pt) < 65536 ->
  aead_seal (r_cipher r) (r_subkey r) (r_nonce r) (be_bytes 2 (Z.of_nat (length pt))) = Some ct1 ->
  aead_seal (r_cipher r) (r_subkey r) (increment_nonce (r_nonce r)) pt = Some ct2 ->
  pending (r_inner r) = ct2 ++ rest ->
  exists i, read_payload ct1 r = (Done pt, MkReader i (r_cipher r) (r_subkey r)
      (increment_nonce (increment_nonce (r_nonce r))) (r_buf r)) /\
    pending i = rest /\ trace i = trace (r_inner r).
Proof.
  intros Hk Hl Hs1 Hs2 Hp. unfold read_payload.
  rewrite (bind_step get_st _ _ r r) by done.
  rewrite (bind_step _ _ _ _ _ (decrypt_next_seal _ _ _ Hk Hs1)).
  destruct (len_bytes (Z.of_nat (length pt))) as (b0 & b1 & Eb & Ev); [lia|]. rewrite Eb.
  rewrite (bind_step (lift _) _ _ b0 _ eq_refl), (bind_step (lift _) _ _ b1 _ eq_refl).
  rewrite Ev, Nat2Z.id.
  edestruct (on_inner_read (length pt + tag_len (r_cipher r))
    (MkReader (r_inner r) (r_cipher r) (r_subkey r) (increment_nonce (r_nonce r)) (r_buf r)) ct2 rest)
    as (i & E & P & T); [by rewrite (seal_length _ _ _ _ _ Hs2)|done|].
  rewrite (bind_step _ _ _ _ _ E). exists i. by erewrite decrypt_next_seal.
Qed.

Lemma read_payload_inv r ct1 o r' :
  bytes_ok ct1 -> length ct1 = 18%nat -> read_payload ct1 r = (o, r') ->
  o <> Panic /\ trace (r_inner r') = trace (r_inner r) /\ r_buf r' = r_buf r /\
  forall pt, o = Done pt -> exists ct2,
    aead_key (r_cipher r) (r_subkey r) = true /\ Z.of_nat (length pt) < 65536 /\
    aead_seal (r_cipher r) (r_subkey r) (r_nonce r) (be_bytes 2 (Z.of_nat (length pt))) = Some ct1 /\
    aead_seal (r_cipher r) (r_subkey r) (increment_nonce (r_nonce r)) pt = Some ct2 /\
    pending (r_inner r) = ct2 ++ pending (r_inner r') /\
    r' = MkReader (r_inner r') (r_cipher r) (r_subkey r)
           (increment_nonce (increment_nonce (r_nonce r))) (r_buf r).
Proof.
  intros Hok Hl. unfold read_payload. rewrite (bind_step get_st _ _ r r) by done.
  unfold mbind at 1, M_bind at 1.
  destruct (decrypt_next ct1 r) as [o1 r1] eqn:E1. apply decrypt_next_inv in E1 as [Hn1 E1].
  destruct o1 as [lp|e|]; [|intros [= <- <-]; subst; split_and!; (done || lia)|done].
  destruct E1 as (Hk & Hs1 & Hb & ->). pose proof (seal_length _ _ _ _ _ Hs1) as Hll.
  unfold TAG_LEN in Hll. destruct lp as [|b0 [|b1 [|]]]; simpl in Hll; try lia.
  specialize (Hb Hok). pose proof (be_val_bound _ Hb) as Hbd. change (256 ^ _) with 65536 in Hbd.
  rewrite (bind_step (lift _) _ _ b0 _ eq_refl), (bind_step (lift _) _ _ b1 _ eq_refl).
  unfold mbind, M_bind. destruct (on_inner _ _) as [o2 r2] eqn:E2.
  apply on_inner_inv in E2 as [(ct2 & -> & P2 & L2 & E2 & T2)|(-> & _ & E2 & T2)];
    [|intros [= <- <-]; rewrite E2; cbn [r_inner r_cipher r_subkey r_nonce r_buf] in *; split_and!; (done || lia)].
  rewrite E2. cbn [r_inner r_cipher r_subkey r_nonce r_buf] in *. intros E3. apply decrypt_next_inv in E3 as [Hn3 E3]. split; [done|].
  destruct o as [pt|e|]; [|subst r'; cbn [r_inner r_buf]; split_and!; (done || lia)|done].
  destruct E3 as (_ & Hs3 & _ & ->). cbn [r_inner r_cipher r_subkey r_nonce r_buf] in *.
  split_and!; [done|done|]. intros ? [= <-]. exists ct2.
  pose proof (seal_length _ _ _ _ _ Hs3) as L3. unfold TAG_LEN, tag_len in *.
  assert (Z.of_nat (length pt) = be_val [b0; b1]) as -> by lia.
  rewrite be_bytes_val by done. split_and!; try done. lia.
Qed.

Lemma fill_buf_seal r pt ct1 ct2 rest :
  aead_key (r_cipher r) (r_subkey r) = true -> Z.of_nat (length pt) < 65536 ->
  aead_seal (r_cipher r) (r_subkey r) (r_nonce r) (be_bytes 2 (Z.of_nat (length pt))) = Some ct1 ->
  aead_seal (r_cipher r) (r_subkey r) (increment_nonce (r_nonce r)) pt = Some ct2 ->
  pending (r_inner r) = ct1 ++ ct2 ++ rest ->
  exists i, fill_buf r = (Done true, MkReader i (r_cipher r) (r_subkey r)
      (increment_nonce (increment_nonce (r_nonce r))) (r_buf r ++ pt)) /\
    pending i = rest /\ trace i = trace (r_inner r).
Proof.
  intros Hk Hl Hs1 Hs2 Hp. unfold fill_buf. rewrite (bind_step get_st _ _ r r) by done.
  destruct (on_inner_read 18 r ct1 (ct2 ++ rest)) as (i & E & P & T);
    [by eapply sealed_frame_length|done|].
  assert (Ea : attempt (on_inner (read_exact (2 + tag_len (r_cipher r)))) r =
    (Done (inl ct1), MkReader i (r_cipher r) (r_subkey r) (r_nonce r) (r_buf r)))
    by (unfold attempt, tag_len; change (2 + 16)%nat with 18%nat; by rewrite E).
  rewrite (bind_step _ _ _ _ _ Ea).
  edestruct (read_payload_seal (MkReader i (r_cipher r) (r_subkey r) (r_nonce r) (r_buf r))
    pt ct1 ct2 rest) as (j & E2 & P2 & T2); [done..|].
  rewrite (bind_step _ _ _ _ _ E2). exists j. split_and!; [done|done|]. by rewrite T2.
Qed.

Lemma fill_buf_eof r :
  (length (pending (r_inner r)) < 18)%nat ->
  exists i, fill_buf r = (Done false, MkReader i (r_cipher r) (r_subkey r) (r_nonce r) (r_buf r)) /\
    trace i = trace (r_inner r).
Proof.
  intros Hl. destruct (read_exact_eof 18 (r_inner r) Hl) as (i & E & T & _). exists i. split; [|done].
  unfold fill_buf. rewrite (bind_step get_st _ _ r r) by done.
  unfold attempt, on_inner, tag_len, mbind, M_bind. change (2 + 16)%nat with 18%nat.
  by rewrite E.
Qed.

Lemma fill_buf_inv r o r' :
  bytes_ok (pending (r_inner r)) -> fill_buf r = (o, r') ->
  o <> Panic /\ trace (r_inner r') = trace (r_inner r) /\
  (o <> Done true -> r_buf r' = r_buf r) /\
  (o = Done true -> exists pt ct1 ct2,
    aead_key (r_cipher r) (r_subkey r) = true /\ Z.of_nat (length pt) < 65536 /\
    aead_seal (r_cipher r) (r_subkey r) (r_nonce r) (be_bytes 2 (Z.of_nat (length pt))) = Some ct1 /\
    aead_seal (r_cipher r) (r_subkey r) (increment_nonce (r_nonce r)) pt = Some ct2 /\
    pending (r_inner r) = ct1 ++ ct2 ++ pending (r_inner r') /\
    r' = MkReader (r_inner r') (r_cipher r) (r_subkey r)
           (increment_nonce (increment_nonce (r_nonce r))) (r_buf r ++ pt)).
Proof.
  intros Hok. unfold fill_buf. rewrite (bind_step get_st _ _ r r) by done.
  unfold attempt, tag_len. change (2 + 16)%nat with 18%nat. unfold mbind at 1, M_bind at 1.
  destruct (on_inner (read_exact 18) r) as [o1 r1] eqn:E1.
  apply on_inner_inv in E1 as [(ct1 & -> & P1 & L1 & E1 & T1)|(-> & _ & E1 & T1)].
  2: { intros [= <- <-]. rewrite E1. split_and!; done. }
  rewrite P1 in Hok. apply Forall_app in Hok as [Hok1 Hok2].
  unfold mbind at 1, M_bind at 1. destruct (read_payload ct1 r1) as [o2 r2] eqn:E2.
  apply read_payload_inv in E2 as (Hn2 & T2 & B2 & S2); [|done|done].
  destruct o2 as [pt|e|]; [|intros [= <- <-]; rewrite T2, B2, E1; split_and!; done|done].
  intros [= <- <-]. destruct (S2 pt eq_refl) as (ct2 & Hk & Hl & Hs1 & Hs2 & P2 & E3).
  rewrite E3, E1 in *. cbn [r_inner r_cipher r_subkey r_nonce r_buf] in *.
  split_and!; [done|congruence|done|]. intros _. exists pt, ct1, ct2.
  rewrite P1, P2. by split_and!.
Qed.

(** *** Reading plaintext *)

Lemma read_plain_buffered n r :
  r_buf r <> [] ->
  read_plain n r = (Done (take n (r_buf r)),
    MkReader (r_inner r) (r_cipher r) (r_subkey r) (r_nonce r) (drop n (r_buf r))).
Proof.
  intros Hb. unfold read_plain. rewrite (bind_step get_st _ _ r r) by done.
  rewrite decide_False by done. simpl. unfold mbind, M_bind; simpl.
  destruct (decide (n <= length (r_buf r))%nat).
  - by rewrite Nat.min_r by lia.
  - rewrite Nat.min_l by lia. rewrite !take_ge, !drop_ge by lia. done.
Qed.

Lemma read_plain_filled n r r1 :
  r_buf r = [] -> fill_buf r = (Done true, r1) -> r_buf r1 <> [] ->
  read_plain n r = read_plain n r1.
Proof.
  intros Hb Hf Hb1. unfold read_plain.
  rewrite (bind_step get_st _ r r r), (bind_step get_st _ r1 r1 r1) by done.
  rewrite decide_True, decide_False by done. by rewrite (bind_step _ _ _ _ _ Hf).
Qed.

Lemma read_plain_empty n r o r1 :
  r_buf r = [] -> fill_buf r = (o, r1) -> r_buf r1 = [] ->
  exists o', attempt (read_plain n) r = (o', r1) /\
  match o with
  | Done _ => o' = Done (inl []) | Fail e => o' = Done (inr e) | Panic => o' = Panic
  end.
Proof.
  intros Hb Hf Hb1. unfold attempt, read_plain.
  rewrite (bind_step get_st _ r r r) by done. rewrite decide_True by done.
  unfold mbind at 1, M_bind at 1. rewrite Hf. destruct o as [[]|e|]; simpl; eauto.
  unfold mbind, M_bind; simpl. rewrite Hb1. simpl. rewrite <- Hb1. destruct r1; eauto.
Qed.

Lemma read_header_chunk_ok r header w n' rest :
  aead_key (r_cipher r) (r_subkey r) = true ->
  sealed (r_cipher r) (r_subkey r) (r_nonce r) [header] w n' -> pending (r_inner r) = w ++ rest ->
  exists i, read_header_chunk r =
      (Done header, MkReader i (r_cipher r) (r_subkey r) n' (r_buf r)) /\
    pending i = rest /\ trace i = trace (r_inner r).
Proof.
  intros Hk Hs Hp. inversion Hs as [|? ? ? ct1 ct2 w' ? Hl Hs1 Hs2 Hs']; subst.
  inversion Hs'; subst. rewrite app_nil_r, <- app_assoc in Hp. unfold read_header_chunk.
  rewrite (bind_step get_st _ r r r) by done.
  destruct (on_inner_read 18 r ct1 (ct2 ++ rest)) as (i & E & P & T);
    [by eapply sealed_frame_length|done|].
  rewrite (bind_step _ _ _ _ _ E).
  edestruct (read_payload_seal (MkReader i (r_cipher r) (r_subkey r) (r_nonce r) (r_buf r))
    header ct1 ct2 rest) as (j & E2 & P2 & T2); [done..|].
  exists j. split_and!; [done|done|]. by rewrite T2.
Qed.

Lemma read_header_chunk_inv r o r' :
  bytes_ok (pending (r_inner r)) -> read_header_chunk r = (o, r') ->
  o <> Panic /\ trace (r_inner r') = trace (r_inner r) /\
  (forall header, o = Done header -> bytes_ok header /\ exists w,
    sealed (r_cipher r) (r_subkey r) (r_nonce r) [header] w (r_nonce r') /\
    pending (r_inner r) = w ++ pending (r_inner r')).
Proof.
  intros Hok. unfold read_header_chunk. rewrite (bind_step get_st _ r r r) by done.
  unfold tag_len, mbind, M_bind. change (2 + 16)%nat with 18%nat.
  destruct (on_inner (read_exact 18) r) as [o1 r1] eqn:E1.
  apply on_inner_inv in E1 as [(ct1 & -> & P1 & L1 & E1 & T1)|(-> & _ & E1 & T1)].
  2: { intros [= <- <-]. split_and!; done. }
  rewrite P1 in Hok. apply Forall_app in Hok as [Hok1 Hok2].
  intros E2. apply read_payload_inv in E2 as (Hn2 & T2 & _ & S2); [|done|done].
  split_and!; [done|congruence|]. intros header ->.
  destruct (S2 header eq_refl) as (ct2 & Hk & Hl & Hs1 & Hs2 & P2 & E3).
  rewrite E1 in Hs1, Hs2. simpl in Hs1, Hs2. rewrite P2 in Hok2. apply Forall_app in Hok2 as [Hok2 _].
  split; [by eapply open_bytes, open_seal|]. exists (ct1 ++ ct2).
  rewrite E3, E1. simpl. rewrite P1, P2, app_assoc. split; [by apply sealed_one|done].
Qed.

Definition stream_size r : nat := (length (pending (r_inner r)) + length (r_buf r))%nat.

(** The reader is at a point of a sealed stream: [pts] are the plaintexts
    of the chunks it has not decrypted yet, [rest] what follows them. *)
Definition at_stream r (pts : list (list Z)) (rest n' : list Z) : Prop :=
  exists w, sealed (r_cipher r) (r_subkey r) (r_nonce r) pts w n' /\
    pending (r_inner r) = w ++ rest /\ Forall (fun pt => pt <> []) pts /\
    aead_key (r_cipher r) (r_subkey r) = true.

Lemma read_plain_some n r pts rest n' :
  (0 < n)%nat -> r_buf r <> [] -> at_stream r pts rest n' ->
  exists tmp r1, read_plain n r = (Done tmp, r1) /\ tmp <> [] /\ at_stream r1 pts rest n' /\
    tmp ++ r_buf r1 = r_buf r /\ (stream_size r1 < stream_size r)%nat /\
    trace (r_inner r1) = trace (r_inner r) /\
    r_cipher r1 = r_cipher r /\ r_subkey r1 = r_subkey r.
Proof.
  intros Hn Hb (w & Hs & Hp & Hne & Hk). eexists _, _. split; [by apply read_plain_buffered|].
  unfold stream_size. cbn [r_inner r_buf]. rewrite take_drop, length_drop.
  destruct (r_buf r) as [|b l], n; try (done || lia).
  split_and!; try done; [by exists w|simpl; lia].
Qed.

Lemma fill_buf_stream r pt pts rest n' :
  r_buf r = [] -> at_stream r (pt :: pts) rest n' ->
  exists r1, fill_buf r = (Done true, r1) /\ r_buf r1 = pt /\ pt <> [] /\
    at_stream r1 pts rest n' /\ (stream_size r1 < stream_size r)%nat /\
    trace (r_inner r1) = trace (r_inner r) /\
    r_cipher r1 = r_cipher r /\ r_subkey r1 = r_subkey r.
Proof.
  intros Hb (w & Hs & Hp & Hne & Hk). apply Forall_cons_1 in Hne as [Hpt Hne].
  inversion Hs as [|? ? ? ct1 ct2 w' ? Hl Hs1 Hs2 Hs']; subst.
  rewrite <- !app_assoc in Hp.
  destruct (fill_buf_seal r pt ct1 ct2 (w' ++ rest) Hk Hl Hs1 Hs2 Hp) as (i & E & P & T).
  eexists; split; [exact E|]. rewrite Hb. cbn [r_buf app].
  split_and!; [done|done|by exists w'| |done|done|done].
  unfold stream_size. rewrite Hb, Hp. cbn [r_inner r_buf].
  rewrite P, !length_app, (sealed_frame_length _ _ _ _ _ Hs1), (seal_length _ _ _ _ _ Hs2).
  simpl. lia.
Qed.

Lemma next_plain n r pts rest n' :
  (0 < n)%nat -> at_stream r pts rest n' -> r_buf r <> [] \/ pts <> [] ->
  exists tmp r1 pts1, read_plain n r = (Done tmp, r1) /\ tmp <> [] /\
    at_stream r1 pts1 rest n' /\ tmp ++ r_buf r1 ++ concat pts1 = r_buf r ++ concat pts /\
    (stream_size r1 < stream_size r)%nat /\ trace (r_inner r1) = trace (r_inner r) /\
    r_cipher r1 = r_cipher r /\ r_subkey r1 = r_subkey r.
Proof.
  intros Hn Hat Hsome. destruct (decide (r_buf r = [])) as [Hb|Hb].
  - destruct pts as [|pt pts]; [naive_solver|].
    destruct (fill_buf_stream _ _ _ _ _ Hb Hat) as (r0 & E0 & B0 & Hpt & Hat0 & S0 & T0 & ? & ?).
    destruct (read_plain_some n r0 pts rest n') as (tmp & r1 & E1 & Ht & Hat1 & B1 & S1 & T1 & ? & ?);
      [done|congruence|done|].
    exists tmp, r1, pts. rewrite (read_plain_filled _ _ _ Hb E0) by congruence.
    split_and!; [done|done|done| |lia|congruence..].
    by rewrite app_assoc, B1, B0, Hb.
  - destruct (read_plain_some n r pts rest n') as (tmp & r1 & E1 & Ht & Hat1 & B1 & S1 & T1 & ? & ?);
      [done..|].
    exists tmp, r1, pts. split_and!; try done. by rewrite app_assoc, B1.
Qed.

Lemma uplink_turn out_ok fwd r res r1 :
  attempt (read_plain (Z.to_nat (32 * 1024))) r = (Done res, r1) ->
  uplink_round out_ok fwd r = (Done (match res with
    | inr _ | inl [] => inr fwd
    | inl tmp => if out_ok fwd then inl (fwd ++ tmp) else inr fwd
    end), r1).
Proof. intros E. unfold uplink_round. by rewrite (bind_step _ _ _ _ _ E). Qed.

Lemma uplink_step out_ok fuel fwd r tmp r1 :
  read_plain (Z.to_nat (32 * 1024)) r = (Done tmp, r1) -> tmp <> [] ->
  rounds (uplink_round out_ok) (Datatypes.S fuel) fwd r =
    if out_ok fwd then rounds (uplink_round out_ok) fuel (fwd ++ tmp) r1 else (Done fwd, r1).
Proof.
  intros E Ht. destruct tmp as [|b tmp]; [done|].
  assert (Ea : attempt (read_plain (Z.to_nat (32 * 1024))) r = (Done (inl (b :: tmp)), r1))
    by (unfold attempt; by rewrite E).
  cbn [rounds]. rewrite (bind_step _ _ _ _ _ (uplink_turn out_ok fwd _ _ _ Ea)). by destruct (out_ok fwd).
Qed.

(** Once its buffer is empty, a reader at [rest] ends the uplink. *)
Definition ends_at c k (rest n' : list Z) : Prop :=
  forall r, r_cipher r = c -> r_subkey r = k -> r_nonce r = n' -> pending (r_inner r) = rest ->
    r_buf r = [] -> exists o r1, fill_buf r = (o, r1) /\ r_buf r1 = [] /\ o <> Panic /\
      trace (r_inner r1) = trace (r_inner r).

Lemma ends_at_eof c k rest n' : (length rest < 18)%nat -> ends_at c k rest n'.
Proof.
  intros Hl r _ _ _ Hp Hb. destruct (fill_buf_eof r) as (i & E & T); [by rewrite Hp|].
  do 2 eexists. split; [exact E|]. by rewrite <- Hb.
Qed.

Lemma ends_at_empty_chunk c k n' n'' w rest :
  aead_key c k = true -> sealed c k n' [[]] w n'' -> ends_at c k (w ++ rest) n'.
Proof.
  intros Hk Hs r <- <- <- Hp Hb. inversion Hs as [|? ? ? ct1 ct2 w' ? Hl Hs1 Hs2 Hs']; subst.
  inversion Hs'; subst. rewrite app_nil_r, <- app_assoc in Hp.
  destruct (fill_buf_seal r [] ct1 ct2 rest Hk Hl Hs1 Hs2 Hp) as (i & E & P & T).
  do 2 eexists. split; [exact E|]. simpl. by rewrite Hb.
Qed.

Lemma uplink_exact out_ok pts rest n' fuel fwd r :
  (forall x, out_ok x = true) -> at_stream r pts rest n' ->
  ends_at (r_cipher r) (r_subkey r) rest n' -> (stream_size r < fuel)%nat ->
  exists r', rounds (uplink_round out_ok) fuel fwd r = (Done (fwd ++ r_buf r ++ concat pts), r') /\
    trace (r_inner r') = trace (r_inner r).
Proof.
  intros Hout. revert pts fwd r. induction fuel as [|fuel IH]; intros pts fwd r Hat Hr Hf; [lia|].
  destruct (decide (r_buf r = [] /\ pts = [])) as [[Hb ->]|Hsome].
  - destruct Hat as (w & Hs & Hp & _). inversion Hs; subst. simpl in Hp.
    destruct (Hr r) as (o & r1 & E & Hb1 & Hnp & T); try done.
    destruct (read_plain_empty (Z.to_nat (32 * 1024)) r _ _ Hb E Hb1) as (o' & E' & Ho).
    exists r1. rewrite Hb, !app_nil_r. cbn [rounds].
    destruct o; [..|done]; subst o'; by rewrite (bind_step _ _ _ _ _ (uplink_turn out_ok fwd _ _ _ E')).
  - destruct (next_plain (Z.to_nat (32 * 1024)) r pts rest n')
      as (tmp & r1 & pts1 & E & Ht & Hat1 & C & S1 & T & Ec & Ek); [lia|done| |].
    { destruct (decide (r_buf r = [])), (decide (pts = [])); naive_solver. }
    rewrite (uplink_step _ _ _ _ _ _ E Ht), Hout.
    destruct (IH pts1 (fwd ++ tmp) r1 Hat1) as (r' & -> & T'); [by rewrite Ec, Ek|lia|].
    exists r'. rewrite <- C, <- !app_assoc. split; [done|congruence].
Qed.

(** Whatever the input, the uplink ends, and what it forwards is a prefix
    of plaintexts that were sealed, in order, under the session's nonces. *)
Lemma read_plain_inv r o r' n :
  (0 < n)%nat -> bytes_ok (pending (r_inner r)) -> attempt (read_plain n) r = (o, r') ->
  trace (r_inner r') = trace (r_inner r) /\
  ((exists e, o = Done (inr e)) \/ o = Done (inl []) \/
   exists tmp pts w, o = Done (inl tmp) /\ tmp <> [] /\
     pending (r_inner r) = w ++ pending (r_inner r') /\
     sealed (r_cipher r) (r_subkey r) (r_nonce r) pts w (r_nonce r') /\
     r_cipher r' = r_cipher r /\ r_subkey r' = r_subkey r /\
     tmp ++ r_buf r' = r_buf r ++ concat pts /\ (stream_size r' < stream_size r)%nat).
Proof.
  intros Hn Hok. destruct (decide (r_buf r = [])) as [Hb|Hb].
  - destruct (fill_buf r) as [o1 r1] eqn:E1.
    destruct (fill_buf_inv r o1 r1 Hok E1) as (Hnp & T1 & Hno & Hyes).
    destruct (decide (r_buf r1 = [])) as [Hb1|Hb1].
    { destruct (read_plain_empty n r o1 r1 Hb E1 Hb1) as (o2 & -> & Ho). intros [= <- <-].
      split; [done|]. destruct o1; naive_solver. }
    destruct (decide (o1 = Done true)) as [->|Hd]; [|by rewrite (Hno Hd) in Hb1].
    destruct (Hyes eq_refl) as (pt & ct1 & ct2 & Hk & Hl & Hs1 & Hs2 & P & Er).
    unfold attempt. rewrite (read_plain_filled n r r1 Hb E1 Hb1), read_plain_buffered by done.
    intros [= <- <-]. cbn [r_inner r_buf r_nonce r_cipher r_subkey]. split; [done|]. do 2 right.
    rewrite Er, Hb. cbn [r_inner r_buf r_nonce r_cipher r_subkey app].
    rewrite Er, Hb in Hb1. simpl in Hb1.
    eexists _, [pt], (ct1 ++ ct2). split; [done|].
    split; [by destruct pt, n; try lia|]. rewrite <- app_assoc.
    split_and!; [done|by apply sealed_one|done|done|by rewrite take_drop; simpl; rewrite app_nil_r|].
    unfold stream_size. rewrite P, Hb, !length_app. cbn [r_inner r_buf].
    rewrite (sealed_frame_length _ _ _ _ _ Hs1), (seal_length _ _ _ _ _ Hs2), length_drop. simpl. lia.
  - unfold attempt. rewrite read_plain_buffered by done. intros [= <- <-].
    cbn [r_inner r_buf r_nonce r_cipher r_subkey]. split; [done|]. do 2 right.
    eexists _, [], []. split; [done|]. split; [by destruct (r_buf r), n; try lia|].
    split_and!; [done|constructor|done|done|by rewrite take_drop, app_nil_r|].
    unfold stream_size. cbn [r_inner r_buf]. rewrite length_drop.
    destruct (r_buf r); [done|]. simpl; lia.
Qed.

Lemma uplink_inv out_ok fuel fwd r o r' :
  bytes_ok (pending (r_inner r)) -> (stream_size r < fuel)%nat ->
  rounds (uplink_round out_ok) fuel fwd r = (o, r') ->
  trace (r_inner r') = trace (r_inner r) /\
  exists up pts w rest n', o = Done (fwd ++ up) /\ pending (r_inner r) = w ++ rest /\
    sealed (r_cipher r) (r_subkey r) (r_nonce r) pts w n' /\
    up `prefix_of` r_buf r ++ concat pts.
Proof.
  revert fwd r. induction fuel as [|fuel IH]; intros fwd r Hok Hf; [lia|].
  cbn [rounds]. destruct (attempt (read_plain (Z.to_nat (32 * 1024))) r) as [o1 r1] eqn:E1.
  pose proof E1 as [T1 C]%read_plain_inv; [|lia|done].
  pose proof (fun res Er => uplink_turn out_ok fwd r res r1 (eq_trans E1 (f_equal (., r1) Er))) as Et.
  assert (Hstop : forall r2, (Done fwd, r1) = (o, r2) -> r2 = r' ->
    trace (r_inner r') = trace (r_inner r) /\
    exists up pts w rest n', o = Done (fwd ++ up) /\ pending (r_inner r) = w ++ rest /\
      sealed (r_cipher r) (r_subkey r) (r_nonce r) pts w n' /\
      up `prefix_of` r_buf r ++ concat pts).
  { intros r2 [= <- <-] <-. split; [done|]. exists [], [], [], (pending (r_inner r)), (r_nonce r).
    rewrite app_nil_r. split_and!; [done|done|constructor|apply prefix_nil]. }
  destruct C as [[e ->]|[->|(tmp & pts & w & -> & Ht & P & Hs & Ec & Ek & C & S1)]];
    rewrite (bind_step _ _ _ _ _ (Et _ eq_refl)); [intros E; by eapply Hstop|intros E; by eapply Hstop|].
  destruct tmp as [|b tmp]; [done|]. destruct (out_ok fwd); [|intros E; by eapply Hstop].
  intros E. apply IH in E as (T & up & pts2 & w2 & rest & n' & -> & P2 & Hs2 & C2); [|rewrite P in Hok; by apply (Forall_app byte_ok w) in Hok as [_ ?]|lia].
  split; [congruence|]. exists ((b :: tmp) ++ up), (pts ++ pts2), (w ++ w2), rest, n'.
  rewrite <- !app_assoc. split_and!; [done|by rewrite P, P2| |].
  - rewrite Ec, Ek in Hs2. by eapply sealed_app.
  - rewrite concat_app, app_assoc, <- C, <- app_assoc. by apply prefix_app.
Qed.
End reader.

(** *** The writer *)
Section writer.
Context {W : Type} (put : list Z -> M W unit).
Implicit Types w : AeadWriter W.

(** A preorder on the sink that every write respects, the writer respects;
    and it does not panic. *)
Lemma downlink_cons b tmp reads (w : AeadWriter W) :
  downlink put ((b :: tmp) :: reads) w =
  (res ← attempt (write_data put (b :: tmp));
   match res with inl _ => downlink put reads | inr _ => mret tt end) w.
Proof.
  unfold downlink, downlink_fuel. cbn [length rounds downlink_round]. unfold mbind, M_bind.
  by destruct (attempt _ w) as [[[?|?]|?|] ?].
Qed.

Lemma downlink_no_fail reads e (w w' : AeadWriter W) : downlink put reads w <> (Fail e, w').
Proof.
  revert w. induction reads as [|[|b tmp] reads IH]; intros w; [done..|]. rewrite downlink_cons.
  unfold attempt, mbind, M_bind. destruct (write_data put (b :: tmp) w) as [[?|?|] ?]; [apply IH|done..].
Qed.

Section keeps.
Context (rel : relation W) `{!PreOrder rel}.
Hypothesis put_rel : forall d x o x', put d x = (o, x') -> rel x x' /\ o <> Panic.

Definition keeps {A} (m : M (AeadWriter W) A) : Prop :=
  forall w o w', m w = (o, w') -> rel (w_inner w) (w_inner w') /\ o <> Panic.

Lemma keeps_bind {A B} (m : M (AeadWriter W) A) (g : A -> M (AeadWriter W) B) :
  keeps m -> (forall a, keeps (g a)) -> keeps (m ≫= g).
Proof.
  intros Hm Hg w o w'. unfold mbind, M_bind. destruct (m w) as [o1 w1] eqn:E.
  destruct (Hm _ _ _ E) as [R1 N1]. destruct o1 as [a|e|]; [|by intros [= <- <-]|done].
  intros E2. destruct (Hg _ _ _ _ E2) as [R2 N2]. split; [by etrans|done].
Qed.
Lemma keeps_raw d : keeps (write_raw put d).
Proof.
  intros w o w'. unfold write_raw. destruct (put d (w_inner w)) as [o1 i] eqn:E.
  intros [= <- <-]. by eapply put_rel.
Qed.
Lemma keeps_pure {A} (m : M (AeadWriter W) A) :
  (forall w, w_inner (m w).2 = w_inner w /\ (m w).1 <> Panic) -> keeps m.
Proof.
  intros Hm w o w' E. specialize (Hm w). rewrite E in Hm. simpl in Hm.
  destruct Hm as [-> ?]. by split.
Qed.
Lemma keeps_encrypt pt : keeps (encrypt_next pt).
Proof.
  apply keeps_pure. intros w. unfold encrypt_next, aead_encrypt, mbind, M_bind; simpl.
  unfold lift. destruct (aead_key _ _); [|done]. by destruct (aead_seal _ _ _ _).
Qed.
Lemma keeps_attempt {A} (m : M (AeadWriter W) A) : keeps m -> keeps (attempt m).
Proof.
  intros Hm w o w'. unfold attempt. destruct (m w) as [o1 w1] eqn:E.
  apply Hm in E. destruct o1; naive_solver.
Qed.
Lemma keeps_header data : keeps (write_header_chunk put data).
Proof.
  unfold write_header_chunk.
  repeat (apply keeps_bind; [by auto using keeps_raw, keeps_encrypt|intros ?]).
  apply keeps_raw.
Qed.
Lemma keeps_data_from fuel data off :
  (length data - off < fuel)%nat -> keeps (write_data_from put fuel data off).
Proof.
  assert (Hmax : (0 < MAX_CHUNK)%nat) by (unfold MAX_CHUNK; lia).
  revert off. induction fuel as [|fuel IH]; intros off Hf; [lia|]; cbn [write_data_from].
  case_decide; [|by apply keeps_pure].
  apply keeps_bind; [rewrite slice_ok by lia; by apply keeps_pure|intros ?].
  do 4 (apply keeps_bind; [by auto using keeps_raw, keeps_encrypt|intros ?]). apply IH. lia.
Qed.
Lemma keeps_downlink reads : keeps (downlink put reads).
Proof.
  induction reads as [|[|b tmp] reads IH]; [by apply keeps_pure..|].
  intros w o w'. rewrite downlink_cons. revert w o w'.
  apply keeps_bind; [apply keeps_attempt, keeps_data_from; lia|].
  intros [?|?]; [apply IH|by apply keeps_pure].
Qed.
End keeps.

(** A sink that takes every write. *)
Context (sent : W -> list Z).
Hypothesis put_ok : forall d x, exists x', put d x = (Done tt, x') /\ sent x' = sent x ++ d.

(** From [w] to [w'] the writer sent the chunks that seal [pts]. *)
Definition sends w (pts : list (list Z)) w' : Prop :=
  w_cipher w' = w_cipher w /\ w_subkey w' = w_subkey w /\
  exists ws, sent (w_inner w') = sent (w_inner w) ++ ws /\
    sealed (w_cipher w) (w_subkey w) (w_nonce w) pts ws (w_nonce w').

Lemma sends_nil w : sends w [] w.
Proof. split_and!; [done..|]. exists []. rewrite app_nil_r. split; [done|constructor]. Qed.

Lemma sends_app w1 pts1 w2 pts2 w3 :
  sends w1 pts1 w2 -> sends w2 pts2 w3 -> sends w1 (pts1 ++ pts2) w3.
Proof.
  intros (C1 & K1 & ws1 & S1 & E1) (C2 & K2 & ws2 & S2 & E2).
  split_and!; [congruence..|]. exists (ws1 ++ ws2). rewrite S2, S1, app_assoc. split; [done|].
  rewrite C1, K1 in E2. by eapply sealed_app.
Qed.

Lemma encrypt_next_ok w pt :
  aead_key (w_cipher w) (w_subkey w) = true -> Z.of_nat (length pt) < 65536 ->
  exists ct, aead_seal (w_cipher w) (w_subkey w) (w_nonce w) pt = Some ct /\
    encrypt_next pt w = (Done ct, MkWriter (w_inner w) (w_cipher w) (w_subkey w)
                                    (increment_nonce (w_nonce w))).
Proof.
  intros Hk Hl. destruct (seal_some (w_cipher w) (w_subkey w) (w_nonce w) pt Hk Hl) as [ct E].
  exists ct. split; [done|]. unfold encrypt_next, aead_encrypt, mbind, M_bind; simpl.
  unfold lift. by rewrite Hk, E.
Qed.

Lemma len_pt_bytes n : 0 <= n -> [u8 (Z.shiftr n 8); u8 n] = be_bytes 2 n.
Proof. intros Hn. rewrite u16_be_bytes, Z.shiftr_div_pow2 by lia. done. Qed.

Lemma write_raw_ok w d :
  exists x, write_raw put d w = (Done tt, MkWriter x (w_cipher w) (w_subkey w) (w_nonce w)) /\
    sent x = sent (w_inner w) ++ d.
Proof. unfold write_raw. destruct (put_ok d (w_inner w)) as (x & -> & X). by exists x. Qed.

Lemma frame_ok w pt :
  aead_key (w_cipher w) (w_subkey w) = true -> Z.of_nat (length pt) < 65536 ->
  exists ct1 wa ct2 wb wc wd,
    encrypt_next [u8 (Z.shiftr (Z.of_nat (length pt)) 8); u8 (Z.of_nat (length pt))] w
      = (Done ct1, wa) /\
    encrypt_next pt wa = (Done ct2, wb) /\ write_raw put ct1 wb = (Done tt, wc) /\
    write_raw put ct2 wc = (Done tt, wd) /\ sends w [pt] wd.
Proof.
  intros Hk Hl. rewrite len_pt_bytes by lia.
  destruct (encrypt_next_ok w (be_bytes 2 (Z.of_nat (length pt)))) as (ct1 & S1 & E1);
    [done|by rewrite length_be_bytes|].
  destruct (encrypt_next_ok (MkWriter (w_inner w) (w_cipher w) (w_subkey w)
    (increment_nonce (w_nonce w))) pt Hk Hl) as (ct2 & S2 & E2).
  destruct (write_raw_ok (MkWriter (w_inner w) (w_cipher w) (w_subkey w)
    (increment_nonce (increment_nonce (w_nonce w)))) ct1) as (x1 & R1 & X1).
  destruct (write_raw_ok (MkWriter x1 (w_cipher w) (w_subkey w)
    (increment_nonce (increment_nonce (w_nonce w)))) ct2) as (x2 & R2 & X2).
  do 6 eexists. do 4 (split; [eassumption|]). split_and!; [done..|].
  exists (ct1 ++ ct2). simpl in *. rewrite X2, X1, app_assoc. split; [done|]. by apply sealed_one.
Qed.

Lemma write_header_chunk_ok w data :
  aead_key (w_cipher w) (w_subkey w) = true -> Z.of_nat (length data) < 65536 ->
  exists w', write_header_chunk put data w = (Done tt, w') /\ sends w [data] w'.
Proof.
  intros Hk Hl. destruct (frame_ok w data Hk Hl) as (? & ? & ? & ? & ? & w' & E1 & E2 & E3 & E4 & Hs).
  exists w'. split; [|done]. unfold write_header_chunk.
  by rewrite (bind_step _ _ _ _ _ E1), (bind_step _ _ _ _ _ E2), (bind_step _ _ _ _ _ E3).
Qed.

Lemma write_data_from_ok fuel f2 data off w :
  aead_key (w_cipher w) (w_subkey w) = true -> (off <= length data)%nat ->
  (length data - off < fuel)%nat -> (length data - off <= f2)%nat ->
  exists w', write_data_from put fuel data off w = (Done tt, w') /\
    sends w (chunks_fuel f2 MAX_CHUNK (drop off data)) w'.
Proof.
  assert (Hmax : 0 < Z.of_nat MAX_CHUNK < 65536) by (unfold MAX_CHUNK; lia).
  revert f2 off w. induction fuel as [|fuel IH]; intros f2 off w Hk Ho Hf1 Hf2; [lia|].
  cbn [write_data_from]. case_decide as Hlt.
  - set (n := Nat.min (length data - off) MAX_CHUNK).
    assert (Hn : (0 < n <= length data - off)%nat /\ (n <= MAX_CHUNK)%nat) by (unfold n; lia).
    rewrite slice_ok by lia. rewrite (bind_step (lift _) _ _ _ _ eq_refl).
    replace (off + n - off)%nat with n by lia.
    assert (Hl : length (take n (drop off data)) = n) by (rewrite length_take, length_drop; lia).
    destruct (frame_ok w (take n (drop off data)) Hk)
      as (? & ? & ? & ? & ? & w1 & E1 & E2 & E3 & E4 & Hs1); [lia|].
    rewrite Hl in E1.
    rewrite (bind_step _ _ _ _ _ E1), (bind_step _ _ _ _ _ E2), (bind_step _ _ _ _ _ E3),
      (bind_step _ _ _ _ _ E4).
    pose proof Hs1 as (Ec & Ek & _). destruct f2 as [|f2]; [lia|].
    destruct (IH f2 (off + n)%nat w1) as (w' & E & Hs2); [by rewrite Ec, Ek|lia..|].
    exists w'. split; [done|]. rewrite chunks_fuel_step by lia. fold n.
    by eapply (sends_app _ [_]).
  - rewrite drop_ge by lia. exists w. destruct f2; (split; [done|apply sends_nil]).
Qed.

Lemma write_data_ok w data :
  aead_key (w_cipher w) (w_subkey w) = true ->
  exists w', write_data put data w = (Done tt, w') /\ sends w (chunks MAX_CHUNK data) w'.
Proof.
  intros Hk. destruct (write_data_from_ok (Datatypes.S (length data)) (length data) data 0 w)
    as (w' & E & Hs); [done|lia..|]. rewrite drop_0 in Hs. by exists w'.
Qed.

Lemma downlink_ok w out_reads :
  aead_key (w_cipher w) (w_subkey w) = true ->
  exists w', downlink put out_reads w = (Done tt, w') /\
    sends w (concat (chunks MAX_CHUNK <$> until_eof out_reads)) w'.
Proof.
  revert w. induction out_reads as [|[|b tmp] l IH]; intros w Hk;
    cbn [until_eof]; [exists w; split; [done|apply sends_nil]..|]. rewrite downlink_cons.
  destruct (write_data_ok w (b :: tmp) Hk) as (w1 & E1 & Hs1).
  assert (Ea : attempt (write_data put (b :: tmp)) w = (Done (inl tt), w1))
    by (unfold attempt; by rewrite E1).
  rewrite (bind_step _ _ _ _ _ Ea).
  pose proof Hs1 as (Ec & Ek & _).
  destruct (IH w1) as (w' & E & Hs2); [by rewrite Ec, Ek|].
  exists w'. split; [done|]. rewrite fmap_cons. by eapply sends_app.
Qed.
End writer.
End stream_lemmas.

(** ** Properties *)

(** The part of a connection's history the response and the downlink leave:
    the client's input, and a trace that grows without connection attempts. *)
Definition only_writes (s s' : conn) : Prop :=
  c_in s' = c_in s /\ exists l, c_trace s' = c_trace s ++ l /\ connects l = [].

#[export] Instance only_writes_preorder : PreOrder only_writes.
Proof.
  split.
  - intros s. split; [done|]. exists []. by rewrite app_nil_r.
  - intros s1 s2 s3 [I1 (l1 & T1 & C1)] [I2 (l2 & T2 & C2)]. split; [congruence|].
    exists (l1 ++ l2). by rewrite T2, T1, app_assoc, connects_app, C1, C2.
Qed.

Lemma write_all_rel E d s o s' : write_all E d s = (o, s') -> only_writes s s' /\ o <> Panic.
Proof.
  unfold write_all, emit, modify. destruct (env_write_ok E (c_trace s)); intros [= <- <-].
  - split; [|done]. split; [done|]. by exists [EvWrite d].
  - by split.
Qed.

Lemma concat_pieces datas :
  concat (concat (chunks MAX_CHUNK <$> until_eof datas)) = concat (until_eof datas).
Proof.
  induction datas as [|[|b d] l IH]; [done..|]. cbn [until_eof]. rewrite fmap_cons, !concat_cons.
  rewrite concat_app, IH, chunks_concat; [done|]. unfold MAX_CHUNK; lia.
Qed.
Lemma pieces_nonempty datas :
  Forall (fun pt => pt <> []) (concat (chunks MAX_CHUNK <$> until_eof datas)).
Proof.
  induction (until_eof datas) as [|d l IH]; [constructor|]. rewrite fmap_cons, concat_cons.
  apply Forall_app. split; [|done]. apply Forall_forall. intros pt Hpt ->.
  apply chunks_length in Hpt; [simpl in Hpt|unfold MAX_CHUNK]; lia.
Qed.

Lemma uplink_all `{AeadLaws ShadowsocksCipher} {R} `{SourceLaws R} out_ok (r : AeadReader R) pts rest n' :
  (forall x, out_ok x = true) -> at_stream r pts rest n' ->
  ends_at (R := R) (r_cipher r) (r_subkey r) rest n' ->
  exists r', uplink out_ok r = (Done (r_buf r ++ concat pts), r') /\
    trace (r_inner r') = trace (r_inner r).
Proof. intros. eapply (uplink_exact _ _ _ _ _ []); [done..|]. by apply Nat.lt_succ_diag_r. Qed.

Section theorems.
Context `{AeadLaws ShadowsocksCipher}.

(** no nonce is used twice under one session key: the twelve-byte counter
    takes pairwise different values through its first [2^96] steps. *)
Theorem nonces_never_repeat i j :
  Z.of_nat i < Z.of_nat j < 2 ^ 96 ->
  Nat.iter i increment_nonce (replicate 12 0) <> Nat.iter j increment_nonce (replicate 12 0).
Proof.
  intros Hij E. destruct (nonce_iter i) as (_ & _ & Vi), (nonce_iter j) as (_ & _ & Vj).
  rewrite E, Vj, !Z.mod_small in Vi by lia. lia.
Qed.

(** C18: what one side's writer sends, the other side's reader forwards.  The
    header chunk and any downlink data (in any pieces, cut into chunks of at
    most 0x3FFF bytes), written by an [AeadWriter], are read back by an
    [AeadReader] with the same cipher and key over any byte source: the
    header exactly, then an uplink that forwards exactly the bytes up to the
    end of the data, if the stream ends there (cleanly or inside a chunk's
    sealed length). *)
Theorem chunk_stream_roundtrip {R} `{SourceLaws R} cipher key header datas rest out_ok :
  aead_key cipher key = true -> Z.of_nat (length header) < 65536 ->
  (length rest < 18)%nat -> (forall x, out_ok x = true) ->
  exists w, (write_header_chunk list_sink header ;; downlink list_sink datas)
      (AeadWriter_new [] cipher key) = (Done tt, w) /\
    forall r : R, pending r = w_inner w ++ rest ->
    exists r1 r2, read_header_chunk (AeadReader_new r cipher key) = (Done header, r1) /\
      uplink out_ok r1 = (Done (concat (until_eof datas)), r2).
Proof.
  intros Hk Hl Hr Hout.
  assert (Hput : forall d x, exists x', list_sink d x = (Done tt, x') /\ id x' = id x ++ d)
    by (intros; by eexists).
  destruct (write_header_chunk_ok list_sink id Hput (AeadWriter_new [] cipher key) header)
    as (w1 & E1 & Ec1 & Ek1 & ws1 & S1 & Hs1); [done..|].
  destruct (downlink_ok list_sink id Hput w1 datas) as (w2 & E2 & Ec2 & Ek2 & ws2 & S2 & Hs2);
    [by rewrite Ec1, Ek1|].
  exists w2. rewrite (bind_step _ _ _ _ _ E1). split; [done|]. intros r Hp.
  unfold id in *. rewrite S2, S1 in Hp. simpl in *. rewrite <- app_assoc in Hp.
  destruct (read_header_chunk_ok (AeadReader_new r cipher key) header ws1 (w_nonce w1) (ws2 ++ rest))
    as (i & E & P & T); [done..|].
  rewrite Ec1, Ek1 in Hs2. eexists.
  edestruct (uplink_all out_ok (MkReader i cipher key (w_nonce w1) [])) as (r2 & E' & _);
    [done| |by apply ends_at_eof|exists r2; split; [exact E|]].
  { exists ws2. split_and!; [exact Hs2|exact P|apply pieces_nonempty|done]. }
  etrans; [exact E'|]. simpl. by rewrite concat_pieces.
Qed.

Lemma uplink_ends {R} `{SourceLaws R} out_ok (r : AeadReader R) :
  bytes_ok (pending (r_inner r)) ->
  exists up r', uplink out_ok r = (Done up, r') /\ trace (r_inner r') = trace (r_inner r) /\
    exists pts w rest n', pending (r_inner r) = w ++ rest /\
      sealed (r_cipher r) (r_subkey r) (r_nonce r) pts w n' /\
      up `prefix_of` r_buf r ++ concat pts.
Proof.
  intros Hok. destruct (uplink out_ok r) as [o r'] eqn:E. unfold uplink in E.
  apply uplink_inv in E as (T & up & pts & w & rest & n' & -> & P & Hs & Hpre);
    [|done|by apply Nat.lt_succ_diag_r].
  exists up, r'. split_and!; [done|done|]. by exists pts, w, rest, n'.
Qed.

(** C20: whatever bytes arrive, the uplink ends without a panic, and what it has
    forwarded to the target is a prefix of what was already buffered followed
    by plaintexts whose chunks, sealed under the session key and the session's
    next nonces in order, are what the input starts with: nothing that was
    altered, reordered, replayed or cut out is forwarded. *)
Theorem uplink_authentic {R} `{SourceLaws R} out_ok (r : AeadReader R) :
  bytes_ok (pending (r_inner r)) ->
  exists up r', uplink out_ok r = (Done up, r') /\ trace (r_inner r') = trace (r_inner r) /\
    exists pts w rest n', pending (r_inner r) = w ++ rest /\
      sealed (r_cipher r) (r_subkey r) (r_nonce r) pts w n' /\
      up `prefix_of` r_buf r ++ concat pts.
Proof. apply uplink_ends. Qed.

Lemma sealed_app_inv c k n pts1 pts2 w n' :
  sealed c k n (pts1 ++ pts2) w n' ->
  exists w1 n1 w2, w = w1 ++ w2 /\ sealed c k n pts1 w1 n1 /\ sealed c k n1 pts2 w2 n'.
Proof.
  revert n w; induction pts1 as [|pt pts1 IH]; intros n w Hs.
  { exists [], n, w. split_and!; [done|constructor|done]. }
  inversion Hs as [|? ? ? ct1 ct2 w' ? Hl Hs1 Hs2 Hs']; subst.
  destruct (IH _ _ Hs') as (w1 & n1 & w2 & -> & H1 & H2).
  exists (ct1 ++ ct2 ++ w1), n1, w2. rewrite <- !app_assoc. split_and!; [done|by econstructor|done].
Qed.

(** a chunk without payload ends the uplink: what follows it in the stream,
    correctly sealed, is never forwarded. *)
Theorem empty_chunk_ends_uplink {R} `{SourceLaws R} out_ok (r : AeadReader R) pts more w n' rest :
  (forall x, out_ok x = true) -> aead_key (r_cipher r) (r_subkey r) = true ->
  Forall (fun pt => pt <> []) pts ->
  sealed (r_cipher r) (r_subkey r) (r_nonce r) (pts ++ [] :: more) w n' ->
  pending (r_inner r) = w ++ rest ->
  exists r', uplink out_ok r = (Done (r_buf r ++ concat pts), r').
Proof.
  intros Hout Hk Hne Hs Hp.
  apply sealed_app_inv in Hs as (w1 & n1 & w2 & -> & Hs1 & Hs2).
  apply (sealed_app_inv _ _ _ [[]]) in Hs2 as (w3 & n3 & w4 & -> & Hs3 & _).
  rewrite <- !app_assoc in Hp.
  destruct (uplink_all out_ok r pts (w3 ++ w4 ++ rest) n1) as (r' & E & _);
    [done|by exists w1|by eapply ends_at_empty_chunk|by exists r'].
Qed.

(** *** The stream handler *)

Context (derive_key : list Z -> list Z).
Hypothesis derive_key_length : forall ikm, length (derive_key ikm) = 32%nat.

Lemma key_len_bound c : (key_len c <= 32)%nat.
Proof. destruct c; simpl; lia. Qed.

Lemma derive_ok mk salt c :
  exists k, derive_session_subkey derive_key mk salt (salt_len c) = Done k /\ length k = key_len c.
Proof.
  unfold derive_session_subkey, salt_len. pose proof (key_len_bound c) as Hb.
  rewrite slice_ok by (rewrite derive_key_length; lia). eexists; split; [done|].
  rewrite length_take, length_drop, derive_key_length. lia.
Qed.

(** What the handler does once the target is connected only writes, does not
    panic, and ends with the relay event. *)
Lemma handshake_rel E raw k header w o w' :
  (write_raw (write_all E) raw ;; reset_subkey k ;; write_header_chunk (write_all E) header) w
    = (o, w') ->
  only_writes (w_inner w) (w_inner w') /\ o <> Panic.
Proof.
  apply keeps_bind; [apply _|by apply keeps_raw, write_all_rel|intros _].
  apply keeps_bind; [apply _|by apply keeps_pure; [apply _|]|intros _].
  apply keeps_header; [apply _|apply write_all_rel].
Qed.

Lemma downlink_rel E reads w o w' :
  downlink (write_all E) reads w = (o, w') ->
  only_writes (w_inner w) (w_inner w') /\ o = Done tt.
Proof.
  intros Ed. destruct (keeps_downlink _ only_writes (write_all_rel E) reads w o w' Ed) as [R N].
  split; [done|]. destruct o as [[]|e|]; [done|by apply downlink_no_fail in Ed|done].
Qed.

(** The two relay loops: every schedule does what the loops do one by one. *)
Lemma ss_relay_join E out_ok sched reads (r : AeadReader (list Z)) (w : AeadWriter conn) :
  bytes_ok (pending (r_inner r)) ->
  exists up r' w', uplink out_ok r = (Done up, r') /\ downlink (write_all E) reads w = (Done tt, w') /\
    tokio_join (uplink_round out_ok) (downlink_round (write_all E)) sched
      (uplink_fuel r) (downlink_fuel reads) [] reads (r, w) = (Done (up, tt), (r', w')).
Proof.
  intros Hok. destruct (uplink_ends out_ok r Hok) as (up & r' & Eu & _).
  destruct (downlink (write_all E) reads w) as [o w'] eqn:Ed. pose proof Ed as [_ ->]%downlink_rel.
  exists up, r', w'. split_and!; [done..|]. by apply tokio_join_rounds.
Qed.

Lemma process_connected_rel E cipher mk wd salt target rd s o s' :
  bytes_ok (c_in s) -> process_connected E derive_key cipher mk wd salt target rd s = (o, s') ->
  o <> Panic /\ exists l, c_trace s' = c_trace s ++ l /\ connects l = [].
Proof.
  intros Hok. unfold process_connected. destruct (derive_ok mk (w_resp_salt wd) cipher) as (k & -> & _).
  rewrite (bind_step (lift _) _ _ _ _ eq_refl), (bind_step get_st _ s s s) by done.
  match goal with |- (let '(_, _) := ?r in _) _ = _ -> _ => destruct r as [o1 w1] eqn:E1
  | |- (let (_, _) := ?r in _) _ = _ -> _ => destruct r as [o1 w1] eqn:E1 end.
  apply handshake_rel in E1 as [[I1 (l1 & T1 & C1)] N1]. simpl in I1, T1.
  rewrite (bind_step (put_st _) _ _ tt (w_inner w1)) by done.
  destruct o1 as [[]|e|]; [|intros [= <- <-]; split; [done|by exists l1]|done].
  rewrite (bind_step (lift _) _ _ _ _ eq_refl), (bind_step get_st _ _ (w_inner w1) (w_inner w1)) by done.
  destruct (ss_relay_join E (w_out_ok wd) (w_sched wd) (w_out_reads wd)
    (MkReader (c_in (w_inner w1)) cipher (r_subkey rd) (r_nonce rd) (r_buf rd))
    (MkWriter (w_inner w1) cipher (w_subkey w1) (w_nonce w1)))
    as (up & r2 & w3 & _ & [[_ (l3 & T3 & C3)] _]%downlink_rel & ->); [by simpl; rewrite I1|]. simpl in T3.
  rewrite (bind_step (put_st _) _ _ tt (Conn (r_inner r2) (c_trace (w_inner w3)))) by done.
  intros [= <- <-]. split; [done|]. exists ((l1 ++ l3) ++ [EvRelay target up []]). simpl.
  rewrite T3, T1, !connects_app, C1, C3. by rewrite <- !app_assoc.
Qed.

(** a Shadowsocks client that does not hold the key causes no visible
    action.  For every input and every behaviour of network, clock and
    target the handler does not panic, and it does nothing visible unless the
    input starts with a salt and a header chunk that is sealed under the key
    derived from the master key and that salt, and whose plaintext is a
    request header in the time window; then the first thing it does is to
    connect to the header's target, and it makes no other connection. *)
Theorem process_actions E cipher mk wd s o s' :
  bytes_ok (c_in s) -> process E derive_key cipher mk wd s = (o, s') ->
  o <> Panic /\
  (c_trace s' = c_trace s \/
   exists salt k header w rest n' target l,
     length salt = salt_len cipher /\
     derive_session_subkey derive_key mk salt (salt_len cipher) = Done k /\
     c_in s = salt ++ w ++ rest /\ sealed cipher k (replicate 12 0) [header] w n' /\
     parse_request_header (w_now wd) header STREAM_TYPE_REQUEST = Done target /\
     c_trace s' = c_trace s ++ EvConnect target :: l /\ connects l = []).
Proof.
  intros Hok. unfold process, mbind at 1, M_bind at 1.
  destruct (read_exact (salt_len cipher) s) as [o0 s0] eqn:E0.
  destruct (quiet_conn _ _ _ _ (quiet_exact _) E0) as [N0 T0].
  destruct o0 as [salt|e|]; [|intros [= <- <-]; split; [done|by left]|done].
  destruct (sound_conn _ _ _ _ _ (sound_exact _) Hok E0) as (? & P0 & [-> L0] & _).
  rewrite P0 in Hok. apply Forall_app in Hok as [_ Hok].
  destruct (derive_ok mk salt cipher) as (k & Ek & _). rewrite Ek.
  rewrite (bind_step (lift _) _ _ _ _ eq_refl), (bind_step get_st _ s0 s0 s0) by done.
  destruct (read_header_chunk _) as [o1 rd] eqn:E1.
  apply read_header_chunk_inv in E1 as (N1 & T1 & H1); [|done]. simpl in T1, H1.
  rewrite (bind_step (put_st _) _ _ tt (r_inner rd)) by done.
  destruct o1 as [header|e|]; [|intros [= <- <-]; split; [done|left; congruence]|done].
  destruct (H1 header eq_refl) as (Hh & w & Hs & P1).
  rewrite (bind_step (lift _) _ _ _ _ eq_refl). unfold mbind at 1, M_bind at 1, lift at 1.
  destruct (parse_request_header _ _ _) as [target|e|] eqn:Ep;
    [|intros [= <- <-]; split; [done|left; congruence]|
     by destruct (proj1 (parse_request_header_exact (w_now wd) header STREAM_TYPE_REQUEST [] Hh))].
  unfold tcp_connect, mbind at 1, M_bind at 1. cbn [c_in c_trace].
  intros Hrun. enough (o <> Panic /\ exists l,
    c_trace s' = (c_trace (r_inner rd) ++ [EvConnect target]) ++ l /\ connects l = []) as [N (l & T & C)].
  { split; [done|]. right. exists salt, k, header, w, (c_in (r_inner rd)), (r_nonce rd), target, l.
    split_and!; try done; [by rewrite P0, P1|]. rewrite T, T1, T0. by rewrite <- app_assoc. }
  destruct (env_connect E _ target).
  - rewrite P1 in Hok. apply Forall_app in Hok as [_ Hok].
    eapply process_connected_rel in Hrun; [exact Hrun|exact Hok].
  - injection Hrun as <- <-. split; [done|]. exists []. by rewrite app_nil_r.
  - injection Hrun as <- <-. split; [done|]. exists []. by rewrite app_nil_r.
Qed.

Lemma handshake_ok E raw k header (s : conn) cipher k0 :
  (forall tr, env_write_ok E tr = true) -> aead_key cipher k = true ->
  Z.of_nat (length header) < 65536 ->
  exists w ws,
    (write_raw (write_all E) raw ;; reset_subkey k ;; write_header_chunk (write_all E) header)
      (AeadWriter_new s cipher k0) = (Done tt, w) /\
    w_cipher w = cipher /\ w_subkey w = k /\
    sent_on (w_inner w) = sent_on s ++ raw ++ ws /\
    sealed cipher k (replicate 12 0) [header] ws (w_nonce w).
Proof.
  intros Hw Hk Hl.
  destruct (write_raw_ok (write_all E) sent_on (write_all_ok E Hw) (AeadWriter_new s cipher k0) raw)
    as (x & E1 & X1).
  destruct (write_header_chunk_ok (write_all E) sent_on (write_all_ok E Hw)
    (MkWriter x cipher k (replicate 12 0)) header Hk Hl) as (w & E2 & Ec & Ek & ws & S2 & Hs2).
  exists w, ws. rewrite (bind_step _ _ _ _ _ E1).
  split_and!; [exact E2|exact Ec|exact Ek| |exact Hs2]. rewrite S2. simpl. rewrite X1.
  by rewrite <- app_assoc.
Qed.

Lemma response_header_length now (salt : list Z) c :
  length salt = salt_len c -> Z.of_nat (length (build_response_header now salt)) < 65536.
Proof.
  intros Hl. unfold build_response_header. rewrite !length_app, length_be_bytes, Hl.
  pose proof (key_len_bound c). unfold salt_len. simpl. lia.
Qed.

Lemma process_connected_ok E cipher mk wd salt target rd (s : conn) k datas rest n' :
  (forall tr, env_write_ok E tr = true) -> (forall x, w_out_ok wd x = true) ->
  (forall c k, length k = key_len c -> aead_key c k = true) -> length salt = salt_len cipher ->
  derive_session_subkey derive_key mk (w_resp_salt wd) (salt_len cipher) = Done k ->
  r_buf rd = [] -> at_stream (R := conn) (MkReader s cipher (r_subkey rd) (r_nonce rd) []) datas rest n' ->
  (length rest < 18)%nat ->
  exists s' l ws n2, process_connected E derive_key cipher mk wd salt target rd s = (Done tt, s') /\
    c_trace s' = c_trace s ++ l ++ [EvRelay target (concat datas) []] /\ connects l = [] /\
    written l = w_resp_salt wd ++ ws /\
    sealed cipher k (replicate 12 0)
      (build_response_header (w_now_resp wd) salt ::
       concat (chunks MAX_CHUNK <$> until_eof (w_out_reads wd))) ws n2.
Proof.
  intros Hw Ho Hk Hl Ek Hb Hat Hr. unfold process_connected. rewrite Ek, Hb.
  rewrite (bind_step (lift _) _ _ _ _ eq_refl), (bind_step get_st _ s s s) by done.
  assert (Hkey : aead_key cipher k = true).
  { destruct (derive_ok mk (w_resp_salt wd) cipher) as (k' & Ek' & Hlen). apply Hk. congruence. }
  destruct (handshake_ok E (w_resp_salt wd) k (build_response_header (w_now_resp wd) salt) s cipher
    (replicate (salt_len cipher) 0) Hw Hkey (response_header_length _ _ _ Hl))
    as (w1 & ws1 & E1 & Ec1 & Ek1 & S1 & Hs1).
  rewrite E1. apply handshake_rel in E1 as [[I1 (l1 & T1 & C1)] _]. simpl in I1, T1.
  rewrite (bind_step (put_st _) _ _ tt (w_inner w1)) by done.
  rewrite (bind_step (lift _) _ _ tt _ eq_refl), (bind_step get_st _ _ (w_inner w1) (w_inner w1)) by done.
  set (r1 := MkReader (c_in (w_inner w1)) cipher (r_subkey rd) (r_nonce rd) []).
  destruct (uplink_all (w_out_ok wd) r1 datas rest n' Ho) as (r2 & Eu & _); [|by apply ends_at_eof|].
  { destruct Hat as (w & Ha & Hp & Hne). exists w. simpl in *. by rewrite I1. }
  destruct (downlink_ok (write_all E) sent_on (write_all_ok E Hw)
    (MkWriter (w_inner w1) cipher (w_subkey w1) (w_nonce w1)) (w_out_reads wd))
    as (w3 & E3 & _ & _ & ws3 & S3 & Hs3); [by simpl; rewrite Ek1|].
  rewrite (tokio_join_rounds _ _ _ _ _ _ (w_sched wd) _ _ _ _ _ _ Eu E3).
  apply downlink_rel in E3 as [[_ (l3 & T3 & C3)] _]. simpl in T3, S3.
  rewrite (bind_step (put_st _) _ _ tt (Conn (r_inner r2) (c_trace (w_inner w3)))) by done.
  simpl in Hs3. rewrite Ek1 in Hs3.
  eexists _, (l1 ++ l3), (ws1 ++ ws3), (w_nonce w3). split; [reflexivity|]. simpl.
  split_and!; [by rewrite T3, T1, <- !app_assoc|by rewrite connects_app, C1, C3| |
               by eapply (sealed_app _ _ _ [_])].
  rewrite written_app, (sent_diff _ _ _ _ T1 S1), (sent_diff _ _ _ _ T3 S3). by rewrite <- app_assoc.
Qed.

(** C9: a Shadowsocks session, from the salt to the end.  On a connection whose
    writes succeed, a client that sends a salt, a sealed header chunk with a
    request header in the time window, and sealed data chunks until its
    stream ends, gets: one connection to the header's target, to which
    exactly the data is forwarded, and back the response salt followed by
    chunks sealed under the response key that carry the response header
    (which echoes the client's salt) and exactly what the target sent.  This
    holds for every order in which the two relay loops take turns. *)
Theorem process_relays E cipher mk wd s salt k dn_k header target datas w n' rest :
  (forall tr, env_write_ok E tr = true) -> (forall x, w_out_ok wd x = true) ->
  (forall c k, length k = key_len c -> aead_key c k = true) ->
  bytes_ok header -> length salt = salt_len cipher ->
  derive_session_subkey derive_key mk salt (salt_len cipher) = Done k ->
  derive_session_subkey derive_key mk (w_resp_salt wd) (salt_len cipher) = Done dn_k ->
  parse_request_header (w_now wd) header STREAM_TYPE_REQUEST = Done target ->
  env_connect E (c_trace s) target = ConnOk ->
  sealed cipher k (replicate 12 0) (header :: datas) w n' -> Forall (fun pt => pt <> []) datas ->
  c_in s = salt ++ w ++ rest -> (length rest < 18)%nat ->
  exists s' l ws n2, process E derive_key cipher mk wd s = (Done tt, s') /\
    c_trace s' = c_trace s ++ EvConnect target :: l ++ [EvRelay target (concat datas) []] /\
    connects l = [] /\ written l = w_resp_salt wd ++ ws /\
    sealed cipher dn_k (replicate 12 0)
      (build_response_header (w_now_resp wd) salt ::
       concat (chunks MAX_CHUNK <$> until_eof (w_out_reads wd))) ws n2 /\
    concat (concat (chunks MAX_CHUNK <$> until_eof (w_out_reads wd))) =
      concat (until_eof (w_out_reads wd)).
Proof.
  intros Hw Ho Hk Hh Hl Ek Edn Ep Ec Hs Hne Hin Hr. unfold process.
  assert (Hkey : aead_key cipher k = true).
  { destruct (derive_ok mk salt cipher) as (k' & Ek' & Hlen). apply Hk. congruence. }
  apply (sealed_app_inv _ _ _ [header]) in Hs as (w1 & n1 & w2 & -> & Hs1 & Hs2).
  rewrite <- app_assoc in Hin. destruct s as [inp tr]. simpl in Hin, Ec |- *. subst inp.
  rewrite (bind_step _ _ _ _ _ (reads_conn _ _ _ (w1 ++ w2 ++ rest) tr (reads_exact _ salt Hl))).
  rewrite Ek. rewrite (bind_step (lift _) _ _ _ _ eq_refl).
  set (s0 := Conn (w1 ++ w2 ++ rest) tr). rewrite (bind_step get_st _ s0 s0 s0) by done.
  destruct (read_header_chunk_ok (AeadReader_new s0 cipher k) header w1 n1 (w2 ++ rest))
    as (i & -> & P & T); [done..|]. simpl in T.
  rewrite (bind_step (put_st _) _ _ tt i) by done. rewrite (bind_step (lift _) _ _ _ _ eq_refl).
  rewrite Ep. rewrite (bind_step (lift _) _ _ _ _ eq_refl).
  unfold tcp_connect, mbind, M_bind. rewrite T. simpl c_trace. rewrite Ec. simpl c_in.
  edestruct (process_connected_ok E cipher mk wd salt target
    (MkReader i cipher k n1 []) (Conn (c_in i) (tr ++ [EvConnect target])) dn_k datas rest n')
    as (s' & l & ws & n2 & E1 & T1 & C1 & S1 & Hs3); try done.
  { exists w2. by split_and!. }
  exists s', l, ws, n2. split_and!; [exact E1| |done|done|done|apply concat_pieces].
  rewrite T1. simpl. by rewrite <- app_assoc.
Qed.
End theorems.

(** ** Witnesses: the theorems at concrete inputs, with the example cipher *)

#[local] Instance toy : Aead ShadowsocksCipher := toy_aead key_len.
#[local] Instance toy_laws : AeadLaws ShadowsocksCipher := toy_aead_laws key_len.

Definition toy_derive (ikm : list Z) : list Z := be_bytes 32 (be_val ikm).
Definition toy_salt : list Z := replicate 16 7.
Definition toy_key : list Z := take 16 (toy_derive (replicate 16 1 ++ toy_salt)).
Definition toy_header : list Z :=
  header_wire STREAM_TYPE_REQUEST 1000 (HDomain (str "a.example")) 443 [0; 0] [].
Definition toy_nonce (i : nat) : list Z := Nat.iter i increment_nonce (replicate 12 0).
Definition toy_chunk (i : nat) (pt : list Z) : list Z :=
  let len := be_bytes 2 (Z.of_nat (length pt)) in
  (len ++ toy_tag toy_key (toy_nonce i) [] len) ++ pt ++ toy_tag toy_key (toy_nonce (S i)) [] pt.
Definition toy_env : env :=
  Env (fun _ => true) (fun _ _ => ConnOk) (fun _ _ => 0%nat) (fun _ _ => []).
Definition toy_world : world := World 1010 1011 toy_salt [[9; 9]; []] (fun _ => true)
  [SideDown; SideUp; SideDown].
Definition toy_wire : list Z := toy_chunk 0 toy_header ++ toy_chunk 2 [1; 2; 3].
Definition toy_conn : conn := Conn (toy_salt ++ toy_wire ++ []) [].

Lemma toy_sealed :
  sealed Blake3Aes128Gcm toy_key (replicate 12 0) (toy_header :: [[1; 2; 3]]) toy_wire (toy_nonce 4).
Proof.
  unfold toy_wire, toy_chunk. rewrite <- !app_assoc, <- (app_nil_r (toy_tag _ _ _ [1; 2; 3])).
  rewrite (app_assoc (be_bytes 2 (Z.of_nat (length toy_header)))), (app_assoc toy_header).
  constructor; [done|reflexivity..|].
  rewrite (app_assoc (be_bytes 2 (Z.of_nat (length [1; 2; 3])))), (app_assoc [1; 2; 3]).
  constructor; [done|reflexivity..|]. constructor.
Qed.

Lemma parse_request_header_exact_witness :
  parse_request_header 1010 toy_header 0 = Done (str "a.example:443").
Proof.
  apply (parse_request_header_exact 1010 toy_header 0 (str "a.example:443")).
  - repeat constructor; unfold byte_ok; vm_compute; auto; discriminate.
  - split; [vm_compute; lia|]. exists 1000, (HDomain (str "a.example")), 443, [0; 0], [].
    split_and!; [|reflexivity|reflexivity].
    unfold header_ok. split_and!; [lia..| |split; lia|simpl; lia].
    simpl. split_and!; [lia| |reflexivity]. repeat constructor; unfold byte_ok; lia.
Defined.

Lemma nonces_never_repeat_witness :
  Nat.iter 0 increment_nonce (replicate 12 0) <> Nat.iter 256 increment_nonce (replicate 12 0).
Proof. apply nonces_never_repeat. lia. Defined.

Lemma chunk_stream_roundtrip_witness :
  exists w, (write_header_chunk list_sink [5; 6] ;; downlink list_sink [[1]; [2; 3]])
      (AeadWriter_new [] Blake3Aes128Gcm toy_key) = (Done tt, w) /\
    forall r : list Z, pending r = w_inner w ++ [] ->
    exists r1 r2, read_header_chunk (AeadReader_new r Blake3Aes128Gcm toy_key) = (Done [5; 6], r1) /\
      uplink (fun _ => true) r1 = (Done [1; 2; 3], r2).
Proof.
  apply (chunk_stream_roundtrip Blake3Aes128Gcm toy_key [5; 6] [[1]; [2; 3]] [] (fun _ => true));
    [reflexivity|simpl; lia|simpl; lia|reflexivity].
Defined.

Lemma uplink_authentic_witness :
  exists up r', uplink (fun _ => true) (AeadReader_new (toy_wire ++ [1]) Blake3Aes128Gcm toy_key)
    = (Done up, r').
Proof.
  destruct (uplink_authentic (fun _ => true) (AeadReader_new (toy_wire ++ [1]) Blake3Aes128Gcm toy_key))
    as (up & r' & E & _); [|by exists up, r'].
  apply (bool_decide_eq_true (bytes_ok (toy_wire ++ [1]))). vm_compute. reflexivity.
Defined.

Lemma empty_chunk_ends_uplink_witness :
  exists r', uplink (fun _ => true)
    (AeadReader_new (toy_chunk 0 [4] ++ toy_chunk 2 [] ++ toy_chunk 4 [5]) Blake3Aes128Gcm toy_key)
    = (Done [4], r').
Proof.
  apply (empty_chunk_ends_uplink (fun _ => true)
    (AeadReader_new (toy_chunk 0 [4] ++ toy_chunk 2 [] ++ toy_chunk 4 [5]) Blake3Aes128Gcm toy_key)
    [[4]] [[5]] (toy_chunk 0 [4] ++ toy_chunk 2 [] ++ toy_chunk 4 [5]) (toy_nonce 6) []).
  - reflexivity.
  - reflexivity.
  - by repeat constructor.
  - unfold toy_chunk. rewrite <- !app_assoc.
    rewrite (app_assoc (be_bytes 2 (Z.of_nat (length [4])))), (app_assoc [4]).
    constructor; [done|reflexivity..|].
    rewrite (app_assoc (be_bytes 2 (Z.of_nat (length (@nil Z))))), (app_assoc []).
    constructor; [done|reflexivity..|].
    rewrite (app_assoc (be_bytes 2 _)), <- (app_nil_r (_ ++ toy_tag _ _ _ [5])).
    constructor; [done|reflexivity..|]. constructor.
  - by rewrite app_nil_r.
Defined.

Lemma toy_conn_bytes : bytes_ok (c_in toy_conn).
Proof. apply (bool_decide_eq_true (bytes_ok (c_in toy_conn))). vm_compute. reflexivity. Qed.

Lemma process_actions_witness :
  (process toy_env toy_derive Blake3Aes128Gcm (replicate 16 1) toy_world toy_conn).1 <> Panic.
Proof.
  destruct (process toy_env toy_derive Blake3Aes128Gcm (replicate 16 1) toy_world toy_conn)
    as [o s'] eqn:E.
  apply (process_actions toy_derive (fun ikm => length_be_bytes 32 _) _ _ _ _ _ _ _ toy_conn_bytes E).
Defined.

Lemma process_relays_witness :
  exists s' l ws n2, process toy_env toy_derive Blake3Aes128Gcm (replicate 16 1) toy_world toy_conn
      = (Done tt, s') /\
    c_trace s' = EvConnect (str "a.example:443") :: l ++ [EvRelay (str "a.example:443") [1; 2; 3] []] /\
    written l = toy_salt ++ ws /\
    sealed Blake3Aes128Gcm toy_key (replicate 12 0)
      [build_response_header 1011 toy_salt; [9; 9]] ws n2.
Proof.
  destruct (process_relays toy_derive (fun ikm => length_be_bytes 32 _) toy_env Blake3Aes128Gcm
    (replicate 16 1) toy_world toy_conn toy_salt toy_key toy_key toy_header (str "a.example:443")
    [[1; 2; 3]] toy_wire (toy_nonce 4) [])
    as (s' & l & ws & n2 & E & T & _ & W & S & _).
  - reflexivity.
  - reflexivity.
  - intros c k Hk. apply bool_decide_eq_true_2, Hk.
  - repeat constructor; unfold byte_ok; vm_compute; auto; discriminate.
  - reflexivity.
  - reflexivity.
  - reflexivity.
  - reflexivity.
  - reflexivity.
  - apply toy_sealed.
  - by repeat constructor.
  - reflexivity.
  - simpl; lia.
  - exists s', l, ws, n2. exact (conj E (conj T (conj W S))).
Defined.
