(* ===== verification/ShadowsocksClient.v ===== *)
(** * Shadowsocks 2022: what the server itself does not call ([encode_address],
    [build_request_header] and [read_exact_plain] of
    [src/src/shadowsocks/protocol.rs])

    The client's side of the header, kept beside the server's parser; what it builds
    is what [Shadowsocks.parse_request_header] reads.  And the reader's call that
    fills a whole buffer. *)
From S2P Require Import Prelude Join RustStd NetAddr Net Target Aead Shadowsocks.

Definition bracket (c : Z) : bool := (c =? 91) || (c =? 93).

Definition encode_address (addr : list Z) : outcome (list Z) :=
  '(host, port_str) ← ok_or (EBail "invalid address") (rsplit_once 58 addr);
  port ← ok_or EParse (parse_uint 65535 port_str);
  let host := trim_matches bracket host in
  buf ← match parse_with read_ipv4 host with
        | Done octets => mret (ATYP_IPV4 :: octets)
        | _ =>
            match parse_with read_ipv6 host with
            | Done segs => mret (ATYP_IPV6 :: concat (be_bytes 2 <$> segs))
            | _ =>
                if decide (255 < length host)%nat then Fail (EBail "domain too long")
                else mret ([ATYP_DOMAIN; u8 (Z.of_nat (length host))] ++ host)
            end
        end;
  mret (buf ++ be_bytes 2 port).

Definition build_request_header (now : Z) (target : list Z) : outcome (list Z) :=
  addr ← encode_address target;
  mret ([STREAM_TYPE_REQUEST] ++ be_bytes 8 now ++ addr ++ be_bytes 2 0).

(** ** What the address parsers give *)

Section read_exact_plain.
Context `{Aead ShadowsocksCipher} {R : Type} `{Source R}.

(** One round of the loop that fills a [dst] of [n] bytes, of which [dst] are
    there; a chunk without payload is passed over. *)
Definition read_exact_round (n : nat) (dst : list Z) : M (AeadReader R) (list Z + list Z) :=
  if decide (length dst < n)%nat then
    r ← get_st;
    filled ← (if decide (r_buf r = []) then fill_buf else mret true);
    if negb filled then bail "shadowsocks 2022: unexpected EOF reading data" else
    r ← get_st;
    let k := Nat.min (length (r_buf r)) (n - length dst) in
    _ ← set_buf (drop k (r_buf r));
    mret (inl (dst ++ take k (r_buf r)))
  else mret (inr dst).
Definition read_exact_plain (n : nat) : M (AeadReader R) (list Z) := fun r =>
  rounds (read_exact_round n) (uplink_fuel r) [] r.
End read_exact_plain.

Lemma to_digit_nonneg radix c d : to_digit radix c = Some d -> 0 <= d.
Proof. unfold to_digit. intros E. repeat case_match; try done; injection E as <-; lia. Qed.

Lemma number_loop_bound radix max md v count bs w n r :
  number_loop radix max md v count bs = Some (w, n, r) -> 0 <= radix -> 0 <= v <= max -> 0 <= w <= max.
Proof.
  revert v count. induction bs as [|c bs IH]; intros v count; simpl; [by intros [= <- _ _]|].
  destruct (to_digit radix c) as [d|] eqn:Ed; [|by intros [= <- _ _]]. apply to_digit_nonneg in Ed.
  destruct (v * radix + d <=? max) eqn:Ev; [|done]. destruct (match md with Some _ => _ | None => _ end); [done|].
  intros E Hr Hv. eapply IH; [exact E|done|]. nia.
Qed.

Lemma read_number_bound radix max md z bs v r :
  read_number radix max md z bs = Some (v, r) -> 0 <= radix -> 0 <= max -> 0 <= v <= max.
Proof.
  unfold read_number. destruct (number_loop _ _ _ _ _ _) as [[[w n] r']|] eqn:E; [|done].
  repeat case_match; try done. intros [= <- <-] Hr Hm. by eapply number_loop_bound; [exact E| |].
Qed.

Lemma after_separator_bound sep i radix max md z bs v r :
  after_separator sep i (read_number radix max md z) bs = Some (v, r) -> 0 <= radix -> 0 <= max -> 0 <= v <= max.
Proof.
  destruct i; cbn [after_separator]; [apply read_number_bound|]. destruct (given_char sep bs) as [[? r']|]; [|done]. apply read_number_bound.
Qed.

Lemma read_octets_ok n i bs os r : read_octets n i bs = Some (os, r) -> length os = n /\ bytes_ok os.
Proof.
  revert i bs os. induction n as [|n IH]; intros i bs os; cbn [read_octets]; [by intros [= <- _]|].
  destruct (after_separator _ _ _ _) as [[o r1]|] eqn:E; [|done]. cbn [mbind option_bind].
  destruct (read_octets n (Datatypes.S i) r1) as [[os' r2]|] eqn:E2; [|done]. intros [= <- <-].
  destruct (IH _ _ _ E2) as [Hl Hb]. apply after_separator_bound in E; [|done..]. split; [simpl; by rewrite Hl|].
  constructor; [unfold byte_ok; lia|done].
Qed.

Definition group_ok (g : Z) : Prop := 0 <= g < 65536.

Lemma read_groups_ok n i bs gs v4 r : read_groups n i bs = (gs, v4, r) -> (length gs <= n)%nat /\ Forall group_ok gs.
Proof.
  revert i bs gs v4 r. induction n as [|n IH]; intros i bs gs v4 r; cbn [read_groups]; [by intros [= <- _ _]|].
  assert (Hnum : forall gs v4 r, match after_separator 58 i (read_number 16 65535 (Some 4%nat) true) bs with
      | Some (g, r) => let '(gs, v4, r) := read_groups n (Datatypes.S i) r in (g :: gs, v4, r)
      | None => ([], false, bs) end = (gs, v4, r) -> (length gs <= Datatypes.S n)%nat /\ Forall group_ok gs).
  { clear gs v4 r. intros gs v4 r. destruct (after_separator _ _ _ bs) as [[g r1]|] eqn:E; [|intros [= <- _ _]; split; [simpl; lia|constructor]].
    destruct (read_groups n _ r1) as [[gs' v4'] r2] eqn:E2. intros [= <- _ _]. destruct (IH _ _ _ _ _ E2). simpl. split; [lia|].
    apply after_separator_bound in E; [|done..]. constructor; [unfold group_ok; lia|done]. }
  destruct (if (1 <? Datatypes.S n)%nat then _ else None) as [[[|a [|b [|c [|d [|]]]]] r']|] eqn:E4; try apply Hnum.
  intros [= <- _ _]. destruct (1 <? Datatypes.S n)%nat eqn:En; [|done]. apply Nat.ltb_lt in En.
  assert (Ho : exists bs', read_octets 4 0 bs' = Some ([a; b; c; d], r')).
  { destruct i; cbn [after_separator] in E4; [by exists bs|]. destruct (given_char 58 bs) as [[? r1]|]; [|done]. by exists r1. }
  destruct Ho as [bs' [_ Hb]%read_octets_ok]. rewrite !Forall_cons in Hb. unfold byte_ok in Hb. simpl. split; [lia|].
  repeat constructor; unfold group_ok; lia.
Qed.

Lemma read_ipv6_ok bs gs r : read_ipv6 bs = Some (gs, r) -> length gs = 8%nat /\ Forall group_ok gs.
Proof.
  unfold read_ipv6. destruct (read_groups 8 0 bs) as [[h hv] r1] eqn:E1. apply read_groups_ok in E1 as [Hl Hh].
  case_decide; [by intros [= <- _]|]. destruct hv; [done|].
  destruct (given_char 58 r1) as [[? r2]|]; [|done]. cbn [mbind option_bind]. destruct (given_char 58 r2) as [[? r3]|]; [|done].
  cbn [mbind option_bind]. destruct (read_groups (7 - length h) 0 r3) as [[t tv] r4] eqn:E2. apply read_groups_ok in E2 as [Ht Hg].
  intros [= <- _]. split; [rewrite !length_app, length_replicate; lia|].
  rewrite !Forall_app. split_and!; [done|apply Forall_replicate; unfold group_ok; lia|done].
Qed.

(** ** Properties *)

(** The host a text stands for. *)
Definition host_of (h : list Z) : host :=
  match parse_with read_ipv4 h with
  | Done octets => HIp4 octets
  | _ =>
      match parse_with read_ipv6 h with
      | Done segs => HIp6 (concat (be_bytes 2 <$> segs))
      | _ => HDomain h
      end
  end.

(** A name that does not fit into its length byte; and one whose header is too short. *)
Definition too_long (h : list Z) : Prop := host_of h = HDomain h /\ (255 < length h)%nat.
Definition too_short (h : list Z) : Prop := host_of h = HDomain h /\ (length h <= 2)%nat.

#[local] Instance host_eq_dec : EqDecision host.
Proof. solve_decision. Defined.
#[local] Instance too_long_dec h : Decision (too_long h).
Proof. unfold too_long. apply _. Defined.

Lemma host_of_domain h d : host_of h = HDomain d -> d = h.
Proof.
  unfold host_of. destruct (parse_with read_ipv4 h) as [os| |]; [done|..];
    (destruct (parse_with read_ipv6 h) as [segs| |]; [done|..]; by intros [= ->]).
Qed.

Lemma parse_with_inv {A} (p : parser A) bs a : parse_with p bs = Done a -> p bs = Some (a, []).
Proof. unfold parse_with. destruct (p bs) as [[x []]|]; try done. by intros [= ->]. Qed.

Lemma parse_with_v4 os : length os = 4%nat -> bytes_ok os -> parse_with read_ipv4 (ipv4_to_string os) = Done os.
Proof.
  intros Hl Hb. unfold parse_with, read_ipv4, ipv4_to_string.
  pose proof (read_octets_join 4 0 os [] Hl Hb I ltac:(by intros ? ? ?)) as H. cbn [app] in H. rewrite app_nil_r in H. by rewrite H.
Qed.

Lemma length_groups segs : length (concat (be_bytes 2 <$> segs)) = (2 * length segs)%nat.
Proof. induction segs as [|s segs IH]; [done|]. rewrite fmap_cons, concat_cons, length_app, IH, length_be_bytes. simpl. lia. Qed.

Lemma groups_bytes segs : bytes_ok (concat (be_bytes 2 <$> segs)).
Proof. induction segs as [|s segs IH]; [constructor|]. rewrite fmap_cons, concat_cons. apply Forall_app. split; [apply be_bytes_ok|done]. Qed.

Lemma host_of_ok h : ~ too_long h -> bytes_ok h -> utf8_valid h = true -> host_ok (host_of h).
Proof.
  unfold too_long, host_of. intros Hl Hb Hu. destruct (parse_with read_ipv4 h) as [os| |] eqn:E4.
  1: by apply parse_with_inv, read_octets_ok in E4.
  all: destruct (parse_with read_ipv6 h) as [segs| |] eqn:E6;
    [|split_and!; [by destruct (decide (length h <= 255)%nat); [|destruct Hl; split; [done|lia]]|done..]..];
    apply parse_with_inv, read_ipv6_ok in E6 as [Hs _]; split; [by rewrite length_groups, Hs|apply groups_bytes].
Qed.

Lemma host_wire_bytes h : host_ok h -> bytes_ok (host_wire ATYP_IPV4 ATYP_DOMAIN ATYP_IPV6 h).
Proof.
  destruct h as [os|d|o]; simpl.
  - intros [_ ?]. by constructor.
  - intros (? & ? & _). constructor; [done|]. constructor; [unfold byte_ok; lia|done].
  - intros [_ ?]. by constructor.
Qed.

(** The address of a text "host:port", whatever brackets surround the host. *)
Lemma encode_address_text raw h port :
  trim_matches bracket raw = h -> port_ok port ->
  encode_address (raw ++ [58] ++ dec port) =
    if decide (too_long h) then Fail (EBail "domain too long")
    else Done (host_wire ATYP_IPV4 ATYP_DOMAIN ATYP_IPV6 (host_of h) ++ be_bytes 2 port).
Proof.
  unfold port_ok. intros Ht Hp. change ([58] ++ dec port) with (58 :: dec port). unfold encode_address.
  rewrite (rsplit_once_app 58 raw (dec port)) by (apply dec_no_colon; lia).
  cbn [ok_or mbind outcome_bind bind_outcome]. rewrite parse_uint_dec by lia. cbn [ok_or mbind outcome_bind bind_outcome]. rewrite Ht.
  destruct (decide (too_long h)) as [[Hd Hl]|Hn]; unfold too_long, host_of in *.
  - destruct (parse_with read_ipv4 h) as [os| |]; [done|..];
      (destruct (parse_with read_ipv6 h) as [segs| |]; [done|..]; by rewrite decide_True).
  - destruct (parse_with read_ipv4 h) as [os| |]; [done|..];
      (destruct (parse_with read_ipv6 h) as [segs| |]; [done|..]; rewrite decide_False by (intros ?; by apply Hn);
       assert (length h <= 255)%nat by (apply Nat.nlt_ge; intros ?; by apply Hn);
       simpl; unfold u8, wrap; by rewrite Z.mod_small by (change (2 ^ 8) with 256; lia)).
Qed.

Lemma build_request_header_text now raw h port :
  trim_matches bracket raw = h -> port_ok port ->
  build_request_header now (raw ++ [58] ++ dec port) =
    if decide (too_long h) then Fail (EBail "domain too long")
    else Done (header_wire STREAM_TYPE_REQUEST now (host_of h) port [] []).
Proof.
  intros Ht Hp. unfold build_request_header. rewrite (encode_address_text raw h port Ht Hp). case_decide; [done|].
  cbn [mbind outcome_bind bind_outcome mret outcome_ret]. unfold header_wire. simpl. rewrite <- !app_assoc. done.
Qed.

Lemma short_header_refused now now' h port : too_short h ->
  parse_request_header now' (header_wire STREAM_TYPE_REQUEST now (host_of h) port [] []) STREAM_TYPE_REQUEST =
    Fail (EBail "request header too short").
Proof.
  intros [Hh Hl]. unfold parse_request_header. rewrite decide_True; [done|].
  unfold header_wire. rewrite Hh, !length_app, !length_be_bytes. simpl. lia.
Qed.

(** C25: what is built of a request header is what the server reads, with two exceptions.
    For every host text of UTF-8 without brackets, bare or in brackets, and every port and
    time: the header is built and accepted on a clock not more than 30 seconds away, and the
    target read from it is the host's own text where it is a name or an IPv4 address, and of
    an IPv6 address its canonical text in brackets; with the port.  The exceptions are names
    (an address is never sent as one): of a name of more than 255 bytes no header is
    built, and of a name of two bytes or less a header is built that the server refuses as
    too short. *)
Theorem request_header_roundtrip now now' h port t :
  bytes_ok h -> utf8_valid h = true -> Forall (fun c => bracket c = false) h ->
  port_ok port -> 0 <= now < 2 ^ 64 -> Z.abs (now - now') <= 30 ->
  t = h \/ t = [91] ++ h ++ [93] ->
  let built := build_request_header now (t ++ [58] ++ dec port) in
  (too_long h -> built = Fail (EBail "domain too long")) /\
  (too_short h -> exists hdr, built = Done hdr /\
     parse_request_header now' hdr STREAM_TYPE_REQUEST = Fail (EBail "request header too short")) /\
  (~ too_long h -> ~ too_short h -> exists hdr, built = Done hdr /\
     parse_request_header now' hdr STREAM_TYPE_REQUEST = Done (target_text (host_of h) port)) /\
  match host_of h with
  | HIp4 os => parse_with read_ipv4 h = Done os
  | HIp6 o => exists segs, parse_with read_ipv6 h = Done segs /\ o = concat (be_bytes 2 <$> segs)
  | HDomain d => d = h
  end /\
  (forall os, length os = 4%nat -> bytes_ok os -> h = ipv4_to_string os -> host_text (host_of h) = h).
Proof.
  intros Hb Hu Hbr Hp Hn Hab Ht built.
  assert (Htrim : trim_matches bracket t = h).
  { destruct Ht as [->| ->]; [by apply trim_matches_none|]. destruct (decide (h = [])) as [->|]; [done|]. by apply trim_matches_wrap. }
  pose proof (build_request_header_text now t h port Htrim Hp) as Eb. fold built in Eb.
  split; [|split; [|split; [|split]]].
  - intros Hl. by rewrite Eb, decide_True.
  - intros [Hh Hs]. eexists. rewrite Eb, decide_False by (intros [_ ?]; lia). split; [done|]. by apply short_header_refused.
  - intros Hl Hs. pose proof (host_of_ok h Hl Hb Hu) as Hh.
    eexists. rewrite Eb, decide_False by done. split; [done|].
    assert (Hok : header_ok now' now (host_of h) port []) by (unfold header_ok; split_and!; try done; simpl; lia).
    apply header_accepted; [..|exact Hok].
    + unfold header_wire. apply Forall_app. split; [by repeat constructor|]. apply Forall_app. split; [apply be_bytes_ok|].
      apply Forall_app. split; [by apply host_wire_bytes|]. apply Forall_app. split; [apply be_bytes_ok|].
      apply Forall_app. split; [apply be_bytes_ok|constructor].
    + unfold header_wire. rewrite !length_app, !length_be_bytes.
      destruct (host_of h) as [os|d|o] eqn:Ed; cbn [host_wire length];
        [destruct Hh as [Ho _]; rewrite Ho; simpl; lia| |destruct Hh as [Ho _]; rewrite Ho; simpl; lia].
      pose proof (host_of_domain _ _ Ed) as ->.
      assert (~ (length h <= 2)%nat) by (intros ?; by apply Hs). simpl. lia.
  - unfold host_of. destruct (parse_with read_ipv4 h) as [os| |]; [done|..];
      (destruct (parse_with read_ipv6 h) as [segs| |]; [by exists segs|done..]).
  - intros os Ho Hob E. unfold host_of. rewrite E at 1. by rewrite parse_with_v4 by done.
Qed.

(** A buffer is filled with exactly the next bytes of the stream, however it is
    cut into chunks, and the rest is still there for the next call. *)
Section filling.
Context `{AeadLaws ShadowsocksCipher} {R : Type} `{SourceLaws R}.

Lemma round_reads n dst (r : AeadReader R) tmp r1 :
  (length dst < n)%nat -> read_plain (n - length dst) r = (Done tmp, r1) -> tmp <> [] ->
  read_exact_round n dst r = (Done (inl (dst ++ tmp)), r1).
Proof.
  intros Hn. unfold read_plain, read_exact_round. rewrite decide_True by done.
  rewrite !(bind_step get_st _ r r r) by done. unfold mbind, M_bind.
  destruct ((if decide (r_buf r = []) then fill_buf else mret true) r) as [[[]|e|] r2]; [|by intros [= <-]|done..].
  simpl. intros [= <- <-] _. done.
Qed.

Lemma read_plain_length n (r : AeadReader R) tmp r1 : read_plain n r = (Done tmp, r1) -> (length tmp <= n)%nat.
Proof.
  unfold read_plain. rewrite (bind_step get_st _ r r r) by done. unfold mbind, M_bind.
  destruct ((if decide (r_buf r = []) then fill_buf else mret true) r) as [[[]|e|] r2]; [..|done|done];
    simpl; intros [= <- _]; rewrite ?length_take; simpl; lia.
Qed.

Theorem read_exact_plain_fills n (r : AeadReader R) pts rest n' :
  at_stream r pts rest n' -> (n <= length (r_buf r ++ concat pts))%nat ->
  exists r' pts', read_exact_plain n r = (Done (take n (r_buf r ++ concat pts)), r') /\
    at_stream r' pts' rest n' /\ r_buf r' ++ concat pts' = drop n (r_buf r ++ concat pts).
Proof.
  intros Hat Hn. unfold read_exact_plain.
  assert (Hf : (stream_size r < uplink_fuel r)%nat) by (unfold stream_size, uplink_fuel; lia).
  enough (Hgo : forall fuel dst pts (r : AeadReader R), at_stream r pts rest n' -> (stream_size r < fuel)%nat ->
    (length dst <= n <= length (dst ++ r_buf r ++ concat pts))%nat ->
    exists r' pts', rounds (read_exact_round n) fuel dst r = (Done (take n (dst ++ r_buf r ++ concat pts)), r') /\
      at_stream r' pts' rest n' /\ r_buf r' ++ concat pts' = drop n (dst ++ r_buf r ++ concat pts)).
  { apply (Hgo _ []); [done..|simpl; lia]. }
  clear Hat Hn Hf r pts. intros fuel. induction fuel as [|fuel IH]; intros dst pts r Hat Hf Hn; [lia|].
  destruct (decide (length dst < n)%nat) as [Hlt|Hge].
  - destruct (next_plain (n - length dst) r pts rest n')
      as (tmp & r1 & pts1 & E & Ht & Hat1 & C & S1 & _); [lia|done| |].
    { destruct (r_buf r), pts; simpl in *; rewrite ?app_nil_r in Hn; try lia; by auto. }
    rewrite (rounds_step _ _ _ _ _ _ (round_reads _ _ _ _ _ Hlt E Ht)).
    pose proof (read_plain_length _ _ _ _ E) as Hl.
    destruct (IH (dst ++ tmp) pts1 r1 Hat1) as (r' & pts' & E' & Hat' & C'); [lia| |].
    { rewrite <- app_assoc, C, length_app. lia. }
    exists r', pts'. rewrite <- !app_assoc, C in E', C'. done.
  - assert (length dst = n) as <- by lia. exists r, pts. rewrite take_app_length, drop_app_length.
    split_and!; [|done..]. apply (rounds_step _ _ _ _ (inr dst)). unfold read_exact_round.
    by rewrite decide_False.
Qed.
End filling.

(** *** Witnesses *)

Lemma request_header_roundtrip_witness :
  (exists hdr, build_request_header 1000 (str "[fd00:0::1]:443") = Done hdr /\
     parse_request_header 1020 hdr STREAM_TYPE_REQUEST = Done (str "[fd00::1]:443")) /\
  (exists hdr, build_request_header 1000 (str "ab:443") = Done hdr /\
     parse_request_header 1020 hdr STREAM_TYPE_REQUEST = Fail (EBail "request header too short")) /\
  build_request_header 1000 (replicate 256 97 ++ str ":443") = Fail (EBail "domain too long").
Proof.
  assert (Hp : port_ok 443) by (unfold port_ok; lia).
  split; [|split].
  - destruct (request_header_roundtrip 1000 1020 (str "fd00:0::1") 443 (str "[fd00:0::1]")) as (_ & _ & Hs & _);
      [apply (bool_decide_eq_true_1 (bytes_ok _)); vm_compute; reflexivity|reflexivity|repeat constructor|exact Hp|lia|lia
      |right; reflexivity|].
    apply Hs; intros [Hh _]; vm_compute in Hh; discriminate Hh.
  - destruct (request_header_roundtrip 1000 1020 (str "ab") 443 (str "ab")) as (_ & Hs & _);
      [apply (bool_decide_eq_true_1 (bytes_ok _)); vm_compute; reflexivity|reflexivity|repeat constructor|exact Hp|lia|lia
      |left; reflexivity|].
    apply Hs. split; [vm_compute; reflexivity|simpl; lia].
  - destruct (request_header_roundtrip 1000 1020 (replicate 256 97) 443 (replicate 256 97)) as (Hs & _);
      [apply (bool_decide_eq_true_1 (bytes_ok _)); vm_compute; reflexivity|vm_compute; reflexivity
      |by apply Forall_replicate|exact Hp|lia|lia|left; reflexivity|].
    apply Hs. split; [vm_compute; reflexivity|rewrite length_replicate; lia].
Defined.
