(* ===== verification/Vmess.v ===== *)
(** * VMess: AEAD request header, chunked body, stream handler
    ([src/src/vmess/mod.rs]) *)
From S2P Require Import Prelude Join RustStd Net Target Aead Vless.

(** ** The primitives of the crates

    [hmac], [sha2], [md5], [crc32fast], the AES block decryption of
    [aes-gcm::aes] and the output stream of [sha3::Shake128] are not part of
    the program: they are parameters, with the lengths of their results as
    laws.  The two ciphers of the body are those of the class [Aead]. *)
Inductive VmessCipher := Aes128Gcm | ChaCha20Poly1305.

Class Crypto := {
  hmac_sha256 : list Z -> list Z -> list Z;     (** key, message *)
  sha256 : list Z -> list Z;
  md5 : list Z -> list Z;
  crc32 : list Z -> Z;
  aes128_decrypt_block : list Z -> list Z -> list Z;   (** key, block *)
  shake128 : list Z -> nat -> Z;                (** byte [i] of the output for a seed *)
  vmess_aead :: Aead VmessCipher;
}.

Definition cipher_key_len (c : VmessCipher) : nat :=
  match c with Aes128Gcm => 16 | ChaCha20Poly1305 => 32 end.

Class CryptoLaws `{Crypto} : Prop := {
  hmac_length k m : length (hmac_sha256 k m) = 32%nat;
  md5_length m : length (md5 m) = 16%nat;
  sha256_length m : length (sha256 m) = 32%nat;
  block_length k b : length (aes128_decrypt_block k b) = 16%nat;
  block_bytes k b : bytes_ok (aes128_decrypt_block k b);
  shake_byte s i : byte_ok (shake128 s i);
  vmess_aead_laws :: AeadLaws VmessCipher;
  key_accepted (c : VmessCipher) k : length k = cipher_key_len c -> aead_key c k = true;
}.

Definition KDF_ROOT : list Z := str "VMess AEAD KDF".
Definition KDF_AUTH_ID : list Z := str "AES Auth ID Encryption".
Definition KDF_HDR_LEN_KEY : list Z := str "VMess Header AEAD Key_Length".
Definition KDF_HDR_LEN_IV : list Z := str "VMess Header AEAD Nonce_Length".
Definition KDF_HDR_KEY : list Z := str "VMess Header AEAD Key".
Definition KDF_HDR_IV : list Z := str "VMess Header AEAD Nonce".
Definition KDF_RESP_LEN_KEY : list Z := str "AEAD Resp Header Len Key".
Definition KDF_RESP_LEN_IV : list Z := str "AEAD Resp Header Len IV".
Definition KDF_RESP_PAY_KEY : list Z := str "AEAD Resp Header Key".
Definition KDF_RESP_PAY_IV : list Z := str "AEAD Resp Header IV".

Definition OPT_CHUNK_STREAM : Z := 0x01.
Definition OPT_CHUNK_MASKING : Z := 0x04.
Definition OPT_GLOBAL_PADDING : Z := 0x08.
Definition OPT_AUTH_LEN : Z := 0x10.

Definition SEC_NONE : Z := 0x00.
Definition SEC_AES128_GCM : Z := 0x03.
Definition SEC_CHACHA20 : Z := 0x04.
Definition SEC_AUTO : Z := 0x05.

Definition CHUNK_SIZE : nat := Z.to_nat 8192.

Section vmess.
Context `{Crypto}.

(** ** Keys and nonces *)

Definition chunk_nonce (iv : list Z) (count : Z) : list Z :=
  be_bytes 2 count ++ take 10 (drop 2 iv).

Definition chacha_key (key : list Z) : list Z :=
  let h1 := md5 key in
  let h2 := md5 h1 in
  h1 ++ h2.

(** The salt padded to the block size, xored with one of HMAC's pads. *)
Definition xor_pad (pad : Z) (salt : list Z) : list Z :=
  (fun b => Z.lxor b pad) <$> (take 64 salt ++ replicate (64 - length salt) 0).

(** The nested HMAC: every salt wraps the function built so far. *)
Fixpoint vmess_kdf_wrap (f : list Z -> list Z) (path : list (list Z)) : list Z -> list Z :=
  match path with
  | [] => f
  | salt :: path =>
      let ipad := xor_pad 0x36 salt in
      let opad := xor_pad 0x5c salt in
      vmess_kdf_wrap (fun msg => f (opad ++ f (ipad ++ msg))) path
  end.
Definition vmess_kdf (key : list Z) (path : list (list Z)) : list Z :=
  vmess_kdf_wrap (hmac_sha256 KDF_ROOT) path key.

(** The result has 32 bytes, so the slices of the code are in range. *)
Definition kdf16 (key : list Z) (path : list (list Z)) : list Z := take 16 (vmess_kdf key path).
Definition kdf12 (key : list Z) (path : list (list Z)) : list Z := take 12 (vmess_kdf key path).

Definition sha256_16 (b : list Z) : list Z := take 16 (sha256 b).

Definition fnv1a32 (data : list Z) : Z :=
  foldl (fun h b => u32 (Z.lxor h b * 16777619)) 2166136261 data.

Definition vmess_cmd_key (uuid : list Z) : list Z :=
  md5 (uuid ++ str "c48619fe-8f02-49e0-b9e9-edf763e17e21").

(** [Aes128Gcm::new_from_slice(key)?.decrypt(..)] and [encrypt]. *)
Definition open_with (c : VmessCipher) (key nonce aad ct : list Z) : outcome (list Z) :=
  if aead_key c key then ok_or (EBail "aead decrypt") (aead_open_ad c key nonce aad ct)
  else Fail (EBail "Invalid Length").
Definition seal_with (c : VmessCipher) (key nonce aad pt : list Z) : outcome (list Z) :=
  if aead_key c key then ok_or (EBail "aead encrypt") (aead_seal_ad c key nonce aad pt)
  else Fail (EBail "Invalid Length").
Definition aead_open (ct key nonce aad : list Z) : outcome (list Z) := open_with Aes128Gcm key nonce aad ct.
Definition aead_seal (pt key nonce aad : list Z) : outcome (list Z) := seal_with Aes128Gcm key nonce aad pt.

(** ** Request and response headers *)

(** [i64] arithmetic of a release build: it wraps. *)
Definition i64 (z : Z) : Z := (z + 2 ^ 63) mod 2 ^ 64 - 2 ^ 63.
Definition i64_abs (z : Z) : Z := i64 (Z.abs z).

(** [now] is [SystemTime::now()] in seconds, as an [i64]. *)
Definition validate_auth_id (now : Z) (auth_id cmd_key : list Z) : outcome unit :=
  let auth_key := kdf16 cmd_key [KDF_AUTH_ID] in
  let plain := aes128_decrypt_block auth_key auth_id in
  p12 ← slice plain 0 12;
  let ck := crc32 p12 in
  st ← slice plain 12 16;
  if decide (ck <> be_val st) then Fail (EBail "auth id bad checksum") else
  p8 ← slice plain 0 8;
  let ts := i64 (be_val p8) in
  if decide (i64_abs (i64 (ts - now)) > 120) then Fail (EBail "auth id stale") else Done tt.

Record VmessRequest := MkRequest {
  target : list Z;
  request_body_key : list Z;
  request_body_iv : list Z;
  response_body_key : list Z;
  response_body_iv : list Z;
  response_token : Z;
  option : Z;
  security : Z;
}.

(** The [match h[40]]: the host text and the index after it. *)
Definition parse_host (h : list Z) : outcome (list Z * nat) :=
  let idx := 41%nat in
  atyp ← index h 40;
  if decide (atyp = 1) then
    o ← slice h idx (idx + 4);
    Done (ipv4_to_string o, (idx + 4)%nat)
  else if decide (atyp = 2) then
    l ← index h idx;
    let l := Z.to_nat l in
    let idx := (idx + 1)%nat in
    b ← slice h idx (idx + l);
    d ← from_utf8 b;
    Done (d, (idx + l)%nat)
  else if decide (atyp = 3) then
    o ← slice h idx (idx + 16);
    Done ([91] ++ ipv6_to_string (segments_of o) ++ [93], (idx + 16)%nat)
  else Fail (EBail "unsupported atyp").

Definition parse_plain_header (h : list Z) : outcome VmessRequest :=
  if decide (length h < 41)%nat then Fail (EBail "header too short") else
  version ← index h 0;
  if decide (version <> 1) then Fail (EBail "unsupported version") else
  req_iv ← slice h 1 17;
  req_key ← slice h 17 33;
  response_token ← index h 33;
  option ← index h 34;
  b35 ← index h 35;
  let pad_len := Z.to_nat (Z.shiftr b35 4) in
  let security := Z.land b35 0x0f in
  cmd ← index h 37;
  if decide (cmd <> 1) then Fail (EBail "UDP not supported") else
  port ← slice h 38 40;
  '(host, idx) ← parse_host h;
  let idx := (idx + pad_len)%nat in
  if decide (length h < idx + 4)%nat then Fail (EBail "missing fnv") else
  exp ← slice h idx (idx + 4);
  body ← slice h 0 idx;
  if decide (fnv1a32 body <> be_val exp) then Fail (EBail "fnv mismatch") else
  Done (MkRequest (host ++ [58] ++ dec (be_val port)) req_key req_iv
          (sha256_16 req_key) (sha256_16 req_iv) response_token option security).

(** [decode_request_header] up to its last line: the decrypted header. *)
Definition read_request_header {S} `{Source S} (now : Z) (cmd_key : list Z) : M S (list Z) :=
  auth_id ← read_exact 16;
  _ ← lift (validate_auth_id now auth_id cmd_key);
  enc_len ← read_exact 18;
  nonce ← read_exact 8;
  let len_key := kdf16 cmd_key [KDF_HDR_LEN_KEY; auth_id; nonce] in
  let len_iv := kdf12 cmd_key [KDF_HDR_LEN_IV; auth_id; nonce] in
  plen ← lift (aead_open enc_len len_key len_iv auth_id);
  p0 ← lift (index plen 0);
  p1 ← lift (index plen 1);
  let header_len := be_val [p0; p1] in
  if decide (~ (41 <= header_len <= 2048)) then bail "bad header len" else
  enc_hdr ← read_exact (Z.to_nat header_len + 16);
  let hdr_key := kdf16 cmd_key [KDF_HDR_KEY; auth_id; nonce] in
  let hdr_iv := kdf12 cmd_key [KDF_HDR_IV; auth_id; nonce] in
  lift (aead_open enc_hdr hdr_key hdr_iv auth_id).

Definition decode_request_header {S} `{Source S} (now : Z) (cmd_key : list Z) : M S VmessRequest :=
  header ← read_request_header now cmd_key;
  lift (parse_plain_header header).

Definition response_payload (req : VmessRequest) : list Z := [response_token req; option req; 0; 0].

Definition encode_response_header {W} (write_all : list Z -> M W unit) (req : VmessRequest) : M W unit :=
  let rk := response_body_key req in
  let ri := response_body_iv req in
  let payload := response_payload req in
  let len_key := kdf16 rk [KDF_RESP_LEN_KEY] in
  let len_iv := kdf12 ri [KDF_RESP_LEN_IV] in
  enc_len ← lift (aead_seal (be_bytes 2 (Z.of_nat (length payload))) len_key len_iv []);
  _ ← write_all enc_len;
  let pay_key := kdf16 rk [KDF_RESP_PAY_KEY] in
  let pay_iv := kdf12 ri [KDF_RESP_PAY_IV] in
  enc_pay ← lift (aead_seal payload pay_key pay_iv []);
  write_all enc_pay.

(** ** The body *)

Record Shake128Reader := MkShake { sh_seed : list Z; sh_pos : nat }.
Definition Shake128Reader_new (seed : list Z) : Shake128Reader := MkShake seed 0.
Definition next_u16 (s : Shake128Reader) : Z * Shake128Reader :=
  (be_val [shake128 (sh_seed s) (sh_pos s); shake128 (sh_seed s) (sh_pos s + 1)],
   MkShake (sh_seed s) (sh_pos s + 2)).

Definition opt_set (opt flag : Z) : bool := negb (Z.land opt flag =? 0).

(** Step 1 of both loops: the length of the padding. *)
Definition next_pad (use_padding : bool) (shake : Datatypes.option Shake128Reader)
    : nat * Datatypes.option Shake128Reader :=
  if use_padding then
    match shake with
    | Some s => let '(v, s) := next_u16 s in (Z.to_nat (v mod 64), Some s)
    | None => (0%nat, None)
    end
  else (0%nat, shake).

(** What is kept between two iterations. *)
Record body := Body { b_shake : Datatypes.option Shake128Reader; b_count : Z }.

Definition body_start (iv : list Z) (opt : Z) : body :=
  Body (if opt_set opt OPT_CHUNK_MASKING then Some (Shake128Reader_new iv) else None) 0.
Definition next_count (b : body) : body := Body (b_shake b) (u16 (b_count b + 1)).
Definition auth_len_key (key : list Z) : list Z := kdf16 key [str "auth_len"].

(** The state of the uplink: the client's stream, and what the target has
    been sent. *)
Record Up (R : Type) := MkUp { up_in : R; up_out : list Z }.
Arguments MkUp {R} _ _.
Arguments up_in {R} _.
Arguments up_out {R} _.

#[export] Instance up_source {R} `{Source R} : Source (Up R) := {
  pending := fun s => pending (up_in s);
  trace := fun s => trace (up_in s) ++ [EvWrite (up_out s)];
  read_exact := fun n s => let '(o, i) := read_exact n (up_in s) in (o, MkUp i (up_out s));
}.

Section uplink.
Context {R : Type} `{Source R}.

(** [w.write_all]: [out_ok] says whether it succeeds. *)
Definition write_out (out_ok : list Z -> bool) (bs : list Z) : M (Up R) unit := fun s =>
  if out_ok (up_out s) then (Done tt, MkUp (up_in s) (up_out s ++ bs)) else (Fail EIo, s).
(** [tokio::io::copy] of the rest of the stream, of which the target takes
    [n] bytes. *)
Definition copy_out (n : nat) : M (Up R) unit := fun s =>
  let d := pending (up_in s) in
  match read_exact (length d) (up_in s) with
  | (_, i) => (if decide (length d <= n)%nat then Done tt else Fail EIo,
               MkUp i (up_out s ++ take n d))
  end.

(** Step 2: the size field. *)
Definition read_size (key iv : list Z) (opt : Z) (b : body) : M (Up R) (nat * body) :=
  if opt_set opt OPT_AUTH_LEN then
    buf ← read_exact 18;
    plain ← lift (open_with Aes128Gcm (auth_len_key key) (chunk_nonce iv (b_count b)) [] buf);
    p0 ← lift (index plain 0);
    p1 ← lift (index plain 1);
    mret (Z.to_nat (be_val [p0; p1]), next_count b)
  else
    raw ← read_u16;
    match b_shake b with
    | Some sk => let '(v, sk) := next_u16 sk in
                 mret (Z.to_nat (Z.lxor raw v), Body (Some sk) (b_count b))
    | None => mret (Z.to_nat raw, b)
    end.

(** Step 3: the payload. *)
Definition read_chunk (key iv : list Z) (sec count : Z) (encrypted_len : nat) : M (Up R) (list Z) :=
  let nonce := chunk_nonce iv count in
  if decide (sec = SEC_NONE) then read_exact encrypted_len
  else if decide (sec = SEC_AES128_GCM \/ sec = SEC_AUTO) then
    if decide (encrypted_len < 16)%nat then bail "chunk too small" else
    ct ← read_exact encrypted_len;
    lift (open_with Aes128Gcm key nonce [] ct)
  else if decide (sec = SEC_CHACHA20) then
    if decide (encrypted_len < 16)%nat then bail "chunk too small" else
    ct ← read_exact encrypted_len;
    lift (open_with ChaCha20Poly1305 (chacha_key key) nonce [] ct)
  else bail "unsupported security".

(** One iteration of the loop. *)
Definition chunk_up_round (key iv : list Z) (opt sec : Z) (out_ok : list Z -> bool) (b : body)
    : M (Up R) (body + unit) :=
  let '(pad_len, shake) := next_pad (opt_set opt OPT_GLOBAL_PADDING) (b_shake b) in
  '(total_len, b) ← read_size key iv opt (Body shake (b_count b));
  let encrypted_len := (total_len - pad_len)%nat in
  if decide (encrypted_len = 0%nat) then mret (inr tt) else
  plain ← read_chunk key iv sec (b_count b) encrypted_len;
  let b := next_count b in
  _ ← (if decide (0 < pad_len)%nat then read_exact pad_len else mret []);
  if decide (plain = []) then mret (inr tt) else
  _ ← write_out out_ok plain;
  mret (inl b).

(** The task: the loop, or one copy without chunks. *)
Definition relay_up_round (key iv : list Z) (opt sec : Z) (out_ok : list Z -> bool) (out_cap : nat)
    (b : body) : M (Up R) (body + unit) :=
  if decide (sec = SEC_NONE /\ opt_set opt OPT_CHUNK_STREAM = false)
  then _ ← copy_out out_cap; mret (inr tt)
  else chunk_up_round key iv opt sec out_ok b.

(** Every iteration that does not end the loop consumes a size field. *)
Definition up_fuel (s : Up R) : nat := S (length (pending (up_in s))).
Definition relay_up (key iv : list Z) (opt sec : Z) (out_ok : list Z -> bool) (out_cap : nat)
    : M (Up R) unit := fun s =>
  rounds (relay_up_round key iv opt sec out_ok out_cap) (up_fuel s) (body_start iv opt) s.
End uplink.

Section downlink.
Context {W : Type} (write_all : list Z -> M W unit).

(** Step 2 of the downlink. *)
Definition seal_chunk (key iv : list Z) (sec count : Z) (plain : list Z) : outcome (list Z) :=
  let nonce := chunk_nonce iv count in
  if decide (sec = SEC_NONE) then Done plain
  else if decide (sec = SEC_AES128_GCM \/ sec = SEC_AUTO) then seal_with Aes128Gcm key nonce [] plain
  else if decide (sec = SEC_CHACHA20) then seal_with ChaCha20Poly1305 (chacha_key key) nonce [] plain
  else Fail (EBail "unsupported security").

(** Step 3: the size field and what follows it. *)
Definition size_field (key iv : list Z) (opt : Z) (b : body) (total_size : Z) : outcome (list Z * body) :=
  if opt_set opt OPT_AUTH_LEN then
    enc_len ← seal_with Aes128Gcm (auth_len_key key) (chunk_nonce iv (b_count b)) [] (be_bytes 2 total_size);
    Done (enc_len, next_count b)
  else match b_shake b with
       | Some sk => let '(v, sk) := next_u16 sk in
                    Done (be_bytes 2 (Z.lxor total_size v), Body (Some sk) (b_count b))
       | None => Done (be_bytes 2 total_size, b)
       end.

(** One iteration after its read; [rand] fills the padding. *)
Definition write_chunk (key iv : list Z) (opt sec : Z) (rand : Z -> nat -> list Z) (plain : list Z)
    (b : body) : M W body :=
  let '(pad_len, shake) := next_pad (opt_set opt OPT_GLOBAL_PADDING) (b_shake b) in
  ct ← lift (seal_chunk key iv sec (b_count b) plain);
  let b := next_count (Body shake (b_count b)) in
  let total_size := u16 (Z.of_nat (length ct + pad_len)) in
  '(field, b) ← lift (size_field key iv opt b total_size);
  _ ← write_all field;
  _ ← write_all ct;
  _ ← (if decide (0 < pad_len)%nat then write_all (rand (b_count b) pad_len) else mret tt);
  mret b.

(** One iteration of the loop, over what the reads of the target return; a
    list that ends without an empty read ends with a read error. *)
Definition chunk_down_round (key iv : list Z) (opt sec : Z) (rand : Z -> nat -> list Z)
    (x : list (list Z) * body) : M W (list (list Z) * body + unit) :=
  match x with
  | ([], _) => fail EIo
  | (plain :: reads, b) =>
      b ← write_chunk key iv opt sec rand plain b;
      mret (if decide (plain = []) then inr tt else inl (reads, b))
  end.

(** One step of [tokio::io::copy] of the target's stream. *)
Definition copy_down_round (x : list (list Z) * body) : M W (list (list Z) * body + unit) :=
  match x with
  | ([], _) => fail EIo
  | ([] :: _, _) => mret (inr tt)
  | (d :: reads, b) => _ ← write_all d; mret (inl (reads, b))
  end.

Definition relay_down_round (key iv : list Z) (opt sec : Z) (rand : Z -> nat -> list Z)
    (x : list (list Z) * body) : M W (list (list Z) * body + unit) :=
  if decide (sec = SEC_NONE /\ opt_set opt OPT_CHUNK_STREAM = false) then copy_down_round x
  else chunk_down_round key iv opt sec rand x.

Definition down_fuel (reads : list (list Z)) : nat := S (length reads).
Definition relay_down (key iv : list Z) (opt sec : Z) (rand : Z -> nat -> list Z)
    (reads : list (list Z)) : M W unit :=
  rounds (relay_down_round key iv opt sec rand) (down_fuel reads) (reads, body_start iv opt).
End downlink.

(** ** The stream handler *)

Record world := World {
  w_now : Z;                       (** the clock *)
  w_out_ok : list Z -> bool;       (** success of the writes to the target *)
  w_out_cap : nat;                 (** bytes the target takes of a plain copy *)
  w_reads : list (list Z);         (** the reads of the target *)
  w_rand : Z -> nat -> list Z;     (** the padding bytes *)
  w_sched : list side;             (** how the two relay tasks take turns *)
}.

(** [process] once the response header is written: the two relay tasks, joined.
    [split] has given one the read half of the connection, what the client still
    sends, and the other its write half.  Their errors are logged and dropped. *)
Definition relay (E : env) (wd : world) (req : VmessRequest) : M conn unit :=
  stream ← get_st;
  let opt := option req in
  let sec := security req in
  let up := attempt_round (relay_up_round (request_body_key req) (request_body_iv req) opt sec
    (w_out_ok wd) (w_out_cap wd)) in
  let dn := attempt_round (relay_down_round (write_all E) (response_body_key req) (response_body_iv req)
    opt sec (w_rand wd)) in
  let in_r := MkUp (c_in stream) [] in
  let '(res, (in_r, in_w)) := tokio_join up dn (w_sched wd) (up_fuel in_r) (down_fuel (w_reads wd))
    (body_start (request_body_iv req) opt) (w_reads wd, body_start (response_body_iv req) opt)
    (in_r, stream) in
  _ ← put_st (Conn (up_in in_r) (c_trace in_w));
  _ ← lift res;
  emit (EvRelay (target req) (up_out in_r) []).

Definition process (E : env) (cmd_key : list Z) (wd : world) : M conn unit :=
  req ← decode_request_header (w_now wd) cmd_key;
  r ← tcp_connect E (target req);
  match r with
  | ConnOk => _ ← encode_response_header (write_all E) req; relay E wd req
  | _ => fail EIo
  end.
End vmess.
Arguments MkUp {R} _ _.
Arguments up_in {R} _.
Arguments up_out {R} _.

(** ** Keys and nonces have their lengths *)
Section theorems.
Context `{CryptoLaws}.

Lemma vmess_kdf_length key path : length (vmess_kdf key path) = 32%nat.
Proof.
  unfold vmess_kdf. assert (Hf : forall m, length (hmac_sha256 KDF_ROOT m) = 32%nat)
    by apply hmac_length. revert Hf. generalize (hmac_sha256 KDF_ROOT) as f.
  induction path as [|salt path IH]; intros f Hf; simpl; [apply Hf|]. apply IH. intros; apply Hf.
Qed.

Lemma kdf16_length key path : length (kdf16 key path) = 16%nat.
Proof. unfold kdf16. rewrite length_take, vmess_kdf_length. done. Qed.

Lemma chacha_key_length key : length (chacha_key key) = 32%nat.
Proof. unfold chacha_key. by rewrite length_app, !md5_length. Qed.

Lemma seal_with_some c key nonce aad pt :
  length key = cipher_key_len c -> Z.of_nat (length pt) < 65536 ->
  exists ct, seal_with c key nonce aad pt = Done ct /\ length ct = (length pt + 16)%nat.
Proof.
  intros Hk Hl. unfold seal_with. rewrite (key_accepted c key Hk).
  destruct (seal_ad_some c key nonce aad pt (key_accepted c key Hk) Hl) as [ct E]. rewrite E.
  exists ct. split; [done|]. by apply seal_ad_length in E.
Qed.

Lemma open_sealed c key nonce aad pt ct :
  seal_with c key nonce aad pt = Done ct -> open_with c key nonce aad ct = Done pt.
Proof.
  unfold seal_with, open_with. case_match; [|done].
  destruct (aead_seal_ad _ _ _ _ _) eqn:E; [|done]. intros [= <-]. by rewrite (open_ad_seal _ _ _ _ _ _ E).
Qed.

Lemma sealed_open c key nonce aad pt ct :
  open_with c key nonce aad ct = Done pt ->
  seal_with c key nonce aad pt = Done ct /\ length ct = (length pt + 16)%nat.
Proof.
  unfold seal_with, open_with. case_match; [|done].
  destruct (aead_open_ad _ _ _ _ _) eqn:E; [|done]. intros [= <-].
  pose proof (open_ad_length _ _ _ _ _ _ E). apply seal_ad_open in E. by rewrite E.
Qed.

Lemma sealed_length c key nonce aad pt ct :
  seal_with c key nonce aad pt = Done ct -> length ct = (length pt + 16)%nat.
Proof. intros E%open_sealed. by apply sealed_open in E as []. Qed.

Lemma open_bytes_ok c key nonce aad pt ct :
  bytes_ok ct -> open_with c key nonce aad ct = Done pt -> bytes_ok pt.
Proof.
  intros Hok. unfold open_with. case_match; [|done].
  destruct (aead_open_ad _ _ _ _ _) eqn:E; [|done]. intros [= <-]. by eapply open_ad_bytes.
Qed.

Lemma open_no_panic c key nonce aad ct : open_with c key nonce aad ct <> Panic.
Proof. unfold open_with, ok_or. by repeat case_match. Qed.

Lemma seal_no_panic c key nonce aad ct : seal_with c key nonce aad ct <> Panic.
Proof. unfold seal_with, ok_or. by repeat case_match. Qed.

(** ** The wire format of the body

    One chunk as a list of bytes, and how the state moves.  With sealed
    length fields the two directions of the program use the counter
    differently: [down] seals the payload first. *)
Definition chunk_wire (key iv : list Z) (opt sec : Z) (down : bool)
    (b : body) (pt w : list Z) (b' : body) : Prop :=
  exists p sh ct field pad,
    next_pad (opt_set opt OPT_GLOBAL_PADDING) (b_shake b) = (p, sh) /\
    w = field ++ ct ++ pad /\ length pad = p /\ Z.of_nat (length ct + p) < 65536 /\
    let b0 := Body sh (b_count b) in
    let total := Z.of_nat (length ct + p) in
    if down then
      seal_chunk key iv sec (b_count b0) pt = Done ct /\
      size_field key iv opt (next_count b0) total = Done (field, b')
    else exists b1,
      size_field key iv opt b0 total = Done (field, b1) /\
      seal_chunk key iv sec (b_count b1) pt = Done ct /\ b' = next_count b1.

Inductive body_wire (key iv : list Z) (opt sec : Z) (down : bool)
    : body -> list (list Z) -> list Z -> body -> Prop :=
| body_nil b : body_wire key iv opt sec down b [] [] b
| body_cons b pt w1 b1 pts w2 b2 :
    chunk_wire key iv opt sec down b pt w1 b1 ->
    body_wire key iv opt sec down b1 pts w2 b2 ->
    body_wire key iv opt sec down b (pt :: pts) (w1 ++ w2) b2.

Lemma body_wire_app key iv opt sec down b pts1 w1 b1 pts2 w2 b2 :
  body_wire key iv opt sec down b pts1 w1 b1 -> body_wire key iv opt sec down b1 pts2 w2 b2 ->
  body_wire key iv opt sec down b (pts1 ++ pts2) (w1 ++ w2) b2.
Proof.
  induction 1; intros; [done|]. simpl. rewrite <- app_assoc. econstructor; eauto.
Qed.

Lemma chunk_wire_sec key iv opt sec down b pt w b' : chunk_wire key iv opt sec down b pt w b' ->
  sec = SEC_NONE \/ sec = SEC_AES128_GCM \/ sec = SEC_AUTO \/ sec = SEC_CHACHA20.
Proof.
  assert (Hs : forall k v c p ct, seal_chunk k v sec c p = Done ct ->
    sec = SEC_NONE \/ sec = SEC_AES128_GCM \/ sec = SEC_AUTO \/ sec = SEC_CHACHA20).
  { intros k v c p ct. unfold seal_chunk. do 3 (case_decide; [tauto|]). done. }
  intros (p & sh & ct & field & pad & _ & _ & _ & _ & Hd). destruct down.
  - destruct Hd as [Hc _]. by eapply Hs.
  - destruct Hd as (b1 & _ & Hc & _). by eapply Hs.
Qed.

(** Without sealed length fields the directions agree. *)
Lemma chunk_wire_directions key iv opt sec b pt w b' :
  opt_set opt OPT_AUTH_LEN = false ->
  chunk_wire key iv opt sec true b pt w b' -> chunk_wire key iv opt sec false b pt w b'.
Proof.
  intros Hopt (p & sh & ct & field & pad & E & -> & Hp & Hl & Ec & Ef).
  exists p, sh, ct, field, pad. split_and!; [done..|].
  unfold size_field in *. rewrite Hopt in *. simpl in *. destruct sh as [sk|].
  - injection Ef as <- <-. by eexists.
  - injection Ef as <- <-. by eexists.
Qed.

Lemma body_wire_directions key iv opt sec b pts w b' :
  opt_set opt OPT_AUTH_LEN = false ->
  body_wire key iv opt sec true b pts w b' -> body_wire key iv opt sec false b pts w b'.
Proof. induction 2; econstructor; eauto using chunk_wire_directions. Qed.

Lemma next_pad_lt use sh p sh' : next_pad use sh = (p, sh') -> (p < 64)%nat.
Proof.
  unfold next_pad. destruct use, sh; simpl; intros [= <- <-]; try lia.
  pose proof (Z.mod_pos_bound (be_val [shake128 (sh_seed s) (sh_pos s);
    shake128 (sh_seed s) (sh_pos s + 1)]) 64). lia.
Qed.

Lemma next_u16_bound s v s' : next_u16 s = (v, s') -> 0 <= v < 65536.
Proof.
  intros [= <- <-]. pose proof (be_val_bound [shake128 (sh_seed s) (sh_pos s);
    shake128 (sh_seed s) (sh_pos s + 1)]) as Hb. apply Hb. repeat constructor; apply shake_byte.
Qed.

Lemma lxor_bound a b : 0 <= a < 65536 -> 0 <= b < 65536 -> 0 <= Z.lxor a b < 65536.
Proof.
  intros Ha Hb. split; [apply Z.lxor_nonneg; lia|].
  destruct (decide (Z.lxor a b = 0)) as [->|]; [lia|].
  pose proof (proj2 (Z.lxor_nonneg a b) ltac:(lia)).
  apply (Z.log2_lt_pow2 _ 16); [lia|]. eapply Z.le_lt_trans; [apply Z.log2_lxor; lia|].
  destruct (decide (a = 0)) as [->|], (decide (b = 0)) as [->|];
    try apply Z.max_lub_lt; try done; apply Z.log2_lt_pow2; lia.
Qed.

Lemma size_field_length key iv opt b total field b' :
  size_field key iv opt b total = Done (field, b') -> (2 <= length field)%nat.
Proof.
  unfold size_field. case_match.
  - unfold mbind, outcome_bind, bind_outcome. destruct (seal_with _ _ _ _ _) eqn:E; [|done..].
    intros [= <- <-]. apply sealed_length in E. lia.
  - repeat case_match; intros [= <- <-]; simpl; lia.
Qed.

(** ** Reading a chunk *)
Section reading.
Context {R : Type} `{SourceLaws R}.

#[export] Instance up_laws : SourceLaws (Up R).
Proof.
  split; intros n s Hn; simpl in *.
  - destruct (read_exact_done n (up_in s) Hn) as (i & E & P & T). rewrite E. eexists. split_and!; [done..|].
    simpl. by rewrite T.
  - destruct (read_exact_eof n (up_in s) Hn) as (i & E & T & P). rewrite E. eexists. split_and!; [done..| |done].
    simpl. by rewrite T.
Qed.

Lemma up_trace (s s' : Up R) :
  trace s' = trace s -> trace (up_in s') = trace (up_in s) /\ up_out s' = up_out s.
Proof. simpl. intros [? [= ?]]%app_inj_tail. done. Qed.

Lemma reads_size key iv opt b total field b1 :
  0 <= total < 65536 -> size_field key iv opt b total = Done (field, b1) ->
  reads (S := Up R) (read_size key iv opt b) field (Z.to_nat total, b1).
Proof.
  intros Ht. unfold size_field, read_size. destruct (opt_set opt OPT_AUTH_LEN).
  - unfold mbind at 1, outcome_bind, bind_outcome. destruct (seal_with _ _ _ _ _) eqn:E; [|done..].
    intros [= <- <-]. pose proof (sealed_length _ _ _ _ _ _ E) as Hl. rewrite length_be_bytes in Hl.
    eapply reads_bind_r; [by apply reads_exact|]. apply open_sealed in E.
    eapply reads_bind_r; [by apply reads_lift|].
    eapply reads_bind_r; [by apply reads_lift|]. eapply reads_bind_r; [by apply reads_lift|].
    change [_; _] with (be_bytes 2 total). rewrite be_val_bytes by done. apply reads_ret.
  - destruct (b_shake b) as [sk|].
    + destruct (next_u16 sk) as [v sk'] eqn:Ev. intros [= <- <-]. apply next_u16_bound in Ev as Hv.
      eapply reads_bind_r; [apply reads_u16, lxor_bound; done|].
      cbn. rewrite Z.lxor_assoc, Z.lxor_nilpotent, Z.lxor_0_r. apply reads_ret.
    + intros [= <- <-]. eapply reads_bind_r; [by apply reads_u16|]. apply reads_ret.
Qed.

Lemma reads_chunk key iv sec count pt ct :
  seal_chunk key iv sec count pt = Done ct ->
  reads (S := Up R) (read_chunk key iv sec count (length ct)) ct pt.
Proof.
  unfold seal_chunk, read_chunk. case_decide; [|case_decide; [|case_decide; [|done]]].
  - intros [= ->]. by apply reads_exact.
  - intros E. rewrite decide_False by (apply sealed_length in E; lia).
    eapply reads_bind_r; [by apply reads_exact|]. by apply reads_lift, open_sealed.
  - intros E. rewrite decide_False by (apply sealed_length in E; lia).
    eapply reads_bind_r; [by apply reads_exact|]. by apply reads_lift, open_sealed.
Qed.

Lemma sound_size key iv opt b :
  sound (S := Up R) (read_size key iv opt b) (fun bs r => exists total,
    0 <= total < 65536 /\ size_field key iv opt b total = Done (bs, r.2) /\ r.1 = Z.to_nat total).
Proof.
  unfold size_field, read_size. destruct (opt_set opt OPT_AUTH_LEN).
  - eapply sound_bind; [apply sound_exact|]. intros bs1 buf Hok [<- Hl].
    eapply sound_bind with (P := fun bs pt => bs = [] /\ exists total, 0 <= total < 65536 /\
      pt = be_bytes 2 total /\ seal_with Aes128Gcm (auth_len_key key) (chunk_nonce iv (b_count b)) [] pt = Done bs1).
    { apply sound_lift. intros pt E. split; [done|]. pose proof (open_bytes_ok _ _ _ _ _ _ Hok E) as Hpt.
      apply sealed_open in E as [E Hlen]. assert (length pt = 2%nat) by lia.
      exists (be_val pt). pose proof (be_val_bound pt Hpt) as Hb. rewrite H3 in Hb.
      by rewrite be_bytes_val. }
    intros ? pt _ [-> (total & Ht & -> & E)].
    eapply sound_bind with (P := fun bs x => bs = [] /\ x = total / 256 mod 256);
      [apply sound_lift; by intros ? [= <-]|]. intros ? ? _ [-> ->].
    eapply sound_bind with (P := fun bs x => bs = [] /\ x = total mod 256);
      [apply sound_lift; by intros ? [= <-]|]. intros ? ? _ [-> ->].
    apply sound_ret. exists total. rewrite !app_nil_r, E. split_and!; [lia..|done|].
    simpl. by rewrite <- (be_val_bytes 2 total) at 3.
  - eapply sound_bind; [apply sound_u16|]. intros bs1 raw Hok [-> Hraw].
    destruct (b_shake b) as [sk|].
    + destruct (next_u16 sk) as [v sk'] eqn:Ev. apply next_u16_bound in Ev as Hv.
      apply sound_ret. exists (Z.lxor raw v). split; [by apply lxor_bound|].
      by rewrite app_nil_r, Z.lxor_assoc, Z.lxor_nilpotent, Z.lxor_0_r.
    + apply sound_ret. exists raw. by rewrite app_nil_r.
Qed.

Lemma quiet_size key iv opt b : quiet (S := Up R) (read_size key iv opt b).
Proof.
  unfold read_size. destruct (opt_set opt OPT_AUTH_LEN).
  - eapply quiet_bind; [apply quiet_exact|]. intros s buf s1 E1.
    eapply quiet_bind; [apply quiet_lift, open_no_panic|]. intros s2 pt s3 [= E2 _].
    apply sealed_open in E2 as [_ Hl].
    apply exact_length in E1.
    destruct pt as [|x0 [|x1 pt]]; simpl in Hl; [lia..|].
    quiet_solve.
  - eapply quiet_bind; [apply quiet_u16|]. intros. by destruct (b_shake b).
Qed.

Lemma sound_chunk key iv sec count n :
  sound (S := Up R) (read_chunk key iv sec count n) (fun bs pt =>
    length bs = n /\ seal_chunk key iv sec count pt = Done bs).
Proof.
  unfold seal_chunk, read_chunk. case_decide; [|case_decide; [|case_decide; [|apply sound_fail]]].
  - intros s a s' Hok E. destruct (sound_exact n s a s' Hok E) as (bs & P & [-> Hl] & T). by exists a.
  - case_decide; [apply sound_fail|]. eapply sound_bind; [apply sound_exact|]. intros bs1 ct Hok [<- Hl].
    apply sound_lift. intros pt E. rewrite app_nil_r. by apply sealed_open in E as [E _].
  - case_decide; [apply sound_fail|]. eapply sound_bind; [apply sound_exact|]. intros bs1 ct Hok [<- Hl].
    apply sound_lift. intros pt E. rewrite app_nil_r. by apply sealed_open in E as [E _].
Qed.

Lemma quiet_chunk key iv sec count n : quiet (S := Up R) (read_chunk key iv sec count n).
Proof.
  unfold read_chunk. case_decide; [apply quiet_exact|].
  repeat (case_decide; [case_decide; [apply quiet_fail|];
    eapply quiet_bind; [apply quiet_exact|]; intros; apply quiet_lift, open_no_panic|]).
  apply quiet_fail.
Qed.

(** ** The uplink loop *)

Lemma reads_up {A} (m : M (Up R) A) bs a s rest :
  reads m bs a -> pending (up_in s) = bs ++ rest ->
  exists i, m s = (Done a, MkUp i (up_out s)) /\ pending i = rest /\ trace i = trace (up_in s).
Proof.
  intros Hm Hp. destruct (Hm s rest Hp) as ([i o] & E & P & T). apply up_trace in T as [T O].
  simpl in *. subst o. by exists i.
Qed.

Lemma run_up {A} (m : M (Up R) A) P s o s1 :
  sound m P -> quiet m -> bytes_ok (pending (up_in s)) -> m s = (o, s1) ->
  o <> Panic /\ trace (up_in s1) = trace (up_in s) /\ up_out s1 = up_out s /\
  (forall a, o = Done a -> exists bs, pending (up_in s) = bs ++ pending (up_in s1) /\ P bs a).
Proof.
  intros Hm Hq Hok E. destruct (run_spec m P s o s1 Hm Hq Hok E) as (N & T & Hs).
  apply up_trace in T as [T O]. done.
Qed.

Lemma reads_pad pad :
  reads (S := Up R) (if decide (0 < length pad)%nat then read_exact (length pad) else mret []) pad pad.
Proof.
  case_decide; [by apply reads_exact|]. destruct pad; simpl in *; [|lia]. apply reads_ret.
Qed.

Lemma sound_pad n :
  sound (S := Up R) (if decide (0 < n)%nat then read_exact n else mret []) (fun bs _ => length bs = n).
Proof.
  case_decide; [|apply sound_ret; simpl; lia].
  eapply sound_impl; [apply sound_exact|]. by intros ? ? [-> ?].
Qed.

Lemma quiet_pad n : quiet (S := Up R) (if decide (0 < n)%nat then read_exact n else mret []).
Proof. case_decide; [apply quiet_exact|apply quiet_ret]. Qed.

(** One iteration on a well-formed chunk; an empty one ends the loop. *)
Lemma up_chunk key iv opt sec out_ok b pt w b' s rest :
  chunk_wire key iv opt sec false b pt w b' -> pending (up_in s) = w ++ rest ->
  exists i, trace i = trace (up_in s) /\ (pt <> [] -> pending i = rest) /\
    chunk_up_round key iv opt sec out_ok b s =
      if decide (pt = []) then (Done (inr tt), MkUp i (up_out s))
      else if out_ok (up_out s) then (Done (inl b'), MkUp i (up_out s ++ pt))
      else (Fail EIo, MkUp i (up_out s)).
Proof.
  intros (p & sh & ct & field & pad & E & -> & <- & Hl & b1 & Ef & Ec & ->) Hp.
  rewrite <- !app_assoc in Hp. unfold chunk_up_round. rewrite E.
  apply reads_size in Ef; [|lia].
  destruct (reads_up _ _ _ s _ Ef Hp) as (i1 & E1 & P1 & T1). rewrite (bind_step _ _ _ _ _ E1).
  rewrite Nat2Z.id. replace (length ct + length pad - length pad)%nat with (length ct) by lia.
  case_decide as Hct.
  { exists i1. assert (pt = []) as ->.
    { destruct ct; [|done]. revert Ec. unfold seal_chunk. repeat case_decide; try done.
      - by intros [= ->].
      - intros Ec%sealed_length. simpl in Ec. lia.
      - intros Ec%sealed_length. simpl in Ec. lia. }
    by rewrite decide_True. }
  apply reads_chunk in Ec.
  destruct (reads_up _ _ _ (MkUp i1 (up_out s)) _ Ec P1) as (i2 & E2 & P2 & T2).
  rewrite (bind_step _ _ _ _ _ E2).
  destruct (reads_up _ _ _ (MkUp i2 (up_out s)) _ (reads_pad pad) P2) as (i3 & E3 & P3 & T3).
  simpl in *. rewrite (bind_step _ _ _ _ _ E3). exists i3. split; [congruence|]. split; [done|].
  destruct (decide (pt = [])); [done|]. unfold mbind, M_bind, write_out. simpl. by destruct (out_ok (up_out s)).
Qed.

Lemma up_stream key iv opt sec out_ok fuel b pts w b' w2 b2 s rest :
  body_wire key iv opt sec false b pts w b' -> chunk_wire key iv opt sec false b' [] w2 b2 ->
  Forall (fun pt => pt <> []) pts -> (forall x, out_ok x = true) ->
  pending (up_in s) = w ++ w2 ++ rest -> (length pts < fuel)%nat ->
  exists i, trace i = trace (up_in s)/\
    rounds (chunk_up_round key iv opt sec out_ok) fuel b s = (Done tt, MkUp i (up_out s ++ concat pts)).
Proof.
  intros Hb. revert fuel s. induction Hb as [b|b pt w1 b1 pts w3 b3 Hc _ IH];
    intros fuel s He Hne Hok Hp Hf; (destruct fuel as [|fuel]; [lia|]).
  - destruct (up_chunk key iv opt sec out_ok _ _ _ _ s rest He Hp) as (i & T & _ & E).
    rewrite decide_True in E by done. exists i. by rewrite (rounds_step _ _ _ _ _ _ E), app_nil_r.
  - apply Forall_cons_1 in Hne as [Hn Hne]. rewrite <- app_assoc in Hp.
    destruct (up_chunk key iv opt sec out_ok _ _ _ _ s _ Hc Hp) as (i & T & P & E).
    rewrite decide_False, Hok in E by done. specialize (P Hn).
    rewrite (rounds_step _ _ _ _ _ _ E). simpl in Hf. destruct (IH fuel (MkUp i (up_out s ++ pt)) He Hne Hok P) as (i2 & T2 & E2); [lia|].
    exists i2. simpl in *. rewrite E2. by rewrite T2, <- app_assoc.
Qed.

(** One iteration on any input: it ends the loop, or it took one well-formed
    chunk and forwarded its payload. *)
Lemma up_chunk_inv key iv opt sec out_ok b s o s' :
  bytes_ok (pending (up_in s)) -> chunk_up_round key iv opt sec out_ok b s = (o, s') ->
  o <> Panic /\ trace (up_in s') = trace (up_in s) /\
  ((forall b', o <> Done (inl b')) /\ up_out s' = up_out s \/
   exists b' pt w, o = Done (inl b') /\ chunk_wire key iv opt sec false b pt w b' /\ pt <> [] /\
     (0 < length w)%nat /\ pending (up_in s) = w ++ pending (up_in s') /\ up_out s' = up_out s ++ pt).
Proof.
  intros Hok. unfold chunk_up_round.
  destruct (next_pad _ _) as [p sh] eqn:Ep. unfold mbind at 1, M_bind at 1.
  destruct (read_size key iv opt (Body sh (b_count b)) s) as [o1 s1] eqn:E1.
  destruct (run_up _ _ _ _ _ (sound_size _ _ _ _) (quiet_size _ _ _ _) Hok E1) as (N1 & T1 & O1 & H1').
  destruct o1 as [[tl b1]|e|]; [|intros [= <- <-]; by auto|done].
  destruct (H1' _ eq_refl) as (field & P1 & total & Ht & Ef & Etl). simpl in Ef, Etl. subst tl. clear H1'.
  case_decide as Hz; [intros [= <- <-]; by auto|]. unfold mbind at 1, M_bind at 1.
  rewrite P1 in Hok. apply Forall_app in Hok as [_ Hok1].
  destruct (read_chunk key iv sec (b_count b1) _ s1) as [o2 s2] eqn:E2.
  destruct (run_up _ _ _ _ _ (sound_chunk _ _ _ _ _) (quiet_chunk _ _ _ _ _) Hok1 E2) as (N2 & T2 & O2 & H2').
  rewrite T1 in T2. rewrite O1 in O2.
  destruct o2 as [plain|e|]; [|intros [= <- <-]; by auto|done].
  destruct (H2' _ eq_refl) as (ct & P2 & Lct & Ec). clear H2'. unfold mbind at 1, M_bind at 1.
  rewrite P2 in Hok1. apply Forall_app in Hok1 as [_ Hok2].
  destruct ((if decide (0 < p)%nat then read_exact p else mret []) s2) as [o3 s3] eqn:E3.
  destruct (run_up _ _ _ _ _ (sound_pad _) (quiet_pad _) Hok2 E3) as (N3 & T3 & O3 & H3').
  rewrite T2 in T3. rewrite O2 in O3.
  destruct o3 as [pd|e|]; [|intros [= <- <-]; by auto|done].
  destruct (H3' _ eq_refl) as (pad & P3 & Lp). clear H3'.
  destruct (decide (plain = [])) as [|Hpl]; [intros [= <- <-]; by auto|].
  unfold mbind, M_bind, write_out. destruct (out_ok (up_out s3)); [|intros [= <- <-]; by auto].
  intros [= <- <-]. split; [done|]. split; [done|]. right. simpl.
  exists (next_count b1), plain, (field ++ ct ++ pad). split; [done|]. split; [|split; [done|]; split].
  - exists p, sh, ct, field, pad. subst p.
    replace (Z.of_nat (length ct + length pad)) with total by lia.
    split_and!; [done..|lia|]. by exists b1.
  - apply size_field_length in Ef. rewrite length_app. lia.
  - rewrite P1, P2, P3, O3, <- !app_assoc. done.
Qed.

Lemma up_inv key iv opt sec out_ok fuel b s o s' :
  bytes_ok (pending (up_in s)) -> (length (pending (up_in s)) < fuel)%nat ->
  rounds (chunk_up_round key iv opt sec out_ok) fuel b s = (o, s') ->
  o <> Panic /\ trace (up_in s') = trace (up_in s) /\
  exists pts w rest b', body_wire key iv opt sec false b pts w b' /\ Forall (fun pt => pt <> []) pts /\
    pending (up_in s) = w ++ rest /\ up_out s' = up_out s ++ concat pts.
Proof.
  revert b s. induction fuel as [|fuel IH]; intros b s Hok Hf; [lia|]. cbn [rounds].
  unfold mbind, M_bind. destruct (chunk_up_round _ _ _ _ _ b s) as [o1 s1] eqn:E1.
  apply up_chunk_inv in E1 as (N1 & T1 & [[Hno O1]|(b' & pt & w & -> & Hc & Hne & Hw & P & O1)]); [| |done].
  - intros Hrun. assert (o <> Panic /\ s' = s1) as [No ->].
    { destruct o1 as [[b'|u]|e|]; [by destruct (Hno b')| | |done]; by injection Hrun as <- <-. }
    split; [done|]. split; [done|]. exists [], [], (pending (up_in s)), b. rewrite O1, app_nil_r.
    split_and!; [constructor..|done|done].
  - rewrite P in Hok, Hf. apply Forall_app in Hok as [_ Hok]. rewrite length_app in Hf.
    intros Hrun. apply IH in Hrun as (N & T & pts & w2 & rest & b2 & Hb & Hnes & P2 & O); [|done|lia].
    split; [done|]. split; [congruence|]. exists (pt :: pts), (w ++ w2), rest, b2.
    split_and!; [by econstructor|by constructor|by rewrite P, P2, app_assoc|].
    by rewrite O, O1, <- app_assoc.
Qed.

(** Whether the body is one plain copy: no security and no chunks. *)
Definition raw_copy (opt sec : Z) : Prop := sec = SEC_NONE /\ opt_set opt OPT_CHUNK_STREAM = false.

(** With chunks the task is the loop. *)
Lemma relay_up_loop key iv opt sec out_ok out_cap s :
  ~ raw_copy opt sec ->
  relay_up key iv opt sec out_ok out_cap s =
    rounds (chunk_up_round key iv opt sec out_ok) (up_fuel s) (body_start iv opt) s.
Proof.
  intros Hopt. apply rounds_ext. intros b t. unfold relay_up_round. by rewrite decide_False.
Qed.

Lemma relay_up_chunks key iv opt sec out_ok out_cap s :
  opt_set opt OPT_CHUNK_STREAM = true ->
  relay_up key iv opt sec out_ok out_cap s =
    rounds (chunk_up_round key iv opt sec out_ok) (up_fuel s) (body_start iv opt) s.
Proof. intros Hopt. apply relay_up_loop. intros [_ Hc]. by rewrite Hopt in Hc. Qed.

Lemma relay_up_copies key iv opt sec out_ok out_cap s :
  raw_copy opt sec ->
  relay_up key iv opt sec out_ok out_cap s = copy_out out_cap s.
Proof.
  unfold raw_copy. intros Hd. unfold relay_up, up_fuel. cbn [rounds]. unfold mbind at 1, M_bind at 1.
  unfold relay_up_round at 1. destruct (decide _); [|done].
  unfold mbind, M_bind. by destruct (copy_out out_cap s) as [[[]|?|] ?].
Qed.

(** C21: what the VMess uplink forwards.  Whatever the client sends, and whatever security and
    options its request has, the uplink ends, without a panic, and causes nothing but its
    writes to the target.  With a sealed security, and with none but in chunks, the target only
    gets the contents of a prefix of well-formed chunks, in order ([body_wire]): with a sealed
    security, plaintexts sealed under the request key with the nonce of their position; with none,
    the chunks' bytes as they are, which nothing protects.  With an unknown security it gets
    nothing.  Without security and chunks it gets the client's bytes as they are, as far as it takes
    them. *)
Theorem relay_up_authentic key iv opt sec out_ok out_cap (s : Up R) :
  bytes_ok (pending (up_in s)) ->
  exists o s', relay_up key iv opt sec out_ok out_cap s = (o, s') /\ o <> Panic /\
    trace (up_in s') = trace (up_in s) /\
    (~ raw_copy opt sec -> exists pts w rest b', body_wire key iv opt sec false (body_start iv opt) pts w b' /\
       pending (up_in s) = w ++ rest /\ up_out s' = up_out s ++ concat pts /\
       (~ (sec = SEC_NONE \/ sec = SEC_AES128_GCM \/ sec = SEC_AUTO \/ sec = SEC_CHACHA20) -> pts = [])) /\
    (raw_copy opt sec -> up_out s' = up_out s ++ take out_cap (pending (up_in s))).
Proof.
  intros Hok. destruct (decide (sec = SEC_NONE /\ opt_set opt OPT_CHUNK_STREAM = false)) as [Hc|Hc].
  - rewrite relay_up_copies by done. destruct (copy_out out_cap s) as [o s'] eqn:E. exists o, s'. split; [done|].
    unfold copy_out in E. destruct (read_exact _ _) as [o1 i] eqn:Er. injection E as <- <-.
    split; [by case_decide|]. split; [|by split; [intros Hn|]].
    destruct (read_exact_done (length (pending (up_in s))) (up_in s)) as (i' & E & _ & Ht); [done|].
    rewrite E in Er. injection Er as _ <-. exact Ht.
  - rewrite relay_up_loop by done.
    destruct (rounds _ _ _ s) as [o s'] eqn:E. exists o, s'. split; [done|].
    apply up_inv in E as (N & T & pts & w & rest & b' & Hb & _ & P & O); [|done|unfold up_fuel; lia].
    split; [done|]. split; [done|]. split; [intros _|by intros ?]. exists pts, w, rest, b'.
    split_and!; [done..|]. intros Hs. destruct Hb as [|? ? ? ? ? ? ? Hw _]; [done|]. exfalso.
    by apply chunk_wire_sec in Hw.
Qed.
End reading.

(** ** The downlink *)
Definition sec_ok (sec : Z) : Prop :=
  sec = SEC_NONE \/ sec = SEC_AES128_GCM \/ sec = SEC_AUTO \/ sec = SEC_CHACHA20.

Section writing.
Context {W : Type} (put : list Z -> M W unit) (sent : W -> list Z).
Context (put_ok : forall d x, exists x', put d x = (Done tt, x') /\ sent x' = sent x ++ d).

Lemma seal_chunk_ok key iv sec count pt :
  sec_ok sec -> length key = 16%nat -> Z.of_nat (length pt) < 65536 ->
  exists ct, seal_chunk key iv sec count pt = Done ct /\ (length ct <= length pt + 16)%nat.
Proof.
  intros Hsec Hk Hl. unfold seal_chunk. case_decide; [exists pt; split; [done|lia]|].
  case_decide; [|case_decide; [|unfold sec_ok in Hsec; naive_solver]].
  - destruct (seal_with_some Aes128Gcm key (chunk_nonce iv count) [] pt Hk Hl) as (ct & -> & ?).
    exists ct. split; [done|lia].
  - destruct (seal_with_some ChaCha20Poly1305 (chacha_key key) (chunk_nonce iv count) [] pt)
      as (ct & -> & ?); [apply chacha_key_length|done|]. exists ct. split; [done|lia].
Qed.

Lemma size_field_ok key iv opt b total :
  exists field b', size_field key iv opt b total = Done (field, b').
Proof.
  unfold size_field. case_match.
  - destruct (seal_with_some Aes128Gcm (auth_len_key key) (chunk_nonce iv (b_count b)) []
      (be_bytes 2 total)) as (ct & -> & _); [apply kdf16_length|rewrite length_be_bytes; lia|]. by do 2 eexists.
  - repeat case_match; by do 2 eexists.
Qed.

Lemma write_chunk_ok key iv opt sec rand plain b x :
  sec_ok sec -> length key = 16%nat -> (length plain <= CHUNK_SIZE)%nat ->
  (forall c n, length (rand c n) = n) ->
  exists x' w b', write_chunk put key iv opt sec rand plain b x = (Done b', x') /\
    sent x' = sent x ++ w /\ chunk_wire key iv opt sec true b plain w b'.
Proof.
  intros Hsec Hk Hl Hr. unfold CHUNK_SIZE in Hl. unfold write_chunk. destruct (next_pad _ _) as [p sh] eqn:Ep.
  pose proof (next_pad_lt _ _ _ _ Ep) as Hp.
  destruct (seal_chunk_ok key iv sec (b_count b) plain Hsec Hk ltac:(lia)) as (ct & Ec & Lc).
  rewrite Ec. rewrite (bind_step (lift _) _ _ _ _ eq_refl).
  assert (Eu : u16 (Z.of_nat (length ct + p)) = Z.of_nat (length ct + p)).
  { unfold wrap. rewrite Z.mod_small; [done|]. change (2 ^ 16) with 65536. lia. }
  rewrite Eu. destruct (size_field_ok key iv opt (next_count (Body sh (b_count b)))
    (Z.of_nat (length ct + p))) as (field & b' & Ef). rewrite Ef.
  rewrite (bind_step (lift _) _ _ _ _ eq_refl). cbv beta iota.
  destruct (put_ok field x) as (x1 & E1 & S1). rewrite (bind_step _ _ _ _ _ E1).
  destruct (put_ok ct x1) as (x2 & E2 & S2). rewrite (bind_step _ _ _ _ _ E2).
  destruct (decide (0 < p)%nat).
  - destruct (put_ok (rand (b_count b') p) x2) as (x3 & E3 & S3). rewrite (bind_step _ _ _ _ _ E3).
    exists x3, (field ++ ct ++ rand (b_count b') p), b'. split_and!; [done|by rewrite S3, S2, S1, <- !app_assoc|].
    exists p, sh, ct, field, (rand (b_count b') p). split_and!; auto; lia.
  - exists x2, (field ++ ct ++ []), b'. split_and!; [done|by rewrite S2, S1, app_nil_r, <- app_assoc|].
    exists p, sh, ct, field, []. split_and!; auto; simpl; lia.
Qed.

Lemma relay_down_chunks key iv opt sec rand reads x :
  opt_set opt OPT_CHUNK_STREAM = true ->
  relay_down put key iv opt sec rand reads x =
    rounds (chunk_down_round put key iv opt sec rand) (down_fuel reads) (reads, body_start iv opt) x.
Proof.
  intros Hopt. apply rounds_ext. intros y t. unfold relay_down_round.
  rewrite decide_False by (rewrite Hopt; naive_solver). done.
Qed.

(** The reads end: with an empty one, after the data. *)
Lemma down_ok key iv opt sec rand datas more b x :
  sec_ok sec -> length key = 16%nat -> Forall (fun d => d <> [] /\ (length d <= CHUNK_SIZE)%nat) datas ->
  (forall c n, length (rand c n) = n) ->
  exists x' w1 b1 w2 b2,
    rounds (chunk_down_round put key iv opt sec rand) (down_fuel (datas ++ [] :: more)) (datas ++ [] :: more, b) x
      = (Done tt, x') /\
    sent x' = sent x ++ w1 ++ w2 /\ body_wire key iv opt sec true b datas w1 b1 /\
    chunk_wire key iv opt sec true b1 [] w2 b2.
Proof.
  intros Hsec Hk Hd Hr. revert b x. induction Hd as [|d datas [Hne Hl] _ IH]; intros b x; simpl app.
  - destruct (write_chunk_ok key iv opt sec rand [] b x Hsec Hk) as (x' & w & b' & E & S' & Hc);
      [simpl; lia|done|]. exists x', [], b, w, b'.
    unfold down_fuel. rewrite (rounds_step _ _ _ _ (inr tt) x')
      by (cbn [chunk_down_round]; by rewrite (bind_step _ _ _ _ _ E)).
    split_and!; [done..|constructor|done].
  - destruct (write_chunk_ok key iv opt sec rand d b x Hsec Hk Hl Hr) as (x' & w & b' & E & S' & Hc).
    destruct (IH b' x') as (x2 & w1 & b1 & w2 & b2 & E2 & S2 & Hb & He).
    exists x2, (w ++ w1), b1, w2, b2. unfold down_fuel. cbn [length].
    rewrite (rounds_step _ _ _ _ (inl (datas ++ [] :: more, b')) x')
      by (cbn [chunk_down_round]; rewrite (bind_step _ _ _ _ _ E); by rewrite decide_False).
    split_and!; [done| |by econstructor|done].
    by rewrite S2, S', <- !app_assoc.
Qed.
End writing.

Lemma body_wire_long key iv opt sec down b pts w b' :
  body_wire key iv opt sec down b pts w b' -> (length pts <= length w)%nat.
Proof.
  induction 1 as [|b pt w1 b1 pts w2 b2 Hc _ IH]; [done|].
  destruct Hc as (p & sh & ct & field & pad & _ & -> & _ & _ & Hf). rewrite !length_app. simpl.
  enough (2 <= length field)%nat by lia. destruct down.
  - destruct Hf as [_ Hf]. by eapply size_field_length.
  - destruct Hf as (? & Hf & _). by eapply size_field_length.
Qed.

(** C19: the two directions of the VMess body fit together.  For every option set
    without authenticated lengths (masking and padding on or off) and every
    security the program knows, what [relay_down] writes for any reads of the
    target, ended by the end of its stream, is read back by [relay_up] with
    the same key, IV, options and security: exactly the data, and then the
    uplink ends at the end chunk, whatever follows on the stream. *)
Theorem body_roundtrip {R} `{SourceLaws R} key iv opt sec rand datas more rest out_ok out_cap :
  sec_ok sec -> opt_set opt OPT_CHUNK_STREAM = true -> opt_set opt OPT_AUTH_LEN = false ->
  length key = 16%nat -> Forall (fun d => d <> [] /\ (length d <= CHUNK_SIZE)%nat) datas ->
  (forall c n, length (rand c n) = n) -> (forall x, out_ok x = true) ->
  exists w, relay_down list_sink key iv opt sec rand (datas ++ [] :: more) [] = (Done tt, w) /\
    forall r : R, pending r = w ++ rest ->
    exists r', relay_up key iv opt sec out_ok out_cap (MkUp r []) = (Done tt, MkUp r' (concat datas)).
Proof.
  intros Hsec Hopt Hlen Hk Hd Hr Ho. rewrite relay_down_chunks by done.
  destruct (down_ok list_sink id ltac:(by eexists) key iv opt sec rand datas more (body_start iv opt) []
    Hsec Hk Hd Hr) as (w & w1 & b1 & w2 & b2 & -> & Sw & Hb & He).
  unfold id in Sw. simpl in Sw. subst w. exists (w1 ++ w2). split; [done|]. intros r Hp.
  rewrite relay_up_chunks by done. apply body_wire_directions in Hb; [|done].
  apply chunk_wire_directions in He; [|done]. rewrite <- app_assoc in Hp.
  destruct (up_stream key iv opt sec out_ok (Datatypes.S (length (pending r))) _ _ _ _ _ _ (MkUp r []) rest Hb He)
    as (i & _ & E); [|done|done| |].
  - eapply Forall_impl; [exact Hd|]. by intros ? [].
  - apply body_wire_long in Hb. rewrite Hp, !length_app. lia.
  - simpl in *. by exists i.
Qed.

(** ** The request header *)

(** A plain header up to its checksum. *)
Definition plain_body (iv key : list Z) (token opt b35 reserved port : Z) (h : host) (pad : list Z) : list Z :=
  [1] ++ iv ++ key ++ [token; opt; b35; reserved; 1] ++ be_bytes 2 port ++ host_wire 1 2 3 h ++ pad.

Definition plain_request (iv key : list Z) (token opt b35 port : Z) (h : host) : VmessRequest :=
  MkRequest (target_text h port) key iv (sha256_16 key) (sha256_16 iv) token opt (Z.land b35 0x0f).

Lemma vmess_header_split (h : list Z) :
  (41 <= length h)%nat ->
  exists v iv key t o b35 res cmd port atyp tl, h = ([v] ++ iv ++ key ++ [t; o; b35; res; cmd] ++ port) ++ atyp :: tl /\
    length iv = 16%nat /\ length key = 16%nat /\ length port = 2%nat.
Proof.
  intros Hl.
  assert (Hex : forall k n (l : list Z), length l = (k + n)%nat -> exists a b, l = a ++ b /\ length a = k /\ length b = n).
  { intros k n l Hkn. exists (take k l), (drop k l). rewrite take_drop, length_take, length_drop. split_and!; [done|lia..]. }
  destruct h as [|v h]; simpl in Hl; [lia|].
  destruct (Hex 16%nat (length h - 16)%nat h) as (iv & h1 & -> & L1 & Lh1); [lia|].
  destruct (Hex 16%nat (length h1 - 16)%nat h1) as (key & h2 & -> & L2 & Lh2); [rewrite length_app in Hl; lia|].
  rewrite !length_app in *. destruct h2 as [|t [|o [|b35 [|res [|cmd [|q0 [|q1 [|atyp tl]]]]]]]]; simpl in *; try lia.
  exists v, iv, key, t, o, b35, res, cmd, [q0; q1], atyp, tl. split_and!; [|done..]. simpl. by rewrite <- !app_assoc.
Qed.

(** The rest of the parser, after the fixed fields. *)
Lemma parse_plain_header_split v iv key t o b35 res cmd port atyp tl :
  length iv = 16%nat -> length key = 16%nat -> length port = 2%nat ->
  let h := ([v] ++ iv ++ key ++ [t; o; b35; res; cmd] ++ port) ++ atyp :: tl in
  parse_plain_header h =
    if decide (v <> 1) then Fail (EBail "unsupported version") else
    if decide (cmd <> 1) then Fail (EBail "UDP not supported") else
    '(host, idx) ← parse_host h;
    let idx := (idx + Z.to_nat (Z.shiftr b35 4))%nat in
    if decide (length h < idx + 4)%nat then Fail (EBail "missing fnv") else
    exp ← slice h idx (idx + 4);
    body ← slice h 0 idx;
    if decide (fnv1a32 body <> be_val exp) then Fail (EBail "fnv mismatch") else
    Done (MkRequest (host ++ [58] ++ dec (be_val port)) key iv
            (sha256_16 key) (sha256_16 iv) t o (Z.land b35 0x0f)).
Proof.
  intros L1 L2 L3 h. unfold parse_plain_header.
  assert (Lh : (41 <= length h)%nat) by (unfold h; rewrite !length_app; simpl; lia).
  rewrite decide_False by lia.
  assert (E0 : index h 0 = Done v) by done.
  assert (E1 : slice h 1 17 = Done iv).
  { unfold h. rewrite <- !app_assoc. apply (slice_app [v] iv); simpl; lia. }
  assert (E2 : slice h 17 33 = Done key).
  { unfold h. rewrite <- !app_assoc, (app_assoc [v] iv).
    apply (slice_app ([v] ++ iv) key); rewrite length_app; simpl; lia. }
  assert (Ei : forall i j x l1 l2, h = ([v] ++ iv ++ key ++ l1) ++ x :: l2 -> length l1 = j ->
    (33 + j = i)%nat -> index h i = Done x).
  { intros i j x l1 l2 -> <- <-. apply index_app. rewrite !length_app. simpl. lia. }
  assert (E33 : index h 33 = Done t)
    by (apply (Ei 33%nat 0%nat t [] ([o; b35; res; cmd] ++ port ++ atyp :: tl)); [unfold h; by rewrite <- !app_assoc|done..]).
  assert (E34 : index h 34 = Done o)
    by (apply (Ei 34%nat 1%nat o [t] ([b35; res; cmd] ++ port ++ atyp :: tl)); [unfold h; by rewrite <- !app_assoc|done..]).
  assert (E35 : index h 35 = Done b35)
    by (apply (Ei 35%nat 2%nat b35 [t; o] ([res; cmd] ++ port ++ atyp :: tl)); [unfold h; by rewrite <- !app_assoc|done..]).
  assert (E37 : index h 37 = Done cmd)
    by (apply (Ei 37%nat 4%nat cmd [t; o; b35; res] (port ++ atyp :: tl)); [unfold h; by rewrite <- !app_assoc|done..]).
  assert (E38 : slice h 38 40 = Done port).
  { unfold h. replace (_ ++ atyp :: tl) with (([v] ++ iv ++ key ++ [t; o; b35; res; cmd]) ++ port ++ atyp :: tl)
      by by rewrite <- !app_assoc.
    apply slice_app; rewrite !length_app; simpl; lia. }
  rewrite E0. simpl. case_decide; [done|]. rewrite E1, E2, E33, E34, E35, E37. simpl.
  case_decide; [done|]. by rewrite E38.
Qed.

(** The address branch, on a header whose first 40 bytes are [l]. *)
Lemma parse_host_wire l h rest :
  length l = 40%nat -> host_ok h ->
  parse_host (l ++ host_wire 1 2 3 h ++ rest) = Done (host_text h, (40 + length (host_wire 1 2 3 h))%nat).
Proof.
  intros Hl Hok. unfold parse_host. destruct h as [o|d|o]; cbn [host_wire host_ok app length] in *; destruct_and?.
  - rewrite (index_app l _ _ 40) by done. simpl. rewrite (app_mid l 1).
    rewrite slice_app by (rewrite ?length_app; simpl; lia). simpl. repeat f_equal; lia.
  - rewrite (index_app l _ _ 40) by done. simpl.
    rewrite (app_mid l 2).
    rewrite index_app by (rewrite ?length_app; simpl; lia). simpl. rewrite Nat2Z.id.
    rewrite (app_mid (l ++ [2]) (Z.of_nat (length d))).
    rewrite slice_app by (rewrite ?length_app; simpl; lia). simpl. unfold from_utf8. rewrite H4. simpl.
    repeat f_equal; lia.
  - rewrite (index_app l _ _ 40) by done. simpl. rewrite (app_mid l 3).
    rewrite slice_app by (rewrite ?length_app; simpl; lia). simpl. repeat f_equal; lia.
Qed.

Lemma slice_inv {A} (l1 l2 x : list A) i j :
  length l1 = i -> slice (l1 ++ l2) i j = Done x -> exists r, l2 = x ++ r /\ (length x + i = j)%nat.
Proof.
  intros <-. unfold slice. case_decide; [|done]. rewrite drop_app_length. intros [= <-].
  exists (drop (j - length l1) l2). rewrite take_drop, length_take. rewrite length_app in *. split; [done|lia].
Qed.

Lemma parse_host_inv l atyp tl t idx :
  length l = 40%nat -> bytes_ok (atyp :: tl) -> parse_host (l ++ atyp :: tl) = Done (t, idx) ->
  exists h rest, host_ok h /\ atyp :: tl = host_wire 1 2 3 h ++ rest /\ t = host_text h /\
    idx = (40 + length (host_wire 1 2 3 h))%nat.
Proof.
  intros Hl Hok. apply Forall_cons in Hok as [Ha Hok]. unfold parse_host. rewrite (index_app l _ _ 40) by done. simpl.
  case_decide; [|case_decide; [|case_decide; [|done]]]; subst.
  - unfold mbind, outcome_bind, bind_outcome. destruct (slice _ 41 45) as [o|e|] eqn:E; [|done..]. intros [= <- <-].
    rewrite (app_mid l) in E. apply slice_inv in E as (r & -> & Hlen); [|rewrite length_app; simpl; lia].
    apply Forall_app in Hok as [Ho _]. exists (HIp4 o), r. simpl. split_and!; auto; lia.
  - unfold mbind, outcome_bind, bind_outcome. destruct tl as [|len tl].
    { unfold index. by rewrite lookup_ge_None_2 by (rewrite length_app; simpl; lia). }
    rewrite (app_mid l), (index_app (l ++ [2])) by (rewrite length_app; simpl; lia). simpl.
    destruct (slice _ 42 _) as [d|e|] eqn:E; [|done..]. unfold from_utf8.
    destruct (utf8_valid d) eqn:Eu; [|done]. intros [= <- <-].
    rewrite (app_mid (l ++ [2]) len) in E.
    apply slice_inv in E as (r & -> & Hlen); [|rewrite !length_app; simpl; lia].
    apply Forall_cons in Hok as [Hb Hok]. unfold byte_ok in Hb. apply Forall_app in Hok as [Ho _].
    exists (HDomain d), r. simpl. assert (len = Z.of_nat (length d)) as -> by lia.
    split_and!; auto; lia.
  - unfold mbind, outcome_bind, bind_outcome. destruct (slice _ 41 57) as [o|e|] eqn:E; [|done..]. intros [= <- <-].
    rewrite (app_mid l) in E. apply slice_inv in E as (r & -> & Hlen); [|rewrite length_app; simpl; lia].
    apply Forall_app in Hok as [Ho _]. exists (HIp6 o), r. simpl. split_and!; auto; lia.
Qed.

Lemma fnv1a32_bound bs : 0 <= fnv1a32 bs < 2 ^ 32.
Proof.
  unfold fnv1a32. destruct bs as [|b bs] using rev_ind; [done|]. rewrite foldl_app. simpl.
  apply Z.mod_pos_bound. lia.
Qed.

(** The padding of length [p] after [pre], and the four bytes after it. *)
Lemma checked_tail_inv (pre rest exp bd : list Z) p :
  (length pre + p + 4 <= length (pre ++ rest))%nat ->
  slice (pre ++ rest) (length pre + p) (length pre + p + 4) = Done exp ->
  slice (pre ++ rest) 0 (length pre + p) = Done bd ->
  exists extra, rest = take p rest ++ exp ++ extra /\ length (take p rest) = p /\ length exp = 4%nat /\
    bd = pre ++ take p rest.
Proof.
  intros Hlen E1 E2. assert (Hr : rest = take p rest ++ drop p rest) by by rewrite take_drop.
  assert (Lp : length (take p rest) = p).
  { rewrite length_take. rewrite !length_app in Hlen. lia. }
  rewrite Hr, app_assoc in E1. apply slice_inv in E1 as (extra & Hd & Le); [|rewrite length_app; lia].
  rewrite Hr, (app_assoc pre) in E2.
  change ((pre ++ take p rest) ++ drop p rest) with ([] ++ (pre ++ take p rest) ++ drop p rest) in E2.
  rewrite (slice_app [] (pre ++ take p rest)) in E2 by (rewrite ?length_app; cbn [length]; lia). injection E2 as <-.
  exists extra. split_and!; [|done|lia|done]. by rewrite <- Hd, take_drop.
Qed.

Lemma parse_plain_header_inv hd req :
  bytes_ok hd -> parse_plain_header hd = Done req ->
  exists iv key token opt b35 reserved port host pad extra,
    let body := plain_body iv key token opt b35 reserved port host pad in
    hd = body ++ be_bytes 4 (fnv1a32 body) ++ extra /\
    length iv = 16%nat /\ length key = 16%nat /\ port_ok port /\ host_ok host /\
    Z.of_nat (length pad) = Z.shiftr b35 4 /\ req = plain_request iv key token opt b35 port host.
Proof.
  intros Hok E. destruct (decide (41 <= length hd)%nat) as [Hl|Hl];
    [|revert E; unfold parse_plain_header; by rewrite decide_True by lia].
  destruct (vmess_header_split hd Hl) as (v & iv & key & t & o & b35 & res & cmd & port & atyp & tl & -> & L1 & L2 & L3).
  rewrite parse_plain_header_split in E by done.
  case_decide as Hv; [done|]. case_decide as Hc; [done|]. subst v cmd.
  set (l := [1] ++ iv ++ key ++ [t; o; b35; res; 1] ++ port) in *.
  assert (Ll : length l = 40%nat) by (unfold l; rewrite !length_app; simpl; lia).
  destruct (parse_host _) as [[ht idx]|e|] eqn:Eh; [|done..].
  apply Forall_app in Hok as [Hokl Hok].
  apply parse_host_inv in Eh as (h & rest & Hh & Ew & -> & ->); [|done..].
  cbn [mbind outcome_bind bind_outcome] in E. rewrite Ew in E.
  set (body := l ++ host_wire 1 2 3 h) in *.
  assert (Lb : (40 + length (host_wire 1 2 3 h))%nat = length body) by (unfold body; rewrite length_app; lia).
  rewrite Lb, app_assoc in E. fold body in E. case_decide as Hlen; [done|].
  unfold mbind, outcome_bind, bind_outcome in E.
  destruct (slice _ _ _) as [exp|e|] eqn:E1 in E; [|done..].
  destruct (slice _ 0 _) as [bd|e|] eqn:E2 in E; [|done..]. case_decide as Hf; [done|]. injection E as <-.
  set (p := Z.to_nat (Z.shiftr b35 4)) in *.
  destruct (checked_tail_inv body rest exp bd p) as (extra & Hr & Lp & Le & ->); [lia|done..|].
  assert (Hbp : bytes_ok port /\ byte_ok b35) by (unfold l in Hokl; rewrite !Forall_app, !Forall_cons in Hokl; tauto).
  destruct Hbp as [Hbp Hb35]. unfold byte_ok in Hb35.
  assert (Ebd : plain_body iv key t o b35 res (be_val port) h (take p rest) = body ++ take p rest).
  { unfold plain_body, body, l. rewrite be_bytes_val by done. by rewrite <- !app_assoc. }
  assert (Hexp : bytes_ok exp) by (rewrite Ew, Hr, !Forall_app in Hok; tauto).
  exists iv, key, t, o, b35, res, (be_val port), h, (take p rest), extra. rewrite Ebd.
  assert (Ef : fnv1a32 (body ++ take p rest) = be_val exp) by exact Hf.
  split_and!; [|done|done| |done| |done].
  - rewrite Ew, Ef, be_bytes_val by done. rewrite <- app_assoc, <- Hr. unfold body. by rewrite <- app_assoc.
  - pose proof (be_val_bound port Hbp) as Hb. by rewrite L3 in Hb.
  - rewrite Lp. unfold p. rewrite Z2Nat.id; [done|]. rewrite Z.shiftr_div_pow2 by lia. apply Z.div_pos; lia.
Qed.

Lemma parse_plain_header_wire iv key t o b35 res port h pad extra :
  let body := plain_body iv key t o b35 res port h pad in
  length iv = 16%nat -> length key = 16%nat -> port_ok port -> host_ok h ->
  Z.of_nat (length pad) = Z.shiftr b35 4 ->
  parse_plain_header (body ++ be_bytes 4 (fnv1a32 body) ++ extra) = Done (plain_request iv key t o b35 port h).
Proof.
  intros body L1 L2 Hp Hho Lpad. set (hd := body ++ _). assert (Hh : hd = body ++ be_bytes 4 (fnv1a32 body) ++ extra) by done.
  clearbody hd.
  set (l := [1] ++ iv ++ key ++ [t; o; b35; res; 1] ++ be_bytes 2 port) in *.
  assert (Ll : length l = 40%nat) by (unfold l; rewrite !length_app, length_be_bytes; simpl; lia).
  assert (Eb : body = l ++ host_wire 1 2 3 h ++ pad) by (unfold body, plain_body, l; by rewrite <- !app_assoc).
  set (f := be_bytes 4 (fnv1a32 body)) in *.
  assert (Lf : length f = 4%nat) by apply length_be_bytes.
  assert (Hw : exists atyp tl, host_wire 1 2 3 h = atyp :: tl) by (destruct h; simpl; by do 2 eexists).
  destruct Hw as (atyp & tl & Hw).
  assert (Eh : hd = l ++ atyp :: tl ++ pad ++ f ++ extra).
  { rewrite Hh, Eb, Hw. by rewrite <- !app_assoc. }
  rewrite Eh. unfold l. rewrite parse_plain_header_split by (done || apply length_be_bytes). fold l. rewrite <- Eh.
  rewrite be_val_bytes by exact Hp.
  rewrite !decide_False by (intros []; done).
  assert (Eph : parse_host hd = Done (host_text h, (40 + length (host_wire 1 2 3 h))%nat)).
  { rewrite Hh, Eb, <- !app_assoc. by apply parse_host_wire. }
  rewrite Eph. cbn [mbind outcome_bind bind_outcome]. rewrite <- Lpad, Nat2Z.id.
  assert (Lb : length body = (40 + length (host_wire 1 2 3 h) + length pad)%nat)
    by (rewrite Eb, !length_app; lia).
  rewrite <- Lb. rewrite decide_False by (rewrite Hh, !length_app; lia).
  rewrite Hh at 1. rewrite slice_app by lia. simpl. rewrite Hh.
  change (body ++ f ++ extra) with ([] ++ body ++ f ++ extra).
  rewrite slice_app by (simpl; lia). simpl. rewrite decide_False.
  - done.
  - unfold f. rewrite be_val_bytes by apply fnv1a32_bound. by intros [].
Qed.

(** C26: the plain VMess header, exactly.  A header parses if and only if it is
    version 1, a TCP command, a port, an IPv4, domain (UTF-8) or IPv6 address,
    as much padding as the high nibble of byte 35 says, and the FNV-1a
    checksum of all of it; the request is then read off field by field, and
    whatever follows the checksum is ignored. *)
Theorem parse_plain_header_exact hd req :
  bytes_ok hd ->
  parse_plain_header hd = Done req <->
  exists iv key token opt b35 reserved port host pad extra,
    let body := plain_body iv key token opt b35 reserved port host pad in
    hd = body ++ be_bytes 4 (fnv1a32 body) ++ extra /\
    length iv = 16%nat /\ length key = 16%nat /\ port_ok port /\ host_ok host /\
    Z.of_nat (length pad) = Z.shiftr b35 4 /\ req = plain_request iv key token opt b35 port host.
Proof.
  intros Hok. split; [by apply parse_plain_header_inv|].
  intros (iv & key & t & o & b35 & res & port & h & pad & extra & -> & L1 & L2 & Hp & Hho & Lpad & ->).
  by apply parse_plain_header_wire.
Qed.

Lemma slice_panic {A} (l : list A) i j : (i <= j)%nat -> slice l i j = Panic <-> (length l < j)%nat.
Proof. intros. unfold slice. case_decide; split; try done; lia. Qed.

(** The address is cut short by the end of the header. *)
Definition address_cut (atyp : Z) (tl : list Z) : Prop :=
  (atyp = 1 /\ (length tl < 4)%nat) \/
  (atyp = 2 /\ match tl with [] => True | len :: d => Z.of_nat (length d) < len end) \/
  (atyp = 3 /\ (length tl < 16)%nat).

Lemma parse_host_panic l atyp tl :
  length l = 40%nat -> bytes_ok tl -> parse_host (l ++ atyp :: tl) = Panic <-> address_cut atyp tl.
Proof.
  intros Hl Hok. unfold parse_host, address_cut. rewrite (index_app l _ _ 40) by done. simpl.
  assert (Hlen : length (l ++ atyp :: tl) = (41 + length tl)%nat) by (rewrite length_app; simpl; lia).
  assert (Hd : forall (m : outcome (list Z)) (f : list Z -> outcome (list Z * nat)),
    (forall a, f a <> Panic) -> (m ≫= f) = Panic <-> m = Panic).
  { intros m f Hf. destruct m; simpl; split; try done. intros; by destruct (Hf a). }
  case_decide; [|case_decide; [|case_decide; [|split; [done|naive_solver]]]]; subst.
  - rewrite Hd, slice_panic by (done || lia). rewrite Hlen.
    split; [left; lia|intros [?|[[? ?]|[? ?]]]; done || lia].
  - destruct tl as [|len tl].
    { unfold index. rewrite lookup_ge_None_2 by (rewrite Hlen; simpl; lia). simpl. intuition. }
    rewrite (app_mid l), (index_app (l ++ [2])) by (rewrite length_app; simpl; lia). simpl.
    apply Forall_cons in Hok as [Hb _]. unfold byte_ok in Hb. rewrite Hd.
    + rewrite slice_panic, !length_app by lia. rewrite length_app in Hlen. simpl in *.
      split; [right; left; lia|intros [?|[[? ?]|[? ?]]]; done || lia].
    + intros a. unfold from_utf8. by case_match.
  - rewrite Hd, slice_panic by (done || lia). rewrite Hlen.
    split; [right; right; lia|intros [?|[[? ?]|[? ?]]]; done || lia].
Qed.

(** what makes the header parser panic.  An authenticated header of at least
    41 bytes, version 1 and a TCP command, whose address is cut short by the
    end of the header: there is no length check before the address is read.
    Every other header gets a request or an error. *)
Theorem parse_plain_header_panics hd :
  bytes_ok hd ->
  parse_plain_header hd = Panic <->
  hd !! 0%nat = Some 1 /\ hd !! 37%nat = Some 1 /\
  exists l atyp tl, length l = 40%nat /\ hd = l ++ atyp :: tl /\ address_cut atyp tl.
Proof.
  intros Hok. destruct (decide (41 <= length hd)%nat) as [Hl|Hl].
  2:{ unfold parse_plain_header. rewrite decide_True by lia. split; [done|].
      intros (_ & _ & l & atyp & tl & L & -> & _). rewrite length_app in Hl. simpl in Hl. lia. }
  destruct (vmess_header_split hd Hl) as (v & iv & key & t & o & b35 & res & cmd & port & atyp & tl & -> & L1 & L2 & L3).
  rewrite parse_plain_header_split by done.
  set (l := [v] ++ iv ++ key ++ [t; o; b35; res; cmd] ++ port) in *.
  assert (Ll : length l = 40%nat) by (unfold l; rewrite !length_app; simpl; lia).
  assert (E0 : (l ++ atyp :: tl) !! 0%nat = Some v) by done.
  assert (E37 : (l ++ atyp :: tl) !! 37%nat = Some cmd).
  { unfold l. replace (_ ++ atyp :: tl) with (([v] ++ iv ++ key ++ [t; o; b35; res]) ++ cmd :: port ++ atyp :: tl)
      by by rewrite <- !app_assoc.
    apply list_lookup_middle. rewrite !length_app. simpl. lia. }
  rewrite E0, E37. clearbody l. apply Forall_app in Hok as [_ Hok]. apply Forall_cons in Hok as [_ Hok].
  case_decide; [split; [done|intros ([= ->] & _); done]|].
  case_decide; [split; [done|intros (_ & [= ->] & _); done]|]. subst.
  trans (parse_host (l ++ atyp :: tl) = Panic).
  - destruct (parse_host _) as [[ht idx]|e|]; cbn [mbind outcome_bind bind_outcome]; [|done..].
    split; [|done]. case_decide as Hlen; [done|]. intros Hp. exfalso. revert Hp.
    rewrite !slice_ok by lia. cbn [mbind outcome_bind bind_outcome]. by case_decide.
  - rewrite parse_host_panic by done. split.
    + intros Hc. split_and!; [done..|]. by exists l, atyp, tl.
    + intros (_ & _ & l' & atyp' & tl' & L' & E & Hc). apply app_inj_1 in E as [-> [= -> ->]]; [done|lia].
Qed.

(** ** The authentication of the header *)

Lemma i64_small z : - 2 ^ 63 <= z < 2 ^ 63 -> i64 z = z.
Proof. intros. unfold i64. rewrite Z.mod_small; lia. Qed.

(** The timestamp in an authentication block. *)
Definition auth_ts (plain : list Z) : Z := i64 (be_val (take 8 plain)).

(** the authentication check.  The decrypted block passes exactly if its last
    four bytes are the CRC of the first twelve and its timestamp is within two
    minutes of the clock, or is the clock minus 2^63: there the difference is
    the smallest [i64], whose absolute value wraps to itself and is not above
    the limit.  The check never panics. *)
Theorem validate_auth_id_exact now auth_id cmd_key :
  0 <= now < 2 ^ 62 ->
  let plain := aes128_decrypt_block (kdf16 cmd_key [KDF_AUTH_ID]) auth_id in
  validate_auth_id now auth_id cmd_key <> Panic /\
  (validate_auth_id now auth_id cmd_key = Done tt <->
   crc32 (take 12 plain) = be_val (drop 12 plain) /\
   (Z.abs (auth_ts plain - now) <= 120 \/ auth_ts plain = now - 2 ^ 63)).
Proof.
  intros Hnow plain. unfold validate_auth_id. fold plain.
  assert (Lp : length plain = 16%nat) by apply block_length.
  rewrite !slice_ok by lia. cbn [mbind outcome_bind bind_outcome].
  rewrite drop_0, (take_ge (drop 12 plain)) by (rewrite length_drop; lia). change (take (12 - 0) plain) with (take 12 plain).
  change (take (8 - 0) plain) with (take 8 plain). fold (auth_ts plain).
  assert (Hb : - 2 ^ 63 <= auth_ts plain < 2 ^ 63).
  { unfold auth_ts, i64. pose proof (Z.mod_pos_bound (be_val (take 8 plain) + 2 ^ 63) (2 ^ 64)). lia. }
  case_decide as Hc; [split; [done|]; split; [done|]; tauto|].
  assert (Habs : i64_abs (i64 (auth_ts plain - now)) > 120 <->
    ~ (Z.abs (auth_ts plain - now) <= 120 \/ auth_ts plain = now - 2 ^ 63)).
  { unfold i64_abs. destruct (decide (- 2 ^ 63 <= auth_ts plain - now)) as [Hle|Hlt].
    - rewrite (i64_small (auth_ts plain - now)) by lia.
      destruct (decide (auth_ts plain - now = - 2 ^ 63)) as [E|Hne].
      + rewrite E. change (i64 (Z.abs (- 2 ^ 63))) with (- 2 ^ 63). lia.
      + rewrite i64_small by lia. lia.
    - assert (E : i64 (auth_ts plain - now) = auth_ts plain - now + 2 ^ 64).
      { unfold i64. symmetry. replace (auth_ts plain - now + 2 ^ 63) with
          (auth_ts plain - now + 2 ^ 63 + 2 ^ 64 + (-1) * 2 ^ 64) by lia.
        rewrite Z.mod_add by lia. rewrite Z.mod_small; lia. }
      rewrite E. rewrite i64_small by lia. lia. }
  case_decide as Hd; (split; [done|]); split; try done.
  - intros [_ ?]. by apply Habs in Hd.
  - intros _. split; [done|]. destruct (decide (Z.abs (auth_ts plain - now) <= 120)); [by left|].
    destruct (decide (auth_ts plain = now - 2 ^ 63)); [by right|]. destruct Hd. apply Habs. tauto.
Qed.

(** A header as a client seals it. *)
Definition request_wire (cmd_key auth_id nonce header w : list Z) : Prop :=
  exists ct1 ct2,
    length auth_id = 16%nat /\ length nonce = 8%nat /\ (41 <= length header <= Z.to_nat 2048)%nat /\
    aead_seal (be_bytes 2 (Z.of_nat (length header))) (kdf16 cmd_key [KDF_HDR_LEN_KEY; auth_id; nonce])
      (kdf12 cmd_key [KDF_HDR_LEN_IV; auth_id; nonce]) auth_id = Done ct1 /\
    aead_seal header (kdf16 cmd_key [KDF_HDR_KEY; auth_id; nonce])
      (kdf12 cmd_key [KDF_HDR_IV; auth_id; nonce]) auth_id = Done ct2 /\
    w = auth_id ++ ct1 ++ nonce ++ ct2.

Section request.
Context {R : Type} `{SourceLaws R}.

Lemma vmess_reads_request now cmd_key auth_id nonce header w :
  request_wire cmd_key auth_id nonce header w -> validate_auth_id now auth_id cmd_key = Done tt ->
  reads (S := R) (read_request_header now cmd_key) w header.
Proof.
  intros (ct1 & ct2 & L1 & L2 & Lh & E1 & E2 & ->) Hv. unfold read_request_header.
  eapply reads_bind; [by apply reads_exact|].
  eapply (reads_bind _ _ []); [by apply reads_lift|].
  pose proof (sealed_length _ _ _ _ _ _ E1) as Lc1. rewrite length_be_bytes in Lc1.
  eapply reads_bind; [by apply reads_exact|]. eapply reads_bind; [by apply reads_exact|].
  apply open_sealed in E1. eapply (reads_bind _ _ []); [by apply reads_lift|].
  eapply (reads_bind _ _ []); [by apply reads_lift|]. eapply (reads_bind _ _ []); [by apply reads_lift|].
  change (be_val [_; _]) with (be_val (be_bytes 2 (Z.of_nat (length header)))). rewrite be_val_bytes by lia.
  rewrite decide_False by lia. rewrite Nat2Z.id.
  pose proof (sealed_length _ _ _ _ _ _ E2) as Lc2.
  eapply reads_bind_r; [by apply reads_exact|]. by apply reads_lift, open_sealed.
Qed.

Lemma vmess_sound_request now cmd_key :
  sound (S := R) (read_request_header now cmd_key) (fun bs header => exists auth_id nonce,
    request_wire cmd_key auth_id nonce header bs /\ validate_auth_id now auth_id cmd_key = Done tt).
Proof.
  unfold read_request_header. eapply sound_bind; [apply sound_exact|]. intros ? auth_id _ [-> L1].
  eapply sound_bind with (P := fun bs _ => bs = [] /\ validate_auth_id now auth_id cmd_key = Done tt).
  { apply sound_lift. intros [] E. by split. }
  intros ? [] _ [-> Hv]. eapply sound_bind; [apply sound_exact|]. intros ? enc_len Hok [-> Le].
  eapply sound_bind; [apply sound_exact|]. intros ? nonce _ [-> Ln].
  eapply sound_bind with (P := fun bs pt => bs = [] /\ exists len, 0 <= len < 65536 /\ pt = be_bytes 2 len /\
      aead_seal pt (kdf16 cmd_key [KDF_HDR_LEN_KEY; auth_id; nonce]) (kdf12 cmd_key [KDF_HDR_LEN_IV; auth_id; nonce]) auth_id
        = Done enc_len).
  { apply sound_lift. intros pt E. split; [done|]. pose proof (open_bytes_ok _ _ _ _ _ _ Hok E) as Hpt.
    apply sealed_open in E as [E Hlen]. assert (Lpt : length pt = 2%nat) by lia.
    exists (be_val pt). pose proof (be_val_bound pt Hpt) as Hb. rewrite Lpt in Hb. by rewrite be_bytes_val. }
  intros ? pt _ [-> (len & Hlen & -> & E1)].
  eapply sound_bind with (P := fun bs x => bs = [] /\ x = len / 256 mod 256);
    [apply sound_lift; by intros ? [= <-]|]. intros ? ? _ [-> ->].
  eapply sound_bind with (P := fun bs x => bs = [] /\ x = len mod 256);
    [apply sound_lift; by intros ? [= <-]|]. intros ? ? _ [-> ->].
  change (be_val [_; _]) with (be_val (be_bytes 2 len)). rewrite be_val_bytes by done.
  case_decide as Hd; [apply sound_fail|].
  eapply sound_bind; [apply sound_exact|]. intros ? ct2 _ [-> Lc]. apply sound_lift. intros header E2.
  apply sealed_open in E2 as [E2 Lh]. exists auth_id, nonce. split; [|done].
  exists enc_len, ct2. simpl. rewrite app_nil_r. split_and!; [done|done|lia|lia| |done|done].
  replace (Z.of_nat (length header)) with len by lia. done.
Qed.

Lemma vmess_quiet_request now cmd_key : 0 <= now < 2 ^ 62 -> quiet (S := R) (read_request_header now cmd_key).
Proof.
  intros Hnow. unfold read_request_header. eapply quiet_bind; [apply quiet_exact|]. intros ? auth_id ? _.
  eapply quiet_bind; [apply quiet_lift|].
  { unfold validate_auth_id. rewrite !slice_ok by (rewrite block_length; lia).
    cbn [mbind outcome_bind bind_outcome]. by repeat case_decide. }
  intros ? ? ? _. eapply quiet_bind; [apply quiet_exact|]. intros ? enc_len ? E1. apply exact_length in E1.
  eapply quiet_bind; [apply quiet_exact|]. intros ? nonce ? _.
  eapply quiet_bind; [apply quiet_lift, open_no_panic|]. intros ? pt ? [= E _]. apply sealed_open in E as [_ Hl].
  destruct pt as [|x0 [|x1 pt]]; simpl in Hl; [lia..|].
  eapply quiet_bind; [by apply quiet_lift|]. intros. eapply quiet_bind; [by apply quiet_lift|]. intros.
  case_decide; [apply quiet_fail|]. eapply quiet_bind; [apply quiet_exact|]. intros.
  apply quiet_lift, open_no_panic.
Qed.
End request.

(** ** The stream handler *)

(** What happens to the socket: only writes are recorded. *)
Definition only_writes (s s' : conn) : Prop :=
  exists l, c_trace s' = c_trace s ++ l /\ connects l = [].

Lemma only_writes_refl s : only_writes s s.
Proof. exists []. by rewrite app_nil_r. Qed.
Lemma only_writes_trans s1 s2 s3 : only_writes s1 s2 -> only_writes s2 s3 -> only_writes s1 s3.
Proof.
  intros (l1 & E1 & C1) (l2 & E2 & C2). exists (l1 ++ l2). rewrite E2, E1, <- app_assoc. split; [done|].
  by rewrite connects_app, C1, C2.
Qed.

(** [m] only writes, and does not panic. *)
Definition writer {A} (m : M conn A) : Prop :=
  forall s, (m s).1 <> Panic /\ only_writes s (m s).2.

Lemma writer_bind {A B} (m : M conn A) (f : A -> M conn B) :
  writer m -> (forall a, writer (f a)) -> writer (m ≫= f).
Proof.
  intros Hm Hf s. destruct (Hm s) as [Hp Hw]. unfold mbind, M_bind.
  destruct (m s) as [[a|e|] s1]; simpl in *; try done.
  destruct (Hf a s1) as [Hp2 Hw2]. split; [done|]. by eapply only_writes_trans.
Qed.
Lemma writer_lift {A} (o : outcome A) : o <> Panic -> writer (lift o).
Proof. intros Ho s. split; [done|]. apply only_writes_refl. Qed.
Lemma writer_ret {A} (a : A) : writer (mret a).
Proof. intros s. split; [done|]. apply only_writes_refl. Qed.
Lemma writer_fail {A} e : writer (A := A) (fail e).
Proof. intros s. split; [done|]. apply only_writes_refl. Qed.
Lemma writer_write E bs : writer (write_all E bs).
Proof.
  intros s. unfold write_all. case_match; simpl; split; try done; [|apply only_writes_refl].
  by exists [EvWrite bs].
Qed.

Lemma writer_response E req : writer (encode_response_header (write_all E) req).
Proof.
  unfold encode_response_header.
  repeat (apply writer_bind; [apply writer_lift, seal_no_panic || apply writer_write|intros]).
  apply writer_write.
Qed.

Lemma size_field_no_panic key iv opt b total : size_field key iv opt b total <> Panic.
Proof.
  unfold size_field. case_match; [|by repeat case_match].
  pose proof (seal_no_panic Aes128Gcm (auth_len_key key) (chunk_nonce iv (b_count b)) [] (be_bytes 2 total)).
  by destruct (seal_with _ _ _ _ _).
Qed.

Lemma seal_chunk_no_panic key iv sec count pt : seal_chunk key iv sec count pt <> Panic.
Proof. unfold seal_chunk. repeat case_decide; try done; apply seal_no_panic. Qed.

Lemma writer_chunk E key iv opt sec rand plain b : writer (write_chunk (write_all E) key iv opt sec rand plain b).
Proof.
  unfold write_chunk. destruct (next_pad _ _) as [p sh].
  apply writer_bind; [apply writer_lift, seal_chunk_no_panic|intros ct].
  apply writer_bind; [apply writer_lift, size_field_no_panic|intros [field b1]].
  repeat (apply writer_bind; [apply writer_write|intros]).
  apply writer_bind; [case_decide; [apply writer_write|apply writer_ret]|intros; apply writer_ret].
Qed.

(** A round of the downlink goes on with one read less. *)
Lemma writer_down_round E key iv opt sec rand d reads b s :
  exists x, (relay_down_round (write_all E) key iv opt sec rand (d :: reads, b) s).1 = x /\
    only_writes s (relay_down_round (write_all E) key iv opt sec rand (d :: reads, b) s).2 /\
    match x with Done (inl (reads', _)) => reads' = reads | Panic => False | _ => True end.
Proof.
  eexists. split; [reflexivity|]. unfold relay_down_round, copy_down_round, chunk_down_round.
  case_decide; [destruct d as [|z d]|]; [split; [apply only_writes_refl|done]|..]; unfold mbind, M_bind.
  - destruct (writer_write E (z :: d) s) as [N Wr]. by destruct (write_all E (z :: d) s) as [[?|?|] ?].
  - destruct (writer_chunk E key iv opt sec rand d b s) as [N Wr].
    destruct (write_chunk _ _ _ _ _ _ _ _ s) as [[?|?|] ?]; [|done..]. simpl in *. by case_decide.
Qed.

Lemma writer_down E key iv opt sec rand reads : writer (relay_down (write_all E) key iv opt sec rand reads).
Proof.
  unfold relay_down, down_fuel. generalize (body_start iv opt) as b.
  induction reads as [|d reads IH]; intros b s; cbn [length].
  - cbn [rounds]. unfold relay_down_round. case_decide; (split; [done|apply only_writes_refl]).
  - destruct (writer_down_round E key iv opt sec rand d reads b s) as (x & Ex & Wr & Hx).
    destruct (relay_down_round _ _ _ _ _ _ _ s) as [o s1] eqn:Er. simpl in Ex, Wr. subst o.
    remember (S (length reads)) as n. cbn [rounds]. unfold mbind, M_bind. rewrite Er.
    destruct x as [[[reads' b']|u]|e|]; [|by split..|done]. subst reads'.
    destruct (IH b' s1) as [N W2]. split; [done|]. by eapply only_writes_trans.
Qed.

Lemma relay_up_run {R} `{SourceLaws R} key iv opt sec out_ok cap (s : Up R) o s' :
  relay_up key iv opt sec out_ok cap s = (o, s') -> bytes_ok (pending (up_in s)) -> o <> Panic.
Proof.
  intros E Hok. revert E. destruct (decide (sec = SEC_NONE /\ opt_set opt OPT_CHUNK_STREAM = false)) as [Hc|Hc].
  - rewrite relay_up_copies by done. unfold copy_out.
    destruct (read_exact _ _) as [? ?]. intros [= <- _]. by case_decide.
  - unfold relay_up. intros E. erewrite rounds_ext in E.
    + apply up_inv in E as (N & _); [done|done|unfold up_fuel; lia].
    + intros. unfold relay_up_round. by rewrite decide_False.
Qed.

(** The two relay tasks: every schedule does what the tasks do one by one. *)
Lemma vmess_relay_join E wd req s o1 u o2 s2 :
  relay_up (request_body_key req) (request_body_iv req) (option req) (security req)
    (w_out_ok wd) (w_out_cap wd) (MkUp (c_in s) []) = (o1, u) -> o1 <> Panic ->
  relay_down (write_all E) (response_body_key req) (response_body_iv req) (option req) (security req)
    (w_rand wd) (w_reads wd) s = (o2, s2) ->
  relay E wd req s = emit (EvRelay (target req) (up_out u) []) (Conn (up_in u) (c_trace s2)).
Proof.
  intros Eu Nu Ed.
  pose proof (proj1 (writer_down E (response_body_key req) (response_body_iv req) (option req) (security req)
    (w_rand wd) (w_reads wd) s)) as Nd. rewrite Ed in Nd. simpl in Nd.
  unfold relay_up in Eu. unfold relay_down in Ed.
  destruct (rounds_attempt_done _ _ _ _ _ _ Eu Nu) as [ru Ru].
  destruct (rounds_attempt_done _ _ _ _ _ _ Ed Nd) as [rd Rd].
  unfold relay. rewrite (bind_step get_st _ s s s) by done. cbv zeta.
  by rewrite (tokio_join_rounds _ _ _ _ _ _ (w_sched wd) _ _ _ _ _ _ Ru Rd).
Qed.

Lemma relay_actions E wd req s o s' :
  bytes_ok (c_in s) -> relay E wd req s = (o, s') -> o <> Panic /\ only_writes s s'.
Proof.
  intros Hok. destruct (relay_up (request_body_key req) (request_body_iv req) (option req) (security req)
    (w_out_ok wd) (w_out_cap wd) (MkUp (c_in s) [])) as [o1 u] eqn:Eu.
  destruct (relay_down (write_all E) (response_body_key req) (response_body_iv req) (option req) (security req)
    (w_rand wd) (w_reads wd) s) as [o2 s2] eqn:Ed.
  rewrite (vmess_relay_join _ _ _ _ _ _ _ _ Eu (relay_up_run _ _ _ _ _ _ _ _ _ Eu Hok) Ed).
  pose proof (proj2 (writer_down E (response_body_key req) (response_body_iv req) (option req) (security req)
    (w_rand wd) (w_reads wd) s)) as (l & T & C). rewrite Ed in T. simpl in T.
  intros [= <- <-]. split; [done|]. exists (l ++ [EvRelay (target req) (up_out u) []]). simpl.
  rewrite T, <- app_assoc, connects_app, C. done.
Qed.

(** what a VMess client can make the server do.  Nothing is written and
    nothing is connected before a complete request header has been read that
    was sealed under the user's command key, with an authentication block in
    the time window.  Then either the plain header is refused (with an error,
    or with the panic of a truncated address), or exactly one connection is
    made, to the target of that header, and the handler does not panic. *)
Theorem vmess_process_actions E cmd_key wd s o s' :
  bytes_ok (c_in s) -> 0 <= w_now wd < 2 ^ 62 -> process E cmd_key wd s = (o, s') ->
  (c_trace s' = c_trace s /\ o <> Panic) \/
  exists auth_id nonce header w rest,
    c_in s = w ++ rest /\ request_wire cmd_key auth_id nonce header w /\
    validate_auth_id (w_now wd) auth_id cmd_key = Done tt /\
    ((c_trace s' = c_trace s /\ o = Panic /\ parse_plain_header header = Panic) \/
     exists req l, parse_plain_header header = Done req /\ o <> Panic /\
       c_trace s' = c_trace s ++ EvConnect (target req) :: l /\ connects l = []).
Proof.
  intros Hok Hnow. unfold process, decode_request_header, mbind, M_bind.
  destruct (read_request_header _ _ s) as [oh s1] eqn:Eh.
  destruct (run_conn _ _ s oh s1 (vmess_sound_request (w_now wd) cmd_key) (vmess_quiet_request (w_now wd) cmd_key Hnow) Hok Eh)
    as (Nh & Th & Hh).
  destruct oh as [header|e|]; [|intros [= <- <-]; by left|done].
  destruct (Hh header eq_refl) as (w & P & auth_id & nonce & Hw & Hv). clear Hh. unfold lift.
  destruct (parse_plain_header header) as [req|e|] eqn:Ep.
  2:{ intros [= <- <-]. by left. }
  2:{ intros [= <- <-]. right. exists auth_id, nonce, header, w, (c_in s1). split_and!; [done..|]. by left. }
  intros Hrun. right. exists auth_id, nonce, header, w, (c_in s1). split_and!; [done..|]. right. exists req.
  rewrite P in Hok. apply Forall_app in Hok as [_ Hok].
  unfold tcp_connect in Hrun. simpl in Hrun. set (s2 := Conn _ _) in Hrun.
  assert (Hw2 : o <> Panic /\ only_writes s2 s' -> exists l, parse_plain_header header = Done req /\ o <> Panic /\
    c_trace s' = c_trace s ++ EvConnect (target req) :: l /\ connects l = []).
  { intros [No (l & T & C)]. exists l. split_and!; [done..| |done]. rewrite T. simpl. by rewrite Th, <- app_assoc. }
  apply Hw2. destruct (env_connect E (c_trace s1) (target req));
    [|injection Hrun as <- <-; split; [done|apply only_writes_refl]..].
  destruct (writer_response E req s2) as [Nr Wr].
  destruct (encode_response_header _ _ s2) as [orr s3] eqn:Er. simpl in Nr, Wr.
  destruct orr as [[]|e|]; [|injection Hrun as <- <-; done|done].
  assert (c_in s3 = c_in s2) as Hin.
  { revert Er. unfold encode_response_header, write_all, emit, mbind, M_bind, lift.
    destruct (aead_seal _ _ _ _); [|done..]. destruct (env_write_ok _ _); [|done]. simpl.
    destruct (aead_seal _ _ _ _); [|done..]. destruct (env_write_ok _ _); [|done]. by intros [= <-]. }
  apply relay_actions in Hrun as [No Wo]; [|by rewrite Hin]. split; [done|]. by eapply only_writes_trans.
Qed.

(** The sealed response header. *)
Definition response_wire (req : VmessRequest) (w : list Z) : Prop :=
  let rk := response_body_key req in
  let ri := response_body_iv req in
  exists ct1 ct2,
    aead_seal (be_bytes 2 4) (kdf16 rk [KDF_RESP_LEN_KEY]) (kdf12 ri [KDF_RESP_LEN_IV]) [] = Done ct1 /\
    aead_seal (response_payload req) (kdf16 rk [KDF_RESP_PAY_KEY]) (kdf12 ri [KDF_RESP_PAY_IV]) [] = Done ct2 /\
    w = ct1 ++ ct2.

Lemma response_ok E req (s : conn) :
  (forall tr, env_write_ok E tr = true) ->
  exists s' l w, encode_response_header (write_all E) req s = (Done tt, s') /\
    c_in s' = c_in s /\ c_trace s' = c_trace s ++ l /\ connects l = [] /\ written l = w /\ response_wire req w.
Proof.
  intros Hw. unfold encode_response_header, response_wire, aead_seal.
  destruct (seal_with_some Aes128Gcm (kdf16 (response_body_key req) [KDF_RESP_LEN_KEY])
    (kdf12 (response_body_iv req) [KDF_RESP_LEN_IV]) [] (be_bytes 2 4)) as (ct1 & E1 & _);
    [apply kdf16_length|rewrite length_be_bytes; lia|].
  destruct (seal_with_some Aes128Gcm (kdf16 (response_body_key req) [KDF_RESP_PAY_KEY])
    (kdf12 (response_body_iv req) [KDF_RESP_PAY_IV]) [] (response_payload req)) as (ct2 & E2 & _);
    [apply kdf16_length|simpl; lia|].
  change (Z.of_nat (length (response_payload req))) with 4. rewrite E1, E2.
  rewrite (bind_step (lift _) _ _ _ _ eq_refl).
  assert (Ew : forall d s, write_all E d s = (Done tt, Conn (c_in s) (c_trace s ++ [EvWrite d])))
    by (intros d t; unfold write_all; by rewrite Hw).
  rewrite (bind_step _ _ _ _ _ (Ew ct1 s)). rewrite (bind_step (lift _) _ _ _ _ eq_refl).
  eexists _, [EvWrite ct1; EvWrite ct2], _. split; [apply Ew|]. simpl. rewrite <- app_assoc.
  split_and!; [done..|]. exists ct1, ct2. by rewrite app_nil_r.
Qed.

Lemma bind_outcome_Done {A B} (m : outcome A) (f : A -> outcome B) b :
  (m ≫= f) = Done b -> exists a, m = Done a /\ f a = Done b.
Proof. destruct m; [|done..]. simpl. eauto. Qed.

Lemma parse_response_key h req : parse_plain_header h = Done req -> length (response_body_key req) = 16%nat.
Proof.
  unfold parse_plain_header. case_decide; [done|]. intros Hp.
  repeat match type of Hp with
  | (_ ≫= _) = Done _ => apply bind_outcome_Done in Hp as (? & _ & Hp)
  | (let '(_, _) := ?x in _) = _ => destruct x
  | _ => case_decide; [done|]
  end. injection Hp as <-. simpl. unfold sha256_16. rewrite length_take, sha256_length. done.
Qed.

(** C10: a VMess session, from the header to the end.  On a connection whose writes
    succeed, a client that seals a valid request header with chunked body,
    then data chunks and an end chunk, gets: one connection to the header's
    target, to which exactly the data is forwarded, and back the sealed
    response header (its token echoed) followed by chunks under the response
    key and IV that carry exactly what the target sent, and an end chunk.  The
    theorem covers every security and every combination of masking, padding
    and authenticated lengths, each direction in its own layout.  The two relay tasks
    may take turns in any order. *)
Theorem vmess_process_relays E cmd_key wd s auth_id nonce header req wh datas wu b1 we b2 rest ddatas more :
  (forall tr, env_write_ok E tr = true) -> (forall x, w_out_ok wd x = true) ->
  (forall c n, length (w_rand wd c n) = n) ->
  request_wire cmd_key auth_id nonce header wh -> validate_auth_id (w_now wd) auth_id cmd_key = Done tt ->
  parse_plain_header header = Done req ->
  env_connect E (c_trace s) (target req) = ConnOk ->
  sec_ok (security req) -> opt_set (option req) OPT_CHUNK_STREAM = true ->
  let k := request_body_key req in let iv := request_body_iv req in
  let opt := option req in let sec := security req in
  body_wire k iv opt sec false (body_start iv opt) datas wu b1 -> chunk_wire k iv opt sec false b1 [] we b2 ->
  Forall (fun pt => pt <> []) datas ->
  w_reads wd = ddatas ++ [] :: more -> Forall (fun d => d <> [] /\ (length d <= CHUNK_SIZE)%nat) ddatas ->
  c_in s = wh ++ wu ++ we ++ rest ->
  let dk := response_body_key req in let div := response_body_iv req in
  exists s' l wr w1 b3 w2 b4, process E cmd_key wd s = (Done tt, s') /\
    c_trace s' = c_trace s ++ EvConnect (target req) :: l ++ [EvRelay (target req) (concat datas) []] /\
    connects l = [] /\ written l = wr ++ w1 ++ w2 /\ response_wire req wr /\
    body_wire dk div opt sec true (body_start div opt) ddatas w1 b3 /\ chunk_wire dk div opt sec true b3 [] w2 b4.
Proof.
  intros Hw Ho Hr Hreq Hv Hp Hc Hsec Hopt k iv opt sec Hb He Hne Hrd Hdd Hin dk div.
  subst k iv opt sec dk div. unfold process. destruct s as [inp tr]. simpl in Hin, Hc. subst inp.
  assert (Ed0 : decode_request_header (w_now wd) cmd_key (Conn (wh ++ wu ++ we ++ rest) tr)
    = (Done req, Conn (wu ++ we ++ rest) tr)).
  { unfold decode_request_header.
    rewrite (bind_step _ _ _ _ _ (reads_conn _ _ _ (wu ++ we ++ rest) tr
      (vmess_reads_request (w_now wd) cmd_key _ _ _ _ Hreq Hv))). unfold lift. by rewrite Hp. }
  rewrite (bind_step _ _ _ _ _ Ed0).
  set (s2 := Conn (wu ++ we ++ rest) (tr ++ [EvConnect (target req)])).
  rewrite (bind_step (tcp_connect E _) _ _ ConnOk s2) by (unfold tcp_connect; simpl; by rewrite Hc).
  destruct (response_ok E req s2 Hw) as (s3 & l3 & wr & E3 & I3 & T3 & C3 & W3 & Hwr).
  rewrite (bind_step _ _ _ _ _ E3).
  destruct (up_stream (request_body_key req) (request_body_iv req) (option req) (security req)
    (w_out_ok wd) (up_fuel (MkUp (c_in s3) [])) _ _ _ _ _ _ (MkUp (c_in s3) []) rest Hb He Hne Ho) as (i & _ & Ei).
  { simpl. by rewrite I3. }
  { unfold up_fuel. simpl. rewrite I3. simpl. apply body_wire_long in Hb. unfold id. rewrite !length_app. lia. }
  cbn [up_out app] in Ei. rewrite <- (relay_up_chunks _ _ _ _ _ (w_out_cap wd)) in Ei by done.
  destruct (down_ok (write_all E) sent_on (write_all_ok E Hw) (response_body_key req)
    (response_body_iv req) (option req) (security req) (w_rand wd) ddatas more (body_start (response_body_iv req) (option req)) s3 Hsec (parse_response_key _ _ Hp) Hdd Hr) as (sd & w1 & b3 & w2 & b4 & Ed & Sd & Hb3 & He4).
  pose proof (writer_down E (response_body_key req) (response_body_iv req) (option req) (security req)
    (w_rand wd) (w_reads wd) s3) as [_ (l4 & T4 & C4)].
  rewrite <- Hrd, <- (relay_down_chunks (write_all E)) in Ed by done. rewrite Ed in T4. simpl in T4.
  rewrite (vmess_relay_join _ _ _ _ _ _ _ _ Ei ltac:(done) Ed).
  eexists _, (l3 ++ l4), wr, w1, b3, w2, b4. split; [reflexivity|]. simpl.
  split_and!; [|by rewrite connects_app, C3, C4| |done|done|done].
  - rewrite T4, T3. simpl. by rewrite <- !app_assoc.
  - rewrite written_app, W3. f_equal. by apply (sent_diff _ _ _ _ T4).
Qed.

(** with authenticated lengths the program cannot read what it writes.  The
    downlink seals the payload with the counter and the length with its
    successor, the uplink opens the length with the counter: with a cipher
    that rejects a length sealed under another nonce, [relay_up] fails on the
    first length field of what [relay_down] wrote, and forwards nothing. *)
Theorem auth_len_not_readable {R} `{SourceLaws R} key iv opt sec rand datas more rest out_ok out_cap :
  sec_ok sec -> opt_set opt OPT_CHUNK_STREAM = true -> opt_set opt OPT_AUTH_LEN = true ->
  length key = 16%nat -> Forall (fun d => d <> [] /\ (length d <= CHUNK_SIZE)%nat) datas ->
  (forall c n, length (rand c n) = n) ->
  (forall pt ct, seal_with Aes128Gcm (auth_len_key key) (chunk_nonce iv 1) [] pt = Done ct ->
    exists e, open_with Aes128Gcm (auth_len_key key) (chunk_nonce iv 0) [] ct = Fail e) ->
  exists w, relay_down list_sink key iv opt sec rand (datas ++ [] :: more) [] = (Done tt, w) /\
    forall r : R, pending r = w ++ rest ->
    exists e r', relay_up key iv opt sec out_ok out_cap (MkUp r []) = (Fail e, MkUp r' []).
Proof.
  intros Hsec Hopt Hlen Hk Hd Hr Hauth. rewrite relay_down_chunks by done.
  destruct (down_ok list_sink id ltac:(by eexists) key iv opt sec rand datas more (body_start iv opt) []
    Hsec Hk Hd Hr) as (w & w1 & b1 & w2 & b2 & -> & Sw & Hb & He).
  unfold id in Sw. simpl in Sw. subst w. exists (w1 ++ w2). split; [done|]. intros r Hp.
  rewrite relay_up_chunks by done.
  assert (Hfirst : exists pt wf bf tl, chunk_wire key iv opt sec true (body_start iv opt) pt wf bf /\ w1 ++ w2 = wf ++ tl).
  { inversion Hb; subst; [exists [], w2, b2, []; by rewrite app_nil_r|].
    do 3 eexists. eexists. split; [done|]. by rewrite <- app_assoc. }
  destruct Hfirst as (pt & wf & bf & tl & (p & sh & ct & field & pad & Ep & -> & _ & _ & _ & Ef) & Ew).
  rewrite Ew, <- !app_assoc in Hp.
  unfold size_field in Ef. rewrite Hlen in Ef.
  apply bind_outcome_Done in Ef as (fd & Es & [= -> _]).
  change (b_count (next_count (Body sh (b_count (body_start iv opt))))) with 1 in Es.
  pose proof (sealed_length _ _ _ _ _ _ Es) as Lf. rewrite length_be_bytes in Lf.
  destruct (Hauth _ _ Es) as [e He'].
  destruct (reads_up _ _ _ (MkUp r []) _ (reads_exact 18 field Lf) Hp) as (i & Ei & _).
  exists e, i. apply rounds_fail. unfold chunk_up_round. rewrite Ep. unfold read_size. rewrite Hlen.
  erewrite (bind_fail _ _ _ e); [reflexivity|]. rewrite (bind_step _ _ _ _ _ Ei).
  apply bind_fail. change (b_count (Body sh (b_count (body_start iv opt)))) with 0. by rewrite He'.
Qed.
End theorems.

(** ** Witnesses: the theorems at concrete inputs, with example primitives *)

#[local] Instance toy_crypto : Crypto := {|
  hmac_sha256 := fun k m => be_bytes 32 (be_val m + be_val k);
  sha256 := fun m => be_bytes 32 (be_val m);
  md5 := fun m => be_bytes 16 (be_val m);
  crc32 := fun m => u32 (be_val m);
  aes128_decrypt_block := fun k b => be_bytes 16 (be_val b);
  shake128 := fun s i => (be_val s + 7 * Z.of_nat i) mod 256;
  vmess_aead := toy_aead cipher_key_len;
|}.

#[local] Instance toy_crypto_laws : CryptoLaws.
Proof.
  split.
  - intros. apply length_be_bytes.
  - intros. apply length_be_bytes.
  - intros. apply length_be_bytes.
  - intros. apply length_be_bytes.
  - intros. apply be_bytes_ok.
  - intros. unfold byte_ok. apply Z.mod_pos_bound. lia.
  - apply toy_aead_laws.
  - intros c k Hk. by apply bool_decide_eq_true_2.
Qed.

Definition toy_now : Z := 1000.
Definition toy_cmd_key : list Z := replicate 16 3.
Definition toy_iv : list Z := replicate 16 5.
Definition toy_key : list Z := replicate 16 6.
Definition toy_auth_id (ts : Z) : list Z :=
  let p12 := be_bytes 8 ts ++ [1; 2; 3; 4] in p12 ++ be_bytes 4 (crc32 p12).
(** Chunked, masked and padded; AES-128-GCM; two bytes of header padding. *)
Definition toy_body (opt : Z) : list Z :=
  plain_body toy_iv toy_key 77 opt 0x23 0 443 (HDomain (str "a.example")) [0; 0].
Definition toy_header (opt : Z) : list Z := toy_body opt ++ be_bytes 4 (fnv1a32 (toy_body opt)).
Definition toy_request (opt : Z) : VmessRequest :=
  plain_request toy_iv toy_key 77 opt 0x23 443 (HDomain (str "a.example")).
Definition toy_env : env :=
  Env (fun _ => true) (fun _ _ => ConnOk) (fun _ _ => 0%nat) (fun _ _ => []).
Definition toy_world : world :=
  World 1000 (fun _ => true) 0 [[9; 9]; []] (fun _ n => replicate n 0) [SideDown; SideUp; SideDown].

Lemma toy_wire opt :
  length (toy_header opt) = 57%nat ->
  exists w, request_wire toy_cmd_key (toy_auth_id 1000) (replicate 8 1) (toy_header opt) w.
Proof.
  intros Hl.
  destruct (seal_with_some Aes128Gcm (kdf16 toy_cmd_key [KDF_HDR_LEN_KEY; toy_auth_id 1000; replicate 8 1])
    (kdf12 toy_cmd_key [KDF_HDR_LEN_IV; toy_auth_id 1000; replicate 8 1]) (toy_auth_id 1000)
    (be_bytes 2 (Z.of_nat (length (toy_header opt))))) as (ct1 & E1 & _);
    [apply kdf16_length|rewrite length_be_bytes; lia|].
  destruct (seal_with_some Aes128Gcm (kdf16 toy_cmd_key [KDF_HDR_KEY; toy_auth_id 1000; replicate 8 1])
    (kdf12 toy_cmd_key [KDF_HDR_IV; toy_auth_id 1000; replicate 8 1]) (toy_auth_id 1000)
    (toy_header opt)) as (ct2 & E2 & _); [apply kdf16_length|lia|].
  exists (toy_auth_id 1000 ++ ct1 ++ replicate 8 1 ++ ct2), ct1, ct2. by split_and!; try lia.
Qed.

Lemma small_read (d : list Z) :
  d <> [] -> Z.of_nat (length d) <= 8192 -> d <> [] /\ (length d <= CHUNK_SIZE)%nat.
Proof. unfold CHUNK_SIZE. split; [done|lia]. Qed.

Lemma relay_up_authentic_witness :
  (exists o s' pts w b', relay_up toy_key toy_iv 13 SEC_AES128_GCM (fun _ => true) 0 (MkUp [1; 2; 3] []) = (o, s') /\ o <> Panic /\
     body_wire toy_key toy_iv 13 SEC_AES128_GCM false (body_start toy_iv 13) pts w b' /\ up_out s' = concat pts) /\
  exists o s', relay_up toy_key toy_iv 0 SEC_NONE (fun _ => true) 2 (MkUp [1; 2; 3] []) = (o, s') /\ up_out s' = [1; 2].
Proof.
  split.
  - destruct (relay_up_authentic toy_key toy_iv 13 SEC_AES128_GCM (fun _ => true) 0 (MkUp [1; 2; 3] []))
      as (o & s' & E & N & _ & Hc & _); [repeat constructor; unfold byte_ok; lia|].
    destruct Hc as (pts & w & rest & b' & Hw & _ & Ho & _); [intros [Hs _]; discriminate Hs|].
    exists o, s', pts, w, b'. split; [exact E|]. split; [exact N|]. split; [exact Hw|exact Ho].
  - destruct (relay_up_authentic toy_key toy_iv 0 SEC_NONE (fun _ => true) 2 (MkUp [1; 2; 3] []))
      as (o & s' & E & _ & _ & _ & Hp); [repeat constructor; unfold byte_ok; lia|].
    exists o, s'. split; [exact E|]. apply Hp. split; reflexivity.
Defined.

Lemma body_roundtrip_witness :
  exists w, relay_down list_sink toy_key toy_iv 13 SEC_AES128_GCM (fun _ n => replicate n 0) [[1]; [2; 3]; []] []
      = (Done tt, w) /\
    forall r : list Z, pending r = w ++ [8; 8] ->
    exists r', relay_up toy_key toy_iv 13 SEC_AES128_GCM (fun _ => true) 0 (MkUp r []) = (Done tt, MkUp r' [1; 2; 3]).
Proof.
  apply (body_roundtrip toy_key toy_iv 13 SEC_AES128_GCM (fun _ n => replicate n 0) [[1]; [2; 3]] [] [8; 8]
    (fun _ => true) 0).
  - unfold sec_ok. tauto.
  - reflexivity.
  - reflexivity.
  - reflexivity.
  - by repeat (constructor; [by apply small_read|]).
  - intros. apply length_replicate.
  - reflexivity.
Defined.

Lemma parse_plain_header_exact_witness : parse_plain_header (toy_header 13) = Done (toy_request 13).
Proof.
  apply (parse_plain_header_exact (toy_header 13) (toy_request 13)).
  - apply (bool_decide_eq_true (bytes_ok (toy_header 13))). vm_compute. reflexivity.
  - exists toy_iv, toy_key, 77, 13, 0x23, 0, 443, (HDomain (str "a.example")), [0; 0], [].
    split_and!; [reflexivity|reflexivity|reflexivity|unfold port_ok; lia| |reflexivity|reflexivity].
    split_and!; [vm_compute; lia| |reflexivity].
    apply (bool_decide_eq_true (bytes_ok (str "a.example"))). vm_compute. reflexivity.
Defined.

(** A header of 41 bytes with a domain address. *)
Lemma parse_plain_header_panics_witness :
  parse_plain_header (([1] ++ toy_iv ++ toy_key ++ [0; 1; 3; 0; 1] ++ [0; 80]) ++ [2]) = Panic.
Proof.
  apply parse_plain_header_panics.
  - apply (bool_decide_eq_true (bytes_ok _)). vm_compute. reflexivity.
  - split_and!; [reflexivity|reflexivity|].
    exists ([1] ++ toy_iv ++ toy_key ++ [0; 1; 3; 0; 1] ++ [0; 80]), 2, [].
    split_and!; [reflexivity|reflexivity|]. right. left. done.
Defined.

Lemma validate_auth_id_exact_witness :
  validate_auth_id 1000 (toy_auth_id 1120) toy_cmd_key = Done tt.
Proof.
  apply (validate_auth_id_exact 1000 (toy_auth_id 1120) toy_cmd_key); [lia|].
  split; [vm_compute; reflexivity|]. left. vm_compute. done.
Defined.

Definition toy_conn : conn := Conn (toy_auth_id 1000 ++ [1; 2; 3]) [].

Lemma vmess_process_actions_witness :
  (length (connects (c_trace (process toy_env toy_cmd_key toy_world toy_conn).2)) <= 1)%nat.
Proof.
  destruct (process toy_env toy_cmd_key toy_world toy_conn) as [o s'] eqn:E.
  destruct (vmess_process_actions toy_env toy_cmd_key toy_world toy_conn o s')
    as [[T _]|(a & n & h & w & r & _ & _ & _ & [(T & _)|(req & l & _ & _ & T & C)])].
  - apply (bool_decide_eq_true (bytes_ok _)). vm_compute. reflexivity.
  - simpl. lia.
  - exact E.
  - simpl in *. rewrite T. simpl. lia.
  - simpl in *. rewrite T. simpl. lia.
  - simpl in *. rewrite T. simpl. rewrite C. simpl. lia.
Defined.

Lemma vmess_process_relays_witness :
  exists wire s' l, process toy_env toy_cmd_key toy_world (Conn wire []) = (Done tt, s') /\
    c_trace s' = EvConnect (str "a.example:443") :: l ++ [EvRelay (str "a.example:443") [1; 2; 3] []].
Proof.
  destruct (toy_wire 13 ltac:(vm_compute; reflexivity)) as (wh & Hreq).
  destruct (down_ok list_sink id ltac:(by eexists) toy_key toy_iv 13 3 (fun _ n => replicate n 0) [[1; 2; 3]] []
    (body_start toy_iv 13) []) as (x & w1 & b1 & w2 & b2 & _ & _ & Hb & He);
    [unfold sec_ok; tauto|reflexivity|by repeat (constructor; [by apply small_read|])|intros; apply length_replicate|].
  destruct (vmess_process_relays toy_env toy_cmd_key toy_world (Conn (wh ++ w1 ++ w2 ++ []) []) (toy_auth_id 1000)
    (replicate 8 1) (toy_header 13) (toy_request 13) wh [[1; 2; 3]] w1 b1 w2 b2 [] [[9; 9]] [])
    as (s' & l & wr & w3 & b3 & w4 & b4 & E & T & _).
  - reflexivity.
  - reflexivity.
  - intros. apply length_replicate.
  - exact Hreq.
  - vm_compute. reflexivity.
  - vm_compute. reflexivity.
  - reflexivity.
  - vm_compute. tauto.
  - reflexivity.
  - apply body_wire_directions; [reflexivity|exact Hb].
  - apply chunk_wire_directions; [reflexivity|exact He].
  - by repeat constructor.
  - reflexivity.
  - by repeat (constructor; [by apply small_read|]).
  - reflexivity.
  - exists (wh ++ w1 ++ w2 ++ []), s', l. exact (conj E T).
Defined.

(** The parity of the sum of the bytes goes into the example tag. *)
Lemma odd_fold l acc :
  Z.odd (foldl (fun acc b => acc * 257 + b) acc l) = xorb (Z.odd acc) (foldr (fun b o => xorb (Z.odd b) o) false l).
Proof.
  revert acc. induction l as [|b l IH]; intros acc; simpl; [by rewrite xorb_false_r|].
  rewrite IH, Z.odd_add, Z.odd_mul. change (Z.odd 257) with true. rewrite andb_true_r.
  by rewrite xorb_assoc.
Qed.

Lemma toy_tag_parity k ad pt n1 n2 :
  foldr (fun b o => xorb (Z.odd b) o) false n1 <> foldr (fun b o => xorb (Z.odd b) o) false n2 ->
  toy_tag k n1 ad pt <> toy_tag k n2 ad pt.
Proof.
  intros Hne E. apply Hne. unfold toy_tag in E. apply (f_equal (fun l => Z.odd (be_val l))) in E.
  assert (Hodd : forall z, Z.odd (be_val (be_bytes 16 z)) = Z.odd z).
  { intros z. rewrite be_val_be_bytes. rewrite (Z.div_mod z (256 ^ Z.of_nat 16)) at 2 by done.
    rewrite Z.odd_add, Z.odd_mul. change (Z.odd (256 ^ Z.of_nat 16)) with false. by rewrite andb_false_l, xorb_false_l. }
  rewrite !Hodd, !odd_fold, !foldr_app in E. simpl in E.
  assert (Hx : forall l o, foldr (fun b o => xorb (Z.odd b) o) o l = xorb (foldr (fun b o => xorb (Z.odd b) o) false l) o).
  { intros l o. induction l as [|b l IH]; simpl; [done|]. by rewrite IH, xorb_assoc. }
  rewrite (Hx k (foldr _ _ n1)), (Hx k (foldr _ _ n2)), (Hx n1), (Hx n2) in E.
  revert E. generalize (foldr (fun b o => xorb (Z.odd b) o) (foldr (fun b o => xorb (Z.odd b) o) false pt) ad) as t.
  intros t. by destruct (foldr _ false n1), (foldr _ false n2), (foldr _ false k), t.
Qed.

Lemma vmess_toy_sealed key nonce pt ct :
  seal_with Aes128Gcm key nonce [] pt = Done ct -> ct = pt ++ toy_tag key nonce [] pt.
Proof.
  unfold seal_with. case_match; [|done]. cbn [aead_seal_ad vmess_aead toy_crypto toy_aead].
  case_decide; [|done]. unfold toy_seal. case_decide; [|done]. by intros [= <-].
Qed.

Lemma toy_lengths_differ pt ct :
  seal_with Aes128Gcm (auth_len_key toy_key) (chunk_nonce toy_iv 1) [] pt = Done ct ->
  exists e, open_with Aes128Gcm (auth_len_key toy_key) (chunk_nonce toy_iv 0) [] ct = Fail e.
Proof.
  intros Hs. destruct (open_with _ _ (chunk_nonce toy_iv 0) _ _) as [pt'|e|] eqn:E; [|by exists e|].
  2:{ by apply open_no_panic in E. }
  exfalso. apply sealed_open in E as [E Hl]. apply vmess_toy_sealed in E, Hs. rewrite E in Hs. clear E.
  apply app_inj_2 in Hs as [-> Ht]; [|by unfold toy_tag; rewrite !length_be_bytes].
  revert Ht. apply toy_tag_parity. by vm_compute.
Qed.

Lemma auth_len_not_readable_witness :
  exists w, relay_down list_sink toy_key toy_iv 17 SEC_AES128_GCM (fun _ n => replicate n 0) [[1]; []] []
      = (Done tt, w) /\
    forall r : list Z, pending r = w ++ [] ->
    exists e r', relay_up toy_key toy_iv 17 SEC_AES128_GCM (fun _ => true) 0 (MkUp r []) = (Fail e, MkUp r' []).
Proof.
  apply (auth_len_not_readable toy_key toy_iv 17 SEC_AES128_GCM (fun _ n => replicate n 0) [[1]] [] []
    (fun _ => true) 0).
  - unfold sec_ok. tauto.
  - reflexivity.
  - reflexivity.
  - reflexivity.
  - by repeat (constructor; [by apply small_read|]).
  - intros. apply length_replicate.
  - apply toy_lengths_differ.
Defined.
