(* ===== verification/Hysteria.v ===== *)
(** * Hysteria 2: varints, TCP requests, UDP frames and their reassembly
    ([src/src/hysteria2/auth.rs], [src/src/hysteria2/proxy.rs], and [read_varint] and
    [handle_tcp_bidi] of [src/src/hysteria2/server.rs]) *)
From stdpp Require Import sorting.
From S2P Require Import Prelude RustStd Net Target.

(** ** Variable-length integers *)

(** [read_varint] reads [1 << (first >> 6)] bytes in all. *)
Fixpoint read_varint_rest {S} `{Source S} (n : nat) (val : Z) : M S Z :=
  match n with
  | O => mret val
  | Datatypes.S n => b ← read_u8; read_varint_rest n (Z.lor (u64 (Z.shiftl val 8)) b)
  end.
Definition read_varint {S} `{Source S} : M S Z :=
  first ← read_u8;
  let len := Z.to_nat (Z.shiftl 1 (Z.shiftr first 6)) in
  read_varint_rest (len - 1) (Z.land first 0x3f).

Definition write_varint (val : Z) : list Z :=
  if val <? 64 then [u8 val]
  else if val <? 16384 then be_bytes 2 (Z.lor 0x4000 (u16 val))
  else if val <? 1073741824 then be_bytes 4 (Z.lor 0x80000000 (u32 val))
  else be_bytes 8 (Z.lor 0xc000000000000000 val).

(** The copies of the two functions in [proxy.rs]; the reader takes
    [first >> 6] further bytes. *)
Fixpoint read_varint_bytes_rest (extra : nat) (val : Z) : M (list Z) Z :=
  match extra with
  | O => mret val
  | Datatypes.S extra =>
      rem ← remaining;
      if decide (rem < 1)%nat then bail "varint: truncated" else
      b ← get_u8;
      read_varint_bytes_rest extra (Z.lor (u64 (Z.shiftl val 8)) b)
  end.
Definition read_varint_bytes : M (list Z) Z :=
  rem ← remaining;
  if decide (rem < 1)%nat then bail "varint: no data" else
  first ← get_u8;
  let extra := Z.to_nat (Z.shiftr first 6) in
  read_varint_bytes_rest extra (Z.land first 0x3f).

Definition write_varint_bytes (val : Z) : list Z :=
  if val <? 64 then [u8 val]
  else if val <? 16384 then be_bytes 2 (Z.lor 0x4000 (u16 val))
  else if val <? 1073741824 then be_bytes 4 (Z.lor 0x80000000 (u32 val))
  else be_bytes 8 (Z.lor 0xc000000000000000 val).

(** ** TCP proxy streams *)

Definition read_tcp_request {S} `{Source S} : M S (list Z) :=
  addr_len ← read_varint;
  if decide (~ (0 < addr_len /\ addr_len <= 2048)) then bail "invalid addr_len" else
  addr_buf ← read_exact (Z.to_nat addr_len);
  addr ← lift (from_utf8 addr_buf);
  pad_len ← read_varint;
  _ ← (if decide (0 < pad_len /\ pad_len <= 4096) then ignore (read_exact (Z.to_nat pad_len))
       else mret tt);
  mret addr.

(** The padding is drawn at random: 128 to 1023 characters. *)
Definition tcp_response (ok : bool) (message padding : list Z) : list Z :=
  [if ok then 0x00 else 0x01] ++ write_varint (Z.of_nat (length message)) ++ message ++
  write_varint (Z.of_nat (length padding)) ++ padding.
Definition write_tcp_response (E : env) (ok : bool) (message padding : list Z) : M conn unit :=
  write_all E (tcp_response ok message padding).

(** [io_error] is the text of the connection error, [padding] the random
    padding.  [finish] and [flush] have no effect of their own here. *)
Definition handle_tcp_stream (E : env) (io_error padding target : list Z) : M conn unit :=
  r ← tcp_connect E target;
  match r with
  | ConnRefused => write_tcp_response E false io_error padding
  | ConnTimeout => write_tcp_response E false (str "connection timeout") padding
  | ConnOk =>
      write_tcp_response E true (str "Connected") padding ;;
      copy_bidirectional E target
  end.

Definition FRAME_TYPE_TCP : Z := 0x401.

(** Every frame type but [FRAME_TYPE_TCP] is ignored. *)
Definition handle_tcp_bidi (E : env) (io_error padding : list Z) : M conn unit :=
  frame_type ← read_varint;
  if decide (frame_type = FRAME_TYPE_TCP) then
    target ← read_tcp_request;
    handle_tcp_stream E io_error padding target
  else mret tt.

(** ** UDP frames *)

Definition DATAGRAM_MAX_PAYLOAD : nat := Z.to_nat 1100.

Record UdpFrame := MkFrame {
  session_id : Z;
  packet_id : Z;
  frag_id : Z;
  frag_total : Z;
  addr : list Z;
  port : Z;
  payload : list Z;
}.

#[export] Instance UdpFrame_eq_dec : EqDecision UdpFrame.
Proof. solve_decision. Defined.

Definition is_bracket (c : Z) : bool := (c =? 91) || (c =? 93).

Definition split_host_port (s : list Z) : outcome (list Z * Z) :=
  '(host, port_str) ← ok_or (EBail "invalid addr (no port)") (rsplit_once 58 s);
  port ← ok_or EParse (parse_uint 65535 port_str);
  mret (trim_matches is_bracket host, port).

Definition parse_udp_frame_body : M (list Z) UdpFrame :=
  session_id ← get_u32;
  packet_id ← get_u16;
  frag_id ← get_u8;
  frag_total ← get_u8;
  addr_len ← read_varint_bytes;
  if decide (~ (0 < addr_len /\ addr_len <= 2048)) then bail "invalid addr_len" else
  rem ← remaining;
  if decide (rem < Z.to_nat addr_len)%nat then bail "UDP frame: addr truncated" else
  addr_bytes ← copy_to_slice (Z.to_nat addr_len);
  addr_str ← lift (from_utf8 addr_bytes);
  ap ← lift (split_host_port addr_str);
  payload ← get_st;
  mret (MkFrame session_id packet_id frag_id frag_total ap.1 ap.2 payload).
Definition parse_udp_frame (data : list Z) : outcome UdpFrame :=
  if decide (length data < 8)%nat then Fail (EBail "UDP frame too short")
  else (parse_udp_frame_body data).1.

Definition build_single_udp_frame (session_id packet_id frag_id frag_total : Z)
    (addr_str payload : list Z) : list Z :=
  be_bytes 4 session_id ++ be_bytes 2 packet_id ++ [u8 frag_id] ++ [u8 frag_total] ++
  write_varint_bytes (Z.of_nat (length addr_str)) ++ addr_str ++ payload.

Inductive SocketAddr := V4 (ip : list Z) (port : Z) | V6 (ip : list Z) (port : Z).

(** [to_string] of the source address. *)
Definition socket_addr_to_string (a : SocketAddr) : list Z :=
  match a with
  | V4 ip port => ipv4_to_string ip ++ [58] ++ dec port
  | V6 ip port => [91] ++ ipv6_to_string (segments_of ip) ++ [93; 58] ++ dec port
  end.

Definition build_udp_frames (session_id packet_id : Z) (src_addr : SocketAddr) (payload : list Z)
    : list (list Z) :=
  let addr_str := socket_addr_to_string src_addr in
  if decide (length payload <= DATAGRAM_MAX_PAYLOAD)%nat
  then [build_single_udp_frame session_id packet_id 0 1 addr_str payload]
  else
    let cs := chunks DATAGRAM_MAX_PAYLOAD payload in
    let frag_total := u8 (Z.of_nat (length cs)) in
    imap (fun i chunk =>
      build_single_udp_frame session_id packet_id (u8 (Z.of_nat i)) frag_total addr_str chunk) cs.

(** ** Reassembly *)

Record FragBuffer := MkFrag {
  total : Z;
  received : Z;
  frags : gmap Z (list Z);
  fb_addr : list Z;
  fb_port : Z;
}.

Definition FragBuffer_new (total : Z) (addr : list Z) (port : Z) : FragBuffer :=
  MkFrag total 0 ∅ addr port.

(** [or_insert] keeps the first payload of a fragment id. *)
Definition FragBuffer_insert (b : FragBuffer) (frag_id : Z) (payload : list Z)
    : FragBuffer * option (list Z * list Z * Z) :=
  let frags := match frags b !! frag_id with
               | Some _ => frags b
               | None => <[frag_id := payload]> (frags b)
               end in
  let b := MkFrag (total b) (u8 (received b + 1)) frags (fb_addr b) (fb_port b) in
  (b, if decide (total b <= received b) then
        let ids := merge_sort Z.le (map_to_list frags).*1 in
        let buf := concat ((fun id => default [] (frags !! id)) <$> ids) in
        Some (buf, fb_addr b, fb_port b)
      else None).

(** The datagrams sent: target text and payload. *)
Definition relay_frame (frag_table : gmap Z FragBuffer) (frame : UdpFrame)
    : gmap Z FragBuffer * option (list Z * list Z) :=
  let target := addr frame ++ [58] ++ dec (port frame) in
  if decide (frag_total frame <= 1) then (frag_table, Some (target, payload frame)) else
  let buf := default (FragBuffer_new (frag_total frame) (addr frame) (port frame))
                     (frag_table !! packet_id frame) in
  match FragBuffer_insert buf (frag_id frame) (payload frame) with
  | (_, Some (reassembled, addr, port)) =>
      (delete (packet_id frame) frag_table, Some (addr ++ [58] ++ dec port, reassembled))
  | (buf, None) => (<[packet_id frame := buf]> frag_table, None)
  end.

(** The session's loop over its frames: what is sent for each. *)
Fixpoint relay_frames (frag_table : gmap Z FragBuffer) (fs : list UdpFrame)
    : gmap Z FragBuffer * list (option (list Z * list Z)) :=
  match fs with
  | [] => (frag_table, [])
  | f :: fs =>
      let '(t1, o) := relay_frame frag_table f in
      let '(t2, os) := relay_frames t1 fs in
      (t2, o :: os)
  end.

(** ** Varints *)

Lemma varint_first c r :
  0 <= c < 4 -> 0 <= r < 64 ->
  byte_ok (c * 64 + r) /\ Z.shiftr (c * 64 + r) 6 = c /\ Z.land (c * 64 + r) 0x3f = r.
Proof.
  intros Hc Hr. unfold byte_ok. rewrite Z.shiftr_div_pow2 by lia.
  change 0x3f with (Z.ones 6). rewrite Z.land_ones by lia. change (2 ^ 6) with 64.
  split_and!; [dlia..|]. by rewrite Z.add_comm, Z.mod_add, Z.mod_small by lia.
Qed.

(** An encoding of [1 + n] bytes with prefix [c]. *)
Lemma varint_form n c v :
  0 <= c < 4 -> 0 <= v < 64 * 256 ^ Z.of_nat n ->
  be_bytes (S n) (Z.lor (c * (64 * 256 ^ Z.of_nat n)) v)
    = (c * 64 + v / 256 ^ Z.of_nat n) :: be_bytes n v /\
  0 <= v / 256 ^ Z.of_nat n < 64.
Proof.
  intros Hc Hv.
  assert (Hp : 64 * 256 ^ Z.of_nat n = 2 ^ (6 + 8 * Z.of_nat n)).
  { rewrite Z.pow_add_r, Z.pow_mul_r by lia. done. }
  assert (Hr : 0 <= v / 256 ^ Z.of_nat n < 64).
  { split; [apply Z.div_pos; lia|]. apply Z.div_lt_upper_bound; lia. }
  split; [|done]. rewrite Hp in *. rewrite lor_high by lia. rewrite <- Hp in *.
  rewrite be_bytes_cons. replace (c * (64 * 256 ^ Z.of_nat n) + v)
    with (c * 64 * 256 ^ Z.of_nat n + v) by lia.
  rewrite Z.div_add_l by lia. rewrite be_bytes_add. f_equal. apply Z.mod_small. lia.
Qed.

Lemma varint_split v :
  0 <= v < 2 ^ 62 ->
  exists c r bs, write_varint v = (c * 64 + r) :: bs /\ write_varint_bytes v = (c * 64 + r) :: bs /\
    0 <= c < 4 /\ 0 <= r < 64 /\ length bs = (2 ^ Z.to_nat c - 1)%nat /\ bytes_ok bs /\
    v = r * 256 ^ Z.of_nat (length bs) + be_val bs /\
    (c = 0 <-> v < 64) /\ (c <= 1 <-> v < 16384) /\ (c <= 2 <-> v < 1073741824).
Proof.
  intros Hv. change write_varint_bytes with write_varint. unfold write_varint, wrap.
  assert (Hn : forall n c, c ∈ [1; 2; 3] -> (S n = 2 ^ Z.to_nat c)%nat -> v < 64 * 256 ^ Z.of_nat n ->
    exists r bs, be_bytes (S n) (Z.lor (c * (64 * 256 ^ Z.of_nat n)) v) = (c * 64 + r) :: bs /\
      0 <= r < 64 /\ length bs = (2 ^ Z.to_nat c - 1)%nat /\ bytes_ok bs /\
      v = r * 256 ^ Z.of_nat (length bs) + be_val bs).
  { intros n c Hc Hnc Hvn. assert (0 <= c < 4) by (set_unfold in Hc; lia).
    destruct (varint_form n c v) as [E Hr]; [lia..|]. rewrite E.
    do 2 eexists. split; [done|]. rewrite length_be_bytes.
    split_and!; [lia|lia|lia|apply be_bytes_ok|apply be_split]. }
  destruct (v <? 64) eqn:E1.
  { exists 0, v, []. rewrite Z.mod_small by lia. split_and!; simpl; try (done || lia). unfold be_val; simpl; lia. }
  destruct (v <? 16384) eqn:E2.
  { rewrite Z.mod_small by lia.
    destruct (Hn 1%nat 1) as (r & bs & E & ?); [set_solver|done|lia|].
    exists 1, r, bs. rewrite <- E. split_and!; try (done || lia); tauto. }
  destruct (v <? 1073741824) eqn:E3.
  { rewrite Z.mod_small by lia.
    destruct (Hn 3%nat 2) as (r & bs & E & ?); [set_solver|done|lia|].
    exists 2, r, bs. rewrite <- E. split_and!; try (done || lia); tauto. }
  destruct (Hn 7%nat 3) as (r & bs & E & ?); [set_solver|done|lia|].
  exists 3, r, bs. rewrite <- E. split_and!; try (done || lia); tauto.
Qed.

(** The encodings of [v], the shortest one or not. *)
Definition is_varint (bs : list Z) (v : Z) : Prop :=
  exists c r tl, bs = (c * 64 + r) :: tl /\ 0 <= c < 4 /\ 0 <= r < 64 /\
    length tl = (2 ^ Z.to_nat c - 1)%nat /\ bytes_ok tl /\
    v = r * 256 ^ Z.of_nat (length tl) + be_val tl.

Lemma write_varint_is_varint v : 0 <= v < 2 ^ 62 -> is_varint (write_varint v) v.
Proof.
  intros Hv. destruct (varint_split v Hv) as (c & r & bs & -> & _ & Hc & Hr & Hl & Hok & E & _).
  by exists c, r, bs.
Qed.

Lemma varint_tail_length c : 0 <= c < 4 -> (Z.to_nat (Z.shiftl 1 c) - 1 = 2 ^ Z.to_nat c - 1)%nat.
Proof. intros. rewrite Z.shiftl_1_l. assert (c = 0 \/ c = 1 \/ c = 2 \/ c = 3) by lia. naive_solver. Qed.

Lemma varint_max_tail c : 0 <= c < 4 -> 256 ^ Z.of_nat (2 ^ Z.to_nat c - 1) <= 2 ^ 56.
Proof. intros. assert (c = 0 \/ c = 1 \/ c = 2 \/ c = 3) by lia. naive_solver lia. Qed.

Lemma is_varint_bound bs v : is_varint bs v -> 0 <= v < 2 ^ 62 /\ (0 < length bs)%nat.
Proof.
  intros (c & r & tl & -> & Hc & Hr & Hl & Hok & ->). pose proof (be_val_bound tl Hok) as Hb.
  pose proof (varint_max_tail c Hc) as Hm. rewrite <- Hl in Hm. simpl length. nia.
Qed.

Section varint.
Context {S : Type} `{SourceLaws S}.

Lemma reads_varint_rest bs acc :
  bytes_ok bs -> 0 <= acc -> (acc + 1) * 256 ^ Z.of_nat (length bs) <= 2 ^ 62 ->
  reads (read_varint_rest (length bs) acc) bs (acc * 256 ^ Z.of_nat (length bs) + be_val bs).
Proof.
  revert acc. induction bs as [|b bs IH]; intros acc Hok Ha Hb.
  { replace (_ + _) with acc by (unfold be_val; simpl; lia). apply reads_ret. }
  apply Forall_cons_1 in Hok as [Hb0 Hok]. unfold byte_ok in Hb0.
  cbn [length] in *. rewrite Nat2Z.inj_succ, Z.pow_succ_r in * by lia. cbn [read_varint_rest].
  eapply (reads_bind _ _ [b]); [apply reads_u8|].
  assert (Hs : 0 <= acc * 256 < 2 ^ 62) by nia.
  unfold wrap. rewrite Z.shiftl_mul_pow2 by lia. change (2 ^ 8) with 256.
  rewrite Z.mod_small by lia. change 256 with (2 ^ 8) at 1. rewrite lor_high by lia. change (2 ^ 8) with 256.
  rewrite be_val_cons.
  replace (acc * (256 * 256 ^ Z.of_nat (length bs)) + (b * 256 ^ Z.of_nat (length bs) + be_val bs))
    with ((acc * 256 + b) * 256 ^ Z.of_nat (length bs) + be_val bs) by lia.
  apply IH; [done|lia|nia].
Qed.

Lemma reads_varint bs v : is_varint bs v -> reads read_varint bs v.
Proof.
  intros (c & r & tl & -> & Hc & Hr & Hl & Hok & ->).
  destruct (varint_first c r Hc Hr) as (_ & Ec & Er). unfold read_varint.
  eapply (reads_bind _ _ [_]); [apply reads_u8|]. rewrite Ec, Er, varint_tail_length, <- Hl by done.
  apply reads_varint_rest; [done|lia|]. pose proof (varint_max_tail c Hc). rewrite Hl. nia.
Qed.

Lemma sound_varint_rest n acc :
  sound (read_varint_rest n acc) (fun bs v => length bs = n /\ bytes_ok bs /\
    (0 <= acc -> (acc + 1) * 256 ^ Z.of_nat n <= 2 ^ 62 -> v = acc * 256 ^ Z.of_nat n + be_val bs)).
Proof.
  intros s v s' Hok E.
  assert (Hex : exists bs, pending s = bs ++ pending s' /\ length bs = n /\ trace s' = trace s).
  { revert s v s' acc Hok E. induction n as [|n IH]; intros s v s' acc Hok E.
    { injection E as <- <-. by exists []. }
    apply bind_Done in E as (b & s1 & E1 & E2).
    destruct (sound_u8 _ _ _ Hok E1) as (b1 & P1 & [-> _] & T1). rewrite P1 in Hok.
    apply Forall_app in Hok as [_ Hok]. destruct (IH _ _ _ _ Hok E2) as (bs & P & L & T).
    exists (b :: bs). rewrite P1, P. simpl. split_and!; congruence. }
  destruct Hex as (bs & P & L & T). exists bs. rewrite P in Hok. apply Forall_app in Hok as [Hb _].
  split_and!; try done. intros Ha Hm. rewrite <- L in *.
  destruct (reads_varint_rest bs acc Hb Ha Hm s (pending s') P) as (s2 & E2 & _). congruence.
Qed.

Lemma sound_varint : sound read_varint is_varint.
Proof.
  unfold read_varint. eapply sound_bind; [apply sound_u8|]. intros b1 first _ [-> Hb].
  assert (Hsplit : exists c r, 0 <= c < 4 /\ 0 <= r < 64 /\ first = c * 64 + r).
  { exists (first / 64), (first mod 64). unfold byte_ok in Hb. dlia. }
  destruct Hsplit as (c & r & Hc & Hr & ->). destruct (varint_first c r Hc Hr) as (_ & -> & ->).
  rewrite varint_tail_length by done.
  eapply sound_impl; [apply sound_varint_rest|]. intros bs v (Hl & Hok & Hv).
  exists c, r, bs. simpl. rewrite Hl. split_and!; try done; try lia. apply Hv; [lia|].
  pose proof (varint_max_tail c Hc). nia.
Qed.

Lemma quiet_varint_rest n acc : quiet (read_varint_rest n acc).
Proof.
  revert acc. induction n as [|n IH]; intros acc; [apply quiet_ret|].
  eapply quiet_bind; [apply quiet_u8|]. intros. apply IH.
Qed.
Lemma quiet_varint : quiet read_varint.
Proof. eapply quiet_bind; [apply quiet_u8|]. intros. apply quiet_varint_rest. Qed.
End varint.

(** ** TCP requests *)

Definition addr_ok (a : list Z) : Prop :=
  0 < Z.of_nat (length a) <= 2048 /\ utf8_valid a = true.

(** A request up to its padding: the address and the announced padding length. *)
Definition request_wire (bs addr : list Z) (pad_len : Z) : Prop :=
  exists l p, is_varint l (Z.of_nat (length addr)) /\ is_varint p pad_len /\ bs = l ++ addr ++ p.

(** What is left of the bytes after it once the padding is skipped. *)
Definition after_padding (pad_len : Z) (rest : list Z) : list Z :=
  if decide (0 < pad_len /\ pad_len <= 4096) then drop (Z.to_nat pad_len) rest else rest.

Section tcp.
Context {S : Type} `{SourceLaws S}.

Lemma skip_padding pad_len s :
  exists s', (if decide (0 < pad_len /\ pad_len <= 4096) then ignore (read_exact (Z.to_nat pad_len))
       else mret tt) s = (Done tt, s') /\
    pending s' = after_padding pad_len (pending s) /\ trace s' = trace s.
Proof.
  unfold after_padding. case_decide; [|by exists s]. unfold ignore.
  destruct (decide (Z.to_nat pad_len <= length (pending s))%nat) as [Hl|Hl].
  - destruct (read_exact_done _ _ Hl) as (s' & -> & P & T). by exists s'.
  - destruct (read_exact_eof (Z.to_nat pad_len) s) as (s' & -> & T & P); [lia|].
    exists s'. rewrite P, drop_ge by lia. done.
Qed.

Lemma read_tcp_request_run s bs addr pad_len rest :
  addr_ok addr -> request_wire bs addr pad_len -> pending s = bs ++ rest ->
  exists s', read_tcp_request s = (Done addr, s') /\
    pending s' = after_padding pad_len rest /\ trace s' = trace s.
Proof.
  intros [Hl Hu] (l & p & Hlen & Hp & ->) E. rewrite <- !app_assoc in E. unfold read_tcp_request.
  destruct (reads_varint l _ Hlen s (addr ++ p ++ rest) E) as (s1 & E1 & P1 & T1).
  rewrite (bind_step _ _ _ _ _ E1), decide_False by lia. rewrite Nat2Z.id.
  destruct (reads_exact _ addr eq_refl s1 (p ++ rest) P1) as (s2 & E2 & P2 & T2).
  rewrite (bind_step _ _ _ _ _ E2).
  destruct (reads_utf8 addr Hu s2 (p ++ rest) P2) as (s3 & E3 & P3 & T3).
  rewrite (bind_step _ _ _ _ _ E3).
  destruct (reads_varint p _ Hp s3 rest P3) as (s4 & E4 & P4 & T4).
  rewrite (bind_step _ _ _ _ _ E4).
  destruct (skip_padding pad_len s4) as (s5 & E5 & P5 & T5).
  rewrite (bind_step _ _ _ _ _ E5). exists s5. rewrite P5, P4. split_and!; [done|done|congruence].
Qed.

Lemma read_tcp_request_inv s addr s' :
  bytes_ok (pending s) -> read_tcp_request s = (Done addr, s') ->
  exists bs pad_len rest, addr_ok addr /\ request_wire bs addr pad_len /\
    pending s = bs ++ rest /\ pending s' = after_padding pad_len rest /\ trace s' = trace s.
Proof.
  intros Hok E. pose proof E as Erun. unfold read_tcp_request in E.
  apply bind_Done in E as (len & s1 & E1 & E).
  destruct (sound_varint _ _ _ Hok E1) as (l & P1 & Hl & _).
  rewrite P1 in Hok. apply Forall_app in Hok as [_ Hok].
  case_decide as Hlen; [done|].
  apply bind_Done in E as (a & s2 & E2 & E).
  destruct (sound_exact _ _ _ _ Hok E2) as (b2 & P2 & [-> L2] & _).
  rewrite P2 in Hok. apply Forall_app in Hok as [_ Hok].
  apply bind_Done in E as (a' & s3 & E3 & E).
  assert (Hu : utf8_valid a = true /\ a' = a /\ s3 = s2).
  { unfold lift, from_utf8 in E3. destruct (utf8_valid a); [|done]. by injection E3 as -> ->. }
  destruct Hu as (Hu & -> & ->).
  apply bind_Done in E as (plen & s4 & E4 & E).
  destruct (sound_varint _ _ _ Hok E4) as (p & P4 & Hp & _).
  apply bind_Done in E as ([] & s5 & _ & E). injection E as -> _.
  assert (Ha : addr_ok addr) by (split; [lia|done]).
  assert (Hw : request_wire (l ++ addr ++ p) addr plen).
  { exists l, p. split_and!; [|done|done]. rewrite L2, Z2Nat.id by lia. done. }
  assert (P : pending s = (l ++ addr ++ p) ++ pending s4)
    by (rewrite P1, P2, P4; by rewrite <- !app_assoc).
  destruct (read_tcp_request_run s _ addr plen _ Ha Hw P) as (s6 & E6 & P6 & T6).
  rewrite Erun in E6. injection E6 as <-. by exists (l ++ addr ++ p), plen, (pending s4).
Qed.

Lemma quiet_tcp_request : quiet read_tcp_request.
Proof.
  unfold read_tcp_request. eapply quiet_bind; [apply quiet_varint|]. intros _ len _ _.
  case_decide; [apply quiet_fail|]. eapply quiet_bind; [apply quiet_exact|]. intros _ a _ _.
  eapply quiet_bind; [apply quiet_utf8|]. intros _ a' _ _.
  eapply quiet_bind; [apply quiet_varint|]. intros _ pl _ _.
  eapply quiet_bind; [|intros; apply quiet_ret].
  intros s. destruct (skip_padding pl s) as (s' & -> & _ & T). done.
Qed.
End tcp.

(** ** Properties of varints and TCP streams *)

(** the varint codec of [auth.rs] round-trips: on every byte source, what
    [write_varint] writes for a value below [2^62] is read back as that value,
    consuming exactly the encoding, and whatever [read_varint] accepts is an
    encoding of one, two, four or eight bytes of the value it returns. *)
Theorem varint_roundtrip {S : Type} `{SourceLaws S} :
  (forall v, 0 <= v < 2 ^ 62 -> reads (S := S) read_varint (write_varint v) v) /\
  sound (S := S) read_varint (fun bs v => is_varint bs v /\ 0 <= v < 2 ^ 62).
Proof.
  split.
  - intros v Hv. by apply reads_varint, write_varint_is_varint.
  - eapply sound_impl; [apply sound_varint|]. intros bs v Hv. split; [done|]. by eapply is_varint_bound.
Qed.

Lemma bytes_rest_step n acc b s :
  read_varint_bytes_rest (S n) acc (b :: s)
    = read_varint_bytes_rest n (Z.lor (u64 (Z.shiftl acc 8)) b) s.
Proof.
  cbn [read_varint_bytes_rest]. rewrite remaining_cons.
  by rewrite (bind_step _ _ _ _ _ (get_u8_cons b s)).
Qed.

Lemma proxy_run c r tl rest :
  0 <= c < 4 -> 0 <= r < 64 ->
  read_varint_bytes (((c * 64 + r) :: tl) ++ rest)
    = read_varint_bytes_rest (Z.to_nat c) r (tl ++ rest).
Proof.
  intros Hc Hr. destruct (varint_first c r Hc Hr) as (_ & Ec & Er).
  unfold read_varint_bytes. cbn [app]. rewrite remaining_cons.
  by rewrite (bind_step _ _ _ _ _ (get_u8_cons _ _)), Ec, Er.
Qed.

Lemma proxy_shift a b :
  0 <= a < 2 ^ 40 -> 0 <= b < 256 -> Z.lor (u64 (Z.shiftl a 8)) b = a * 256 + b.
Proof.
  intros Ha Hb. unfold wrap. rewrite Z.shiftl_mul_pow2, Z.mod_small by lia. by apply (lor_high 8).
Qed.

Lemma proxy_varint_small v rest :
  0 <= v < 16384 -> read_varint_bytes (write_varint_bytes v ++ rest) = (Done v, rest).
Proof.
  intros Hv. destruct (varint_split v ltac:(lia))
    as (c & r & bs & _ & -> & Hc & Hr & Hl & Hok & E & C0 & C1 & C2). rewrite proxy_run by done.
  assert (c = 0 \/ c = 1) as [-> | ->] by lia; simpl in Hl.
  - destruct bs; [|done]. unfold be_val in E. simpl in *. by rewrite E, Z.mul_1_r, Z.add_0_r.
  - destruct bs as [|b1 [|]]; try done. apply Forall_inv in Hok. unfold byte_ok in Hok.
    change (Z.to_nat 1) with 1%nat. cbn [app]. rewrite bytes_rest_step, proxy_shift by lia.
    unfold be_val in E. simpl in *. by rewrite E.
Qed.

Lemma proxy_varint_cut v rest :
  16384 <= v < 1073741824 ->
  read_varint_bytes (write_varint_bytes v ++ rest) = (Done (v / 256), v mod 256 :: rest).
Proof.
  intros Hv. destruct (varint_split v ltac:(lia))
    as (c & r & bs & _ & -> & Hc & Hr & Hl & Hok & E & C0 & C1 & C2). rewrite proxy_run by done.
  assert (c = 2) as -> by lia. simpl in Hl. destruct bs as [|b1 [|b2 [|b3 [|]]]]; try done.
  rewrite !Forall_cons in Hok. unfold byte_ok in Hok. destruct Hok as (H1 & H2 & H3 & _).
  change (Z.to_nat 2) with 2%nat. cbn [app].
  rewrite !bytes_rest_step, (proxy_shift r b1), (proxy_shift (r * 256 + b1) b2) by lia.
  cbn [read_varint_bytes_rest].
  rewrite !be_val_cons in E. change (be_val []) with 0 in E. simpl length in E.
  change (256 ^ Z.of_nat 3) with 16777216 in E. change (256 ^ Z.of_nat 2) with 65536 in E.
  change (256 ^ Z.of_nat 1) with 256 in E. change (256 ^ Z.of_nat 0) with 1 in E.
  unfold mret, M_ret. f_equal; f_equal; [|f_equal]; dlia.
Qed.

(** the varint reader of [proxy.rs] agrees with its writer exactly up to
    16383.  A four-byte encoding (the values from 16384 to [2^30 - 1]) is cut one
    byte short: the reader returns the value without its last byte, and leaves
    this byte in the input. *)
Theorem proxy_varint_limits v rest :
  (0 <= v < 16384 -> read_varint_bytes (write_varint_bytes v ++ rest) = (Done v, rest)) /\
  (16384 <= v < 1073741824 ->
   read_varint_bytes (write_varint_bytes v ++ rest) = (Done (v / 256), v mod 256 :: rest)).
Proof. split; [apply proxy_varint_small | apply proxy_varint_cut]. Qed.

(** a padding above 4096 bytes is not discarded: the bytes of the padding
    stay in the stream, before the client's data, and are relayed with it. *)
Theorem large_padding_not_discarded {S : Type} `{SourceLaws S} addr pad data s :
  addr_ok addr -> 4096 < Z.of_nat (length pad) < 2 ^ 62 ->
  pending s = write_varint (Z.of_nat (length addr)) ++ addr ++
              write_varint (Z.of_nat (length pad)) ++ pad ++ data ->
  exists s', read_tcp_request s = (Done addr, s') /\ pending s' = pad ++ data.
Proof.
  intros Ha Hp E. pose proof Ha as [Hl _].
  destruct (read_tcp_request_run s (write_varint (Z.of_nat (length addr)) ++ addr ++
    write_varint (Z.of_nat (length pad))) addr (Z.of_nat (length pad)) (pad ++ data) Ha)
    as (s' & E1 & P1 & _).
  - do 2 eexists. split_and!; [..|done]; apply write_varint_is_varint; lia.
  - by rewrite E, <- !app_assoc.
  - exists s'. split; [done|]. rewrite P1. unfold after_padding. by rewrite decide_False by lia.
Qed.

(** What a proxy stream does: nothing visible; or one connection attempt, to the
    address of its request, the answer, and the relay. *)
Definition tcp_stream_actions (E : env) (io_error padding : list Z) (s s' : conn) : Prop :=
  c_trace s' = c_trace s \/
  exists ft bs addr pad_len rest, is_varint ft FRAME_TYPE_TCP /\ addr_ok addr /\
     request_wire bs addr pad_len /\ c_in s = ft ++ bs ++ rest /\
     let tr1 := c_trace s ++ [EvConnect addr] in
     let answer b msg := tr1 ++ [EvWrite (tcp_response b msg padding)] in
     match env_connect E (c_trace s) addr with
     | ConnOk =>
         c_trace s' = if env_write_ok E tr1 then
             let tr2 := answer true (str "Connected") in
             tr2 ++ [EvRelay addr (take (env_up E tr2 addr) (after_padding pad_len rest))
                                  (env_remote E tr2 addr)]
           else tr1
     | ConnRefused => c_trace s' = if env_write_ok E tr1 then answer false io_error else tr1
     | ConnTimeout =>
         c_trace s' = if env_write_ok E tr1 then answer false (str "connection timeout") else tr1
     end.

(** A proxy stream of an authenticated client.  For every input and every
    behaviour of the network the handler does not panic; it does nothing
    visible unless the stream starts with the TCP frame type and a request
    (an address of 1 to 2048 bytes of UTF-8 and a padding); then it makes
    exactly one connection attempt, to that address, answers with the status
    byte of its result, and after a success relays what follows the padding. *)
Theorem handle_tcp_bidi_actions E io_error padding s o s' :
  bytes_ok (c_in s) -> handle_tcp_bidi E io_error padding s = (o, s') ->
  o <> Panic /\ tcp_stream_actions E io_error padding s s'.
Proof.
  intros Hok. unfold tcp_stream_actions, handle_tcp_bidi, mbind at 1, M_bind at 1.
  destruct (read_varint s) as [d s1] eqn:E1.
  destruct (quiet_conn _ _ _ _ quiet_varint E1) as [N1 T1].
  destruct d as [ft|e|]; [|intros [= <- <-]; split; [done|by left]|done].
  destruct (sound_conn _ _ _ _ _ sound_varint Hok E1) as (fb & P1 & Hft & _).
  case_decide as Hf; [subst ft|intros [= <- <-]; split; [done|by left]].
  rewrite P1 in Hok. apply Forall_app in Hok as [_ Hok].
  unfold mbind at 1, M_bind at 1. destruct (read_tcp_request s1) as [d s2] eqn:E2.
  destruct (quiet_conn _ _ _ _ quiet_tcp_request E2) as [N2 T2].
  destruct d as [addr|e|]; [|intros [= <- <-]; split; [done|left; congruence]|done].
  destruct (@read_tcp_request_inv conn conn_source conn_laws s1 addr s2 Hok E2) as (bs & plen & rest & Ha & Hw & P2 & P2' & _).
  unfold handle_tcp_stream, tcp_connect, mbind, M_bind. rewrite T2, T1.
  simpl in P2, P2'. rewrite P2'.
  assert (Hin : c_in s = fb ++ bs ++ rest) by (by rewrite P1, P2).
  intros Hrun. unfold write_tcp_response, write_all in Hrun.
  split; [|right; exists fb, bs, addr, plen, rest; do 4 (split; [done|])];
    destruct (env_connect E (c_trace s) addr); simpl in Hrun |- *;
    destruct (env_write_ok E _); by run_inv Hrun.
Qed.


(** ** UDP frames on the wire *)

Definition socket_ok (a : SocketAddr) : Prop :=
  match a with
  | V4 ip port => length ip = 4%nat /\ bytes_ok ip /\ port_ok port
  | V6 ip port => length ip = 16%nat /\ bytes_ok ip /\ port_ok port
  end.
Definition socket_host (a : SocketAddr) : list Z :=
  match a with V4 ip _ => ipv4_to_string ip | V6 ip _ => ipv6_to_string (segments_of ip) end.
Definition socket_port (a : SocketAddr) : Z := match a with V4 _ p | V6 _ p => p end.

Lemma ip_char_not_bracket s : Forall ip_char s -> Forall (fun c => is_bracket c = false) s.
Proof.
  intros H. eapply Forall_impl; [exact H|]. unfold ip_char, is_bracket. simpl. intros c Hc.
  rewrite !(proj2 (Z.eqb_neq _ _)) by lia. done.
Qed.

Lemma socket_host_chars a :
  socket_ok a -> Forall ip_char (socket_host a) /\ (length (socket_host a) <= 300)%nat.
Proof.
  destruct a as [ip p|ip p]; simpl; intros (Hl & Hok & _).
  - destruct (ipv4_chars ip Hok). rewrite Hl in *. split; [done|lia].
  - destruct (segments_of_ok ip Hok). apply ipv6_chars; [done|lia].
Qed.

Lemma split_host_port_text h p :
  port_ok p -> split_host_port (h ++ [58] ++ dec p) = Done (trim_matches is_bracket h, p).
Proof.
  unfold port_ok. intros Hp. unfold split_host_port.
  change ([58] ++ dec p) with (58 :: dec p).
  rewrite (rsplit_once_app 58 h (dec p)) by (apply dec_no_colon; lia).
  cbn [ok_or mbind outcome_bind bind_outcome]. rewrite parse_uint_dec by lia. done.
Qed.

Lemma join_nonempty sep p ps : p <> [] -> join sep (p :: ps) <> [].
Proof. intros Hp. simpl. by intros [? _]%app_eq_nil. Qed.

Lemma ipv6_nonempty segs : segs <> [] -> ipv6_to_string segs <> [].
Proof.
  intros Hs. unfold ipv6_to_string. case_decide; [done|].
  destruct (zero_span _ _ _ _). case_decide; [by intros [_ [? _]%app_eq_nil]%app_eq_nil|].
  destruct segs as [|z segs]; [done|]. rewrite fmap_cons. apply join_nonempty.
  unfold hex. cbn [hex_fuel]. case_match; [done|]. by intros [_ ?]%app_eq_nil.
Qed.

(** The address text of a frame built by the server. *)
Lemma socket_text a :
  socket_ok a ->
  utf8_valid (socket_addr_to_string a) = true /\
  0 < Z.of_nat (length (socket_addr_to_string a)) <= 2048 /\
  split_host_port (socket_addr_to_string a) = Done (socket_host a, socket_port a).
Proof.
  intros Ha. destruct (socket_host_chars a Ha) as [Hc Hl].
  assert (Hp : port_ok (socket_port a)) by (destruct a; simpl in *; tauto).
  pose proof (dec_chars (socket_port a) ltac:(unfold port_ok in Hp; lia)) as [Hd Hdl].
  assert (Hascii : Forall ascii_ok [91; 93; 58]) by (repeat constructor; lia).
  pose proof (ip_char_ascii _ Hc) as Hca. pose proof (ip_char_ascii _ Hd) as Hda.
  rewrite !Forall_cons in Hascii. destruct Hascii as (H91 & H93 & H58 & _).
  destruct a as [ip p|ip p]; cbn [socket_addr_to_string socket_host socket_port] in *.
  - split_and!; [|rewrite length_app; simpl; lia..|].
    + apply utf8_valid_ascii. rewrite !Forall_app, Forall_singleton. done.
    + rewrite split_host_port_text by done. by rewrite trim_matches_none by by apply ip_char_not_bracket.
  - split_and!; [|rewrite !length_app; simpl; lia..|].
    + apply utf8_valid_ascii. rewrite !Forall_app, !Forall_cons, !Forall_nil. done.
    + change [93; 58] with ([93] ++ [58]). rewrite !app_assoc, <- (app_assoc _ [58]).
      rewrite split_host_port_text by done. rewrite <- app_assoc, trim_matches_wrap; [done..| |].
      * apply ipv6_nonempty. destruct Ha as (Hlen & _). by destruct ip as [|? [|? ?]].
      * by apply ip_char_not_bracket.
Qed.

Lemma list_reads {A} (m : M (list Z) A) bs a rest :
  reads m bs a -> m (bs ++ rest) = (Done a, rest).
Proof. intros Hm. destruct (Hm (bs ++ rest) rest eq_refl) as (s' & -> & P & _). simpl in P. by rewrite <- P. Qed.

Lemma parse_build sid pid fid tot a h p pl :
  0 <= sid < 2 ^ 32 -> 0 <= pid < 65536 -> byte_ok fid -> byte_ok tot ->
  utf8_valid a = true -> 0 < Z.of_nat (length a) <= 2048 -> split_host_port a = Done (h, p) ->
  parse_udp_frame (build_single_udp_frame sid pid fid tot a pl) = Done (MkFrame sid pid fid tot h p pl).
Proof.
  intros Hs Hp Hf Ht Hu Hl Hsp. unfold build_single_udp_frame, parse_udp_frame, wrap.
  unfold byte_ok in *. change (2 ^ 8) with 256. rewrite !Z.mod_small by lia.
  rewrite decide_False by (rewrite !length_app, !length_be_bytes; simpl; lia).
  unfold parse_udp_frame_body.
  rewrite (bind_step _ _ _ _ _ (list_reads _ _ _ _ (reads_get_u32 sid Hs))).
  rewrite (bind_step _ _ _ _ _ (list_reads _ _ _ _ (reads_get_u16 pid Hp))).
  rewrite (bind_step _ _ _ _ _ (list_reads _ _ _ _ (reads_get_u8 fid))).
  rewrite (bind_step _ _ _ _ _ (list_reads _ _ _ _ (reads_get_u8 tot))).
  rewrite (bind_step _ _ _ _ _ (proxy_varint_small (Z.of_nat (length a)) (a ++ pl) ltac:(lia))).
  rewrite decide_False by lia. rewrite Nat2Z.id.
  unfold mbind at 1, M_bind at 1, remaining. rewrite decide_False by (rewrite length_app; lia).
  rewrite (bind_step _ _ _ _ _ (list_reads _ _ _ _ (reads_copy (length a) a eq_refl))).
  rewrite (bind_step _ _ _ _ _ (list_reads _ _ _ pl (reads_utf8 a Hu))).
  rewrite (bind_step (lift _) _ _ (h, p) pl) by by rewrite Hsp. done.
Qed.

(** ** Reassembly *)

Definition numbered (pieces : list (list Z)) : list (Z * list Z) :=
  imap (fun i c => (Z.of_nat i, c)) pieces.

Lemma numbered_fst pieces : (numbered pieces).*1 = Z.of_nat <$> seq 0 (length pieces).
Proof.
  apply list_eq. intros i. unfold numbered. rewrite !list_lookup_fmap, list_lookup_imap.
  destruct (pieces !! i) as [c|] eqn:E; simpl.
  - rewrite lookup_seq_lt by by eapply lookup_lt_Some. done.
  - apply lookup_ge_None in E. by rewrite lookup_seq_ge.
Qed.

Lemma numbered_nodup pieces : NoDup (numbered pieces).*1.
Proof. rewrite numbered_fst. apply NoDup_fmap_2; [apply _|apply NoDup_seq]. Qed.

Lemma numbered_lookup pieces i c :
  pieces !! i = Some c ->
  (list_to_map (numbered pieces) : gmap Z (list Z)) !! Z.of_nat i = Some c.
Proof.
  intros E. apply elem_of_list_to_map_1; [apply numbered_nodup|].
  apply list_elem_of_lookup_2 with i. unfold numbered. by rewrite list_lookup_imap, E.
Qed.

Lemma seq_sorted i n : Sorted Z.le (Z.of_nat <$> seq i n).
Proof.
  revert i. induction n as [|n IH]; intros i; simpl; [constructor|]. constructor; [apply IH|].
  destruct n; simpl; constructor. lia.
Qed.

(** A complete fragment map, in order of the identifiers, is the packet. *)
Lemma complete_concat pieces :
  let m := (list_to_map (numbered pieces) : gmap Z (list Z)) in
  concat ((fun id => default [] (m !! id)) <$> merge_sort Z.le (map_to_list m).*1) = concat pieces.
Proof.
  intros m. assert (E : merge_sort Z.le (map_to_list m).*1 = Z.of_nat <$> seq 0 (length pieces)).
  { apply (Sorted_unique Z.le); [apply Sorted_merge_sort; apply _|apply seq_sorted|].
    rewrite merge_sort_Permutation, <- numbered_fst. apply fmap_Permutation.
    apply map_to_list_to_map, numbered_nodup. }
  rewrite E, <- list_fmap_compose. f_equal. apply list_eq. intros i. rewrite list_lookup_fmap.
  destruct (pieces !! i) as [c|] eqn:Ei.
  - rewrite lookup_seq_lt by by eapply lookup_lt_Some. simpl. unfold m.
    by rewrite (numbered_lookup _ _ _ Ei).
  - apply lookup_ge_None in Ei. by rewrite lookup_seq_ge.
Qed.

Definition frag_kv (f : UdpFrame) : Z * list Z := (frag_id f, payload f).

Section reassembly.
Context (pid tot : Z) (h : list Z) (p : Z) (pieces : list (list Z)).

(** The frames of the packet: its identifier, the count of pieces, one address. *)
Definition of_packet (f : UdpFrame) : Prop :=
  packet_id f = pid /\ frag_total f = tot /\ addr f = h /\ port f = p.

Definition is_frag (f : UdpFrame) : Prop := packet_id f = pid /\ 1 < frag_total f.
#[export] Instance is_frag_dec f : Decision (is_frag f).
Proof. unfold is_frag. apply _. Defined.

(** The table's entry after the frames [seen]. *)
Definition entry_ok (t : gmap Z FragBuffer) (seen : list UdpFrame) : Prop :=
  t !! pid = if decide (seen = []) then None
             else Some (MkFrag tot (Z.of_nat (length seen)) (list_to_map (frag_kv <$> seen)) h p).

Lemma relay_other t f :
  ~ is_frag f -> (relay_frame t f).1 !! pid = t !! pid.
Proof.
  unfold is_frag, relay_frame. intros Hn. case_decide; [done|]. simpl.
  assert (packet_id f <> pid) by (intros ?; apply Hn; split; [done|lia]).
  case_decide; simpl; [by rewrite lookup_delete_ne|by rewrite lookup_insert_ne].
Qed.

Context (Htot : tot = Z.of_nat (length pieces)) (Hrange : 1 < tot < 256).

Lemma relay_fragment t seen f :
  entry_ok t seen -> of_packet f -> NoDup (frag_kv <$> (f :: seen)).*1 ->
  (length seen < length pieces)%nat ->
  if decide (length pieces = length (f :: seen)) then
    entry_ok (relay_frame t f).1 [] /\
    (numbered pieces ≡ₚ frag_kv <$> (f :: seen) ->
      (relay_frame t f).2 = Some (h ++ [58] ++ dec p, concat pieces))
  else entry_ok (relay_frame t f).1 (f :: seen) /\ (relay_frame t f).2 = None.
Proof.
  intros He (Hpid & Ht & Ha & Hp) Hnd Hlen. unfold relay_frame.
  rewrite (decide_False (P := frag_total f <= 1)) by lia.
  assert (Hbuf : default (FragBuffer_new (frag_total f) (addr f) (port f)) (t !! packet_id f) =
    MkFrag tot (Z.of_nat (length seen)) (list_to_map (frag_kv <$> seen)) h p).
  { rewrite Hpid, He. case_decide as Hs; simpl; [subst; by rewrite Ha, Ht, Hp|done]. }
  rewrite Hbuf. unfold FragBuffer_insert. simpl frags. simpl total. simpl received.
  rewrite !fmap_cons in Hnd. apply NoDup_cons in Hnd as [Hnew Hnd]. simpl in Hnew.
  rewrite (not_elem_of_list_to_map_1 _ _ Hnew).
  unfold wrap. rewrite Z.mod_small by lia.
  destruct (decide (length pieces = length (f :: seen))) as [Hl|Hl]; simpl in Hl.
  - rewrite decide_True by lia. simpl. split.
    + unfold entry_ok. simpl. by rewrite Hpid, lookup_delete_eq.
    + intros Hperm.
      assert (Em : <[frag_id f := payload f]> (list_to_map (frag_kv <$> seen))
        = (list_to_map (numbered pieces) : gmap Z (list Z))).
      { symmetry. etrans; [apply (list_to_map_proper (M := gmap Z) _ _ (numbered_nodup pieces) Hperm)|].
        reflexivity. }
      rewrite Em. by rewrite complete_concat.
  - rewrite decide_False by lia. simpl. split; [|done]. unfold entry_ok.
    rewrite decide_False by done. rewrite Hpid, lookup_insert_eq. simpl. do 2 f_equal. lia.
Qed.

(** What is sent for the fragments of the packet, among the outputs [os]. *)
Definition frag_outputs (fs : list UdpFrame) (os : list (option (list Z * list Z)))
    : list (list Z * list Z) :=
  omap snd (filter (fun x => is_frag x.1) (zip fs os)).

Lemma relay_frames_cons t f fs :
  relay_frames t (f :: fs) =
    ((relay_frames (relay_frame t f).1 fs).1,
     (relay_frame t f).2 :: (relay_frames (relay_frame t f).1 fs).2).
Proof.
  cbn [relay_frames]. destruct (relay_frame t f) as [t1 o]. simpl.
  by destruct (relay_frames t1 fs).
Qed.

Lemma frag_outputs_cons f fs o os :
  frag_outputs (f :: fs) (o :: os) =
    (if decide (is_frag f) then (match o with Some x => [x] | None => [] end) else []) ++
    frag_outputs fs os.
Proof.
  unfold frag_outputs. simpl zip. rewrite filter_cons. simpl. case_decide; [|done].
  by destruct o.
Qed.

Lemma relay_no_frag fs t :
  filter is_frag fs = [] ->
  (relay_frames t fs).1 !! pid = t !! pid /\ frag_outputs fs (relay_frames t fs).2 = [].
Proof.
  revert t. induction fs as [|f fs IH]; intros t Hf; [done|].
  rewrite filter_cons in Hf. case_decide as Hd; [done|]. rewrite relay_frames_cons. simpl.
  destruct (IH (relay_frame t f).1 Hf) as [-> E]. rewrite relay_other by done. split; [done|].
  rewrite frag_outputs_cons, E. by rewrite decide_False.
Qed.

Lemma perm_count l : numbered pieces ≡ₚ frag_kv <$> l -> length pieces = length l.
Proof.
  intros Hp. apply Permutation_length in Hp. unfold numbered in Hp.
  by rewrite length_imap, length_fmap in Hp.
Qed.

Lemma relay_frames_run fs t seen :
  entry_ok t seen -> Forall of_packet (filter is_frag fs) ->
  numbered pieces ≡ₚ frag_kv <$> (seen ++ filter is_frag fs) ->
  (length seen < length pieces)%nat ->
  (relay_frames t fs).1 !! pid = None /\
  frag_outputs fs (relay_frames t fs).2 = [(h ++ [58] ++ dec p, concat pieces)].
Proof.
  revert t seen. induction fs as [|f fs IH]; intros t seen He Hof Hperm Hl.
  { apply perm_count in Hperm. rewrite app_nil_r in Hperm. lia. }
  rewrite relay_frames_cons. simpl. rewrite frag_outputs_cons, filter_cons in *.
  destruct (decide (is_frag f)) as [Hd|Hd].
  - apply Forall_cons_1 in Hof as [Hof1 Hof].
    assert (Hperm2 : numbered pieces ≡ₚ frag_kv <$> ((f :: seen) ++ filter is_frag fs)).
    { rewrite Hperm. apply fmap_Permutation. simpl. by rewrite Permutation_middle. }
    assert (Hnd : NoDup (frag_kv <$> (f :: seen)).*1).
    { pose proof (numbered_nodup pieces) as Hn. rewrite Hperm2, fmap_app, fmap_app in Hn.
      by apply NoDup_app in Hn as [Hn _]. }
    pose proof (relay_fragment t seen f He Hof1 Hnd Hl) as Hstep.
    case_decide as Hlast.
    + destruct Hstep as [He2 Ho]. assert (Hnil : filter is_frag fs = []).
      { apply perm_count in Hperm2. rewrite length_app in Hperm2. apply nil_length_inv. lia. }
      rewrite Hnil, app_nil_r in Hperm2. rewrite (Ho Hperm2).
      destruct (relay_no_frag fs (relay_frame t f).1 Hnil) as [-> ->]. split; [exact He2|done].
    + destruct Hstep as [He2 ->]. simpl.
      apply (IH _ (f :: seen)); [done..|].
      apply perm_count in Hperm2. rewrite length_app in Hperm2. simpl in *. lia.
  - simpl. apply (IH _ seen); [|done..]. unfold entry_ok. by rewrite relay_other.
Qed.
End reassembly.

(** *** The fragments the server's own framing produces *)

Definition built_frames (sid pid : Z) (a : SocketAddr) (payload : list Z) : list UdpFrame :=
  let cs := chunks DATAGRAM_MAX_PAYLOAD payload in
  imap (fun i c => MkFrame sid pid (Z.of_nat i) (Z.of_nat (length cs)) (socket_host a) (socket_port a) c) cs.

Lemma parse_built sid pid a payload :
  socket_ok a -> 0 <= sid < 2 ^ 32 -> 0 <= pid < 65536 ->
  (DATAGRAM_MAX_PAYLOAD < length payload)%nat ->
  (length (chunks DATAGRAM_MAX_PAYLOAD payload) <= 255)%nat ->
  parse_udp_frame <$> build_udp_frames sid pid a payload = Done <$> built_frames sid pid a payload.
Proof.
  intros Ha Hs Hp Hl Hn. unfold build_udp_frames, built_frames. rewrite decide_False by lia.
  destruct (socket_text a Ha) as (Hu & Hlen & Hsp).
  apply list_eq. intros i. rewrite !list_lookup_fmap, !list_lookup_imap.
  destruct (chunks DATAGRAM_MAX_PAYLOAD payload !! i) as [c|] eqn:E; [|done]. simpl. f_equal.
  apply lookup_lt_Some in E. unfold wrap. change (2 ^ 8) with 256. rewrite !Z.mod_small by lia.
  apply parse_build; try done; unfold byte_ok; lia.
Qed.

Lemma parse_built_small sid pid a payload :
  socket_ok a -> 0 <= sid < 2 ^ 32 -> 0 <= pid < 65536 ->
  (length payload <= DATAGRAM_MAX_PAYLOAD)%nat ->
  parse_udp_frame <$> build_udp_frames sid pid a payload =
    [Done (MkFrame sid pid 0 1 (socket_host a) (socket_port a) payload)].
Proof.
  intros Ha Hs Hp Hl. unfold build_udp_frames. rewrite decide_True by lia.
  destruct (socket_text a Ha) as (Hu & Hlen & Hsp). simpl. f_equal.
  apply parse_build; try done; unfold byte_ok; lia.
Qed.

Lemma chunks_small n (l : list Z) : l <> [] -> (length l <= n)%nat -> chunks n l = [l].
Proof.
  intros Hne Hl. unfold chunks. destruct l as [|x l]; [done|]. cbn [length chunks_fuel].
  rewrite take_ge, drop_ge by done. by destruct (length l).
Qed.

Lemma built_frames_ok sid pid a payload :
  let cs := chunks DATAGRAM_MAX_PAYLOAD payload in
  1 < Z.of_nat (length cs) ->
  frag_kv <$> built_frames sid pid a payload = numbered cs /\
  Forall (of_packet pid (Z.of_nat (length cs)) (socket_host a) (socket_port a))
    (built_frames sid pid a payload).
Proof.
  intros cs Hn. unfold built_frames, numbered. fold cs. split.
  - apply list_eq. intros i. rewrite list_lookup_fmap, !list_lookup_imap. by destruct (cs !! i).
  - apply Forall_lookup. intros i f. rewrite list_lookup_imap. destruct (cs !! i); [|done].
    intros [= <-]. done.
Qed.

(** C14: UDP packets survive framing, fragmentation and reordering.  A packet of
    up to 255 pieces of 1100 bytes, framed by [build_udp_frames] and parsed by
    [parse_udp_frame], is sent on by [relay_frame] exactly once, to the framed
    address, with exactly its payload: a small packet at its frame, a large one
    when its last fragment arrives, in whatever order its fragments come and
    whatever frames of other packets come between them; nothing of it stays in
    the fragment table. *)
Theorem udp_packets_survive sid pid a payload :
  socket_ok a -> 0 <= sid < 2 ^ 32 -> 0 <= pid < 65536 -> Z.of_nat (length payload) <= 1100 * 255 ->
  let target := socket_host a ++ [58] ++ dec (socket_port a) in
  exists frames, parse_udp_frame <$> build_udp_frames sid pid a payload = Done <$> frames /\
  if decide (length payload <= DATAGRAM_MAX_PAYLOAD)%nat then
    exists f, frames = [f] /\ forall t, relay_frame t f = (t, Some (target, payload))
  else
    forall t fs, t !! pid = None -> filter (is_frag pid) fs ≡ₚ frames ->
    (relay_frames t fs).1 !! pid = None /\
    frag_outputs pid fs (relay_frames t fs).2 = [(target, payload)].
Proof.
  intros Ha Hs Hp Hl target. case_decide as Hsmall.
  { eexists [_]. split; [by apply parse_built_small|]. eexists; split; [done|]. done. }
  assert (Hmax : DATAGRAM_MAX_PAYLOAD = Z.to_nat 1100) by done.
  assert (Hcount : (1 < length (chunks DATAGRAM_MAX_PAYLOAD payload) <= 255)%nat).
  { rewrite chunks_count, Hmax by lia. split.
    - apply Nat.div_le_lower_bound; lia.
    - apply Nat.lt_succ_r, Nat.Div0.div_lt_upper_bound; lia. }
  exists (built_frames sid pid a payload). split; [apply parse_built; try done; lia|].
  intros t fs Ht Hperm. destruct (built_frames_ok sid pid a payload) as [Hkv Hof]; [lia|].
  destruct (relay_frames_run pid (Z.of_nat (length (chunks DATAGRAM_MAX_PAYLOAD payload)))
    (socket_host a) (socket_port a) (chunks DATAGRAM_MAX_PAYLOAD payload) eq_refl ltac:(lia) fs t [])
    as [-> ->]; [exact Ht|by rewrite Hperm|by rewrite <- Hkv; simpl; rewrite Hperm|simpl; lia|].
  split; [done|]. by rewrite chunks_concat by lia.
Qed.

Lemma relay_duplicate t f k :
  1 < frag_total f < 256 -> 0 < k < frag_total f ->
  t !! packet_id f = Some (MkFrag (frag_total f) k {[frag_id f := payload f]} (addr f) (port f)) ->
  relay_frame t f =
    if decide (k + 1 = frag_total f)
    then (delete (packet_id f) t, Some (addr f ++ [58] ++ dec (port f), payload f))
    else (<[packet_id f := MkFrag (frag_total f) (k + 1) {[frag_id f := payload f]} (addr f) (port f)]> t,
          None).
Proof.
  intros Hn Hk Ht. unfold relay_frame. rewrite decide_False by lia. rewrite Ht. simpl.
  unfold FragBuffer_insert. simpl. rewrite lookup_singleton_eq. unfold wrap.
  rewrite Z.mod_small by lia. case_decide; case_decide; try lia; [|done].
  rewrite map_to_list_singleton. simpl. rewrite lookup_singleton_eq. simpl. by rewrite app_nil_r.
Qed.

Lemma relay_duplicates t f m k :
  1 < frag_total f < 256 -> 0 < k -> k + Z.of_nat (S m) = frag_total f ->
  t !! packet_id f = Some (MkFrag (frag_total f) k {[frag_id f := payload f]} (addr f) (port f)) ->
  (relay_frames t (replicate (S m) f)).2 =
    replicate m None ++ [Some (addr f ++ [58] ++ dec (port f), payload f)].
Proof.
  intros Hn. revert t k. induction m as [|m IH]; intros t k Hk Hm Ht;
    change (replicate (S ?m) f) with (f :: replicate m f); rewrite relay_frames_cons.
  - rewrite (relay_duplicate t f k) by (done || lia). by rewrite decide_True by lia.
  - rewrite (relay_duplicate t f k) by (done || lia). rewrite decide_False by lia.
    cbn [fst snd]. change (f :: replicate m f) with (replicate (S m) f).
    rewrite (IH _ (k + 1)); [done|lia|lia|]. by rewrite lookup_insert_eq.
Qed.

(** duplicates are counted.  One fragment of an [n]-piece packet, received [n]
    times (QUIC datagrams and the networks under them may duplicate), is sent
    on as the complete packet: the other pieces are missing from what is sent. *)
Theorem duplicate_fragment_completes t f :
  1 < frag_total f < 256 -> t !! packet_id f = None ->
  (relay_frames t (replicate (Z.to_nat (frag_total f)) f)).2 =
    replicate (Z.to_nat (frag_total f) - 1) None ++
    [Some (addr f ++ [58] ++ dec (port f), payload f)].
Proof.
  intros Hn Ht. destruct (Z.to_nat (frag_total f)) as [|[|m]] eqn:Em; [lia..|].
  change (replicate (S (S m)) f) with (f :: replicate (S m) f). rewrite relay_frames_cons.
  assert (E : relay_frame t f = (<[packet_id f :=
    MkFrag (frag_total f) 1 {[frag_id f := payload f]} (addr f) (port f)]> t, None)).
  { unfold relay_frame. rewrite decide_False by lia. rewrite Ht. simpl.
    unfold FragBuffer_insert. simpl. rewrite lookup_empty.
    change (u8 (0 + 1)) with 1. by rewrite decide_False by lia. }
  rewrite E. cbn [fst snd].
  rewrite (relay_duplicates _ f m 1); [|done|lia|lia|by rewrite lookup_insert_eq].
  by replace (S (S m) - 1)%nat with (S m) by lia.
Qed.

(** *** Witnesses *)

Definition demo_env : env :=
  Env (fun _ => true) (fun _ _ => ConnOk) (fun _ _ => 2%nat) (fun _ _ => [3]).
Definition demo_addr : list Z := str "a.example:443".
Definition demo_request : list Z :=
  write_varint FRAME_TYPE_TCP ++ write_varint (Z.of_nat (length demo_addr)) ++ demo_addr ++
  write_varint 2 ++ [0; 0].
Definition demo_conn : conn := Conn (demo_request ++ [1; 2]) [].
Definition demo_frame (i : Z) (c : list Z) : UdpFrame := MkFrame 7 9 i 3 (str "1.2.3.4") 53 c.

Lemma varint_roundtrip_witness :
  read_varint (write_varint 70000 ++ [5]) = (Done 70000, [5]).
Proof.
  destruct (proj1 (@varint_roundtrip (list Z) slice_source slice_laws) 70000 ltac:(lia)
    (write_varint 70000 ++ [5]) [5] eq_refl) as (s' & E & P & _).
  rewrite E. simpl in P. unfold id in P. by rewrite P.
Defined.

Lemma large_padding_not_discarded_witness :
  exists s', read_tcp_request (write_varint 1 ++ [97] ++ write_varint 4097 ++
    replicate (Z.to_nat 4097) 0 ++ [1; 2]) = (Done [97], s').
Proof.
  destruct (@large_padding_not_discarded (list Z) slice_source slice_laws [97]
    (replicate (Z.to_nat 4097) 0) [1; 2] (write_varint 1 ++ [97] ++ write_varint 4097 ++
    replicate (Z.to_nat 4097) 0 ++ [1; 2])) as (s' & E & _).
  - split; [simpl; lia|reflexivity].
  - rewrite length_replicate. lia.
  - rewrite length_replicate, Z2Nat.id by lia. reflexivity.
  - exists s'. exact E.
Defined.

Lemma handle_tcp_bidi_actions_witness :
  let s' := Conn [] [EvConnect demo_addr; EvWrite (tcp_response true (str "Connected") [120]);
                     EvRelay demo_addr [1; 2] [3]] in
  handle_tcp_bidi demo_env [] [120] demo_conn = (Done tt, s') /\
  exists ft bs addr pad_len rest, is_varint ft FRAME_TYPE_TCP /\ addr_ok addr /\
    request_wire bs addr pad_len /\ c_in demo_conn = ft ++ bs ++ rest.
Proof.
  assert (Hok : bytes_ok (c_in demo_conn))
    by (apply (bool_decide_eq_true (bytes_ok (c_in demo_conn))); vm_compute; reflexivity).
  intros s'.
  assert (E : handle_tcp_bidi demo_env [] [120] demo_conn = (Done tt, s')) by reflexivity.
  split; [exact E|].
  destruct (proj2 (handle_tcp_bidi_actions demo_env [] [120] demo_conn _ s' Hok E))
    as [H|(ft & bs & a & pl & rest & H1 & H2 & H3 & H4 & _)]; [discriminate H|].
  exists ft, bs, a, pl, rest. exact (conj H1 (conj H2 (conj H3 H4))).
Defined.

Definition demo_packet : list Z := replicate (Z.to_nat 1500) 5.

Lemma udp_packets_survive_witness :
  exists frames, parse_udp_frame <$> build_udp_frames 7 9 (V4 [1; 2; 3; 4] 53) demo_packet
      = Done <$> frames /\
    forall t fs, t !! 9 = None -> filter (is_frag 9) fs ≡ₚ frames ->
    frag_outputs 9 fs (relay_frames t fs).2 = [(str "1.2.3.4:53", demo_packet)].
Proof.
  destruct (udp_packets_survive 7 9 (V4 [1; 2; 3; 4] 53) demo_packet) as (frames & E & H).
  - split; [reflexivity|]. split; [repeat constructor; unfold byte_ok; lia|unfold port_ok; lia].
  - lia.
  - lia.
  - unfold demo_packet. rewrite length_replicate. lia.
  - exists frames. split; [exact E|]. intros t fs Ht Hp.
    destruct (decide (length demo_packet <= DATAGRAM_MAX_PAYLOAD)%nat) as [Hl|_].
    + exfalso. unfold demo_packet, DATAGRAM_MAX_PAYLOAD in Hl. rewrite length_replicate in Hl. lia.
    + exact (proj2 (H t fs Ht Hp)).
Defined.

Lemma duplicate_fragment_completes_witness :
  (relay_frames ∅ (replicate 3 (demo_frame 0 [1]))).2 = [None; None; Some (str "1.2.3.4:53", [1])].
Proof. apply (duplicate_fragment_completes ∅ (demo_frame 0 [1])); [simpl; lia|reflexivity]. Defined.

Lemma proxy_varint_limits_witness :
  read_varint_bytes (write_varint_bytes 300 ++ [1]) = (Done 300, [1]) /\
  read_varint_bytes (write_varint_bytes 20000 ++ [1]) = (Done 78, [32; 1]).
Proof.
  split.
  - apply (proxy_varint_limits 300 [1]). lia.
  - apply (proxy_varint_limits 20000 [1]). lia.
Defined.
