(* ===== verification/HysteriaServer.v ===== *)
(** * Hysteria 2: the connection's authentication phase and its UDP sessions
    ([handle_connection], [datagram_loop] of [src/src/hysteria2/server.rs] and
    [handle_udp_session] of [src/src/hysteria2/proxy.rs])

    The session map is shared between the datagram loop and the session tasks;
    [sstep] is one step of one of them, so that every interleaving is a sequence
    of events. *)
From S2P Require Import Prelude RustStd Net Target Hysteria.

(** ** Authentication *)

Definition AUTH_HOST : list Z := str "hysteria".
Definition AUTH_PATH : list Z := str "/auth".

(** What the loop looks at in an HTTP/3 request; [auth_header] is the header
    [Hysteria-Auth] if it is there and readable as text. *)
Record Request := {
  method : list Z;
  uri_host : option (list Z);
  uri_path : list Z;
  auth_header : option (list Z);
}.

Inductive AuthConfig := Password (password : list Z) | AuthNone.

(** What [h3.accept] and [resolve_request] deliver. *)
Inductive h3_event :=
| H3Request (req : Request)
| H3ResolveError
| H3Closed
| H3Error.

Inductive action :=
| SpawnMasquerade (req : Request)
| SendAuthOk (cc_rx : list Z)
| SendAuthFail
| CloseConnection (code : Z).

Definition is_auth (req : Request) : bool :=
  bool_decide (method req = str "POST") &&
  bool_decide (default [] (uri_host req) = AUTH_HOST) &&
  bool_decide (uri_path req = AUTH_PATH).

Definition auth_ok (auth : AuthConfig) (req : Request) : bool :=
  let auth_val := default [] (auth_header req) in
  match auth with
  | Password password => bool_decide (auth_val = password)
  | AuthNone => true
  end.

(** The loop waits for more events, has ended the connection, or has let the
    connection into the proxy phase. *)
Inductive phase := Waiting | Ended | Authenticated.
#[export] Instance phase_eq_dec : EqDecision phase.
Proof. solve_decision. Defined.

(** [send_ok]: whether writing the 233 response succeeds ([send_auth_ok(..)?]). *)
Fixpoint auth_phase (auth : AuthConfig) (down_bps : option Z) (send_ok : bool) (evs : list h3_event)
    : list action * phase :=
  match evs with
  | [] => ([], Waiting)
  | H3Request req :: evs =>
      if is_auth req then
        if auth_ok auth req then
          let cc_rx := match down_bps with Some bps => dec bps | None => str "0" end in
          if send_ok then ([SendAuthOk cc_rx], Authenticated) else ([], Ended)
        else ([SendAuthFail; CloseConnection 1], Ended)
      else
        let '(acts, p) := auth_phase auth down_bps send_ok evs in
        (SpawnMasquerade req :: acts, p)
  | H3ResolveError :: evs => auth_phase auth down_bps send_ok evs
  | H3Closed :: _ => ([], Ended)
  | H3Error :: _ => ([], Ended)
  end.

(** ** UDP sessions *)

(** A session task: the frames sent to its channel and not yet taken (the first
    one is passed directly and counts as taken first), whether its receiver is
    still there, its fragment table.  [accepted] and [done] record the frames
    it was given and has relayed. *)
Record session := Session {
  s_id : Z;
  s_queue : list UdpFrame;
  s_open : bool;
  s_table : gmap Z FragBuffer;
  s_accepted : list UdpFrame;
  s_done : list UdpFrame;
  s_sent : list (option (list Z * list Z));
}.

Definition CHANNEL_SIZE : nat := 256.

Record sstate := SState {
  smap : gmap Z nat;
  sessions : gmap nat session;
  next : nat;
}.

Definition sstate0 : sstate := SState ∅ ∅ 0.

Inductive sevent :=
| Datagram (data : list Z)    (** the datagram loop receives one *)
| Relay (ch : nat)            (** a session relays its next frame *)
| Close (ch : nat)            (** a session ends: idle, or its channel is closed *)
| Cleanup (ch : nat).         (** the task of an ended session clears the map *)

Definition new_session (sid : Z) (f : UdpFrame) : session :=
  Session sid [f] true ∅ [f] [] [].

(** [tx.send(frame)] to a session. *)
Definition push (s : session) (f : UdpFrame) : session :=
  Session (s_id s) (s_queue s ++ [f]) (s_open s) (s_table s) (s_accepted s ++ [f]) (s_done s) (s_sent s).

(** The first frame does not take a place in the channel. *)
Definition capacity (s : session) : nat :=
  if decide (s_done s = []) then S CHANNEL_SIZE else CHANNEL_SIZE.

(** One step; [None] where the event cannot happen ([send] waits while the
    channel is full; a session with frames in its channel does not end, unless it
    could not bind its socket). *)
Definition sstep (st : sstate) (e : sevent) : option sstate :=
  match e with
  | Datagram data =>
      match parse_udp_frame data with
      | Done f =>
          let sid := session_id f in
          match smap st !! sid with
          | Some ch =>
              s ← sessions st !! ch;
              if s_open s then
                if decide (length (s_queue s) < capacity s)%nat
                then Some (SState (smap st) (<[ch := push s f]> (sessions st)) (next st))
                else None
              else Some (SState (delete sid (smap st)) (sessions st) (next st))
          | None =>
              let ch := next st in
              Some (SState (<[sid := ch]> (smap st))
                           (<[ch := new_session sid f]> (sessions st)) (S ch))
          end
      | _ => Some st
      end
  | Relay ch =>
      s ← sessions st !! ch;
      if s_open s then
        match s_queue s with
        | f :: q =>
            let '(t, o) := relay_frame (s_table s) f in
            Some (SState (smap st)
              (<[ch := Session (s_id s) q true t (s_accepted s) (s_done s ++ [f]) (s_sent s ++ [o])]>
                 (sessions st)) (next st))
        | [] => None
        end
      else None
  | Close ch =>
      s ← sessions st !! ch;
      if s_open s && bool_decide (s_queue s = [] \/ s_done s = []) then
        Some (SState (smap st)
          (<[ch := Session (s_id s) (s_queue s) false (s_table s) (s_accepted s) (s_done s) (s_sent s)]>
             (sessions st)) (next st))
      else None
  | Cleanup ch =>
      s ← sessions st !! ch;
      if s_open s then None
      else Some (SState (delete (s_id s) (smap st)) (sessions st) (next st))
  end.

Inductive reachable : sstate -> Prop :=
| reach0 : reachable sstate0
| reach_step st e st' : reachable st -> sstep st e = Some st' -> reachable st'.

Fixpoint srun (st : sstate) (es : list sevent) : option sstate :=
  match es with [] => Some st | e :: es => sstep st e ≫= fun st' => srun st' es end.

(** ** Invariant *)

Definition session_ok (s : session) : Prop :=
  s_accepted s = s_done s ++ s_queue s /\
  (s_table s, s_sent s) = relay_frames ∅ (s_done s) /\
  Forall (fun f => session_id f = s_id s) (s_accepted s).

Definition inv (st : sstate) : Prop :=
  (forall sid ch, smap st !! sid = Some ch -> exists s, sessions st !! ch = Some s /\ s_id s = sid) /\
  (forall ch s, sessions st !! ch = Some s -> (ch < next st)%nat /\ session_ok s).

Lemma relay_frames_snoc t fs f :
  relay_frames t (fs ++ [f]) =
    let '(t1, os) := relay_frames t fs in
    let '(t2, o) := relay_frame t1 f in (t2, os ++ [o]).
Proof.
  revert t. induction fs as [|g fs IH]; intros t; simpl.
  - by destruct (relay_frame t f).
  - destruct (relay_frame t g) as [t1 o1]. rewrite IH. destruct (relay_frames t1 fs) as [t2 os].
    by destruct (relay_frame t2 f).
Qed.

(** Replacing a session by one with the same identifier keeps the invariant. *)
Lemma inv_update st ch s s' :
  inv st -> sessions st !! ch = Some s -> s_id s' = s_id s -> session_ok s' ->
  inv (SState (smap st) (<[ch := s']> (sessions st)) (next st)).
Proof.
  intros [Hm Hs] Hc Hid Hok. split; simpl.
  - intros sid c Hsid. destruct (Hm _ _ Hsid) as (s0 & H0 & <-).
    destruct (decide (c = ch)) as [->|Hne].
    + rewrite lookup_insert_eq. exists s'. split; [done|]. congruence.
    + rewrite lookup_insert_ne by done. eauto.
  - intros c s0. rewrite lookup_insert_Some. intros [[<- <-]|[_ H0]]; [|eauto].
    split; [|done]. by eapply Hs.
Qed.

Lemma inv_delete st sid : inv st -> inv (SState (delete sid (smap st)) (sessions st) (next st)).
Proof.
  intros [Hm Hs]. split; simpl; [|done]. intros sid' ch [_ Hc]%lookup_delete_Some. eauto.
Qed.

Lemma sstep_inv st e st' : inv st -> sstep st e = Some st' -> inv st'.
Proof.
  intros Hinv. pose proof Hinv as [Hm Hs]. destruct e as [data|ch|ch|ch]; simpl.
  - destruct (parse_udp_frame data) as [f|e|]; [|by intros [= <-]..].
    destruct (smap st !! session_id f) as [ch|] eqn:Ec.
    + destruct (Hm _ _ Ec) as (s & Es & Hid). rewrite Es. simpl.
      destruct (s_open s); [|intros [= <-]; by apply inv_delete].
      case_decide; [|done]. intros [= <-]. eapply inv_update; [done..|].
      destruct (Hs _ _ Es) as [_ (Ha & Hr & Hf)]. split_and!; simpl; [by rewrite Ha, app_assoc|done|].
      rewrite Forall_app, Forall_singleton. by split.
    + intros [= <-]. split; simpl.
      * intros sid c. rewrite lookup_insert_Some. intros [[<- <-]|[Hne Hc]].
        { eexists. by rewrite lookup_insert_eq. }
        destruct (Hm _ _ Hc) as (s & Es & Hid). exists s.
        destruct (Hs _ _ Es) as [Hlt _]. rewrite lookup_insert_ne by lia. done.
      * intros c s. rewrite lookup_insert_Some. intros [[<- <-]|[Hne Hc]].
        { split; [lia|]. split_and!; simpl; [done|done|]. by rewrite Forall_singleton. }
        destruct (Hs _ _ Hc). split; [lia|done].
  - destruct (sessions st !! ch) as [s|] eqn:Es; [|done]. simpl.
    destruct (s_open s); [|done]. destruct (s_queue s) as [|f q] eqn:Eq; [done|].
    destruct (relay_frame (s_table s) f) as [t o] eqn:Er. intros [= <-].
    eapply inv_update; [done..|]. destruct (Hs _ _ Es) as [_ (Ha & Hr & Hf)].
    split_and!; simpl; [by rewrite Ha, Eq, <- app_assoc| |done].
    by rewrite relay_frames_snoc, <- Hr, Er.
  - destruct (sessions st !! ch) as [s|] eqn:Es; [|done]. simpl.
    destruct (s_open s && _) eqn:Eo; [|done]. intros [= <-].
    eapply inv_update; [done..|]. destruct (Hs _ _ Es) as [_ (Ha & Hr & Hf)]. by split_and!.
  - destruct (sessions st !! ch) as [s|] eqn:Es; [|done]. simpl.
    destruct (s_open s); [done|]. intros [= <-]. by apply inv_delete.
Qed.

Lemma reachable_inv st : reachable st -> inv st.
Proof.
  induction 1 as [|st e st' _ IH Hst]; [|by eapply sstep_inv].
  split; simpl; [intros ? ? H|intros ? ? H]; by rewrite lookup_empty in H.
Qed.

Lemma srun_reachable st es st' : reachable st -> srun st es = Some st' -> reachable st'.
Proof.
  revert st. induction es as [|e es IH]; intros st Hr; simpl; [by intros [= <-]|].
  destruct (sstep st e) as [st1|] eqn:E; [|done]. simpl. apply IH. by econstructor.
Qed.

(** ** Properties *)

(** Events the loop passes over, and the masquerade tasks they start. *)
Definition auth_request (r : Request) : Prop :=
  method r = str "POST" /\ uri_host r = Some (str "hysteria") /\ uri_path r = str "/auth".
Definition credential (auth : AuthConfig) (r : Request) : Prop :=
  match auth with
  | Password password => auth_header r = Some password \/ (auth_header r = None /\ password = [])
  | AuthNone => True
  end.
Definition passed_over (e : h3_event) : Prop :=
  match e with H3Request r => ~ auth_request r | H3ResolveError => True | _ => False end.
Definition masquerades (evs : list h3_event) : list action :=
  omap (fun e => match e with H3Request r => Some (SpawnMasquerade r) | _ => None end) evs.
Definition cc_rx (down_bps : option Z) : list Z :=
  match down_bps with Some bps => dec bps | None => str "0" end.

Lemma is_auth_spec r : is_auth r = true <-> auth_request r.
Proof.
  unfold is_auth, auth_request. rewrite !andb_true_iff, !bool_decide_eq_true.
  destruct (uri_host r) as [h|]; simpl; naive_solver.
Qed.

Lemma not_auth_spec r : is_auth r = false <-> ~ auth_request r.
Proof. rewrite <- is_auth_spec. by destruct (is_auth r). Qed.

Lemma auth_ok_spec auth r : auth_ok auth r = true <-> credential auth r.
Proof.
  destruct auth as [pw|]; simpl; [|done]. rewrite bool_decide_eq_true.
  destruct (auth_header r); simpl; naive_solver.
Qed.

Lemma auth_phase_skip auth d ok pre evs :
  Forall passed_over pre ->
  auth_phase auth d ok (pre ++ evs) =
    (masquerades pre ++ (auth_phase auth d ok evs).1, (auth_phase auth d ok evs).2).
Proof.
  induction 1 as [|e pre He _ IH]; simpl; [by destruct (auth_phase auth d ok evs)|].
  destruct e as [r| | |]; try done. apply not_auth_spec in He. by rewrite He, IH.
Qed.

(** C8: no proxying before authentication.  The connection enters the proxy
    phase exactly when the first request that is a POST to "/auth" on the host
    "hysteria" carries the configured password (or none is configured) and the
    233 response could be sent; every request before it is masqueraded and
    nothing else is done.  A wrong credential ends the connection with a 403 and
    a close, whatever follows. *)
Theorem auth_phase_gate auth d ok evs :
  (forall acts, auth_phase auth d ok evs = (acts, Authenticated) <->
     ok = true /\ exists pre req post, evs = pre ++ H3Request req :: post /\
       Forall passed_over pre /\ auth_request req /\ credential auth req /\
       acts = masquerades pre ++ [SendAuthOk (cc_rx d)]) /\
  (forall pre req post, evs = pre ++ H3Request req :: post -> Forall passed_over pre ->
     auth_request req -> ~ credential auth req ->
     auth_phase auth d ok evs = (masquerades pre ++ [SendAuthFail; CloseConnection 1], Ended)).
Proof.
  split.
  - intros acts. split.
    + revert acts. induction evs as [|e evs IH]; intros acts; simpl; [done|].
      destruct e as [req| | |]; try done.
      * destruct (is_auth req) eqn:Ea.
        { destruct (auth_ok auth req) eqn:Eo; [|done]. destruct ok; [|done]. intros [= <-].
          apply is_auth_spec in Ea. apply auth_ok_spec in Eo.
          split; [done|]. by exists [], req, evs. }
        destruct (auth_phase auth d ok evs) as [acts1 p1] eqn:E1. intros [= <- ->].
        destruct (IH acts1 eq_refl) as (Hok & pre & r & post & -> & Hp & Ha & Ho & ->).
        split; [done|]. exists (H3Request req :: pre), r, post. split_and!; try done.
        constructor; [by apply not_auth_spec|done].
      * intros E. destruct (IH acts E) as (Hok & pre & r & post & -> & Hp & Ha & Ho & ->).
        split; [done|]. exists (H3ResolveError :: pre), r, post. split_and!; try done. by constructor.
    + intros (-> & pre & req & post & -> & Hp & Ha & Ho & ->).
      rewrite auth_phase_skip by done. apply is_auth_spec in Ha. apply auth_ok_spec in Ho.
      simpl. by rewrite Ha, Ho.
  - intros pre req post -> Hp Ha Ho. rewrite auth_phase_skip by done. apply is_auth_spec in Ha.
    rewrite <- auth_ok_spec in Ho. apply not_true_is_false in Ho. simpl. by rewrite Ha, Ho.
Qed.

(** the UDP sessions refine a simple specification, under every interleaving
    of datagrams, relaying, session ends and clean-ups.  In every reachable
    state the map sends an identifier to a session of that identifier only; and
    every session was given frames of its identifier only, has relayed them in
    the order they came, each once, and has sent exactly what [relay_frames]
    sends for the relayed ones. *)
Theorem sessions_refine st :
  reachable st ->
  (forall sid ch, smap st !! sid = Some ch -> exists s, sessions st !! ch = Some s /\ s_id s = sid) /\
  (forall ch s, sessions st !! ch = Some s ->
     s_accepted s = s_done s ++ s_queue s /\ s_sent s = (relay_frames ∅ (s_done s)).2 /\
     Forall (fun f => session_id f = s_id s) (s_accepted s)).
Proof.
  intros [Hm Hs]%reachable_inv. split; [done|]. intros ch s Hc.
  destruct (Hs _ _ Hc) as [_ (Ha & Hr & Hf)]. split_and!; [done| |done]. by rewrite <- Hr.
Qed.

(** A datagram of session 7. *)
Definition race_frame : list Z := build_single_udp_frame 7 0 0 1 (str "1.2.3.4:53") [42].
(** A session ends; before its task clears the map a datagram arrives (it is
    lost) and another one (it starts a second session); then the clean-up of
    the first runs. *)
Definition race : list sevent :=
  [Datagram race_frame; Relay 0; Close 0; Datagram race_frame; Datagram race_frame; Cleanup 0].

(** a finished session's clean-up can remove its successor.  There is an
    interleaving after which a session that is open, with a frame waiting, is
    no longer in the map, so that the next datagram of the same identifier
    starts a third one; and of the three datagrams the second was given to no
    session. *)
Theorem stale_cleanup_orphans_session :
  exists st st' s1, srun sstate0 race = Some st /\ reachable st /\
    smap st !! 7 = None /\ sessions st !! 1%nat = Some s1 /\ s_open s1 = true /\
    length (s_queue s1) = 1%nat /\
    sstep st (Datagram race_frame) = Some st' /\ smap st' !! 7 = Some 2%nat /\
    (exists s0, sessions st !! 0%nat = Some s0 /\ length (s_accepted s0 ++ s_accepted s1) = 2%nat).
Proof.
  destruct (srun sstate0 race) as [st|] eqn:E; [|by vm_compute in E].
  pose proof (srun_reachable _ _ _ reach0 E) as Hr.
  vm_compute in E. injection E as <-. do 3 eexists.
  split; [reflexivity|]. split; [exact Hr|].
  split; [reflexivity|]. split; [reflexivity|]. split; [reflexivity|]. split; [reflexivity|].
  split; [reflexivity|]. split; [reflexivity|]. eexists; split; reflexivity.
Qed.

(** *** Witnesses *)

Definition demo_req (cred : list Z) : Request :=
  {| method := str "POST"; uri_host := Some (str "hysteria"); uri_path := str "/auth";
     auth_header := Some cred |}.

Lemma auth_phase_gate_witness :
  auth_phase (Password (str "pw")) None true [H3ResolveError; H3Request (demo_req (str "no"))]
    = ([SendAuthFail; CloseConnection 1], Ended).
Proof.
  apply (proj2 (auth_phase_gate (Password (str "pw")) None true
    [H3ResolveError; H3Request (demo_req (str "no"))]) [H3ResolveError] (demo_req (str "no")) []);
    [reflexivity|repeat constructor|repeat split|].
  intros [H|[H _]]; discriminate H.
Defined.

Lemma sessions_refine_witness :
  exists st s, srun sstate0 [Datagram race_frame; Datagram race_frame; Relay 0] = Some st /\
    sessions st !! 0%nat = Some s /\ length (s_queue s) = 1%nat /\
    s_sent s = (relay_frames ∅ (s_done s)).2.
Proof.
  destruct (srun sstate0 [Datagram race_frame; Datagram race_frame; Relay 0]) as [st|] eqn:E;
    [|vm_compute in E; discriminate E].
  pose proof (sessions_refine st (srun_reachable _ _ _ reach0 E)) as [_ H].
  vm_compute in E. injection E as <-. eexists _, _. split; [reflexivity|]. split; [reflexivity|].
  split; [reflexivity|]. exact (proj1 (proj2 (H 0%nat _ eq_refl))).
Defined.
