(* ===== verification/HysteriaConn.v ===== *)
(** * Hysteria 2: a whole connection ([handle_connection], [quic_tcp_loop] of
    [src/src/hysteria2/server.rs], the receiving task of [handle_udp_session] of
    [src/src/hysteria2/proxy.rs])

    A connection first serves HTTP/3 until a client has authenticated; then one loop
    takes its streams and another its datagrams, until one of the two ends and
    the connection is closed.  [hstep] is one step of the connection, its loops
    or its tasks, composed of the steps of [HysteriaServer] and the handler of a
    stream ([Hysteria]). *)
From S2P Require Import Prelude RustStd Net Target Hysteria HysteriaServer.

(** A bidirectional stream: what the client sends on it, and what its handler
    meets (the network, the text of an error, the random padding). *)
Record bidi := Bidi { b_in : list Z; b_env : env; b_error : list Z; b_padding : list Z }.

Inductive haction :=
| HDo (a : action)                                  (** of the connection itself *)
| HStream (b : bidi) (tr : list event)              (** a stream's handler did [tr] *)
| HUdp (sid : Z) (target payload : list Z)          (** [send_to] of a session's socket *)
| HClient (bs : list Z).                            (** a datagram to the client *)

(** [hc_streams], [hc_datagrams]: the two loops run.  [hc_recv]: the sessions whose
    receiving task runs, with the packet identifier of its next packet. *)
Record hconn := HConn {
  hc_phase : phase;
  hc_streams : bool;
  hc_datagrams : bool;
  hc_udp : sstate;
  hc_recv : gmap nat Z;
  hc_trace : list haction;
}.
Definition hconn0 : hconn := HConn Waiting false false sstate0 ∅ [].

Inductive hlabel :=
| HEvent (e : h3_event) (send_ok : bool)            (** the HTTP/3 loop *)
| HBidi (b : bidi)                                  (** a stream is accepted, and handled *)
| HBidiError
| HDatagram (data : list Z)
| HDatagramError
| HRelay (ch : nat)                                 (** a session relays a frame *)
| HClose (ch : nat)                                 (** its loop ends *)
| HCleanup (ch : nat)
| HRecv (ch : nat) (src : SocketAddr) (payload : list Z) (k : nat)
    (** its receiving task gets a packet; [k] of its datagrams can be sent *)
| HRecvEnd (ch : nat)                               (** an error, or idle *)
| HSelect.                                          (** one of the loops has ended *)

Section connection.
(** [cfg.auth] and [cfg.bandwidth.down_bps()]. *)
Context (auth : AuthConfig) (down_bps : option Z).

Definition emit (es : list haction) (st : hconn) : hconn :=
  HConn (hc_phase st) (hc_streams st) (hc_datagrams st) (hc_udp st) (hc_recv st) (hc_trace st ++ es).
Definition set_udp (u : sstate) (st : hconn) : hconn :=
  HConn (hc_phase st) (hc_streams st) (hc_datagrams st) u (hc_recv st) (hc_trace st).
Definition set_recv (m : gmap nat Z) (st : hconn) : hconn :=
  HConn (hc_phase st) (hc_streams st) (hc_datagrams st) (hc_udp st) m (hc_trace st).

(** One turn of the HTTP/3 loop; after the authentication both loops start. *)
Definition h3_turn (e : h3_event) (send_ok : bool) (st : hconn) : hconn :=
  let '(acts, p) := auth_phase auth down_bps send_ok [e] in
  let started := bool_decide (p = Authenticated) in
  emit (HDo <$> acts) (HConn p started started (hc_udp st) (hc_recv st) (hc_trace st)).

(** A stream's task. *)
Definition bidi_task (b : bidi) : outcome unit * conn :=
  handle_tcp_bidi (b_env b) (b_error b) (b_padding b) (Conn (b_in b) []).

(** A session relays its next frame; after the first its receiving task starts. *)
Definition relay_step (ch : nat) (st : hconn) : option hconn :=
  s ← sessions (hc_udp st) !! ch;
  u ← sstep (hc_udp st) (Relay ch);
  s' ← sessions u !! ch;
  o ← last (s_sent s');
  let recv := if decide (s_done s = []) then <[ch := 0]> (hc_recv st) else hc_recv st in
  Some (emit (match o with Some (t, p) => [HUdp (s_id s) t p] | None => [] end) (set_recv recv (set_udp u st))).

(** The receiving task: a packet's datagrams; it ends when one cannot be sent. *)
Definition receive_step (ch : nat) (src : SocketAddr) (payload : list Z) (k : nat) (st : hconn) : option hconn :=
  pid ← hc_recv st !! ch;
  s ← sessions (hc_udp st) !! ch;
  let frames := build_udp_frames (s_id s) pid src payload in
  let recv := if decide (length frames <= k)%nat then <[ch := u16 (pid + 1)]> (hc_recv st) else delete ch (hc_recv st) in
  Some (emit (HClient <$> take k frames) (set_recv recv st)).

Definition hstep (st : hconn) (l : hlabel) : option hconn :=
  match l with
  | HEvent e ok => if decide (hc_phase st = Waiting) then Some (h3_turn e ok st) else None
  | HBidi b =>
      if decide (hc_phase st = Authenticated /\ hc_streams st = true)
      then Some (emit [HStream b (c_trace (bidi_task b).2)] st) else None
  | HBidiError => Some (HConn (hc_phase st) false (hc_datagrams st) (hc_udp st) (hc_recv st) (hc_trace st))
  | HDatagram data =>
      if decide (hc_phase st = Authenticated /\ hc_datagrams st = true)
      then u ← sstep (hc_udp st) (Datagram data); Some (set_udp u st) else None
  | HDatagramError => Some (HConn (hc_phase st) (hc_streams st) false (hc_udp st) (hc_recv st) (hc_trace st))
  | HRelay ch => relay_step ch st
  | HClose ch =>
      u ← sstep (hc_udp st) (Close ch);
      Some (set_recv (delete ch (hc_recv st)) (set_udp u st))
  | HCleanup ch => u ← sstep (hc_udp st) (Cleanup ch); Some (set_udp u st)
  | HRecv ch src payload k => receive_step ch src payload k st
  | HRecvEnd ch => Some (set_recv (delete ch (hc_recv st)) st)
  | HSelect =>
      if decide (hc_phase st = Authenticated /\ (hc_streams st && hc_datagrams st) = false)
      then Some (emit [HDo (CloseConnection 0)] (HConn Ended (hc_streams st) (hc_datagrams st) (hc_udp st) (hc_recv st) (hc_trace st)))
      else None
  end.

Fixpoint hrun (st : hconn) (ls : list hlabel) : option hconn :=
  match ls with [] => Some st | l :: ls => st' ← hstep st l; hrun st' ls end.

(** ** The invariant *)

Definition proxied (e : haction) : Prop := match e with HDo _ => False | _ => True end.

(** Before the authentication nothing is proxied, and there is nothing to do it. *)
Definition gate_inv (ls : list hlabel) (st : hconn) : Prop :=
  (Forall (fun e => ~ proxied e) (hc_trace st) /\ sessions (hc_udp st) = ∅ /\ hc_recv st = ∅ /\ hc_phase st <> Authenticated) \/
  (hc_phase st <> Waiting /\ exists t1 cc t2 req, hc_trace st = t1 ++ HDo (SendAuthOk cc) :: t2 /\ Forall (fun e => ~ proxied e) t1 /\
     HEvent (H3Request req) true ∈ ls /\ auth_request req /\ credential auth req).

(** The frames of a session's packets came in datagrams of the client. *)
Definition sent_frames (ls : list hlabel) (fs : list UdpFrame) : Prop :=
  Forall (fun f => exists data, HDatagram data ∈ ls /\ parse_udp_frame data = Done f) fs.

(** A session was given frames of the client, and no others. *)
Definition from_client (ls : list hlabel) (s : session) : Prop := s_accepted s <> [] /\ sent_frames ls (s_accepted s).

Definition action_ok (ls : list hlabel) (e : haction) : Prop :=
  match e with
  | HDo _ => True
  | HStream b tr => HBidi b ∈ ls /\ tr = c_trace (bidi_task b).2
  | HUdp sid t p => exists fs, sent_frames ls fs /\ Forall (fun f => session_id f = sid) fs /\ Some (t, p) ∈ (relay_frames ∅ fs).2
  | HClient bs => exists sid pid ch src payload k data f, HRecv ch src payload k ∈ ls /\ bs ∈ build_udp_frames sid pid src payload /\
      HDatagram data ∈ ls /\ parse_udp_frame data = Done f /\ session_id f = sid
  end.

Definition hinv (ls : list hlabel) (st : hconn) : Prop :=
  gate_inv ls st /\ inv (hc_udp st) /\
  (forall ch s, sessions (hc_udp st) !! ch = Some s -> from_client ls s) /\
  Forall (action_ok ls) (hc_trace st).

Lemma sent_frames_more ls l fs : sent_frames ls fs -> sent_frames (ls ++ [l]) fs.
Proof. intros Hf. eapply Forall_impl; [exact Hf|]. intros f (data & ? & ?). exists data. split; [by apply elem_of_app; left|done]. Qed.

Lemma action_ok_more ls l e : action_ok ls e -> action_ok (ls ++ [l]) e.
Proof.
  destruct e as [a|b tr|sid t p|bs]; simpl; [done| | |].
  - intros [? ?]. split; [by apply elem_of_app; left|done].
  - intros (fs & ? & ? & ?). exists fs. split_and!; [by apply sent_frames_more|done|done].
  - intros (sid & pid & ch & src & payload & k & data & f & ? & ? & ? & ? & ?). exists sid, pid, ch, src, payload, k, data, f.
    split_and!; try done; by apply elem_of_app; left.
Qed.

(** What a step of the sessions changes. *)
Lemma sstep_sessions st e st' ls l :
  sstep st e = Some st' -> inv st -> (forall data, e = Datagram data -> l = HDatagram data) ->
  (forall ch s, sessions st !! ch = Some s -> from_client ls s) ->
  forall ch s, sessions st' !! ch = Some s -> from_client (ls ++ [l]) s.
Proof.
  intros E Hinv Hl Hs ch s.
  assert (Hold : forall c s0, sessions st !! c = Some s0 -> from_client (ls ++ [l]) s0)
    by (intros c s0 [? ?]%Hs; split; [done|by apply sent_frames_more]).
  destruct e as [data|c|c|c]; simpl in E.
  - assert (Hf : forall f, parse_udp_frame data = Done f -> sent_frames (ls ++ [l]) [f]).
    { intros f Ef. apply Forall_singleton. exists data. split; [|done]. rewrite <- (Hl data eq_refl). apply elem_of_app. right. by left. }
    destruct (parse_udp_frame data) as [f|e|]; [|injection E as <-; apply Hold..].
    destruct (smap st !! session_id f) as [c|].
    + destruct (sessions st !! c) as [s0|] eqn:Ec; simpl in E; [|done].
      destruct (s_open s0); [|injection E as <-; apply Hold]. case_decide; [|done]. injection E as <-. simpl.
      rewrite lookup_insert_Some. intros [[<- <-]|[_ ?]]; [|by eapply Hold].
      destruct (Hold c s0 Ec) as [_ Ha]. split; [by intros [_ ?]%app_eq_nil|]. apply Forall_app. split; [exact Ha|by apply Hf].
    + injection E as <-. simpl. rewrite lookup_insert_Some. intros [[<- <-]|[_ ?]]; [split; [done|by apply Hf]|by eapply Hold].
  - destruct (sessions st !! c) as [s0|] eqn:Ec; simpl in E; [|done]. destruct (s_open s0); [|done].
    destruct (s_queue s0) as [|f q]; [done|]. destruct (relay_frame _ f). injection E as <-. simpl.
    rewrite lookup_insert_Some. intros [[<- <-]|[_ ?]]; [exact (Hold c s0 Ec)|by eapply Hold].
  - destruct (sessions st !! c) as [s0|] eqn:Ec; simpl in E; [|done]. destruct (_ && _); [|done]. injection E as <-. simpl.
    rewrite lookup_insert_Some. intros [[<- <-]|[_ ?]]; [exact (Hold c s0 Ec)|by eapply Hold].
  - destruct (sessions st !! c) as [s0|] eqn:Ec; simpl in E; [|done]. destruct (s_open s0); [done|]. injection E as <-. apply Hold.
Qed.

(** Without sessions only a datagram changes anything. *)
Lemma sstep_empty st e : sessions st = ∅ -> (forall data, e <> Datagram data) -> sstep st e = None.
Proof. intros Hs He. destruct e as [data|c|c|c]; [by destruct (He data)|..]; simpl; by rewrite Hs, lookup_empty. Qed.

(** One event of the HTTP/3 loop. *)
Lemma h3_event_cases ok e acts p :
  auth_phase auth down_bps ok [e] = (acts, p) ->
  (p = Authenticated /\ exists req cc, e = H3Request req /\ ok = true /\ auth_request req /\ credential auth req /\ acts = [SendAuthOk cc]) \/
  p <> Authenticated.
Proof.
  simpl. destruct e as [req| | |]; try (intros [= <- <-]; by right).
  destruct (is_auth req) eqn:Ea; [|intros [= <- <-]; by right].
  destruct (auth_ok auth req) eqn:Eo; [|intros [= <- <-]; by right]. destruct ok; intros [= <- <-]; [|by right].
  left. split; [done|]. eexists req, _. split_and!; [done|done|by apply is_auth_spec|by apply auth_ok_spec|done].
Qed.

Lemma gate_more ls l st es st' :
  gate_inv ls st -> hc_phase st <> Waiting -> hc_trace st' = hc_trace st ++ es -> hc_phase st' <> Waiting ->
  (hc_phase st = Authenticated \/ sessions (hc_udp st) <> ∅ \/ hc_recv st <> ∅) -> gate_inv (ls ++ [l]) st'.
Proof.
  intros [(_ & Hs & Hr & Hp)|(_ & t1 & cc & t2 & req & Et & Hf & Hin & ? & ?)] Hw Et' Hp' Hact; [naive_solver|].
  right. split; [done|]. exists t1, cc, (t2 ++ es), req. rewrite Et', Et, <- app_assoc. split_and!; try done. by apply elem_of_app; left.
Qed.

(** Steps of tasks that need a session or a receiving task. *)
Lemma gate_task ls l st es st' :
  gate_inv ls st -> hc_trace st' = hc_trace st ++ es -> hc_phase st' = hc_phase st ->
  (sessions (hc_udp st) <> ∅ \/ hc_recv st <> ∅) -> gate_inv (ls ++ [l]) st'.
Proof.
  intros Hg Et Ep Hact. pose proof Hg as [(_ & Hs & Hr & _)|(Hw & _)]; [naive_solver|].
  eapply gate_more; [exact Hg|done|exact Et|by rewrite Ep|by right].
Qed.

(** Steps that change no more than a loop's flag. *)
Lemma gate_same ls l st st' :
  gate_inv ls st -> hc_trace st' = hc_trace st -> hc_phase st' = hc_phase st -> sessions (hc_udp st') = sessions (hc_udp st) ->
  (hc_recv st = ∅ -> hc_recv st' = ∅) -> gate_inv (ls ++ [l]) st'.
Proof.
  intros [(Ht & Hs & Hr & Hp)|(Hw & t1 & cc & t2 & req & Et & Hf & Hin & ? & ?)] E1 E2 E3 E4.
  - left. rewrite E1, E2, E3. auto.
  - right. rewrite E1, E2. split; [done|]. exists t1, cc, t2, req. split_and!; try done. by apply elem_of_app; left.
Qed.

Lemma hinv_h3 ls e ok st : hinv ls st -> hc_phase st = Waiting -> hinv (ls ++ [HEvent e ok]) (h3_turn e ok st).
Proof.
  intros (Hg & Hu & Hs & Ht) Hw. unfold h3_turn. destruct (auth_phase auth down_bps ok [e]) as [acts p] eqn:E. cbv zeta.
  pose proof Hg as [(Hnp & Hse & Hre & _)|(Hw' & _)]; [|done]. split; [|split; [|split]].
  - destruct (h3_event_cases _ _ _ _ E) as [(-> & req & cc & -> & -> & Ha & Hc & ->)|Hp].
    + right. split; [done|]. exists (hc_trace st), cc, [], req. split_and!; try done. apply elem_of_app. right. by left.
    + left. split_and!; [|done|done|done]. apply Forall_app. split; [done|]. apply Forall_fmap. apply Forall_true. by intros ? [].
  - exact Hu.
  - intros ch s. simpl. by rewrite Hse, lookup_empty.
  - apply Forall_app. split; [eapply Forall_impl; [exact Ht|intros x; exact (action_ok_more ls _ x)]|]. apply Forall_fmap, Forall_true. by intros ?.
Qed.

Lemma hinv_emit ls l st es u recv ph a b :
  hinv ls st -> gate_inv (ls ++ [l]) (HConn ph a b u recv (hc_trace st ++ es)) -> inv u ->
  (forall ch s, sessions u !! ch = Some s -> from_client (ls ++ [l]) s) ->
  Forall (action_ok (ls ++ [l])) es -> hinv (ls ++ [l]) (HConn ph a b u recv (hc_trace st ++ es)).
Proof.
  intros (_ & _ & _ & Ht) Hg' Hu' Hs' Hes. split; [done|split; [exact Hu'|split; [done|]]]. simpl.
  apply Forall_app. split; [eapply Forall_impl; [exact Ht|intros x; exact (action_ok_more ls _ x)]|done].
Qed.

Lemma sent_more ls l (u : sstate) :
  (forall ch s, sessions u !! ch = Some s -> from_client ls s) ->
  forall ch s, sessions u !! ch = Some s -> from_client (ls ++ [l]) s.
Proof. intros Hs ch s [? ?]%Hs. split; [done|by apply sent_frames_more]. Qed.

Lemma hinv_relay ls ch st st' : hinv ls st -> relay_step ch st = Some st' -> hinv (ls ++ [HRelay ch]) st'.
Proof.
  intros Hinv. pose proof Hinv as (Hg & Hu & Hs & Ht). unfold relay_step.
  destruct (sessions (hc_udp st) !! ch) as [s|] eqn:Es; simpl; [|done]. rewrite Es. simpl.
  destruct (s_open s) eqn:Eo; simpl; [|done]. destruct (s_queue s) as [|f q] eqn:Eq; simpl; [done|].
  destruct (relay_frame (s_table s) f) as [t o] eqn:Er. simpl. rewrite lookup_insert_eq. simpl. rewrite last_snoc. simpl. intros [= <-].
  assert (Est : sstep (hc_udp st) (Relay ch) = Some (SState (smap (hc_udp st))
    (<[ch := Session (s_id s) q true t (s_accepted s) (s_done s ++ [f]) (s_sent s ++ [o])]> (sessions (hc_udp st))) (next (hc_udp st))))
    by (simpl; rewrite Es; simpl; rewrite Eo, Eq, Er; simpl; done).
  assert (Hu' := sstep_inv _ _ _ Hu Est). apply (hinv_emit ls _ st); [done| |exact Hu'| |].
  - eapply (gate_task ls _ st); [exact Hg|done|done|]. left. intros E. by rewrite E, lookup_empty in Es.
  - eapply (sstep_sessions (hc_udp st) (Relay ch)); [exact Est|done|done|exact Hs].
  - destruct o as [[tg p]|]; [|constructor]. apply Forall_singleton. destruct Hu' as [_ Hu'].
    destruct (Hu' ch _ (lookup_insert_eq _ _ _)) as [_ (Ha & Hr & Hf)]. cbn [s_accepted s_done s_queue s_id s_sent] in Ha, Hr, Hf.
    exists (s_done s ++ [f]). rewrite Ha in Hf. apply Forall_app in Hf as [Hf _]. split_and!; [|done|].
    + pose proof (sent_frames_more ls (HRelay ch) _ (proj2 (Hs ch s Es))) as Hsf. rewrite Ha in Hsf. by apply Forall_app in Hsf as [? _].
    + rewrite <- Hr. simpl. apply elem_of_app. right. by left.
Qed.

Lemma hinv_recv ls ch src payload k st st' :
  hinv ls st -> receive_step ch src payload k st = Some st' -> hinv (ls ++ [HRecv ch src payload k]) st'.
Proof.
  intros Hinv. pose proof Hinv as (Hg & Hu & Hs & Ht). unfold receive_step. destruct (hc_recv st !! ch) as [pid|] eqn:Er; simpl; [|done].
  destruct (sessions (hc_udp st) !! ch) as [s|] eqn:Es; simpl; [|done]. intros [= <-].
  apply (hinv_emit ls _ st); [done| |exact Hu|by apply sent_more|].
  - eapply (gate_task ls _ st); [exact Hg|done|done|]. right. intros E. by rewrite E, lookup_empty in Er.
  - apply Forall_fmap, Forall_forall. intros bs Hb. destruct (Hs ch s Es) as [Hne Hsf].
    destruct Hu as [_ Hu]. destruct (Hu ch s Es) as [_ (_ & _ & Hid)].
    destruct (s_accepted s) as [|f fs]; [done|]. apply Forall_cons in Hsf as [(data & Hd & Hp) _], Hid as [Hid _].
    exists (s_id s), pid, ch, src, payload, k, data, f.
    split_and!; [apply elem_of_app; right; by left| |by apply elem_of_app; left|done|done].
    apply elem_of_take in Hb as (i & Hi & _). by eapply list_elem_of_lookup_2.
Qed.

(** A step of the sessions that emits nothing. *)
Lemma hinv_udp ls l e st u recv :
  hinv ls st -> sstep (hc_udp st) e = Some u -> (forall data, e = Datagram data -> l = HDatagram data /\ hc_phase st = Authenticated) ->
  (forall ch, is_Some (recv !! ch) -> is_Some (hc_recv st !! ch)) ->
  hinv (ls ++ [l]) (set_recv recv (set_udp u st)).
Proof.
  intros Hinv E He Hrecv. pose proof Hinv as (Hg & Hu & Hs & Ht). unfold set_recv, set_udp. simpl. rewrite <- (app_nil_r (hc_trace st)).
  apply (hinv_emit ls _ st); [done| |by eapply sstep_inv| |constructor].
  - destruct (decide (sessions (hc_udp st) = ∅)) as [Hse|Hse].
    + assert (Hd : exists data, e = Datagram data).
      { destruct e as [data|c|c|c]; [by exists data|exfalso..]; by rewrite sstep_empty in E. }
      destruct Hd as [data ->]. destruct (He data eq_refl) as [-> Hp].
      eapply (gate_more ls _ st); [exact Hg|congruence|done|simpl; congruence|by left].
    + eapply (gate_task ls _ st); [exact Hg|done|done|by left].
  - eapply sstep_sessions; [exact E|exact Hu|intros data Ed; by apply He|exact Hs].
Qed.

Lemma hstep_inv ls st l st' : hinv ls st -> hstep st l = Some st' -> hinv (ls ++ [l]) st'.
Proof.
  intros Hinv. pose proof Hinv as (Hg & Hu & Hs & Ht).
  assert (Hflag : forall a b recv, (hc_recv st = ∅ -> recv = ∅) ->
    hinv (ls ++ [l]) (HConn (hc_phase st) a b (hc_udp st) recv (hc_trace st))).
  { intros a b recv Hr. rewrite <- (app_nil_r (hc_trace st)).
    apply (hinv_emit ls _ st); [done| |exact Hu|by apply sent_more|constructor]. rewrite app_nil_r. by apply (gate_same ls _ st). }
  destruct l as [e ok|b| |data| |ch|ch|ch|ch src payload k|ch|]; cbn [hstep].
  - case_decide; [|done]. intros [= <-]. by apply hinv_h3.
  - case_decide as Hp; [|done]. intros [= <-]. apply (hinv_emit ls _ st); [done| |exact Hu|by apply sent_more|].
    + eapply (gate_more ls _ st); [exact Hg|destruct Hp; congruence|done|destruct Hp; simpl; congruence|left; apply Hp].
    + apply Forall_singleton. split; [apply elem_of_app; right; by left|done].
  - intros [= <-]. by apply Hflag.
  - case_decide as Hp; [|done]. destruct (sstep (hc_udp st) (Datagram data)) as [u|] eqn:E; [|done]. intros [= <-].
    apply (hinv_udp ls _ (Datagram data) st u (hc_recv st)); [done|done| |done]. intros ? [= <-]. split; [done|apply Hp].
  - intros [= <-]. by apply Hflag.
  - intros E. by eapply hinv_relay.
  - destruct (sstep (hc_udp st) (Close ch)) as [u|] eqn:E; [|done]. intros [= <-].
    apply (hinv_udp ls _ (Close ch) st); [done|exact E|done|]. intros c [x [_ Hx]%lookup_delete_Some]. by exists x.
  - destruct (sstep (hc_udp st) (Cleanup ch)) as [u|] eqn:E; [|done]. intros [= <-].
    by apply (hinv_udp ls _ (Cleanup ch) st u (hc_recv st)).
  - intros E. by eapply hinv_recv.
  - intros [= <-]. apply Hflag. intros ->. by rewrite delete_empty.
  - case_decide as Hp; [|done]. intros [= <-]. apply (hinv_emit ls _ st); [done| |exact Hu|by apply sent_more|by apply Forall_singleton].
    eapply (gate_more ls _ st); [exact Hg|destruct Hp; congruence|done|done|left; apply Hp].
Qed.

Lemma hrun_inv ls st ls' st' : hinv ls st -> hrun st ls' = Some st' -> hinv (ls ++ ls') st'.
Proof.
  revert ls st. induction ls' as [|l ls' IH]; intros ls st Hi; simpl; [intros [= <-]; by rewrite app_nil_r|].
  destruct (hstep st l) as [st1|] eqn:E; [|done]. simpl. intros Hr.
  replace (ls ++ l :: ls') with ((ls ++ [l]) ++ ls') by (by rewrite <- app_assoc). eapply IH; [|exact Hr]. by eapply hstep_inv.
Qed.

Lemma hinv_start : hinv [] hconn0.
Proof.
  split; [left; split_and!; done|]. split; [|split; [|constructor]].
  - apply reachable_inv, reach0.
  - intros ch s. cbn. by rewrite lookup_empty.
Qed.

(** In a trace whose first part is free of [P]s, the mark after it comes before every [P]. *)
Lemma mark_first {A} (P : A -> Prop) u1 m u2 t1 e t2 :
  u1 ++ m :: u2 = t1 ++ e :: t2 -> Forall (fun x => ~ P x) u1 -> ~ P m -> P e -> m ∈ t1.
Proof.
  intros [(k & -> & E)|(k & -> & E)]%app_eq_inv Hu Hm He.
  - destruct k as [|x k]; injection E as -> _; [done|].
    apply Forall_app in Hu as [_ [? _]%Forall_cons]. done.
  - destruct k as [|x k]; injection E as -> _; [done|]. apply elem_of_app. right. by left.
Qed.

(** Every run: the invariant, spelled out. *)
Lemma hrun_gate ls st t1 e t2 :
  gate_inv ls st -> hc_trace st = t1 ++ e :: t2 -> proxied e ->
  exists cc req, HDo (SendAuthOk cc) ∈ t1 /\ HEvent (H3Request req) true ∈ ls /\ auth_request req /\ credential auth req.
Proof.
  intros [(Hf & _)|(_ & u1 & cc & u2 & req & E & Hf & ? & ? & ?)] Et He.
  - rewrite Et in Hf. apply Forall_app in Hf as [_ [Hn _]%Forall_cons]. done.
  - exists cc, req. split; [|done]. rewrite E in Et. by apply (mark_first proxied _ _ _ _ _ _ Et); [..|intros []|].
Qed.
End connection.

(** ** Property *)

(** What may be done for a client that sent [ls]. *)
Definition asked_for (ls : list hlabel) (e : haction) : Prop :=
  match e with
  | HDo _ => True
  | HStream b tr => HBidi b ∈ ls /\ (bytes_ok (b_in b) ->
      exists s', tcp_stream_actions (b_env b) (b_error b) (b_padding b) (Conn (b_in b) []) s' /\ tr = c_trace s')
  | HUdp sid t p => exists fs, sent_frames ls fs /\ Forall (fun f => session_id f = sid) fs /\ Some (t, p) ∈ (relay_frames ∅ fs).2
  | HClient bs => exists sid pid ch src payload k data f, HRecv ch src payload k ∈ ls /\ bs ∈ build_udp_frames sid pid src payload /\
      HDatagram data ∈ ls /\ parse_udp_frame data = Done f /\ session_id f = sid
  end.

Lemma hrun_hinv auth d ls st : hrun auth d hconn0 ls = Some st -> hinv auth ls st.
Proof. apply (hrun_inv auth d []). apply hinv_start. Qed.

(** Proxying comes after the authentication. *)
Definition after_auth (auth : AuthConfig) (ls : list hlabel) (tr : list haction) : Prop :=
  forall t1 e t2, tr = t1 ++ e :: t2 -> proxied e ->
    exists cc req, HDo (SendAuthOk cc) ∈ t1 /\ HEvent (H3Request req) true ∈ ls /\ auth_request req /\ credential auth req.

Lemma hrun_after_auth auth d ls st : hrun auth d hconn0 ls = Some st -> after_auth auth ls (hc_trace st).
Proof. intros [Hg _]%hrun_hinv t1 e t2. by apply hrun_gate. Qed.

Lemma hrun_asked auth d ls st : hrun auth d hconn0 ls = Some st -> Forall (asked_for ls) (hc_trace st).
Proof.
  intros (_ & _ & _ & Ht)%hrun_hinv. eapply Forall_impl; [exact Ht|]. intros [a|b tr|sid t p|bs] He; try done. destruct He as [Hb ->].
  split; [done|]. intros Hok. unfold bidi_task. destruct (handle_tcp_bidi _ _ _ _) as [o s'] eqn:E.
  exists s'. split; [|done]. by eapply (handle_tcp_bidi_actions _ _ _ (Conn (b_in b) [])).
Qed.

(** C13: a Hysteria 2 connection only does what an authenticated client asks for,
    under every interleaving of its HTTP/3 loop, its streams, its datagrams and the tasks
    of its UDP sessions.  Whatever is proxied comes after the 233 answer to a request
    that carried the credential.  A stream's handler does what its own request
    says.  A session was given frames of its identifier only, all of them sent by the client,
    relays them in the order they came, each once, and its socket sends what they
    reassemble to; a datagram to the client is a piece of a packet that the socket of
    a session of its identifier received. *)
Theorem hysteria_confined auth d ls st :
  hrun auth d hconn0 ls = Some st ->
  after_auth auth ls (hc_trace st) /\
  (forall ch s, sessions (hc_udp st) !! ch = Some s ->
     sent_frames ls (s_accepted s) /\ Forall (fun f => session_id f = s_id s) (s_accepted s) /\
     s_accepted s = s_done s ++ s_queue s /\ s_sent s = (relay_frames ∅ (s_done s)).2) /\
  Forall (asked_for ls) (hc_trace st).
Proof.
  intros Hr. split; [by eapply hrun_after_auth|]. split; [|by eapply hrun_asked].
  destruct (hrun_hinv _ _ _ _ Hr) as (_ & [_ Hu] & Hs & _). intros ch s Hc. destruct (Hu ch s Hc) as [_ (Ha & Hrel & Hf)].
  split; [by destruct (Hs ch s Hc)|]. split_and!; [done|done|]. by rewrite <- Hrel.
Qed.

(** *** Witness *)

(** A wrong request, the authentication, a stream, two datagrams of session 7, its answer. *)
Definition hy_labels : list hlabel :=
  [HEvent H3ResolveError true; HEvent (H3Request (demo_req (str "pw"))) true;
   HBidi (Bidi (c_in demo_conn) demo_env [] [120]); HDatagram race_frame; HRelay 0; HDatagram race_frame;
   HRecv 0 (V4 [1; 2; 3; 4] 53) [9; 9] 1; HRelay 0; HDatagramError; HSelect].

Definition hy_stream : bidi := Bidi (c_in demo_conn) demo_env [] [120].
Definition hy_trace : list haction :=
  [HDo (SendAuthOk (str "0"));
   HStream hy_stream [EvConnect demo_addr; EvWrite (tcp_response true (str "Connected") [120]); EvRelay demo_addr [1; 2] [3]];
   HUdp 7 (str "1.2.3.4:53") [42]; HClient (build_single_udp_frame 7 0 0 1 (str "1.2.3.4:53") [9; 9]);
   HUdp 7 (str "1.2.3.4:53") [42]; HDo (CloseConnection 0)].

Lemma hysteria_confined_witness :
  exists st, hrun (Password (str "pw")) None hconn0 hy_labels = Some st /\
    (hc_phase st, hc_trace st) = (Ended, hy_trace) /\ Forall (asked_for hy_labels) hy_trace.
Proof.
  assert (Hst : (fun st => (hc_phase st, hc_trace st)) <$> hrun (Password (str "pw")) None hconn0 hy_labels =
    Some (Ended, hy_trace)) by (vm_compute; reflexivity).
  destruct (hrun (Password (str "pw")) None hconn0 hy_labels) as [st|] eqn:E; [|discriminate Hst].
  injection Hst as Hp Ht. exists st. split; [reflexivity|]. split; [by rewrite Hp, Ht|]. rewrite <- Ht.
  exact (proj2 (proj2 (hysteria_confined _ _ _ _ E))).
Defined.
