(* ===== verification/Xhttp.v ===== *)
(** * XHTTP transport: request routing, sessions, and the in-order upstream
    ([src/src/common/transport/xhttp.rs])

    One logical connection is a GET (the downlink) and many POSTs, each on a
    TCP connection of its own.  The POSTs' packets reach the stream through a
    channel in any order; [poll_read] puts them back in order. *)
From S2P Require Import Prelude RustStd.

(** ** Routing *)

Record XhttpConfig := { cfg_path : list Z; cfg_host : option (list Z) }.

Definition is_slash (c : Z) : bool := c =? 47.
Definition starts_with_slash (p : list Z) : bool :=
  match p with c :: _ => is_slash c | [] => false end.

Definition normalized_path (cfg : XhttpConfig) : list Z :=
  let p := trim_end_matches is_slash (cfg_path cfg) in
  let p := if starts_with_slash p then p else 47 :: p in
  p ++ [47].

Definition nonempty (s : list Z) : option (list Z) := if decide (s = []) then None else Some s.

Definition parse_path (req_path base_path : list Z) : option (option (list Z) * option (list Z)) :=
  let base_no_slash := trim_end_matches is_slash base_path in
  rest ← (if decide (req_path = base_no_slash \/ req_path = base_path) then Some []
          else trim_start_matches is_slash <$> strip_prefix base_path req_path);
  if decide (rest = []) then Some (None, None) else
  match split_once 47 rest with
  | None => Some (nonempty rest, None)
  | Some (s, q) => Some (nonempty s, nonempty q)
  end.

Inductive Method := GET | POST | PUT | OPTIONS | OtherMethod.
#[export] Instance Method_eq_dec : EqDecision Method.
Proof. solve_decision. Defined.

(** What the router looks at; [req_host] is the Host header if readable. *)
Record Request := { req_method : Method; req_host : option (list Z); req_path : list Z }.

Inductive route :=
| NotFound
| CorsOk
| HandleGet (session_id : option (list Z))
| HandlePost (session_id seq_str : option (list Z)).

Definition handle_request (cfg : XhttpConfig) (req : Request) : route :=
  if match cfg_host cfg with
     | Some expected => bool_decide (default [] (req_host req) <> expected)
     | None => false
     end then NotFound
  else if decide (req_method req = OPTIONS) then CorsOk
  else
    match parse_path (req_path req) (normalized_path cfg) with
    | None => NotFound
    | Some (session_id, seq_str) =>
        if decide (req_method req = GET /\ seq_str = None) then HandleGet session_id
        else HandlePost session_id seq_str
    end.

(** ** The upstream *)

Inductive UploadPacket :=
| Chunk (data : list Z)
| Packet (seq : Z) (data : list Z)
| Eof.

Record PktEntry := Entry { seq : Z; data : list Z }.

(** [BinaryHeap<Reverse<PktEntry>>]: a priority queue that hands out an entry
    of least [seq]; which one of several is not specified. *)
Class MinHeap (H : Type) := {
  h_empty : H;
  h_push : PktEntry -> H -> H;
  h_pop : H -> option (PktEntry * H);
  h_entries : H -> list PktEntry;
}.
Definition h_peek {H} `{MinHeap H} (h : H) : option PktEntry := fst <$> h_pop h.

Class MinHeapLaws (H : Type) `{MinHeap H} : Prop := {
  entries_empty : h_entries h_empty = [];
  entries_push e h : h_entries (h_push e h) ≡ₚ e :: h_entries h;
  pop_none h : h_pop h = None -> h_entries h = [];
  pop_some h e h' :
    h_pop h = Some (e, h') ->
    h_entries h ≡ₚ e :: h_entries h' /\ Forall (fun x => seq e <= seq x) (h_entries h);
}.

Section stream.
Context {H : Type} `{MinHeap H}.

(** The stream; [up_rx] are the packets in its channel, [up_closed] whether all
    senders are gone. *)
Record XhttpStream := MkStream {
  up_rx : list UploadPacket;
  up_closed : bool;
  heap : H;
  next_seq : Z;
  leftover : list Z;
  stream_buf : list Z;
  eof : bool;
}.

Definition XhttpStream_new : XhttpStream := MkStream [] false h_empty 0 [] [] false.

Inductive poll := Pending | Ready (bs : list Z).

(** The part of [poll_read] before the channel: buffered bytes, then the packet
    with the next sequence number. *)
Definition poll_buffered (n : nat) (t : XhttpStream) : option (poll * XhttpStream) :=
  let '(MkStream rx cl h ns lo sb ef) := t in
  if decide (lo <> []) then Some (Ready (take n lo), MkStream rx cl h ns (drop n lo) sb ef)
  else if decide (sb <> []) then Some (Ready (take n sb), MkStream rx cl h ns lo (drop n sb) ef)
  else
    '(entry, h') ← h_pop h;
    if decide (seq entry = ns) then
      Some (Ready (take n (data entry)),
            MkStream rx cl h' (u64 (ns + 1)) (drop n (data entry)) sb ef)
    else None.

(** [poll_read] with room for [n] bytes.  [rx] are the packets still in the
    channel: every round of the loop takes one. *)
Fixpoint poll_read_loop (rx : list UploadPacket) (n : nat) (t : XhttpStream) : poll * XhttpStream :=
  match poll_buffered n t with
  | Some r => r
  | None =>
      let '(MkStream _ cl h ns lo sb ef) := t in
      if ef then (Ready [], t) else
      match rx with
      | [] => if cl then (Ready [], MkStream [] cl h ns lo sb true) else (Pending, t)
      | Chunk d :: rx => (Ready (take n d), MkStream rx cl h ns lo (drop n d) ef)
      | Packet s d :: rx =>
          poll_read_loop rx n (MkStream rx cl (h_push (Entry s d) h) ns lo sb ef)
      | Eof :: rx => (Ready [], MkStream rx cl h ns lo sb true)
      end
  end.
Definition poll_read (n : nat) (t : XhttpStream) : poll * XhttpStream :=
  poll_read_loop (up_rx t) n t.

(** A POST's packet reaches the channel. *)
Definition arrive (p : UploadPacket) (t : XhttpStream) : XhttpStream :=
  MkStream (up_rx t ++ [p]) (up_closed t) (heap t) (next_seq t) (leftover t) (stream_buf t) (eof t).
End stream.
Arguments XhttpStream : clear implicits.

(** ** Order *)

(** The schedule of a stream: packets arrive, the reader reads, with room for [n] bytes;
    [closed]: whether all senders are gone by then. *)
Inductive xevent := Arrive (p : UploadPacket) | Read (closed : bool) (n : nat).

Section order.
Context {H : Type} `{MinHeapLaws H}.

Definition set_closed (closed : bool) (t : XhttpStream H) : XhttpStream H :=
  MkStream (up_rx t) closed (heap t) (next_seq t) (leftover t) (stream_buf t) (eof t).

Fixpoint xrun (t : XhttpStream H) (es : list xevent) : list poll * XhttpStream H :=
  match es with
  | [] => ([], t)
  | Arrive p :: es => xrun (arrive p t) es
  | Read closed n :: es =>
      let '(r, t1) := poll_read n (set_closed closed t) in
      let '(rs, t2) := xrun t1 es in
      (r :: rs, t2)
  end.

Definition got (rs : list poll) : list Z := r ← rs; match r with Ready bs => bs | Pending => [] end.
Definition arrivals (es : list xevent) : list UploadPacket :=
  omap (fun e => match e with Arrive p => Some p | Read _ _ => None end) es.
Definition read_some (e : xevent) : Prop := match e with Read _ n => (0 < n)%nat | _ => True end.
Definition while_open (e : xevent) : Prop := match e with Read closed _ => closed = false | _ => True end.

Lemma xrun_app t es1 es2 :
  xrun t (es1 ++ es2) = let '(rs1, t1) := xrun t es1 in let '(rs2, t2) := xrun t1 es2 in (rs1 ++ rs2, t2).
Proof.
  revert t. induction es1 as [|[p|cl n] es1 IH]; intros t; simpl.
  - by destruct (xrun t es2).
  - apply IH.
  - destruct (poll_read n (set_closed cl t)) as [r t1]. rewrite IH. destruct (xrun t1 es1) as [rs1 t2].
    by destruct (xrun t2 es2).
Qed.

Context (pieces : list (list Z)).
Hypothesis pieces_nonempty : Forall (fun d => d <> []) pieces.
Hypothesis pieces_count : Z.of_nat (length pieces) < 2 ^ 64.

Definition entry_kv (e : PktEntry) : Z * list Z := (seq e, data e).
Definition packet_kv (p : UploadPacket) : option (Z * list Z) :=
  match p with Packet s d => Some (s, d) | _ => None end.

(** The pieces with their numbers, from number [j] on. *)
Definition numbered_from (j : nat) : list (Z * list Z) :=
  imap (fun i d => (Z.of_nat (j + i), d)) (drop j pieces).

(** What the reader has still to get. *)
Definition outstanding (t : XhttpStream H) : list Z :=
  leftover t ++ concat (drop (Z.to_nat (next_seq t)) pieces).

(** [todo] are the packets that have not arrived yet. *)
Definition stream_ok (t : XhttpStream H) (todo : list (Z * list Z)) : Prop :=
  stream_buf t = [] /\ Forall (fun p => is_Some (packet_kv p)) (up_rx t) /\
  (0 <= next_seq t <= Z.of_nat (length pieces)) /\
  (entry_kv <$> h_entries (heap t)) ++ omap packet_kv (up_rx t) ++ todo
    ≡ₚ numbered_from (Z.to_nat (next_seq t)).

Lemma numbered_from_step j d :
  pieces !! j = Some d -> numbered_from j = (Z.of_nat j, d) :: numbered_from (S j).
Proof.
  intros E. unfold numbered_from. rewrite (drop_S _ _ _ E). rewrite imap_cons, Nat.add_0_r.
  f_equal. apply imap_ext. intros i x _. simpl. do 2 f_equal. lia.
Qed.

Lemma numbered_from_in j s d :
  (s, d) ∈ numbered_from j -> Z.of_nat j <= s /\ pieces !! Z.to_nat s = Some d.
Proof.
  unfold numbered_from. intros (i & x & [= -> ->] & Hx)%elem_of_lookup_imap.
  rewrite lookup_drop in Hx. split; [lia|]. by rewrite Nat2Z.id.
Qed.

(** The packet the heap hands out, when it holds one of the next number. *)
Lemma pop_next h j L :
  (entry_kv <$> h_entries h) ++ L ≡ₚ numbered_from j ->
  (forall d, (Z.of_nat j, d) ∈ entry_kv <$> h_entries h ->
     exists e h', h_pop h = Some (e, h') /\ seq e = Z.of_nat j) /\
  (forall e h', h_pop h = Some (e, h') -> seq e = Z.of_nat j ->
     pieces !! j = Some (data e) /\
     (entry_kv <$> h_entries h') ++ L ≡ₚ numbered_from (S j)).
Proof.
  intros Hp.
  assert (Hin : forall e, e ∈ h_entries h -> Z.of_nat j <= seq e /\ pieces !! Z.to_nat (seq e) = Some (data e)).
  { intros e He. apply numbered_from_in. rewrite <- Hp. apply elem_of_app; left.
    apply list_elem_of_fmap. by exists e. }
  split.
  - intros d (e0 & [= E0 _] & He0)%list_elem_of_fmap.
    destruct (h_pop h) as [[e h']|] eqn:Epop.
    + destruct (pop_some _ _ _ Epop) as [Hperm Hmin]. exists e, h'. split; [done|].
      rewrite Forall_forall in Hmin. specialize (Hmin _ He0).
      assert (e ∈ h_entries h) as He by (rewrite Hperm; by left). destruct (Hin _ He). lia.
    + rewrite (pop_none _ Epop) in He0. by apply not_elem_of_nil in He0.
  - intros e h' Epop Hs. destruct (pop_some _ _ _ Epop) as [Hperm _].
    assert (e ∈ h_entries h) as He by (rewrite Hperm; by left).
    destruct (Hin _ He) as [_ Hd]. rewrite Hs, Nat2Z.id in Hd. split; [done|].
    rewrite Hperm in Hp. simpl in Hp. unfold entry_kv at 1 in Hp.
    rewrite Hs, (numbered_from_step j _ Hd) in Hp. by apply Permutation_cons_inv in Hp.
Qed.

(** The packet with the next number has not arrived. *)
Definition missing (t : XhttpStream H) (todo : list (Z * list Z)) : Prop :=
  outstanding t <> [] -> exists d, (next_seq t, d) ∈ todo.

(** What one read does. *)
Definition read_ok (t : XhttpStream H) (todo : list (Z * list Z)) (r : poll) (t' : XhttpStream H) : Prop :=
  stream_ok t' todo /\ (eof t = false -> up_closed t = false -> eof t' = false) /\
  match r with
  | Ready bs => bs ++ outstanding t' = outstanding t /\
      (bs = [] -> eof t = true \/ (up_closed t = true /\ missing t' todo))
  | Pending => outstanding t' = outstanding t /\ missing t' todo
  end.

Lemma take_nonempty {A} n (l : list A) : (0 < n)%nat -> l <> [] -> take n l <> [].
Proof. destruct n, l; [lia..|done|done]. Qed.

Lemma poll_buffered_ok n t todo r t' :
  (0 < n)%nat -> stream_ok t todo -> poll_buffered n t = Some (r, t') -> read_ok t todo r t'.
Proof.
  intros Hn. destruct t as [rx cl h ns lo sb ef]. unfold read_ok, stream_ok, outstanding. simpl.
  intros (-> & Hpk & Hns & Hperm) E. case_decide as Hlo.
  { injection E as <- <-. simpl. split; [by split_and!; simpl; (done || lia)|]. split; [done|].
    split; [by rewrite app_assoc, take_drop|]. by intros ?%take_nonempty. }
  subst lo. case_decide; [done|].
  destruct (h_pop h) as [[e h']|] eqn:Epop; [|done]. simpl in E. case_decide as Hs; [|done].
  injection E as <- <-. rewrite <- (Z2Nat.id ns) in Hs by lia.
  destruct (pop_next h (Z.to_nat ns) _ Hperm) as [_ Hpop].
  destruct (Hpop _ _ Epop Hs) as [Hd Hperm']. pose proof (lookup_lt_Some _ _ _ Hd) as Hlt.
  unfold wrap. rewrite Z.mod_small by lia. simpl. replace (Z.to_nat (ns + 1)) with (S (Z.to_nat ns)) by lia.
  split; [split_and!; simpl; (done || lia)|]. split; [done|]. rewrite Forall_lookup in pieces_nonempty.
  split; [by rewrite (drop_S _ _ _ Hd), app_assoc, take_drop|].
  intros []%take_nonempty; [done|by eapply pieces_nonempty].
Qed.

Lemma poll_buffered_none n t todo :
  stream_ok t todo -> poll_buffered n t = None ->
  leftover t = [] /\
  forall d, (next_seq t, d) ∉ entry_kv <$> h_entries (heap t).
Proof.
  destruct t as [rx cl h ns lo sb ef]. unfold stream_ok. simpl.
  intros (-> & Hpk & Hns & Hperm) E. case_decide as Hlo; [done|].
  case_decide; [done|]. split; [done|].
  intros d Hd. rewrite <- (Z2Nat.id ns) in Hd by lia.
  destruct (pop_next h (Z.to_nat ns) _ Hperm) as [Hin _].
  destruct (Hin _ Hd) as (e & h' & Epop & Hs). rewrite Epop in E. simpl in E.
  rewrite decide_True in E; [done|]. lia.
Qed.

(** Nothing buffered, and nothing in the channel. *)
Lemma drained_missing t todo :
  stream_ok t todo -> leftover t = [] -> up_rx t = [] ->
  (forall d, (next_seq t, d) ∉ entry_kv <$> h_entries (heap t)) -> missing t todo.
Proof.
  destruct t as [rx cl h ns lo sb ef]. unfold stream_ok, missing, outstanding. simpl.
  intros (_ & _ & Hns & Hperm) -> -> Hheap Hout. simpl in *.
  assert (Hlt : (Z.to_nat ns < length pieces)%nat).
  { destruct (decide (Z.to_nat ns < length pieces)%nat); [done|]. by rewrite drop_ge in Hout by lia. }
  destruct (lookup_lt_is_Some_2 _ _ Hlt) as [d Hd].
  rewrite (numbered_from_step _ _ Hd), Z2Nat.id in Hperm by lia. exists d.
  assert (Hin : (ns, d) ∈ (entry_kv <$> h_entries h) ++ todo) by (rewrite Hperm; by left).
  apply elem_of_app in Hin as [Hin|Hin]; [by apply Hheap in Hin|done].
Qed.

Lemma poll_read_loop_ok rx n t todo r t' :
  (0 < n)%nat -> up_rx t = rx -> stream_ok t todo ->
  poll_read_loop rx n t = (r, t') -> read_ok t todo r t'.
Proof.
  intros Hn. revert t. induction rx as [|p rx IH]; intros t Hrx Hok; cbn [poll_read_loop];
    (destruct (poll_buffered n t) as [[r0 t0]|] eqn:Eb;
      [intros [= <- <-]; by eapply poll_buffered_ok|]);
    destruct (poll_buffered_none n t todo Hok Eb) as [Hlo Hheap];
    pose proof (drained_missing t todo Hok Hlo) as Hmiss;
    destruct t as [rx' cl h ns lo sb ef]; simpl in Hrx, Hlo, Hheap, Hmiss; subst rx' lo;
    pose proof Hok as (Hsb & Hpk & Hns & Hperm); simpl in *; subst sb;
    (destruct ef; [intros [= <- <-]; split_and!; try done; by left|]).
  - destruct cl; intros [= <- <-]; split_and!; try done; [|by apply Hmiss].
    intros _. right. split; [done|]. by apply Hmiss.
  - apply Forall_cons_1 in Hpk as [[[s d] Hp] Hpk]. destruct p as [|s' d'|]; try done.
    injection Hp as -> ->. intros E. apply IH in E; [exact E|done|].
    split_and!; simpl; try done; [lia..|]. rewrite <- Hperm, entries_push. simpl.
    by rewrite Permutation_middle.
Qed.

Lemma arrive_ok t p s d todo :
  packet_kv p = Some (s, d) -> stream_ok t ((s, d) :: todo) -> stream_ok (arrive p t) todo.
Proof.
  destruct t as [rx cl h ns lo sb ef]. unfold stream_ok, arrive. simpl.
  intros Hp (-> & Hpk & Hns & Hperm). split_and!; try done; [|lia..|].
  - apply Forall_app. split; [done|]. apply Forall_singleton. by rewrite Hp.
  - rewrite omap_app. simpl. rewrite Hp, <- Hperm, <- app_assoc. done.
Qed.

Lemma set_closed_ok t closed todo : stream_ok t todo -> stream_ok (set_closed closed t) todo.
Proof. by destruct t. Qed.

Lemma xrun_ok es t todo :
  stream_ok t (omap packet_kv (arrivals es) ++ todo) -> Forall (fun p => is_Some (packet_kv p)) (arrivals es) ->
  Forall read_some es ->
  let '(rs, t') := xrun t es in
  stream_ok t' todo /\ got rs ++ outstanding t' = outstanding t /\
  (Forall while_open es -> eof t = false -> eof t' = false /\ Forall (fun r => r <> Ready []) rs).
Proof.
  revert t. induction es as [|[p|cl n] es IH]; intros t Hok Hpk Hn; simpl; [by split_and!| |];
    apply Forall_cons_1 in Hn as [Hn1 Hn]; cbn [arrivals omap list_omap] in *.
  - apply Forall_cons_1 in Hpk as [[[s d] Hp] Hpk]. rewrite Hp in Hok.
    apply (IH (arrive p t)) in Hn; [|by eapply arrive_ok|done].
    destruct (xrun (arrive p t) es) as [rs t']. destruct Hn as (? & ? & Ho). split_and!; [done..|].
    intros [_ Hop]%Forall_cons_1 He. by apply Ho.
  - destruct (poll_read n (set_closed cl t)) as [r t1] eqn:E.
    apply (poll_read_loop_ok _ _ _ (omap packet_kv (arrivals es) ++ todo)) in E as (Hok1 & He & Hr); [|done|done|by apply set_closed_ok].
    apply (IH t1) in Hn; [|done..]. destruct (xrun t1 es) as [rs t2].
    destruct Hn as (Hok2 & Hg & Ho). split; [done|]. destruct r as [|bs].
    + destruct Hr as [Hr _]. split; [change (got (Pending :: rs)) with (got rs); by rewrite Hg|].
      intros [Hcl Hop]%Forall_cons_1 Hef. simpl in Hcl. subst cl. destruct (Ho Hop) as [? ?]; [by apply He|]. split; [done|by constructor].
    + destruct Hr as [Hr Hb]. split; [change (got (Ready bs :: rs)) with (bs ++ got rs); by rewrite <- app_assoc, Hg|].
      intros [Hcl Hop]%Forall_cons_1 Hef. simpl in Hcl. subst cl. destruct (Ho Hop) as [? ?]; [by apply He|]. split; [done|]. constructor; [|done].
      intros [= ->]. destruct (Hb eq_refl) as [Hb'|[Hb' _]]; simpl in Hb'; congruence.
Qed.

(** The pieces as packets. *)
Definition numbered : list UploadPacket := imap (fun i d => Packet (Z.of_nat i) d) pieces.

Lemma numbered_kv l : l ≡ₚ numbered ->
  Forall (fun p => is_Some (packet_kv p)) l /\ omap packet_kv l ≡ₚ numbered_from 0.
Proof.
  intros Hl. split.
  - apply Forall_forall. intros p Hp. rewrite Hl in Hp. apply elem_of_lookup_imap in Hp as (i & d & -> & _). by eexists.
  - rewrite Hl. enough (forall (f : nat -> Z) (l : list (list Z)),
      omap packet_kv (imap (fun i d => Packet (f i) d) l) = imap (fun i d => (f i, d)) l) as E by (unfold numbered; by rewrite (E Z.of_nat)).
    clear. intros f l. revert f. induction l as [|d l IH]; intros f; [done|]. rewrite !imap_cons. simpl. f_equal. apply (IH (f ∘ S)).
Qed.

Lemma stream_new_ok todo : todo ≡ₚ numbered_from 0 -> stream_ok XhttpStream_new todo.
Proof. intros Hp. split_and!; simpl; try done; [lia|]. by rewrite entries_empty. Qed.
End order.

(** ** Properties *)

Section properties.
Context {H : Type} `{MinHeapLaws H}.

(** C15: the upstream is read in order, whatever the order of the POSTs.  Split
    the data into non-empty numbered packets; let them arrive in any order,
    interleaved in any way with reads of any (non-zero) size.  Then what the
    reads return, put together, is a prefix of the data; no read reports the
    end of the stream while a sender is left; and a further read returns data whenever
    something is outstanding, unless the next packet has not arrived. *)
Theorem upstream_in_order pieces es todo rs (t : XhttpStream H) :
  Forall (fun d => d <> []) pieces -> Z.of_nat (length pieces) < 2 ^ 64 ->
  arrivals es ++ todo ≡ₚ numbered pieces -> Forall read_some es ->
  xrun XhttpStream_new es = (rs, t) ->
  got rs ++ outstanding pieces t = concat pieces /\
  (Forall while_open es -> eof t = false /\ Forall (fun r => r <> Ready []) rs) /\
  forall closed n, (0 < n)%nat -> eof t = false -> outstanding pieces t <> [] ->
    match poll_read n (set_closed closed t) with
    | (Ready ((_ :: _) as bs), _) => bs `prefix_of` outstanding pieces t
    | (_, t') => exists d, Packet (next_seq t') d ∈ todo
    end.
Proof.
  intros Hne Hcount Hperm Hn E.
  destruct (numbered_kv pieces _ Hperm) as [Hpk Hkv]. apply Forall_app in Hpk as [Hpk1 Hpk2]. rewrite omap_app in Hkv.
  pose proof (xrun_ok pieces Hne Hcount es _ (omap packet_kv todo) (stream_new_ok pieces _ Hkv) Hpk1 Hn) as Hrun.
  rewrite E in Hrun. destruct Hrun as (Hok' & Hg & Ho). split_and!; [exact Hg|intros Hop; by apply Ho|].
  intros closed n Hn0 He Hout. destruct (poll_read n (set_closed closed t)) as [r t'] eqn:Er.
  apply (poll_read_loop_ok pieces Hne Hcount _ _ _ (omap packet_kv todo)) in Er as (_ & _ & Hread); [|done|done|by apply set_closed_ok].
  change (outstanding pieces (set_closed closed t)) with (outstanding pieces t) in Hread.
  assert (Hm : outstanding pieces t' = outstanding pieces t -> missing pieces t' (omap packet_kv todo) ->
    exists d, Packet (next_seq t') d ∈ todo).
  { intros Eo Hm. rewrite <- Eo in Hout. destruct (Hm Hout) as [d Hd]. exists d.
    apply list_elem_of_omap in Hd as ([|s d'|] & Hin & Hp); try done. by injection Hp as -> ->. }
  destruct r as [|[|b bs]].
  - destruct Hread as [Eo Hmiss]. by apply Hm.
  - destruct Hread as [Eo Hb]. destruct (Hb eq_refl) as [Hb'|[_ Hb']]; [simpl in Hb'; congruence|]. by apply Hm.
  - destruct Hread as [Eo _]. exists (outstanding pieces t'). symmetry. exact Eo.
Qed.

(** An open stream with nothing buffered and an already read number in its queue. *)
Definition blocked (t : XhttpStream H) : Prop :=
  leftover t = [] /\ stream_buf t = [] /\ eof t = false /\ up_closed t = false /\
  Forall (fun p => is_Some (packet_kv p)) (up_rx t) /\
  Exists (fun e => seq e < next_seq t) (h_entries (heap t)).

Lemma blocked_buffered n t : blocked t -> poll_buffered n t = None.
Proof.
  destruct t as [rx cl h ns lo sb ef]. intros (Hlo & Hsb & _ & _ & _ & Hst). simpl in *. subst lo sb.
  rewrite !decide_False by (by intros []). destruct (h_pop h) as [[e h']|] eqn:Ep; simpl; [|done].
  destruct (pop_some _ _ _ Ep) as [_ Hmin]. apply Exists_exists in Hst as (x & Hx & Hlt).
  rewrite Forall_forall in Hmin. specialize (Hmin _ Hx). by rewrite decide_False by lia.
Qed.

Lemma blocked_read rx n t :
  up_rx t = rx -> blocked t -> exists t', poll_read_loop rx n t = (Pending, t') /\ blocked t'.
Proof.
  revert t. induction rx as [|p rx IH]; intros t Hrx Hb; cbn [poll_read_loop];
    rewrite blocked_buffered by done; destruct t as [rx' cl h ns lo sb ef];
    pose proof Hb as (Hlo & Hsb & Hef & Hcl & Hpk & Hst); simpl in *; subst.
  - by eexists.
  - apply Forall_cons_1 in Hpk as [[[s d] Hp] Hpk]. destruct p as [|s' d'|]; try done.
    apply IH; [done|]. split_and!; simpl; try done. rewrite entries_push. by right.
Qed.

(** a repeated packet blocks the stream.  Once a packet whose number was
    already read is in the queue (a POST that was sent again), no read ever
    returns anything more, whatever packets arrive. *)
Theorem stale_packet_blocks (t : XhttpStream H) es :
  blocked t -> Forall while_open es -> Forall (fun p => is_Some (packet_kv p)) (arrivals es) ->
  Forall (fun r => r = Pending) (xrun t es).1.
Proof.
  revert t. induction es as [|[p|cl n] es IH]; intros t Hb Hop Hpk; simpl; [constructor| |];
    apply Forall_cons_1 in Hop as [Hop1 Hop]; cbn [arrivals omap list_omap] in Hpk.
  - apply Forall_cons_1 in Hpk as [Hp Hpk]. apply IH; [|done..].
    destruct Hb as (Hlo & Hsb & Hef & Hcl & Hpk' & Hst). split_and!; simpl; try done.
    apply Forall_app. split; [done|]. by apply Forall_singleton.
  - simpl in Hop1. subst cl. assert (Hb0 : blocked (set_closed false t)) by (destruct Hb as (? & ? & ? & ? & ? & ?); by split_and!).
    destruct (blocked_read (up_rx t) n (set_closed false t) eq_refl Hb0) as (t' & E & Hb').
    unfold poll_read. change (up_rx (set_closed false t)) with (up_rx t). rewrite E.
    specialize (IH t' Hb' Hop Hpk). destruct (xrun t' es) as [rs t2]. by constructor.
Qed.

(** an empty packet reads as the end of the stream: the read that reaches it
    returns zero bytes, although the stream is open and the next packet has
    arrived. *)
Theorem empty_packet_is_eof n d :
  let t1 := arrive (Packet 1 d) (arrive (Packet 0 []) (XhttpStream_new (H := H))) in
  (poll_read n t1).1 = Ready [] /\ (poll_read n (poll_read n t1).2).1 = Ready (take n d).
Proof.
  assert (Hone : forall e h, h_entries h = [] -> exists h',
    h_pop (h_push e h) = Some (e, h') /\ h_entries h' = []).
  { intros e h Hh. pose proof (entries_push e h) as Hp. rewrite Hh in Hp.
    destruct (h_pop (h_push e h)) as [[e' h']|] eqn:E.
    - destruct (pop_some _ _ _ E) as [Hp' _]. rewrite Hp in Hp'.
      symmetry in Hp'. apply Permutation_singleton_r in Hp'. injection Hp' as He Hn. subst e'. by exists h'.
    - rewrite (pop_none _ E) in Hp. by apply Permutation_nil_cons in Hp. }
  destruct (Hone (Entry 0 []) h_empty entries_empty) as (h1 & E1 & N1).
  destruct (Hone (Entry 1 d) h1 N1) as (h2 & E2 & N2).
  assert (E0 : h_pop (H := H) h_empty = None).
  { destruct (h_pop h_empty) as [[e h']|] eqn:E; [|done]. destruct (pop_some _ _ _ E) as [Hp _].
    rewrite entries_empty in Hp. by apply Permutation_nil_cons in Hp. }
  assert (E3 : h_pop h1 = None).
  { destruct (h_pop h1) as [[e h']|] eqn:E; [|done]. destruct (pop_some _ _ _ E) as [Hp _].
    rewrite N1 in Hp. by apply Permutation_nil_cons in Hp. }
  (* One packet is taken from the channel and read at once. *)
  assert (Hread : forall rx h h' m e, h_pop h = None -> h_pop (h_push (Entry m e) h) = Some (Entry m e, h') ->
    poll_read n (MkStream (Packet m e :: rx) false h m [] [] false) =
      (Ready (take n e), MkStream rx false h' (u64 (m + 1)) (drop n e) [] false)).
  { intros rx h h' m e Hn Hs. unfold poll_read. cbn [up_rx poll_read_loop poll_buffered].
    rewrite !decide_False by (by intros []). rewrite Hn. cbn [mbind option_bind].
    destruct rx; cbn [poll_read_loop poll_buffered]; rewrite !decide_False by (by intros []);
      rewrite Hs; cbn [mbind option_bind seq data]; by rewrite decide_True. }
  intros t1. unfold t1, arrive. simpl.
  rewrite (Hread [Packet 1 d] h_empty h1 0 [] E0 E1). cbn [fst snd].
  rewrite take_nil, drop_nil. split; [done|].
  change (u64 (0 + 1)) with 1. by rewrite (Hread [] h1 h2 1 d E3 E2).
Qed.
End properties.

(** *** Routing *)

Lemma trim_end_not_slash p c : is_slash c = false -> trim_end_matches is_slash (p ++ [c]) = p ++ [c].
Proof.
  intros Hc. unfold trim_end_matches. rewrite reverse_app. simpl. rewrite Hc.
  change (c :: reverse p) with (reverse [c] ++ reverse p). by rewrite <- reverse_app, reverse_involutive.
Qed.
Lemma trim_end_slash p : trim_end_matches is_slash (p ++ [47]) = trim_end_matches is_slash p.
Proof. unfold trim_end_matches. by rewrite reverse_app. Qed.

Lemma strip_prefix_app p s : strip_prefix p (p ++ s) = Some s.
Proof. induction p as [|c p IH]; simpl; [done|]. by rewrite Z.eqb_refl. Qed.

(** routing under a base path.  With the configured path "/b", written with
    any number of final slashes ("/b" does not end in a slash and no Host is
    required), the server serves exactly the four forms of the protocol: "/b"
    itself, "/b/", "/b/session", and "/b/session/number". *)
Theorem routes_of_base b c k sid q m :
  let base := 47 :: b ++ [c] in
  let cfg := {| cfg_path := base ++ replicate k 47; cfg_host := None |} in
  let req p := {| req_method := m; req_host := None; req_path := p |} in
  c <> 47 -> sid <> [] -> 47 ∉ sid -> q <> [] -> m = GET \/ m = POST ->
  handle_request cfg (req base) = handle_request cfg (req (base ++ [47])) /\
  handle_request cfg (req base) =
    (if decide (m = GET) then HandleGet None else HandlePost None None) /\
  handle_request cfg (req (base ++ [47] ++ sid)) =
    (if decide (m = GET) then HandleGet (Some sid) else HandlePost (Some sid) None) /\
  handle_request cfg (req (base ++ [47] ++ sid ++ [47] ++ q)) = HandlePost (Some sid) (Some q).
Proof.
  intros base cfg req Hc Hsid Hns Hq Hm.
  assert (Hc' : is_slash c = false) by (by apply Z.eqb_neq).
  assert (Hbase : trim_end_matches is_slash base = base) by (by apply (trim_end_not_slash (47 :: b))).
  assert (Hnorm : normalized_path cfg = base ++ [47]).
  { unfold normalized_path. change (cfg_path cfg) with (base ++ replicate k 47).
    assert (trim_end_matches is_slash (base ++ replicate k 47) = base) as ->.
    { induction k as [|k IH]; [by rewrite app_nil_r|].
      rewrite replicate_S_end, app_assoc, trim_end_slash. done. }
    done. }
  assert (Hparse : forall s, s <> [] -> (forall r, s <> 47 :: r) ->
    parse_path (base ++ [47] ++ s) (base ++ [47]) =
      match split_once 47 s with
      | None => Some (nonempty s, None) | Some (s, q) => Some (nonempty s, nonempty q) end).
  { intros s Hs Hhd. unfold parse_path. rewrite trim_end_slash, Hbase.
    rewrite decide_False.
    2: { intros [E|E]; apply (f_equal length) in E; rewrite !length_app in E; simpl in E;
         destruct s; simpl in E; (done || lia). }
    rewrite app_assoc, strip_prefix_app. simpl.
    assert (trim_start_matches is_slash s = s) as ->.
    { destruct s as [|x s]; [done|]. simpl. unfold is_slash. rewrite (proj2 (Z.eqb_neq x 47)); [done|].
      intros ->. by apply (Hhd s). }
    by rewrite decide_False. }
  assert (Hroot : forall p, p = base \/ p = base ++ [47] -> parse_path p (base ++ [47]) = Some (None, None)).
  { intros p Hp. unfold parse_path. rewrite trim_end_slash, Hbase. by rewrite decide_True. }
  assert (Hno : forall r, sid <> 47 :: r) by (intros r ->; apply Hns; by left).
  assert (Hm' : m <> OPTIONS) by naive_solver.
  assert (Hrun : forall p, handle_request cfg (req p) =
    match parse_path p (base ++ [47]) with
    | None => NotFound
    | Some (s, q) => if decide (m = GET /\ q = None) then HandleGet s else HandlePost s q
    end).
  { intros p. unfold handle_request. rewrite Hnorm. cbn [cfg_host req_method req_path cfg req].
    by rewrite (decide_False (P := m = OPTIONS)). }
  rewrite !Hrun, !Hroot by auto. rewrite (Hparse sid) by done.
  rewrite (Hparse (sid ++ [47] ++ q));
    [|by destruct sid|intros r; destruct sid as [|x sid']; [done|intros [= -> _]; by apply (Hno sid')]].
  rewrite (split_once_none 47 sid Hns).
  change (sid ++ [47] ++ q) with (sid ++ 47 :: q). rewrite (split_once_app 47 sid q Hns).
  unfold nonempty. rewrite (decide_False (P := sid = [])), (decide_False (P := q = [])) by done.
  split_and!; try done; destruct Hm as [-> | ->]; done.
Qed.

(** the default path serves nothing.  With the path "/" of the default
    configuration the base path is "//", and every request for a path that
    starts with a single slash is answered with 404. *)
Theorem default_path_rejects m host c p :
  m <> OPTIONS -> c <> 47 ->
  handle_request {| cfg_path := [47]; cfg_host := None |}
    {| req_method := m; req_host := host; req_path := 47 :: c :: p |} = NotFound /\
  handle_request {| cfg_path := [47]; cfg_host := None |}
    {| req_method := m; req_host := host; req_path := [47] |} = NotFound.
Proof.
  intros Hm Hc.
  assert (Hs : forall p, strip_prefix [47; 47] (47 :: c :: p) = None).
  { intros p'. cbn [strip_prefix]. rewrite Z.eqb_refl. by rewrite (proj2 (Z.eqb_neq 47 c)). }
  assert (Hrun : forall r, r <> [] -> r <> [47; 47] -> strip_prefix [47; 47] r = None ->
    handle_request {| cfg_path := [47]; cfg_host := None |}
      {| req_method := m; req_host := host; req_path := r |} = NotFound).
  { intros r H1 H2 H3. unfold handle_request, parse_path.
    change (normalized_path _) with [47; 47]. cbn [cfg_host req_method req_path].
    change (trim_end_matches is_slash [47; 47]) with (@nil Z).
    rewrite (decide_False (P := m = OPTIONS)), decide_False by (done || by intros []).
    by rewrite H3. }
  split; apply Hrun; try done. by intros [= ->].
Qed.

(** *** Witnesses: a heap kept as a sorted list *)

Fixpoint insert_entry (e : PktEntry) (l : list PktEntry) : list PktEntry :=
  match l with
  | [] => [e]
  | x :: r => if decide (seq e < seq x) then e :: l else x :: insert_entry e r
  end.
(** The list is sorted when it is used: [h_pop] looks for the least number. *)
Fixpoint pop_entry (l : list PktEntry) : option (PktEntry * list PktEntry) :=
  match l with
  | [] => None
  | e :: r =>
      match pop_entry r with
      | Some (m, r') => if decide (seq m < seq e) then Some (m, e :: r') else Some (e, r)
      | None => Some (e, r)
      end
  end.

#[local] Instance list_heap : MinHeap (list PktEntry) := {
  h_empty := []; h_push := insert_entry; h_pop := pop_entry; h_entries := id;
}.

Lemma insert_entry_perm e l : insert_entry e l ≡ₚ e :: l.
Proof.
  induction l as [|x r IH]; simpl; [done|]. case_decide; [done|]. rewrite IH. apply Permutation_swap.
Qed.

Lemma pop_entry_spec l :
  match pop_entry l with
  | Some (m, r) => l ≡ₚ m :: r /\ Forall (fun x => seq m <= seq x) l
  | None => l = []
  end.
Proof.
  induction l as [|e r IH]; simpl; [done|]. destruct (pop_entry r) as [[m r']|].
  - destruct IH as [Hp Hm]. case_decide.
    + split; [rewrite Hp; apply Permutation_swap|]. constructor; [lia|done].
    + split; [done|]. constructor; [lia|]. eapply Forall_impl; [exact Hm|]. simpl. lia.
  - subst. split; [done|]. constructor; [lia|constructor].
Qed.

#[local] Instance list_heap_laws : MinHeapLaws (list PktEntry).
Proof.
  split; simpl; unfold id; [done|apply insert_entry_perm| |].
  - intros h E. pose proof (pop_entry_spec h) as Hs. by rewrite E in Hs.
  - intros h e h' E. pose proof (pop_entry_spec h) as Hs. by rewrite E in Hs.
Qed.

Definition demo_events : list xevent :=
  [Arrive (Packet 1 [3]); Read false 10; Arrive (Packet 0 [1; 2]); Read false 1; Read false 10; Read false 10; Read true 10].

Lemma upstream_in_order_witness :
  got (xrun (XhttpStream_new (H := list PktEntry)) demo_events).1
    ++ outstanding [[1; 2]; [3]] (xrun XhttpStream_new demo_events).2 = [1; 2; 3].
Proof.
  destruct (xrun (XhttpStream_new (H := list PktEntry)) demo_events) as [rs t] eqn:E.
  apply (upstream_in_order [[1; 2]; [3]] demo_events [] rs t).
  - repeat constructor; done.
  - reflexivity.
  - apply Permutation_swap.
  - repeat constructor.
  - exact E.
Defined.

Lemma stale_packet_blocks_witness :
  Forall (fun r => r = Pending)
    (xrun (MkStream (H := list PktEntry) [] false [Entry 0 [1]] 1 [] [] false)
       [Read false 5; Arrive (Packet 1 [2]); Read false 5; Read false 5]).1.
Proof.
  apply stale_packet_blocks.
  - split_and!; try reflexivity; [constructor|]. constructor. reflexivity.
  - repeat constructor.
  - repeat constructor. by eexists.
Defined.

Lemma empty_packet_is_eof_witness :
  (poll_read 4 (arrive (Packet 1 [9]) (arrive (Packet 0 []) (XhttpStream_new (H := list PktEntry))))).1
    = Ready [].
Proof. apply (empty_packet_is_eof (H := list PktEntry) 4 [9]). Defined.

Lemma routes_of_base_witness :
  handle_request {| cfg_path := str "/ray/"; cfg_host := None |}
    {| req_method := POST; req_host := None; req_path := str "/ray/ab/7" |}
    = HandlePost (Some (str "ab")) (Some (str "7")).
Proof.
  destruct (routes_of_base (str "ra") 121 1 (str "ab") (str "7") POST) as (_ & _ & _ & H);
    [done|done|vm_compute; intros H; repeat (apply elem_of_cons in H as [H|H]; [discriminate H|]);
      by apply not_elem_of_nil in H|done|by right|exact H].
Defined.

Lemma default_path_rejects_witness :
  handle_request {| cfg_path := [47]; cfg_host := None |}
    {| req_method := GET; req_host := None; req_path := str "/session" |} = NotFound.
Proof. apply (default_path_rejects GET None 115 (str "ession")); done. Defined.
