(* ===== verification/XhttpServer.v ===== *)
(** * XHTTP: the server's sessions, requests and bodies
    ([src/src/common/transport/xhttp.rs])

    Many HTTP requests, on connections of their own, make up the logical
    connections of the server.  A session has two channels of 64 items, one for
    what its POSTs bring and one for what the response to its GET carries;
    request handlers, body pumps, timers, response bodies and the protocol's
    streams work on them concurrently.  [xstep] is one step of one of them,
    between two of its [await]s.

    HTTP itself is hyper's: a request arrives parsed, its body comes as frames, and
    hyper polls the response's body. *)
From S2P Require Import Prelude RustStd Xhttp.

(** ** Responses *)

(** [Stream n]: the receiver of the downlink of pipe [n]. *)
Inductive ResponseBody := Empty | Stream (n : nat).
Record Response := MkResponse { resp_status : Z; resp_headers : list (list Z * list Z); resp_body : ResponseBody }.

Definition OK : Z := 200.
Definition BAD_REQUEST : Z := 400.
Definition NOT_FOUND : Z := 404.
Definition CONFLICT : Z := 409.

Definition downlink_response (n : nat) : Response :=
  MkResponse OK
    [(str "Content-Type", str "text/event-stream"); (str "Cache-Control", str "no-store");
     (str "Access-Control-Allow-Origin", str "*"); (str "X-Accel-Buffering", str "no")]
    (Stream n).
Definition plain (code : Z) : Response := MkResponse code [(str "Access-Control-Allow-Origin", str "*")] Empty.
Definition cors_ok : Response :=
  MkResponse OK
    [(str "Access-Control-Allow-Origin", str "*"); (str "Access-Control-Allow-Methods", str "GET, POST, PUT, OPTIONS");
     (str "Access-Control-Allow-Headers", str "Content-Type")]
    Empty.

Inductive frame_poll := FramePending | FrameEnd | FrameData (d : list Z).

(** [poll_frame] of a body whose receiver has [queue]; [closed]: no sender is left. *)
Definition poll_frame (closed : bool) (queue : list (list Z)) (b : ResponseBody) : frame_poll * list (list Z) :=
  match b with
  | Empty => (FrameEnd, queue)
  | Stream _ =>
      match queue with
      | d :: queue => (FrameData d, queue)
      | [] => (if closed then FrameEnd else FramePending, [])
      end
  end.

(** ** The state *)

Definition CAPACITY : nat := 64.

(** Where the two ends that a GET takes are: in the session, in the handler or the
    queue of ready streams, with the protocol, or dropped. *)
Inductive stage := NoGet | Waiting | WithProtocol | Dropped.
#[export] Instance stage_eq_dec : EqDecision stage.
Proof. solve_decision. Defined.

(** Who sent a packet. *)
Inductive sender := ByRequest (r : nat) | ByTimer.
#[export] Instance sender_eq_dec : EqDecision sender.
Proof. solve_decision. Defined.

(** What the handler of a GET or POST is for. *)
Inductive purpose := ForGet | ForPost (seq_str : option (list Z)).

(** A request's handler, at its next [await]. *)
Inductive rtask :=
| HEnter (sid : list Z) (k : purpose)             (** to lock the map of sessions *)
| HSession (n : nat) (k : purpose)                (** has the session, to lock it *)
| HOffer (n : nat)                                (** [ready_tx.send] *)
| HCollect (n : nat) (seq : Z) (acc : list (list Z))  (** [body.collect] *)
| HSend (n : nat) (seq : Z) (data : list Z)       (** [up_tx.send] *)
| HReplied (resp : Response)                      (** hyper sends the response *)
| HGone.

(** The spawned task that reads a request's body; [one]: of a stream-one GET. *)
Inductive pump :=
| PWait (n : nat) (one : bool)                    (** [body.frame] *)
| PSend (n : nat) (d : list Z) (one : bool)
| PEof (n : nat).

(** A session's timer task. *)
Inductive timer :=
| TWait                                           (** for the GET, at most 30 seconds *)
| TExpired                                        (** to lock the map *)
| TSleep                                          (** 300 seconds *)
| TEof (m : nat).                                 (** removed session [m], holds both locks, sends *)

(** What the frame of a request's body is; [FTrailers]: not data. *)
Inductive body_frame := FData (d : list Z) | FTrailers | FEnd | FErr.

Section server.
Context {H : Type} `{MinHeap H}.

(** A session's channels and its stream, or those of a stream-one GET (without a
    name).  [p_stream] holds the queue of the upstream.
    The last but one of each direction are histories: who gave what to the
    upstream and what was read of it, what was written to the downlink and what
    the response carried. *)
Record pipe := Pipe {
  p_name : option (list Z);
  p_notified : bool;
  p_stage : stage;
  p_stream : XhttpStream H;
  p_down : list (list Z);
  p_given : list (sender * UploadPacket);
  p_reads : list poll;
  p_sent : list (list Z);
  p_out : list (list Z);
}.
Definition pipe_new (name : option (list Z)) (s : stage) : pipe := Pipe name false s XhttpStream_new [] [] [] [] [].

(** [x_names]: the map of sessions; handlers and pumps by request, timers by
    session; [x_ready]: the queue that [accept] takes from. *)
Record server := Server {
  x_names : gmap (list Z) nat;
  x_pipes : gmap nat pipe;
  x_handlers : gmap nat rtask;
  x_pumps : gmap nat pump;
  x_timers : gmap nat timer;
  x_next : nat;
  x_ready : list nat;
}.
Definition server_new : server := Server ∅ ∅ ∅ ∅ ∅ 0 [].

Definition set_handler (r : nat) (h : rtask) (st : server) : server :=
  Server (x_names st) (x_pipes st) (<[r := h]> (x_handlers st)) (x_pumps st) (x_timers st) (x_next st) (x_ready st).
Definition set_pump (r : nat) (q : option pump) (st : server) : server :=
  Server (x_names st) (x_pipes st) (x_handlers st) (partial_alter (fun _ => q) r (x_pumps st)) (x_timers st) (x_next st) (x_ready st).
Definition set_timer (n : nat) (t : option timer) (st : server) : server :=
  Server (x_names st) (x_pipes st) (x_handlers st) (x_pumps st) (partial_alter (fun _ => t) n (x_timers st)) (x_next st) (x_ready st).
Definition set_ready (l : list nat) (st : server) : server :=
  Server (x_names st) (x_pipes st) (x_handlers st) (x_pumps st) (x_timers st) (x_next st) l.
Definition set_pipe (n : nat) (p : pipe) (st : server) : server :=
  Server (x_names st) (<[n := p]> (x_pipes st)) (x_handlers st) (x_pumps st) (x_timers st) (x_next st) (x_ready st).
Definition set_names (ns : gmap (list Z) nat) (st : server) : server :=
  Server ns (x_pipes st) (x_handlers st) (x_pumps st) (x_timers st) (x_next st) (x_ready st).
(** Two new channels. *)
Definition add_pipe (p : pipe) (st : server) : server :=
  Server (x_names st) (<[x_next st := p]> (x_pipes st)) (x_handlers st) (x_pumps st) (x_timers st) (S (x_next st)) (x_ready st).

Definition set_stage (s : stage) (p : pipe) : pipe :=
  Pipe (p_name p) (p_notified p) s (p_stream p) (p_down p) (p_given p) (p_reads p) (p_sent p) (p_out p).
Definition notify (p : pipe) : pipe :=
  Pipe (p_name p) true (p_stage p) (p_stream p) (p_down p) (p_given p) (p_reads p) (p_sent p) (p_out p).
Definition push (by_whom : sender) (u : UploadPacket) (p : pipe) : pipe :=
  Pipe (p_name p) (p_notified p) (p_stage p) (arrive u (p_stream p)) (p_down p) (p_given p ++ [(by_whom, u)])
    (p_reads p) (p_sent p) (p_out p).

(** ** Which ends of the channels are left *)

Definition any {K A} `{Countable K} (f : A -> bool) (m : gmap K A) : bool := existsb (fun x => f x.2) (map_to_list m).

(** The session (an [Arc]) is in the map, or a task has it. *)
Definition session_alive (st : server) (n : nat) : bool :=
  match x_pipes st !! n ≫= p_name with
  | None => false
  | Some _ =>
      any (fun m => bool_decide (m = n)) (x_names st) ||
      any (fun h => match h with HSession m _ | HOffer m => bool_decide (m = n) | _ => false end) (x_handlers st) ||
      any (fun t => match t with TEof m => bool_decide (m = n) | _ => false end) (x_timers st)
  end.

Definition up_sender (st : server) (n : nat) : bool :=
  session_alive st n ||
  any (fun h => match h with HCollect m _ _ | HSend m _ _ => bool_decide (m = n) | _ => false end) (x_handlers st) ||
  any (fun q => match q with PWait m _ | PSend m _ _ | PEof m => bool_decide (m = n) end) (x_pumps st).

Definition with_stream (p : pipe) : bool := bool_decide (p_stage p = Waiting) || bool_decide (p_stage p = WithProtocol).

Definition up_receiver (st : server) (n : nat) : bool :=
  match x_pipes st !! n with
  | Some p => with_stream p || (bool_decide (p_stage p = NoGet) && session_alive st n)
  | None => false
  end.

Definition down_sender (st : server) (n : nat) : bool :=
  match x_pipes st !! n with
  | Some p => with_stream p || session_alive st n
  | None => false
  end.

Definition down_receiver (st : server) (n : nat) : bool :=
  match x_pipes st !! n with
  | Some p =>
      (bool_decide (p_stage p = NoGet) && session_alive st n) ||
      any (fun h => match h with
                    | HOffer m => bool_decide (m = n)
                    | HReplied resp => match resp_body resp with Stream m => bool_decide (m = n) | Empty => false end
                    | _ => false
                    end) (x_handlers st)
  | None => false
  end.

(** [up_tx.send(u).await] on pipe [n]: waits while the channel is full; [false] if there
    is no receiver. *)
Definition send_up (by_whom : sender) (n : nat) (u : UploadPacket) (st : server) : option (bool * server) :=
  p ← x_pipes st !! n;
  if up_receiver st n then
    if decide (length (up_rx (p_stream p)) < CAPACITY)%nat then Some (true, set_pipe n (push by_whom u p) st) else None
  else Some (false, st).

(** ** Requests *)

Context (cfg : XhttpConfig).

(** Up to the first [await]; a stream-one GET makes its channels and starts to
    read its body. *)
Definition on_request (r : nat) (req : Request) (st : server) : option server :=
  match x_handlers st !! r with
  | Some _ => None
  | None =>
      Some match handle_request cfg req with
           | NotFound => set_handler r (HReplied (plain NOT_FOUND)) st
           | CorsOk => set_handler r (HReplied cors_ok) st
           | HandleGet None =>
               set_handler r (HOffer (x_next st)) (set_pump r (Some (PWait (x_next st) true)) (add_pipe (pipe_new None Waiting) st))
           | HandleGet (Some sid) => set_handler r (HEnter sid ForGet) st
           | HandlePost None _ => set_handler r (HReplied (plain BAD_REQUEST)) st
           | HandlePost (Some sid) q => set_handler r (HEnter sid (ForPost q)) st
           end
  end.

(** A timer holds the map while it sends. *)
Definition map_locked (st : server) : bool := any (fun t => match t with TEof _ => true | _ => false end) (x_timers st).
Definition session_locked (st : server) (n : nat) : bool :=
  any (fun t => match t with TEof m => bool_decide (m = n) | _ => false end) (x_timers st).

Definition get_or_create_session (sid : list Z) (st : server) : nat * server :=
  match x_names st !! sid with
  | Some n => (n, st)
  | None =>
      let n := x_next st in
      (n, set_timer n (Some TWait) (set_names (<[sid := n]> (x_names st)) (add_pipe (pipe_new (Some sid) NoGet) st)))
  end.

Definition on_enter (r : nat) (st : server) : option server :=
  match x_handlers st !! r with
  | Some (HEnter sid k) =>
      if map_locked st then None
      else let '(n, st) := get_or_create_session sid st in Some (set_handler r (HSession n k) st)
  | _ => None
  end.

(** With the session locked: a GET takes the two receiving ends, once; *)
Definition session_get (r n : nat) (p : pipe) (st : server) : server :=
  if decide (p_stage p = NoGet) then set_handler r (HOffer n) (set_pipe n (notify (set_stage Waiting p)) st)
  else set_handler r (HReplied (plain CONFLICT)) st.

(** a POST takes a sender, and reads its body in a task, or itself if it has a number. *)
Definition session_post (r n : nat) (seq_str : option (list Z)) (st : server) : server :=
  match seq_str with
  | None => set_handler r (HReplied (plain OK)) (set_pump r (Some (PWait n false)) st)
  | Some s =>
      match parse_uint (2 ^ 64 - 1) s with
      | Some seq => set_handler r (HCollect n seq []) st
      | None => set_handler r (HReplied (plain BAD_REQUEST)) st
      end
  end.

Definition on_session (r : nat) (st : server) : option server :=
  match x_handlers st !! r with
  | Some (HSession n k) =>
      p ← x_pipes st !! n;
      if session_locked st n then None
      else Some match k with ForGet => session_get r n p st | ForPost q => session_post r n q st end
  | _ => None
  end.

Definition on_offer (r : nat) (st : server) : option server :=
  match x_handlers st !! r with
  | Some (HOffer n) =>
      if decide (length (x_ready st) < CAPACITY)%nat then
        Some (set_handler r (HReplied (downlink_response n)) (set_ready (x_ready st ++ [n]) st))
      else None
  | _ => None
  end.

(** The next frame of a request's body, for [collect] or a pump. *)
Definition collect_frame (n : nat) (seq : Z) (acc : list (list Z)) (f : body_frame) : rtask :=
  match f with
  | FData d => HCollect n seq (acc ++ [d])
  | FTrailers => HCollect n seq acc
  | FEnd => HSend n seq (concat acc)
  | FErr => HReplied (plain OK)
  end.
Definition pump_frame (n : nat) (one : bool) (f : body_frame) : option pump :=
  match f with
  | FData d => Some (PSend n d one)
  | FTrailers => Some (PWait n one)
  | FEnd | FErr => if one then Some (PEof n) else None
  end.

Definition on_body_frame (r : nat) (f : body_frame) (st : server) : option server :=
  match x_handlers st !! r, x_pumps st !! r with
  | Some (HCollect n seq acc), _ => Some (set_handler r (collect_frame n seq acc f) st)
  | _, Some (PWait n one) => Some (set_pump r (pump_frame n one f) st)
  | _, _ => None
  end.

Definition on_send (r : nat) (st : server) : option server :=
  match x_handlers st !! r with
  | Some (HSend n seq data) =>
      '(_, st) ← send_up (ByRequest r) n (Packet seq data) st;
      Some (set_handler r (HReplied (plain OK)) st)
  | _ => None
  end.

(** A pump that cannot send ends (and so would the end marker of a stream-one). *)
Definition on_pump (r : nat) (st : server) : option server :=
  match x_pumps st !! r with
  | Some (PSend n d one) =>
      '(sent, st) ← send_up (ByRequest r) n (Chunk d) st;
      Some (set_pump r (if sent : bool then Some (PWait n one) else None) st)
  | Some (PEof n) =>
      '(_, st) ← send_up (ByRequest r) n Eof st;
      Some (set_pump r None st)
  | _ => None
  end.

(** The client's connection ends: hyper drops the handler's future, with a stream that
    was not ready yet, or the response's body. *)
Definition on_abort (r : nat) (st : server) : option server :=
  match x_handlers st !! r with
  | Some (HOffer n) => p ← x_pipes st !! n; Some (set_handler r HGone (set_pipe n (set_stage Dropped p) st))
  | Some _ => Some (set_handler r HGone st)
  | None => None
  end.

(** hyper polls the body of the response. *)
Definition on_body (r : nat) (st : server) : option server :=
  match x_handlers st !! r with
  | Some (HReplied resp) =>
      match resp_body resp with
      | Empty => Some (set_handler r HGone st)
      | Stream n =>
          p ← x_pipes st !! n;
          match poll_frame (negb (down_sender st n)) (p_down p) (Stream n) with
          | (FramePending, _) => None
          | (FrameEnd, _) => Some (set_handler r HGone st)
          | (FrameData d, queue) =>
              Some (set_pipe n (Pipe (p_name p) (p_notified p) (p_stage p) (p_stream p) queue (p_given p) (p_reads p)
                                  (p_sent p) (p_out p ++ [d])) st)
          end
      end
  | _ => None
  end.

(** ** Timers

    The 30 seconds may be over at any time before the GET; time is not modelled. *)
Definition on_timer (n : nat) (st : server) : option server :=
  match x_timers st !! n, x_pipes st !! n with
  | Some TWait, Some p => Some (set_timer n (Some (if p_notified p then TSleep else TExpired)) st)
  | Some TSleep, Some p =>
      sid ← p_name p;
      if map_locked st then None
      else Some (set_timer n None (set_names (delete sid (x_names st)) st))
  | Some TExpired, Some p =>
      sid ← p_name p;
      if map_locked st then None
      else
        match x_names st !! sid with
        | Some m => Some (set_timer n (Some (TEof m)) (set_names (delete sid (x_names st)) st))
        | None => Some (set_timer n None st)
        end
  | Some (TEof m), _ => '(_, st) ← send_up ByTimer m Eof st; Some (set_timer n None st)
  | _, _ => None
  end.

(** ** The protocol's side *)

Definition accept (st : server) : option server :=
  match x_ready st with
  | n :: rest => p ← x_pipes st !! n; Some (set_pipe n (set_stage WithProtocol p) (set_ready rest st))
  | [] => None
  end.

(** [poll_read] into a buffer that is not full. *)
Definition on_read (n k : nat) (st : server) : option server :=
  p ← x_pipes st !! n;
  if decide (p_stage p = WithProtocol /\ 0 < k)%nat then
    let '(res, t) := poll_read k (set_closed (negb (up_sender st n)) (p_stream p)) in
    Some (set_pipe n (Pipe (p_name p) (p_notified p) (p_stage p) t (p_down p) (p_given p) (p_reads p ++ [res])
                        (p_sent p) (p_out p)) st)
  else None.

Inductive write_poll := WritePending | WriteBroken | WriteOk (n : nat).

(** [poll_write]: a slot of the channel is reserved, and filled. *)
Definition poll_write (n : nat) (buf : list Z) (st : server) : write_poll * server :=
  match x_pipes st !! n with
  | None => (WriteBroken, st)
  | Some p =>
      if down_receiver st n then
        if decide (length (p_down p) < CAPACITY)%nat then
          (WriteOk (length buf),
           set_pipe n (Pipe (p_name p) (p_notified p) (p_stage p) (p_stream p) (p_down p ++ [buf]) (p_given p) (p_reads p)
                         (p_sent p ++ [buf]) (p_out p)) st)
        else (WritePending, st)
      else (WriteBroken, st)
  end.

Definition on_write (n : nat) (buf : list Z) (st : server) : option server :=
  p ← x_pipes st !! n;
  if decide (p_stage p = WithProtocol) then
    match poll_write n buf st with (WritePending, _) => None | (_, st) => Some st end
  else None.

Definition on_drop (n : nat) (st : server) : option server :=
  p ← x_pipes st !! n;
  if decide (p_stage p = WithProtocol) then Some (set_pipe n (set_stage Dropped p) st) else None.

(** ** Steps *)

Inductive xlabel :=
| XRequest (r : nat) (req : Request)
| XEnter (r : nat)
| XSession (r : nat)
| XOffer (r : nat)
| XFrame (r : nat) (f : body_frame)
| XSend (r : nat)
| XPump (r : nat)
| XAbort (r : nat)
| XBody (r : nat)
| XTimer (n : nat)
| XAccept
| XRead (n k : nat)
| XWrite (n : nat) (buf : list Z)
| XDrop (n : nat).

Definition xstep (st : server) (l : xlabel) : option server :=
  match l with
  | XRequest r req => on_request r req st
  | XEnter r => on_enter r st
  | XSession r => on_session r st
  | XOffer r => on_offer r st
  | XFrame r f => on_body_frame r f st
  | XSend r => on_send r st
  | XPump r => on_pump r st
  | XAbort r => on_abort r st
  | XBody r => on_body r st
  | XTimer n => on_timer n st
  | XAccept => accept st
  | XRead n k => on_read n k st
  | XWrite n buf => on_write n buf st
  | XDrop n => on_drop n st
  end.

Fixpoint steps (st : server) (ls : list xlabel) : option server :=
  match ls with [] => Some st | l :: ls => st' ← xstep st l; steps st' ls end.

Lemma steps_snoc st ls l : steps st (ls ++ [l]) = st' ← steps st ls; xstep st' l.
Proof.
  revert st. induction ls as [|l' ls IH]; intros st; simpl; [by destruct (xstep st l)|].
  destruct (xstep st l') as [st1|]; simpl; [apply IH|done].
Qed.
End server.

Arguments pipe : clear implicits.
Arguments server : clear implicits.

(** ** What a run has done *)

Section invariants.
Context {H : Type} `{MinHeap H} (cfg : XhttpConfig).

(** What request [r] asked for, and the data frames of its body. *)
Definition asked (ls : list xlabel) (r : nat) (rt : route) : Prop :=
  exists req, XRequest r req ∈ ls /\ handle_request cfg req = rt.
Definition frames_of (r : nat) (ls : list xlabel) : list (list Z) :=
  omap (fun l => match l with XFrame r' (FData d) => if decide (r' = r) then Some d else None | _ => None end) ls.

(** The name of a pipe, and what request [r] gave to it. *)
Definition name_of (st : server H) (n : nat) : option (option (list Z)) := p_name <$> x_pipes st !! n.
Definition sent_by (st : server H) (r n : nat) : list UploadPacket :=
  snd <$> filter (fun x => x.1 = ByRequest r) (default [] (p_given <$> x_pipes st !! n)).

(** Everything about a request. *)
Record view := View {
  v_handler : option rtask;
  v_pump : option pump;
  v_frames : list (list Z);
  v_sent : nat -> list UploadPacket;
  v_name : nat -> option (option (list Z));
  v_asked : route -> Prop;
}.
Definition view_of (ls : list xlabel) (st : server H) (r : nat) : view :=
  View (x_handlers st !! r) (x_pumps st !! r) (frames_of r ls) (sent_by st r) (name_of st) (asked ls r).

Definition route_of (sid : list Z) (k : purpose) : route :=
  match k with ForGet => HandleGet (Some sid) | ForPost q => HandlePost (Some sid) q end.

Definition silent (v : view) : Prop := forall n, v_sent v n = [].
Definition sent_only (v : view) (n : nat) (l : list UploadPacket) : Prop :=
  forall m, v_sent v m = if decide (m = n) then l else [].

(** What a request may give to a pipe: the chunks of a stream-one GET's body on its own
    pipe, then the end; for the session that it names, the chunks of a POST's body, or
    its whole body as the packet with its number. *)
Definition rightful (v : view) (n : nat) : Prop :=
  (v_asked v (HandleGet None) /\ v_name v n = Some None /\ v_sent v n `prefix_of` (Chunk <$> v_frames v) ++ [Eof]) \/
  exists sid, v_name v n = Some (Some sid) /\
    ((v_asked v (HandlePost (Some sid) None) /\ v_sent v n `prefix_of` Chunk <$> v_frames v) \/
     exists q seq, v_asked v (HandlePost (Some sid) (Some q)) /\ parse_uint (2 ^ 64 - 1) q = Some seq /\
       v_sent v n = [Packet seq (concat (v_frames v))]).

Definition numbered_post (v : view) (n : nat) (seq : Z) : Prop :=
  exists sid q, v_name v n = Some (Some sid) /\ v_asked v (HandlePost (Some sid) (Some q)) /\ parse_uint (2 ^ 64 - 1) q = Some seq.

Definition handler_ok (v : view) : Prop :=
  match v_handler v with
  | None => v_pump v = None /\ v_frames v = [] /\ silent v
  | Some (HEnter sid k) => v_asked v (route_of sid k) /\ v_pump v = None /\ v_frames v = [] /\ silent v
  | Some (HSession n k) =>
      (exists sid, v_name v n = Some (Some sid) /\ v_asked v (route_of sid k)) /\
      v_pump v = None /\ v_frames v = [] /\ silent v
  | Some (HCollect n seq acc) => numbered_post v n seq /\ v_pump v = None /\ v_frames v = acc /\ silent v
  | Some (HSend n seq data) => numbered_post v n seq /\ v_pump v = None /\ concat (v_frames v) = data /\ silent v
  | Some (HOffer _) | Some (HReplied _) | Some HGone => True
  end.

Definition origin (v : view) (n : nat) (one : bool) : Prop :=
  if one then v_asked v (HandleGet None) /\ v_name v n = Some None
  else exists sid, v_name v n = Some (Some sid) /\ v_asked v (HandlePost (Some sid) None).

Definition pump_ok (v : view) : Prop :=
  match v_pump v with
  | None => True
  | Some (PWait n one) => origin v n one /\ sent_only v n (Chunk <$> v_frames v)
  | Some (PSend n d one) => origin v n one /\ exists fs, v_frames v = fs ++ [d] /\ sent_only v n (Chunk <$> fs)
  | Some (PEof n) => origin v n true /\ sent_only v n (Chunk <$> v_frames v)
  end.

Definition request_ok (v : view) : Prop :=
  handler_ok v /\ pump_ok v /\ forall n, v_sent v n <> [] -> rightful v n.

(** More is known later. *)
Definition later (v v' : view) : Prop :=
  v_handler v' = v_handler v /\ v_pump v' = v_pump v /\ v_frames v' = v_frames v /\
  (forall n, v_sent v' n = v_sent v n) /\ (forall n x, v_name v n = Some x -> v_name v' n = Some x) /\
  (forall rt, v_asked v rt -> v_asked v' rt).

Lemma origin_later v v' n one : later v v' -> origin v n one -> origin v' n one.
Proof.
  intros (_ & _ & _ & _ & Hn & Ha). destruct one; simpl; [intros [? ?]; split; auto|]. intros (sid & ? & ?). exists sid. auto.
Qed.

Lemma request_ok_later v v' : later v v' -> request_ok v -> request_ok v'.
Proof.
  intros Hl (Hh & Hq & Hr). pose proof Hl as (Eh & Eq & Ef & Es & Hn & Ha).
  assert (Hsil : silent v -> silent v') by (intros Hs n; by rewrite Es).
  assert (Honly : forall n l, sent_only v n l -> sent_only v' n l) by (intros n l Hs m; by rewrite Es).
  assert (Hnum : forall n s, numbered_post v n s -> numbered_post v' n s) by (intros n s (sid & q & ? & ? & ?); exists sid, q; auto).
  split_and!.
  - unfold handler_ok in *. rewrite Eh, Eq, Ef. destruct (v_handler v) as [[]|]; naive_solver.
  - unfold pump_ok in *. rewrite Eq, Ef. destruct (v_pump v) as [[n one|n d one|n]|]; [| | |done].
    + destruct Hq. split; [by eapply origin_later|auto].
    + destruct Hq as (? & fs & ? & ?). split; [by eapply origin_later|]. exists fs. auto.
    + destruct Hq. split; [by eapply (origin_later v v')|auto].
  - intros n. rewrite Es. intros Hne. unfold rightful. rewrite Ef, Es.
    destruct (Hr n Hne) as [(? & ? & ?)|(sid & ? & [[? ?]|(q & s & ? & ? & ?)])]; [left; auto|right; exists sid..]; (split; [auto|]).
    + left. auto.
    + right. exists q, s. auto.
Qed.

(** While a pump runs, what it has sent is rightful. *)
Lemma sent_rightful v n one l :
  origin v n one -> sent_only v n l ->
  l `prefix_of` (if one then (Chunk <$> v_frames v) ++ [Eof] else Chunk <$> v_frames v) ->
  forall m, v_sent v m <> [] -> rightful v m.
Proof.
  intros Ho Hs Hp m Hm. rewrite (Hs m) in Hm. destruct (decide (m = n)) as [->|]; [|done].
  assert (E : v_sent v n = l) by (rewrite Hs; by rewrite decide_True). unfold rightful. rewrite E.
  destruct one; [left; by destruct Ho|]. destruct Ho as (sid & ? & ?). right. exists sid. split; [done|]. by left.
Qed.

(** ** Steps, seen from outside *)

Lemma frames_of_snoc r ls l :
  frames_of r (ls ++ [l]) = frames_of r ls ++ match l with XFrame r' (FData d) => if decide (r' = r) then [d] else [] | _ => [] end.
Proof.
  unfold frames_of. rewrite omap_app. f_equal. destruct l; simpl; try done. destruct f; try done. by case_decide.
Qed.

Lemma asked_snoc ls l r rt : asked ls r rt -> asked (ls ++ [l]) r rt.
Proof. intros (req & Hin & ?). exists req. split; [by apply elem_of_app; left|done]. Qed.

(** [who] acts: nothing changes for other requests. *)
Definition only_for (who : option nat) (st st' : server H) : Prop :=
  (forall r, Some r <> who -> x_handlers st' !! r = x_handlers st !! r /\ x_pumps st' !! r = x_pumps st !! r /\
     forall n, sent_by st' r n = sent_by st r n) /\
  forall n x, name_of st n = Some x -> name_of st' n = Some x.

Lemma only_for_refl who st : only_for who st st.
Proof. by split. Qed.
Lemma only_for_trans who st1 st2 st3 : only_for who st1 st2 -> only_for who st2 st3 -> only_for who st1 st3.
Proof.
  intros [A1 B1] [A2 B2]. split; [|auto]. intros r Hr. destruct (A1 r Hr) as (E1 & E2 & E3), (A2 r Hr) as (F1 & F2 & F3).
  split_and!; [congruence..|]. intros n. by rewrite F3, E3.
Qed.
Lemma only_for_handler r h st : only_for (Some r) st (set_handler r h st).
Proof. split; [|done]. intros r' Hr. simpl. by rewrite lookup_insert_ne by congruence. Qed.
Lemma only_for_pump r q st : only_for (Some r) st (set_pump r q st).
Proof. split; [|done]. intros r' Hr. simpl. by rewrite lookup_partial_alter_ne by congruence. Qed.
Lemma only_for_timer who n t st : only_for who st (set_timer n t st).
Proof. by split. Qed.
Lemma only_for_names who ns st : only_for who st (set_names ns st).
Proof. by split. Qed.
Lemma only_for_ready who l st : only_for who st (set_ready l st).
Proof. by split. Qed.

Lemma sent_by_pipe st n p r m :
  sent_by (set_pipe n p st) r m =
    if decide (m = n) then snd <$> filter (fun x => x.1 = ByRequest r) (p_given p) else sent_by st r m.
Proof.
  unfold sent_by. simpl. destruct (decide (m = n)) as [->|Hm]; [by rewrite lookup_insert_eq|].
  by rewrite lookup_insert_ne by done.
Qed.
Lemma name_of_pipe st n p m : name_of (set_pipe n p st) m = if decide (m = n) then Some (p_name p) else name_of st m.
Proof.
  unfold name_of. simpl. destruct (decide (m = n)) as [->|Hm]; [by rewrite lookup_insert_eq|]. by rewrite lookup_insert_ne by done.
Qed.

Lemma only_for_pipe who st n p p' :
  x_pipes st !! n = Some p -> p_name p' = p_name p -> p_given p' = p_given p -> only_for who st (set_pipe n p' st).
Proof.
  intros Hp En Eg. split.
  - intros r _. split_and!; [done..|]. intros m. rewrite sent_by_pipe. case_decide as Hm; [|done]. subst m.
    unfold sent_by. by rewrite Hp, Eg.
  - intros m x. rewrite name_of_pipe. case_decide as Hm; [|done]. subst m. unfold name_of. rewrite Hp, En. done.
Qed.

Lemma sent_by_push st n p who u r m :
  x_pipes st !! n = Some p ->
  sent_by (set_pipe n (push who u p) st) r m = sent_by st r m ++ if decide (m = n /\ who = ByRequest r) then [u] else [].
Proof.
  intros Hp. rewrite sent_by_pipe. destruct (decide (m = n)) as [->|Hm].
  - unfold sent_by. rewrite Hp. simpl. rewrite filter_app, fmap_app. f_equal.
    destruct (decide (who = ByRequest r)) as [->|Hw]; [rewrite (decide_True (P := n = n /\ _)) by done|
      rewrite (decide_False (P := n = n /\ _)) by naive_solver].
    + by rewrite filter_cons_True.
    + by rewrite filter_cons_False.
  - by rewrite decide_False, app_nil_r by naive_solver.
Qed.

Lemma only_for_push st n p who u :
  x_pipes st !! n = Some p -> only_for (match who with ByRequest r => Some r | ByTimer => None end) st (set_pipe n (push who u p) st).
Proof.
  intros Hp. split.
  - intros r Hr. split_and!; [done..|]. intros m. rewrite (sent_by_push _ _ _ _ _ _ _ Hp).
    rewrite decide_False, app_nil_r; [done|]. intros [_ ->]. done.
  - intros m x. rewrite name_of_pipe. case_decide as Hm; [|done]. subst m. unfold name_of. by rewrite Hp.
Qed.

Lemma only_for_add who st p : x_pipes st !! x_next st = None -> p_given p = [] -> only_for who st (add_pipe p st).
Proof.
  intros Hn Hg. split.
  - intros r _. split_and!; [done..|]. intros m. unfold sent_by. simpl. destruct (decide (m = x_next st)) as [->|Hm].
    + rewrite lookup_insert_eq, Hn. simpl. by rewrite Hg.
    + by rewrite lookup_insert_ne by done.
  - intros m x. unfold name_of. simpl. destruct (decide (m = x_next st)) as [->|Hm]; [by rewrite Hn|]. by rewrite lookup_insert_ne by done.
Qed.

Definition requests_ok (ls : list xlabel) (st : server H) : Prop := forall r, request_ok (view_of ls st r).

(** The acting request apart, requests stay as they should be. *)
Lemma requests_step who ls l st st' :
  only_for who st st' -> (forall r, Some r <> who -> frames_of r (ls ++ [l]) = frames_of r ls) ->
  requests_ok ls st -> (forall r, who = Some r -> request_ok (view_of (ls ++ [l]) st' r)) -> requests_ok (ls ++ [l]) st'.
Proof.
  intros [Ho Hn] Hf Hok Hwho r. destruct (decide (Some r = who)) as [<-|Hr]; [by apply Hwho|].
  destruct (Ho r Hr) as (Eh & Eq & Es). apply (request_ok_later (view_of ls st r)); [|apply Hok].
  split_and!; try done; [by apply Hf|intros rt; apply asked_snoc].
Qed.

Lemma requests_quiet ls l st st' :
  only_for None st st' -> (forall r, frames_of r (ls ++ [l]) = frames_of r ls) -> requests_ok ls st -> requests_ok (ls ++ [l]) st'.
Proof. intros Ho Hf Hok. by eapply requests_step. Qed.

(** ** Channels and names *)

Definition pipe_ok (p : pipe H) : Prop :=
  p_sent p = p_out p ++ p_down p /\ (forall u, (ByTimer, u) ∈ p_given p -> u = Eof) /\
  exists es, Forall read_some es /\ xrun XhttpStream_new es = (p_reads p, p_stream p) /\ arrivals es = (p_given p).*2.

Definition pipes_ok (st : server H) : Prop :=
  (forall n p, x_pipes st !! n = Some p -> (n < x_next st)%nat /\ pipe_ok p) /\
  forall sid n, x_names st !! sid = Some n -> name_of st n = Some (Some sid).

Lemma pipe_new_ok name s : pipe_ok (pipe_new name s).
Proof. split_and!; [done|by intros u ?%elem_of_nil|]. by exists []. Qed.

Lemma push_ok who u p : (who = ByTimer -> u = Eof) -> pipe_ok p -> pipe_ok (push who u p).
Proof.
  intros Hw (Hd & Ht & es & Hs & Hx & Ha). split_and!; [done| |].
  - intros u' [Hu|[= <- <-]%list_elem_of_singleton]%elem_of_app; [by apply Ht|by apply Hw].
  - exists (es ++ [Arrive u]). simpl. rewrite xrun_app, Hx. simpl. rewrite app_nil_r. split_and!; [|done|].
    + apply Forall_app. split; [done|by constructor].
    + unfold arrivals in *. rewrite omap_app, Ha, fmap_app. done.
Qed.

Lemma pipes_ok_set n p p' st :
  x_pipes st !! n = Some p -> p_name p' = p_name p -> (pipe_ok p -> pipe_ok p') -> pipes_ok st -> pipes_ok (set_pipe n p' st).
Proof.
  intros Hp En Hok [H1 H2]. split.
  - intros m q. simpl. rewrite lookup_insert_Some. intros [[<- <-]|[_ Hq]]; [|by apply H1]. destruct (H1 _ _ Hp). auto.
  - intros sid m Hm. apply H2 in Hm. rewrite name_of_pipe. case_decide as Hmn; [|done]. subst m.
    unfold name_of in Hm. rewrite Hp in Hm. by rewrite En.
Qed.

Lemma pipes_ok_delete sid st : pipes_ok st -> pipes_ok (set_names (delete sid (x_names st)) st).
Proof. intros [H1 H2]. split; [done|]. intros sid' n. simpl. intros [_ Hn]%lookup_delete_Some. by apply H2. Qed.

Lemma next_fresh st : pipes_ok st -> x_pipes st !! x_next st = None.
Proof. intros [H1 _]. destruct (x_pipes st !! x_next st) as [p|] eqn:E; [|done]. apply H1 in E as [? _]. lia. Qed.

Lemma pipes_ok_add name s st : pipes_ok st -> pipes_ok (add_pipe (pipe_new name s) st).
Proof.
  intros Hok. pose proof (next_fresh st Hok) as Hn. destruct Hok as [H1 H2]. split.
  - intros m q. simpl. rewrite lookup_insert_Some. intros [[<- <-]|[_ Hq]]; [split; [lia|apply pipe_new_ok]|].
    destruct (H1 _ _ Hq). split; [lia|done].
  - intros sid m Hm. apply H2 in Hm. destruct (only_for_add None st (pipe_new name s) Hn eq_refl) as [_ Hl]. by apply Hl.
Qed.

Definition stage_of (st : server H) (n : nat) : option stage := p_stage <$> x_pipes st !! n.

(** [get_or_create_session]: the session has the name. *)
Lemma get_or_create_ok who sid st n st1 :
  get_or_create_session sid st = (n, st1) -> pipes_ok st ->
  pipes_ok st1 /\ only_for who st st1 /\ name_of st1 n = Some (Some sid) /\ x_handlers st1 = x_handlers st /\
  x_ready st1 = x_ready st /\
  forall m s, stage_of st m = Some s -> stage_of st1 m = Some s.
Proof.
  unfold get_or_create_session. destruct (x_names st !! sid) as [n0|] eqn:En; intros [= <- <-] Hok.
  { pose proof Hok as [_ H2]. split; [done|]. split; [apply only_for_refl|]. split; [by apply H2|done]. }
  pose proof (next_fresh st Hok) as Hn.
  pose proof (pipes_ok_add (Some sid) NoGet st Hok) as [H1 H2].
  assert (Ename : name_of (add_pipe (pipe_new (Some sid) NoGet) st) (x_next st) = Some (Some sid))
    by (unfold name_of; simpl; by rewrite lookup_insert_eq).
  split; [split; [exact H1|]|split].
  - intros sid' m. simpl. rewrite lookup_insert_Some. intros [[<- <-]|[_ Hm]]; [exact Ename|exact (H2 _ _ Hm)].
  - apply (only_for_trans _ _ (add_pipe (pipe_new (Some sid) NoGet) st)); [by apply only_for_add|by split].
  - split; [exact Ename|]. split_and!; [done|done|]. intros m s. unfold stage_of. simpl.
    destruct (decide (m = x_next st)) as [->|Hm]; [by rewrite Hn|by rewrite lookup_insert_ne by done].
Qed.

(** What [up_tx.send] does. *)
Lemma send_up_ok who n u (st : server H) b st1 :
  send_up who n u st = Some (b, st1) ->
  exists p, x_pipes st !! n = Some p /\ st1 = if b : bool then set_pipe n (push who u p) st else st.
Proof.
  unfold send_up. destruct (x_pipes st !! n) as [p|] eqn:Hp; simpl; [|done].
  destruct (up_receiver st n); [case_decide; [|done]|]; intros [= <- <-]; by exists p.
Qed.

Lemma send_up_pipes who n u (st : server H) b st1 :
  (who = ByTimer -> u = Eof) -> send_up who n u st = Some (b, st1) -> pipes_ok st -> pipes_ok st1.
Proof.
  intros Hw (p & Hp & ->)%send_up_ok Hok. destruct b; [|done].
  by eapply pipes_ok_set; [done|done|apply push_ok|].
Qed.

Lemma send_up_only_for r n u (st : server H) b st1 : send_up (ByRequest r) n u st = Some (b, st1) -> only_for (Some r) st st1.
Proof.
  intros (p & Hp & ->)%send_up_ok. destruct b; [|apply only_for_refl]. by apply (only_for_push st n p (ByRequest r)).
Qed.

Lemma send_up_sent r n u (st : server H) b st1 m :
  send_up (ByRequest r) n u st = Some (b, st1) -> sent_by st1 r m = sent_by st r m ++ if decide (m = n /\ b = true) then [u] else [].
Proof.
  intros (p & Hp & ->)%send_up_ok. destruct b.
  - rewrite (sent_by_push _ _ _ _ _ _ _ Hp). do 2 f_equal. repeat case_decide; naive_solver.
  - rewrite decide_False by naive_solver. by rewrite app_nil_r.
Qed.

(** ** Downlinks *)

Definition downlink (h : option rtask) (n : nat) : Prop :=
  h = Some (HOffer n) \/ exists resp, h = Some (HReplied resp) /\ resp_body resp = Stream n.

(** At most one request has a pipe's downlink; a stream is in the queue at most once,
    and its GET is not about to put it there again. *)
Definition links_ok (st : server H) : Prop :=
  (forall r n, downlink (x_handlers st !! r) n ->
     (exists s, stage_of st n = Some s /\ s <> NoGet) /\ forall r', downlink (x_handlers st !! r') n -> r' = r) /\
  NoDup (x_ready st) /\
  (forall n, n ∈ x_ready st -> stage_of st n = Some Waiting /\ forall r, x_handlers st !! r <> Some (HOffer n)) /\
  (forall r n, x_handlers st !! r = Some (HOffer n) -> stage_of st n = Some Waiting).

Lemma links_same st st' :
  x_handlers st' = x_handlers st -> x_ready st' = x_ready st ->
  (forall n s, stage_of st n = Some s -> stage_of st' n = Some s) -> links_ok st -> links_ok st'.
Proof.
  intros Eh Er Es (H1 & H2 & H3 & H4). unfold links_ok. rewrite Eh, Er. split_and!; [|done| |eauto].
  - intros r n Hd. destruct (H1 r n Hd) as [(s & ? & ?) ?]. split; [|done]. exists s. auto.
  - intros n Hn. destruct (H3 n Hn). auto.
Qed.

Lemma links_pipe n p p' st :
  x_pipes st !! n = Some p -> p_stage p' = p_stage p -> links_ok st -> links_ok (set_pipe n p' st).
Proof.
  intros Hp Es. apply links_same; [done..|]. intros m s. unfold stage_of. simpl.
  destruct (decide (m = n)) as [->|Hm]; [rewrite lookup_insert_eq, Hp; simpl; by rewrite Es|by rewrite lookup_insert_ne by done].
Qed.

Lemma downlink_insert (m : gmap nat rtask) r h r' n : (forall n, ~ downlink (Some h) n) -> downlink (<[r := h]> m !! r') n -> downlink (m !! r') n.
Proof.
  intros Hh. destruct (decide (r' = r)) as [->|Hr]; [rewrite lookup_insert_eq; by intros ?%Hh|by rewrite lookup_insert_ne by done].
Qed.

Lemma links_handler r h st : (forall n, ~ downlink (Some h) n) -> links_ok st -> links_ok (set_handler r h st).
Proof.
  intros Hh (H1 & H2 & H3 & H4).
  assert (Ho : forall r' n, <[r := h]> (x_handlers st) !! r' = Some (HOffer n) -> x_handlers st !! r' = Some (HOffer n)).
  { intros r' n. destruct (decide (r' = r)) as [->|Hr]; [|by rewrite lookup_insert_ne by done].
    rewrite lookup_insert_eq. intros [= ->]. destruct (Hh n). by left. }
  split_and!; simpl; [|done| |].
  - intros r' n Hd%(downlink_insert _ _ _ _ _ Hh). destruct (H1 _ _ Hd) as [? Hu]. split; [done|].
    intros r'' Hd'%(downlink_insert _ _ _ _ _ Hh). by apply Hu.
  - intros n Hn. destruct (H3 n Hn) as [? Hx]. split; [done|]. intros r' ?%Ho. by eapply Hx.
  - intros r' n ?%Ho. by eapply H4.
Qed.

(** A GET takes the ends of a pipe. *)
Lemma links_take r n st st' :
  x_handlers st' = <[r := HOffer n]> (x_handlers st) -> x_ready st' = x_ready st ->
  (forall m, stage_of st' m = if decide (m = n) then Some Waiting else stage_of st m) ->
  (forall s, stage_of st n = Some s -> s = NoGet) -> links_ok st -> links_ok st'.
Proof.
  intros Eh Er Es Hn (H1 & H2 & H3 & H4). unfold links_ok. rewrite Eh, Er.
  assert (Hdn : forall r', ~ downlink (x_handlers st !! r') n).
  { intros r' Hd. destruct (H1 _ _ Hd) as [(s & Hs & Hs') _]. by apply Hs', Hn. }
  assert (Hd' : forall r' m, downlink (<[r := HOffer n]> (x_handlers st) !! r') m ->
    (r' = r /\ m = n) \/ (r' <> r /\ m <> n /\ downlink (x_handlers st !! r') m)).
  { intros r' m. destruct (decide (r' = r)) as [->|Hr].
    - rewrite lookup_insert_eq. intros [[= ->]|(? & ? & ?)]; [by left|done].
    - rewrite lookup_insert_ne by done. intros Hd. right. split_and!; [done| |done]. intros ->. by eapply Hdn. }
  split_and!; [|done| |].
  - intros r' m [[-> ->]|(Hr & Hm & Hd)]%Hd'; rewrite Es.
    + rewrite decide_True by done. split; [by exists Waiting|]. intros r'' [[-> _]|(_ & ? & _)]%Hd'; done.
    + rewrite decide_False by done. destruct (H1 _ _ Hd) as [? Hu]. split; [done|]. intros r'' [[_ ->]|(_ & _ & Hd'')]%Hd'; [done|by apply Hu].
  - intros m Hm. destruct (H3 m Hm) as [Hs Hx]. assert (m <> n) by (intros ->; by apply Hn in Hs).
    rewrite Es, decide_False by done. split; [done|]. intros r'. destruct (decide (r' = r)) as [->|Hr].
    + rewrite lookup_insert_eq. congruence.
    + rewrite lookup_insert_ne by done. apply Hx.
  - intros r' m Hh. rewrite Es. case_decide as Hm; [done|]. destruct (decide (r' = r)) as [->|Hr].
    + rewrite lookup_insert_eq in Hh. congruence.
    + rewrite lookup_insert_ne in Hh by done. by eapply H4.
Qed.

(** ** The invariant *)

Definition server_ok (ls : list xlabel) (st : server H) : Prop := requests_ok ls st /\ pipes_ok st /\ links_ok st.

Lemma server_new_ok : server_ok [] server_new.
Proof.
  split; [|split].
  - intros r. split_and!; done.
  - split; [intros n p|intros sid n]; simpl; by rewrite lookup_empty.
  - split_and!; simpl; [|constructor|by intros n ?%elem_of_nil|]; intros r n.
    + rewrite lookup_empty. by intros [?|(? & ? & _)].
    + by rewrite lookup_empty.
Qed.

Lemma request_early v : handler_ok v -> v_pump v = None -> silent v -> request_ok v.
Proof. intros Hh Hq Hs. split_and!; [done|unfold pump_ok; by rewrite Hq|]. intros n. by rewrite Hs. Qed.

(** The handler's work is done, and there is no pump. *)
Definition done_task (h : option rtask) : Prop := match h with Some (HOffer _) | Some (HReplied _) | Some HGone => True | _ => False end.

Lemma done_task_ok v : done_task (v_handler v) -> handler_ok v.
Proof. unfold handler_ok. by destruct (v_handler v) as [[]|]. Qed.

Lemma no_body ls r l : (forall d, l <> XFrame r (FData d)) -> frames_of r (ls ++ [l]) = frames_of r ls.
Proof.
  intros Hl. rewrite frames_of_snoc. destruct l; try by rewrite app_nil_r. destruct f; try by rewrite app_nil_r.
  case_decide; [subst; by destruct (Hl d)|by rewrite app_nil_r].
Qed.

(** A new request, which nothing is known of, is read. *)
Lemma on_request_ok ls r req st st' :
  on_request cfg r req st = Some st' -> server_ok ls st -> server_ok (ls ++ [XRequest r req]) st'.
Proof.
  unfold on_request. destruct (x_handlers st !! r) as [h|] eqn:Eh; [done|]. intros [= <-] (Hr & Hp & Hl).
  destruct (Hr r) as (Hh & _ & _). unfold handler_ok in Hh. cbn [v_handler v_pump v_frames view_of] in Hh. rewrite Eh in Hh.
  destruct Hh as (Hq & Hf & Hs). unfold silent in Hs. cbn [v_sent view_of] in Hs.
  assert (Hask : asked (ls ++ [XRequest r req]) r (handle_request cfg req)) by (exists req; split; [apply elem_of_app; right; by left|done]).
  assert (Hsimple : forall h, (match h with HEnter sid k => asked (ls ++ [XRequest r req]) r (route_of sid k) | HReplied resp => resp_body resp = Empty | _ => False end) ->
    server_ok (ls ++ [XRequest r req]) (set_handler r h st)).
  { intros h Hh. split; [|split; [exact Hp|]].
    - eapply requests_step; [apply only_for_handler|intros; by apply no_body|done|]. intros ? [= <-].
      apply request_early; [|exact Hq|exact Hs]. unfold handler_ok. cbn [v_handler view_of set_handler x_handlers].
      rewrite lookup_insert_eq. cbn [v_asked v_pump v_frames view_of]. rewrite no_body by done. by destruct h.
    - apply links_handler; [|done]. intros n [[= ->]|(resp & [= ->] & Hb)]; [done|congruence]. }
  destruct (handle_request cfg req) as [| |[sid|]|[sid|] q] eqn:Ert; try (by apply Hsimple).
  split; [|split].
  - pose proof (next_fresh st Hp) as Hn.
    apply (requests_step (Some r) ls _ st); [|intros; by apply no_body|done|].
    + eapply only_for_trans; [|apply only_for_handler]. eapply only_for_trans; [|apply only_for_pump]. by apply only_for_add.
    + intros ? [= <-]. destruct (only_for_add (Some r) st (pipe_new None Waiting) Hn eq_refl) as [_ _].
      assert (Hs' : forall n, sent_by (set_handler r (HOffer (x_next st)) (set_pump r (Some (PWait (x_next st) true)) (add_pipe (pipe_new None Waiting) st))) r n = []).
      { intros n. destruct (only_for_add None st (pipe_new None Waiting) Hn eq_refl) as [Ha _].
        destruct (Ha r ltac:(done)) as (_ & _ & E). exact (eq_trans (E n) (Hs n)). }
      split_and!; [apply done_task_ok; simpl; by rewrite lookup_insert_eq| |].
      * unfold pump_ok. cbn [v_pump view_of set_handler set_pump x_pumps]. rewrite lookup_partial_alter_eq.
        cbn [v_frames view_of]. rewrite no_body, Hf by done. split; [|intros m; cbn [v_sent view_of]; rewrite Hs'; by case_decide].
        split; [exact Hask|]. cbn [v_name view_of]. unfold name_of. simpl. by rewrite lookup_insert_eq.
      * intros n. cbn [v_sent view_of]. by rewrite Hs'.
  - by apply (pipes_ok_add None Waiting).
  - apply (links_take r (x_next st) st); [done|done| | |done].
    + intros m. unfold stage_of. simpl. case_decide as Hm; [subst m; by rewrite lookup_insert_eq|by rewrite lookup_insert_ne by done].
    + intros s. unfold stage_of. by rewrite (next_fresh st Hp).
Qed.

Lemma request_settled v v' :
  done_task (v_handler v') -> v_pump v' = v_pump v -> v_frames v' = v_frames v -> (forall n, v_sent v' n = v_sent v n) ->
  (forall n x, v_name v n = Some x -> v_name v' n = Some x) -> (forall rt, v_asked v rt -> v_asked v' rt) ->
  request_ok v -> request_ok v'.
Proof.
  intros Hd Eq Ef Es Hn Ha Hok.
  destruct (request_ok_later v (View (v_handler v) (v_pump v') (v_frames v') (v_sent v') (v_name v') (v_asked v'))) as (_ & Hq & Hr);
    [by split_and!|done|]. split_and!; [by apply done_task_ok|exact Hq|exact Hr].
Qed.

(** A request's handler goes on. *)
Lemma handler_step ls l r h st :
  (forall r', r' <> r -> frames_of r' (ls ++ [l]) = frames_of r' ls) -> (forall n, ~ downlink (Some h) n) ->
  request_ok (view_of (ls ++ [l]) (set_handler r h st) r) -> server_ok ls st -> server_ok (ls ++ [l]) (set_handler r h st).
Proof.
  intros Hf Hd Hok (Hr & Hp & Hl). split; [|split; [exact Hp|by apply links_handler]].
  eapply requests_step; [apply only_for_handler|intros r' ?; apply Hf; congruence|done|]. by intros ? [= <-].
Qed.

(** What a session's handler knows. *)
Lemma session_known ls st r n k :
  requests_ok ls st -> x_handlers st !! r = Some (HSession n k) ->
  (exists sid, name_of st n = Some (Some sid) /\ asked ls r (route_of sid k)) /\
  x_pumps st !! r = None /\ frames_of r ls = [] /\ forall m, sent_by st r m = [].
Proof.
  intros Hr Eh. destruct (Hr r) as (Hh & _ & _). unfold handler_ok in Hh. cbn [v_handler view_of] in Hh. by rewrite Eh in Hh.
Qed.

Lemma on_enter_ok ls r st st' : on_enter r st = Some st' -> server_ok ls st -> server_ok (ls ++ [XEnter r]) st'.
Proof.
  unfold on_enter. destruct (x_handlers st !! r) as [[sid k| | | | | |]|] eqn:Eh; try done.
  destruct (map_locked st); [done|]. destruct (get_or_create_session sid st) as [n st1] eqn:Eg. intros [= <-] (Hr & Hp & Hl).
  destruct (get_or_create_ok None _ _ _ _ Eg Hp) as (Hp1 & [Ho1 Hn1] & Ename & Ehs & Ers & Est).
  destruct (Hr r) as (Hh & _ & _). unfold handler_ok in Hh. cbn [v_handler view_of] in Hh. rewrite Eh in Hh.
  destruct Hh as (Hask & Hq & Hf & Hs). destruct (Ho1 r ltac:(done)) as (_ & Eq1 & Es1).
  apply handler_step; [intros; by apply no_body|by intros m [?|(? & ? & _)]| |].
  - apply request_early; [|cbn [v_pump view_of]; simpl; by rewrite Eq1|intros m; exact (eq_trans (Es1 m) (Hs m))].
    unfold handler_ok. cbn [v_handler view_of set_handler x_handlers]. rewrite lookup_insert_eq.
    cbn [v_pump v_frames view_of v_name]. rewrite no_body by done. simpl. rewrite Eq1. split_and!; [|done|done|intros m; exact (eq_trans (Es1 m) (Hs m))].
    exists sid. split; [exact Ename|]. by apply asked_snoc.
  - split; [|split; [done|by eapply links_same]].
    intros r'. apply (request_ok_later (view_of ls st r')); [|apply Hr]. destruct (Ho1 r' ltac:(done)) as (? & ? & ?). by split_and!.
Qed.

Lemma on_session_ok ls r st st' : on_session r st = Some st' -> server_ok ls st -> server_ok (ls ++ [XSession r]) st'.
Proof.
  unfold on_session. destruct (x_handlers st !! r) as [[|n k| | | | |]|] eqn:Eh; try done.
  destruct (x_pipes st !! n) as [p|] eqn:Ep; simpl; [|done]. destruct (session_locked st n); [done|]. intros [= <-] Hok.
  pose proof Hok as (Hr & Hp & Hl). destruct (session_known _ _ _ _ _ Hr Eh) as ((sid & Hname & Hask) & Hq & Hf & Hs).
  assert (Hreply : forall code, server_ok (ls ++ [XSession r]) (set_handler r (HReplied (plain code)) st)).
  { intros code. apply handler_step; [intros; by apply no_body|by intros m [?|(? & [= <-] & ?)]| |done].
    apply request_early; [|exact Hq|exact Hs]. apply done_task_ok. simpl. by rewrite lookup_insert_eq. }
  unfold session_get, session_post. destruct k as [|[s|]]; [case_decide as Hst; [|apply Hreply]|destruct (parse_uint _ s) as [seq|] eqn:Es; [|apply Hreply]|].
  - split; [|split].
    + apply (requests_step (Some r) ls _ st); [|intros; by apply no_body|done|].
      * eapply only_for_trans; [|apply only_for_handler]. by eapply only_for_pipe.
      * intros ? [= <-]. apply request_early; [apply done_task_ok; simpl; by rewrite lookup_insert_eq|exact Hq|].
        intros m. cbn [v_sent view_of]. destruct (only_for_pipe None st n p (notify (set_stage Waiting p)) Ep eq_refl eq_refl) as [Ho _].
        destruct (Ho r ltac:(done)) as (_ & _ & E). exact (eq_trans (E m) (Hs m)).
    + by eapply pipes_ok_set.
    + apply (links_take r n st); [done|done| | |done].
      * intros m. unfold stage_of. simpl. case_decide as Hm; [subst m; by rewrite lookup_insert_eq|by rewrite lookup_insert_ne by done].
      * intros s. unfold stage_of. rewrite Ep. intros [= <-]. done.
  - apply handler_step; [intros; by apply no_body|by intros m [?|(? & ? & _)]| |done].
    apply request_early; [|exact Hq|exact Hs]. unfold handler_ok. cbn [v_handler view_of set_handler x_handlers].
    rewrite lookup_insert_eq. cbn [v_pump v_frames view_of]. rewrite no_body by done. split_and!; [|done|done|done].
    exists sid, s. split_and!; [exact Hname|by apply asked_snoc|done].
  - split; [|split; [exact Hp|]].
    + apply (requests_step (Some r) ls _ st); [|intros; by apply no_body|done|].
      * eapply only_for_trans; [apply only_for_pump|apply only_for_handler].
      * intros ? [= <-]. split_and!; [apply done_task_ok; simpl; by rewrite lookup_insert_eq| |intros m Hm; by destruct Hm; apply Hs].
        unfold pump_ok. cbn [v_pump view_of set_handler set_pump x_pumps]. rewrite lookup_partial_alter_eq.
        cbn [v_frames view_of]. rewrite no_body, Hf by done. split; [|intros m; cbn [v_sent view_of]; case_decide; apply Hs].
        exists sid. split; [exact Hname|by apply asked_snoc].
    + apply (links_handler r _ (set_pump r (Some (PWait n false)) st)); [by intros m [?|(? & [= <-] & ?)]|done].
Qed.

(** A handler that is done with its request, in a state where nothing else changes for it. *)
Lemma settled_step who ls l r st st' :
  (forall r', frames_of r' (ls ++ [l]) = frames_of r' ls) -> only_for (Some r) st st' -> who = Some r ->
  done_task (x_handlers st' !! r) -> x_pumps st' !! r = x_pumps st !! r -> (forall n, sent_by st' r n = sent_by st r n) ->
  requests_ok ls st -> requests_ok (ls ++ [l]) st'.
Proof.
  intros Hf Ho -> Hd Eq Es Hr. apply (requests_step (Some r) ls l st); [done|intros; apply Hf|done|]. intros ? [= <-].
  apply (request_settled (view_of ls st r)); [exact Hd|exact Eq|apply Hf|exact Es|apply Ho|intros rt; apply asked_snoc|apply Hr].
Qed.

Lemma links_offer r n st :
  x_handlers st !! r = Some (HOffer n) -> links_ok st ->
  links_ok (set_handler r (HReplied (downlink_response n)) (set_ready (x_ready st ++ [n]) st)).
Proof.
  intros Eh (H1 & H2 & H3 & H4).
  assert (Hsame : forall r' m, downlink (<[r := HReplied (downlink_response n)]> (x_handlers st) !! r') m -> downlink (x_handlers st !! r') m).
  { intros r' m. destruct (decide (r' = r)) as [->|Hr']; [|by rewrite lookup_insert_ne by done].
    rewrite lookup_insert_eq. intros [?|(? & [= <-] & [= <-])]; [done|]. by left. }
  assert (Hrn : downlink (x_handlers st !! r) n) by by left.
  assert (Hno : forall r' m, <[r := HReplied (downlink_response n)]> (x_handlers st) !! r' = Some (HOffer m) ->
    r' <> r /\ x_handlers st !! r' = Some (HOffer m)).
  { intros r' m. destruct (decide (r' = r)) as [->|Hr']; [by rewrite lookup_insert_eq|by rewrite lookup_insert_ne by done]. }
  split_and!; simpl.
  - intros r' m Hd%Hsame. destruct (H1 _ _ Hd) as [? Hu]. split; [done|]. intros r'' ?%Hsame. by apply Hu.
  - apply NoDup_app. split_and!; [done| |apply NoDup_singleton]. intros m Hm ->%list_elem_of_singleton. by apply (H3 n Hm) in Eh.
  - intros m [Hm| ->%list_elem_of_singleton]%elem_of_app.
    + destruct (H3 m Hm) as [? Hx]. split; [done|]. intros r' [_ ?]%Hno. by eapply Hx.
    + split; [by eapply H4|]. intros r' [Hne Hh]%Hno. apply Hne. apply (H1 _ _ Hrn). by left.
  - intros r' m [_ ?]%Hno. by eapply H4.
Qed.

Lemma links_stage n p s st :
  x_pipes st !! n = Some p -> s <> NoGet -> n ∉ x_ready st -> (forall r, x_handlers st !! r <> Some (HOffer n)) ->
  links_ok st -> links_ok (set_pipe n (set_stage s p) st).
Proof.
  intros Hp Hs Hn Ho (H1 & H2 & H3 & H4).
  assert (Est : forall m, stage_of (set_pipe n (set_stage s p) st) m = if decide (m = n) then Some s else stage_of st m).
  { intros m. unfold stage_of. simpl. case_decide as Hm; [subst m; by rewrite lookup_insert_eq|by rewrite lookup_insert_ne by done]. }
  split_and!; [|done| |].
  - intros r m Hd. destruct (H1 r m Hd) as [? ?]. split; [|done]. rewrite Est. case_decide; [by exists s|done].
  - intros m Hm. rewrite Est, decide_False by (intros ->; done). by apply H3.
  - intros r m Hh. rewrite Est, decide_False by (intros ->; by eapply Ho). by eapply H4.
Qed.

Lemma on_offer_ok ls r st st' : on_offer r st = Some st' -> server_ok ls st -> server_ok (ls ++ [XOffer r]) st'.
Proof.
  unfold on_offer. destruct (x_handlers st !! r) as [[| |n| | | |]|] eqn:Eh; try done. case_decide; [|done]. intros [= <-] (Hr & Hp & Hl).
  split; [|split; [exact Hp|by apply links_offer]].
  apply (settled_step (Some r) _ _ r st); try done; [intros; by apply no_body| |simpl; by rewrite lookup_insert_eq].
  eapply only_for_trans; [apply only_for_ready|apply only_for_handler].
Qed.

Lemma on_abort_ok ls r st st' : on_abort r st = Some st' -> server_ok ls st -> server_ok (ls ++ [XAbort r]) st'.
Proof.
  unfold on_abort. intros E Hok. pose proof Hok as (Hr & Hp & Hl).
  assert (Hgone : forall h, x_handlers st !! r = Some h -> server_ok (ls ++ [XAbort r]) (set_handler r HGone st)).
  { intros h Eh. split; [|split; [exact Hp|apply links_handler; [by intros m [?|(? & ? & _)]|done]]].
    apply (settled_step (Some r) _ _ r st); try done; [intros; by apply no_body|apply only_for_handler|simpl; by rewrite lookup_insert_eq]. }
  destruct (x_handlers st !! r) as [h|] eqn:Eh; [|done].
  destruct h as [| |n| | | |]; try (injection E as <-; by eapply Hgone).
  destruct (x_pipes st !! n) as [p|] eqn:Ep; [|done]. injection E as <-. destruct (Hgone _ eq_refl) as (Hr' & _ & Hl').
  pose proof Hl as (H1 & _ & H3 & H4). split; [|split].
  - apply (settled_step (Some r) _ _ r st); [intros; by apply no_body| |done|simpl; by rewrite lookup_insert_eq|done| |done].
    + eapply only_for_trans; [|apply only_for_handler]. by eapply only_for_pipe.
    + destruct (only_for_pipe None st n p (set_stage Dropped p) Ep eq_refl eq_refl) as [Ho _].
      destruct (Ho r ltac:(done)) as (_ & _ & E). exact E.
  - by eapply pipes_ok_set.
  - apply (links_stage n p Dropped (set_handler r HGone st)); [done|done| | |done].
    + intros Hn. by apply (H3 n Hn) in Eh.
    + intros r'. simpl. destruct (decide (r' = r)) as [->|Hne]; [by rewrite lookup_insert_eq|rewrite lookup_insert_ne by done].
      intros Hh. apply Hne. apply (H1 r n (or_introl Eh)). by left.
Qed.

(** With a pump the handler is done. *)
Lemma pump_done v q : handler_ok v -> v_pump v = Some q -> done_task (v_handler v).
Proof. unfold handler_ok. intros Hh Eq. destruct (v_handler v) as [[]|]; try done; destruct_and?; congruence. Qed.

(** A pump goes on, or ends ([None]). *)
Lemma pump_step ls l r q q' st :
  (forall r', r' <> r -> frames_of r' (ls ++ [l]) = frames_of r' ls) -> x_pumps st !! r = Some q ->
  pump_ok (view_of (ls ++ [l]) (set_pump r q' st) r) ->
  (forall n, sent_by st r n <> [] -> rightful (view_of (ls ++ [l]) (set_pump r q' st) r) n) ->
  server_ok ls st -> server_ok (ls ++ [l]) (set_pump r q' st).
Proof.
  intros Hf Eq Hq' Hs' (Hr & Hp & Hl). split; [|split; [exact Hp|exact Hl]].
  eapply requests_step; [apply only_for_pump|intros r' ?; apply Hf; congruence|done|]. intros ? [= <-].
  split_and!; [|exact Hq'|exact Hs']. apply done_task_ok. destruct (Hr r) as (Hh & _ & _). by apply (pump_done _ q Hh).
Qed.

Lemma pump_frame_ok ls r f n one st :
  x_pumps st !! r = Some (PWait n one) -> server_ok ls st ->
  server_ok (ls ++ [XFrame r f]) (set_pump r (pump_frame n one f) st).
Proof.
  intros Eq Hok. pose proof Hok as (Hr & _ & _). destruct (Hr r) as (_ & Hq & _).
  unfold pump_ok in Hq. cbn [v_pump view_of] in Hq. rewrite Eq in Hq. destruct Hq as [Hor Honly]. cbn [v_frames view_of] in Honly.
  set (q' := pump_frame n one f).
  assert (Hfr : frames_of r (ls ++ [XFrame r f]) = frames_of r ls ++ match f with FData d => [d] | _ => [] end).
  { rewrite frames_of_snoc. destruct f; try done. by rewrite decide_True. }
  assert (Hor' : forall o, origin (view_of ls st r) n o -> origin (view_of (ls ++ [XFrame r f]) (set_pump r q' st) r) n o).
  { intros o. destruct o; [intros [? ?]; split; [by apply asked_snoc|done]|intros (sid & ? & ?); exists sid; split; [done|by apply asked_snoc]]. }
  apply (pump_step ls _ r (PWait n one)); [intros r' ?; apply no_body; congruence|done| | |done].
  - unfold pump_ok. cbn [v_pump view_of set_pump x_pumps]. rewrite lookup_partial_alter_eq. subst q'.
    unfold pump_frame. destruct f; [..|destruct one|destruct one]; cbn [v_frames view_of]; rewrite ?Hfr, ?app_nil_r; try done; (split; [by apply Hor'|]); try exact Honly.
    exists (frames_of r ls). by split.
  - intros m Hm. eapply (sent_rightful _ n one); [by apply Hor'|exact Honly| |exact Hm].
    cbn [v_frames view_of]. rewrite Hfr, fmap_app. destruct one; [rewrite <- app_assoc|]; apply prefix_app_r; done.
Qed.

Lemma on_body_frame_ok ls r f st st' : on_body_frame r f st = Some st' -> server_ok ls st -> server_ok (ls ++ [XFrame r f]) st'.
Proof.
  unfold on_body_frame. intros E Hok.
  destruct (x_handlers st !! r) as [[| | |n seq acc| | |]|] eqn:Eh;
    try (destruct (x_pumps st !! r) as [[n one| |]|] eqn:Eq; [|done..]; injection E as <-; by apply pump_frame_ok).
  pose proof Hok as (Hr & _ & _). destruct (Hr r) as (Hh & _ & _). unfold handler_ok in Hh. cbn [v_handler view_of] in Hh. rewrite Eh in Hh.
  destruct Hh as ((sid & q & Hname & Hask & Hseq) & Hqn & Hf & Hsil). cbn [v_frames v_pump view_of] in Hqn, Hf. injection E as <-.
  apply handler_step; [intros r' ?; apply no_body; congruence|by destruct f; intros m [?|(? & [= <-] & ?)]| |done].
  apply request_early; [|exact Hqn|exact Hsil]. unfold handler_ok. cbn [v_handler view_of set_handler x_handlers].
  rewrite lookup_insert_eq. cbn [v_pump v_frames view_of]. rewrite frames_of_snoc, Hf.
  assert (Hnum : numbered_post (view_of (ls ++ [XFrame r f]) (set_handler r (collect_frame n seq acc f) st) r) n seq)
    by (exists sid, q; split_and!; [exact Hname|by apply asked_snoc|done]).
  destruct f; rewrite ?app_nil_r, ?decide_True by done; (done || by split_and!).
Qed.

Lemma send_up_links who n u (st : server H) b st1 : send_up who n u st = Some (b, st1) -> links_ok st -> links_ok st1.
Proof. intros (p & Hp & ->)%send_up_ok Hl. destruct b; [by eapply links_pipe|done]. Qed.

Lemma on_send_ok ls r st st' : on_send r st = Some st' -> server_ok ls st -> server_ok (ls ++ [XSend r]) st'.
Proof.
  unfold on_send. intros E (Hr & Hp & Hl). destruct (x_handlers st !! r) as [[| | | |n seq data| |]|] eqn:Eh; try done.
  destruct (send_up (ByRequest r) n (Packet seq data) st) as [[b st1]|] eqn:Es; simpl in E; [|done]. injection E as <-.
  destruct (Hr r) as (Hh & _ & _). unfold handler_ok in Hh. cbn [v_handler view_of] in Hh. rewrite Eh in Hh.
  destruct Hh as ((sid & q & Hname & Hask & Hseq) & Hq & Hf & Hsil).
  pose proof (send_up_only_for _ _ _ _ _ _ Es) as [Ho Hn]. pose proof (send_up_ok _ _ _ _ _ _ Es) as (p & _ & Est).
  assert (Hp1 : pipes_ok st1) by (eapply send_up_pipes; [|exact Es|exact Hp]; done).
  assert (Eq : x_pumps st1 = x_pumps st) by (rewrite Est; by destruct b).
  split; [|split; [exact Hp1|apply links_handler; [by intros m [?|(? & [= <-] & ?)]|by eapply send_up_links]]].
  apply (requests_step (Some r) ls _ st); [|intros; by apply no_body|done|].
  { eapply only_for_trans; [by split|apply only_for_handler]. }
  intros ? [= <-]. split_and!; [apply done_task_ok; simpl; by rewrite lookup_insert_eq|unfold pump_ok; simpl; rewrite Eq; by cbn in Hq; rewrite Hq|].
  intros m. cbn [v_sent view_of]. change (sent_by (set_handler r (HReplied (plain OK)) st1) r m) with (sent_by st1 r m).
  rewrite (send_up_sent _ _ _ _ _ _ m Es). change (sent_by st r m) with (v_sent (view_of ls st r) m). rewrite Hsil. case_decide as Hm; [|done].
  destruct Hm as [-> ->]. intros _. right. exists sid. split; [by apply Hn|]. right. exists q, seq. split_and!; [by apply asked_snoc|done|].
  cbn [v_sent v_frames view_of]. rewrite no_body by done. change (sent_by (set_handler r (HReplied (plain OK)) st1) r n) with (sent_by st1 r n).
  rewrite (send_up_sent _ _ _ _ _ _ n Es). change (sent_by st r n) with (v_sent (view_of ls st r) n). rewrite Hsil, decide_True by done.
  simpl. do 2 f_equal. symmetry. exact Hf.
Qed.

(** A pump hands over [u], or finds no receiver. *)
Lemma pump_sends ls r n one fs u q q' b st st1 :
  x_pumps st !! r = Some q -> send_up (ByRequest r) n u st = Some (b, st1) ->
  origin (view_of ls st r) n one -> sent_only (view_of ls st r) n fs ->
  fs ++ [u] `prefix_of` (if one then (Chunk <$> frames_of r ls) ++ [Eof] else Chunk <$> frames_of r ls) ->
  q' = None \/ (q' = Some (PWait n one) /\ b = true /\ fs ++ [u] = Chunk <$> frames_of r ls) ->
  server_ok ls st -> server_ok (ls ++ [XPump r]) (set_pump r q' st1).
Proof.
  intros Eq Es Hor Honly Hpre Hq' (Hr & Hp & Hl).
  pose proof (send_up_only_for _ _ _ _ _ _ Es) as [Ho Hn]. pose proof (send_up_ok _ _ _ _ _ _ Es) as (p & _ & Est).
  assert (Hp1 : pipes_ok st1) by (eapply send_up_pipes; [|exact Es|exact Hp]; done).
  assert (Eh : x_handlers st1 = x_handlers st) by (rewrite Est; by destruct b).
  assert (Hor' : origin (view_of (ls ++ [XPump r]) (set_pump r q' st1) r) n one).
  { destruct one; [destruct Hor as [? ?]; split; [by apply asked_snoc|by apply Hn]|destruct Hor as (sid & ? & ?); exists sid; split; [by apply Hn|by apply asked_snoc]]. }
  assert (Honly' : sent_only (view_of (ls ++ [XPump r]) (set_pump r q' st1) r) n (fs ++ if b then [u] else [])).
  { intros m. cbn [v_sent view_of]. change (sent_by (set_pump r q' st1) r m) with (sent_by st1 r m). rewrite (send_up_sent _ _ _ _ _ _ m Es).
    pose proof (Honly m) as E. cbn [v_sent view_of] in E. rewrite E. clear. destruct b; repeat case_decide; naive_solver. }
  split; [|split; [exact Hp1|exact (send_up_links _ _ _ _ _ _ Es Hl)]].
  apply (requests_step (Some r) ls _ st); [|intros; by apply no_body|done|].
  { eapply only_for_trans; [by split|apply only_for_pump]. }
  intros ? [= <-]. split_and!.
  - apply done_task_ok. cbn [v_handler view_of set_pump x_handlers]. rewrite Eh. destruct (Hr r) as (Hh & _ & _). by apply (pump_done _ q Hh).
  - unfold pump_ok. cbn [v_pump view_of set_pump x_pumps]. rewrite lookup_partial_alter_eq.
    destruct Hq' as [->|(-> & -> & Efs)]; [done|]. split; [exact Hor'|]. cbn [v_frames view_of]. rewrite no_body, <- Efs by done. exact Honly'.
  - intros m Hm. eapply (sent_rightful _ n one); [exact Hor'|exact Honly'| |exact Hm]. cbn [v_frames view_of]. rewrite no_body by done.
    destruct b; [exact Hpre|]. rewrite app_nil_r. etrans; [|exact Hpre]. by apply prefix_app_r.
Qed.

Lemma on_pump_ok ls r st st' : on_pump r st = Some st' -> server_ok ls st -> server_ok (ls ++ [XPump r]) st'.
Proof.
  unfold on_pump. intros E Hok. pose proof Hok as (Hr & _ & _). destruct (Hr r) as (_ & Hq & _). unfold pump_ok in Hq. cbn [v_pump view_of] in Hq.
  destruct (x_pumps st !! r) as [[|n d one|n]|] eqn:Eq; try done.
  - destruct (send_up (ByRequest r) n (Chunk d) st) as [[b st1]|] eqn:Es; simpl in E; [|done]. injection E as <-.
    destruct Hq as [Hor (fs & Hf & Honly)]. cbn [v_frames view_of] in Hf.
    eapply (pump_sends ls r n one); [exact Eq|exact Es|exact Hor|exact Honly| | |exact Hok].
    + rewrite Hf, fmap_app. simpl. destruct one; [by apply prefix_app_r|done].
    + destruct b; [right|by left]. split_and!; [done|done|]. by rewrite Hf, fmap_app.
  - destruct (send_up (ByRequest r) n Eof st) as [[b st1]|] eqn:Es; simpl in E; [|done]. injection E as <-.
    destruct Hq as [Hor Honly]. eapply (pump_sends ls r n true); [exact Eq|exact Es|exact Hor|exact Honly|done|by left|exact Hok].
Qed.

(** A step in which nothing changes for the requests. *)
Lemma quiet_step ls l st st' :
  (forall r, frames_of r (ls ++ [l]) = frames_of r ls) -> only_for None st st' -> pipes_ok st' -> links_ok st' ->
  server_ok ls st -> server_ok (ls ++ [l]) st'.
Proof. intros Hf Ho Hp Hl (Hr & _ & _). split; [by eapply requests_quiet|done]. Qed.

(** A pipe changes, but not its name, its stage and who gave it what. *)
Lemma quiet_pipe ls l n p p' st :
  (forall r, frames_of r (ls ++ [l]) = frames_of r ls) -> x_pipes st !! n = Some p -> p_name p' = p_name p ->
  p_given p' = p_given p -> p_stage p' = p_stage p -> (pipe_ok p -> pipe_ok p') ->
  server_ok ls st -> server_ok (ls ++ [l]) (set_pipe n p' st).
Proof.
  intros Hf Ep En Eg Es Hok (Hr & Hp & Hl). apply (quiet_step ls l st); [done|by eapply only_for_pipe|by eapply pipes_ok_set|by eapply links_pipe|done].
Qed.

Lemma on_body_ok ls r st st' : on_body r st = Some st' -> server_ok ls st -> server_ok (ls ++ [XBody r]) st'.
Proof.
  unfold on_body. intros E Hok. pose proof Hok as (Hr & Hp & Hl).
  assert (Hgone : server_ok (ls ++ [XBody r]) (set_handler r HGone st)).
  { split; [|split; [exact Hp|apply links_handler; [by intros m [?|(? & ? & _)]|done]]].
    apply (settled_step (Some r) _ _ r st); try done; [intros; by apply no_body|apply only_for_handler|simpl; by rewrite lookup_insert_eq]. }
  destruct (x_handlers st !! r) as [[| | | | |resp|]|]; try done. destruct (resp_body resp) as [|n]; [by injection E as <-|].
  destruct (x_pipes st !! n) as [p|] eqn:Ep; simpl in E; [|done]. destruct (p_down p) as [|d queue] eqn:Ed.
  - destruct (negb (down_sender st n)); [by injection E as <-|done].
  - injection E as <-. eapply quiet_pipe; [intros; by apply no_body|exact Ep|done..| |exact Hok].
    intros (Hd & Ht & Hes). split_and!; [|done|done]. simpl. by rewrite Hd, Ed, <- app_assoc.
Qed.

Lemma on_timer_ok ls n st st' : on_timer n st = Some st' -> server_ok ls st -> server_ok (ls ++ [XTimer n]) st'.
Proof.
  unfold on_timer. intros E Hok. pose proof Hok as (Hr & Hp & Hl).
  assert (Hf : forall r, frames_of r (ls ++ [XTimer n]) = frames_of r ls) by (intros; by apply no_body).
  assert (Hset : forall t, server_ok (ls ++ [XTimer n]) (set_timer n t st)) by (intros; by apply (quiet_step ls _ st)).
  assert (Hdel : forall t sid, server_ok (ls ++ [XTimer n]) (set_timer n t (set_names (delete sid (x_names st)) st))).
  { intros t sid. apply (quiet_step ls _ st); [done|by split|by apply (pipes_ok_delete sid st)|exact Hl|done]. }
  destruct (x_timers st !! n) as [[| | |m]|] eqn:Et; try done.
  - destruct (x_pipes st !! n) as [p|]; [|done]. injection E as <-. apply Hset.
  - destruct (x_pipes st !! n) as [p|]; [|done]. destruct (p_name p) as [sid|]; simpl in E; [|done].
    destruct (map_locked st); [done|]. destruct (x_names st !! sid) as [m|]; injection E as <-; [apply Hdel|apply Hset].
  - destruct (x_pipes st !! n) as [p|]; [|done]. destruct (p_name p) as [sid|]; simpl in E; [|done].
    destruct (map_locked st); [done|]. injection E as <-. apply Hdel.
  - destruct (send_up ByTimer m Eof st) as [[b st1]|] eqn:Es; [|by destruct (x_pipes st !! n)].
    assert (Hp1 : pipes_ok st1) by (eapply send_up_pipes; [|exact Es|exact Hp]; done).
    assert (E' : set_timer n None st1 = st') by (destruct (x_pipes st !! n); simpl in E; by injection E as <-). subst st'.
    apply (quiet_step ls _ st); [done| |exact Hp1|exact (send_up_links _ _ _ _ _ _ Es Hl)|done].
    eapply only_for_trans; [|apply only_for_timer]. destruct (send_up_ok _ _ _ _ _ _ Es) as (p & Ep & ->).
    destruct b; [by apply (only_for_push st m p ByTimer)|apply only_for_refl].
Qed.

Lemma accept_ok ls st st' : accept st = Some st' -> server_ok ls st -> server_ok (ls ++ [XAccept]) st'.
Proof.
  unfold accept. intros E Hok. pose proof Hok as (Hr & Hp & Hl). destruct (x_ready st) as [|n rest] eqn:Er; [done|].
  destruct (x_pipes st !! n) as [p|] eqn:Ep; simpl in E; [|done]. injection E as <-.
  pose proof Hl as (H1 & H2 & H3 & H4). rewrite Er in H2, H3. apply NoDup_cons in H2 as [Hn H2].
  assert (Hl' : links_ok (set_ready rest st)) by (split_and!; [done|done|intros m Hm; apply H3; by right|done]).
  apply (quiet_step ls _ st); [intros; by apply no_body| | | |done].
  - eapply only_for_trans; [apply (only_for_ready _ rest)|by eapply only_for_pipe].
  - by apply (pipes_ok_set n p (set_stage WithProtocol p) (set_ready rest st)).
  - apply links_stage; [done|done|done| |done]. destruct (H3 n) as [_ Hx]; [by left|exact Hx].
Qed.

Lemma read_pipe_ok p k closed res t :
  (0 < k)%nat -> poll_read k (set_closed closed (p_stream p)) = (res, t) -> pipe_ok p ->
  pipe_ok (Pipe (p_name p) (p_notified p) (p_stage p) t (p_down p) (p_given p) (p_reads p ++ [res]) (p_sent p) (p_out p)).
Proof.
  intros Hk E (Hd & Ht & es & Hs & Hx & Ha). split_and!; [done|done|]. exists (es ++ [Read closed k]). cbn [p_reads p_stream p_given].
  rewrite xrun_app, Hx. cbn [xrun]. rewrite E. split_and!; [|done|].
  - apply Forall_app. split; [done|by constructor].
  - unfold arrivals in *. rewrite omap_app, Ha. simpl. by rewrite app_nil_r.
Qed.

Lemma on_read_ok ls n k st st' : on_read n k st = Some st' -> server_ok ls st -> server_ok (ls ++ [XRead n k]) st'.
Proof.
  unfold on_read. intros E Hok. destruct (x_pipes st !! n) as [p|] eqn:Ep; simpl in E; [|done]. case_decide as Hk; [|done].
  destruct (poll_read k _) as [res t] eqn:Er. injection E as <-.
  eapply quiet_pipe; [intros; by apply no_body|exact Ep|done..| |exact Hok]. exact (read_pipe_ok p k _ res t (proj2 Hk) Er).
Qed.

Lemma on_write_ok ls n buf st st' : on_write n buf st = Some st' -> server_ok ls st -> server_ok (ls ++ [XWrite n buf]) st'.
Proof.
  unfold on_write, poll_write. intros E Hok. destruct (x_pipes st !! n) as [p|] eqn:Ep; simpl in E; [|done]. case_decide; [|done].
  assert (Hsame : server_ok (ls ++ [XWrite n buf]) st).
  { apply (quiet_step ls _ st); [intros; by apply no_body|apply only_for_refl|apply Hok|apply Hok|done]. }
  destruct (down_receiver st n); [|by injection E as <-]. case_decide; [|done]. injection E as <-.
  eapply quiet_pipe; [intros; by apply no_body|exact Ep|done..| |exact Hok].
  intros (Hd & Ht & Hes). split_and!; [|done|done]. simpl. by rewrite Hd, app_assoc.
Qed.

Lemma on_drop_ok ls n st st' : on_drop n st = Some st' -> server_ok ls st -> server_ok (ls ++ [XDrop n]) st'.
Proof.
  unfold on_drop. intros E Hok. pose proof Hok as (Hr & Hp & Hl). destruct (x_pipes st !! n) as [p|] eqn:Ep; simpl in E; [|done].
  case_decide as Hs; [|done]. injection E as <-. pose proof Hl as (H1 & H2 & H3 & H4).
  assert (Est : stage_of st n = Some WithProtocol) by (unfold stage_of; rewrite Ep; simpl; by rewrite Hs).
  apply (quiet_step ls _ st); [intros; by apply no_body|by eapply only_for_pipe|by eapply pipes_ok_set| |done].
  apply links_stage; [done|done| | |done].
  - intros [? _]%H3. congruence.
  - intros r ?%H4. congruence.
Qed.

Lemma xstep_ok ls st l st' : xstep cfg st l = Some st' -> server_ok ls st -> server_ok (ls ++ [l]) st'.
Proof.
  destruct l; simpl; eauto using on_request_ok, on_enter_ok, on_session_ok, on_offer_ok, on_body_frame_ok, on_send_ok, on_pump_ok,
    on_abort_ok, on_body_ok, on_timer_ok, accept_ok, on_read_ok, on_write_ok, on_drop_ok.
Qed.

Lemma steps_ok ls st ls' st' : steps cfg st ls' = Some st' -> server_ok ls st -> server_ok (ls ++ ls') st'.
Proof.
  revert ls st. induction ls' as [|l ls' IH]; intros ls st; simpl; [intros [= <-]; by rewrite app_nil_r|].
  destruct (xstep cfg st l) as [st1|] eqn:E; [|done]. simpl. intros Hs Hok.
  replace (ls ++ l :: ls') with ((ls ++ [l]) ++ ls') by (by rewrite <- app_assoc). eapply IH; [exact Hs|]. by eapply xstep_ok.
Qed.

Lemma reachable_ok ls st : steps cfg server_new ls = Some st -> server_ok ls st.
Proof. intros E. apply (steps_ok [] server_new ls st E server_new_ok). Qed.
End invariants.

(** ** Properties *)

Section properties.
Context {H : Type} `{MinHeapLaws H} (cfg : XhttpConfig).

(** C16: logical connections are separate.  Whatever requests arrive and however
    handlers, pumps, timers, bodies and streams take their turns: a session has
    one name; at most one request has the downlink of a pipe, and a further GET is
    answered 409 and changes nothing; no stream is handed out twice.  And a pipe is given
    only what belongs on it: from a POST that names its session, the chunks of the
    body in order, or the whole body as the packet with the number in the path; from
    a stream-one GET its body on its own pipe; from a timer only the end. *)
Theorem sessions_are_separate ls (st : server H) :
  steps cfg server_new ls = Some st ->
  (forall sid sid' n, x_names st !! sid = Some n -> x_names st !! sid' = Some n -> sid = sid') /\
  (forall r r' n, downlink (x_handlers st !! r) n -> downlink (x_handlers st !! r') n -> r' = r) /\
  (forall r n st', x_handlers st !! r = Some (HSession n ForGet) -> stage_of st n <> Some NoGet ->
     xstep cfg st (XSession r) = Some st' -> st' = set_handler r (HReplied (plain CONFLICT)) st) /\
  NoDup (x_ready st) /\
  (forall r n, sent_by st r n <> [] -> rightful (view_of cfg ls st r) n) /\
  (forall n p u, x_pipes st !! n = Some p -> (ByTimer, u) ∈ p_given p -> u = Eof).
Proof.
  intros (Hr & [Hp Hn] & (Hdown & Hready & _))%reachable_ok. split_and!.
  - intros sid sid' n E%Hn E'%Hn. congruence.
  - intros r r' n Hd Hd'. by apply (Hdown r n Hd).
  - intros r n st' Eh Hst. simpl. unfold on_session. rewrite Eh. unfold stage_of in Hst.
    destruct (x_pipes st !! n) as [p|]; simpl; [|done]. destruct (session_locked st n); [done|].
    unfold session_get. rewrite decide_False by (intros E; apply Hst; simpl; by rewrite E). by intros [= <-].
  - done.
  - intros r n. apply Hr.
  - intros n p u Ep. destruct (Hp n p Ep) as [_ (_ & Ht & _)]. apply Ht.
Qed.

(** C17: what a logical connection carries.  The response to its GET carries what the
    protocol wrote, in the order of the writes, and nothing else: what the
    body has brought and what is still in the channel make up what was accepted.
    The protocol reads as from a stream of its own that is given the pipe's packets and nothing
    else ([xrun]); so that, when these are numbered pieces, it reads a prefix
    of the pieces in order, whatever the order of the POSTs. *)
Theorem connection_carries ls (st : server H) n p :
  steps cfg server_new ls = Some st -> x_pipes st !! n = Some p ->
  p_sent p = p_out p ++ p_down p /\
  (exists es, Forall read_some es /\ xrun XhttpStream_new es = (p_reads p, p_stream p) /\ arrivals es = (p_given p).*2) /\
  forall pieces todo, Forall (fun d => d <> []) pieces -> Z.of_nat (length pieces) < 2 ^ 64 ->
    (p_given p).*2 ++ todo ≡ₚ numbered pieces -> got (p_reads p) `prefix_of` concat pieces.
Proof.
  intros (_ & [Hp _] & _)%reachable_ok Ep. destruct (Hp n p Ep) as [_ (Hd & _ & es & Hs & Hx & Ha)].
  split_and!; [done|by exists es|]. intros pieces todo Hne Hc Hperm.
  destruct (numbered_kv pieces _ Hperm) as [Hpk Hkv]. rewrite <- Ha in Hpk, Hkv. apply Forall_app in Hpk as [Hpk _]. rewrite omap_app in Hkv.
  pose proof (xrun_ok pieces Hne Hc es _ (omap packet_kv todo) (stream_new_ok pieces _ Hkv) Hpk Hs) as Hrun.
  rewrite Hx in Hrun. destruct Hrun as (_ & Hg & _). change (concat pieces) with (outstanding pieces (XhttpStream_new (H := H))).
  rewrite <- Hg. by apply prefix_app_r.
Qed.
End properties.

(** ** Timers, and what goes wrong with them *)

Section timers.
Context {H : Type} `{MinHeap H} (cfg : XhttpConfig).

Lemma any_true {K A} `{Countable K} (f : A -> bool) (m : gmap K A) k x : m !! k = Some x -> f x = true -> any f m = true.
Proof.
  intros Hk Hf. apply existsb_exists. exists (k, x). split; [|done]. apply list_elem_of_In. by apply elem_of_map_to_list.
Qed.

(** A timer that has removed a session without a GET and whose channel is full waits
    for room, with the map of sessions and the session locked. *)
Definition jammed (n m : nat) (st : server H) : Prop :=
  x_timers st !! n = Some (TEof m) /\
  exists p, x_pipes st !! m = Some p /\ p_stage p = NoGet /\ (CAPACITY <= length (up_rx (p_stream p)))%nat /\ is_Some (p_name p).

Lemma jammed_locked n m st : jammed n m st -> map_locked st = true /\ session_locked st m = true.
Proof.
  intros [Ht _]. split; [by eapply any_true|]. eapply any_true; [exact Ht|]. by apply bool_decide_eq_true.
Qed.

(** Nothing more can be sent to the session. *)
Lemma jammed_full n m st who u : jammed n m st -> send_up who m u st = None.
Proof.
  intros [Ht (p & Ep & Hs & Hfull & [sid Hname])].
  assert (Ha : session_alive st m = true).
  { unfold session_alive. rewrite Ep. simpl. rewrite Hname. apply orb_true_iff. right.
    eapply any_true; [exact Ht|]. by apply bool_decide_eq_true. }
  unfold send_up, up_receiver. rewrite Ep. simpl. rewrite Ha, (bool_decide_true (p_stage p = NoGet)), orb_true_r by done.
  by rewrite decide_False by lia.
Qed.

Lemma jammed_send n m st who k u b st1 : jammed n m st -> send_up who k u st = Some (b, st1) -> jammed n m st1.
Proof.
  intros Hj E. destruct (decide (k = m)) as [->|Hk]; [by rewrite (jammed_full n m) in E|].
  pose proof (send_up_ok _ _ _ _ _ _ E) as (q & _ & ->). destruct b; [|done]. destruct Hj as [Ht (p & Ep & Hp)].
  split; [done|]. exists p. simpl. by rewrite lookup_insert_ne.
Qed.

Lemma jammed_pipe n m st k p p' :
  x_pipes st !! k = Some p -> (k = m -> p_stage p = NoGet -> p_stage p' = NoGet /\ p_stream p' = p_stream p /\ p_name p' = p_name p) ->
  jammed n m st -> jammed n m (set_pipe k p' st).
Proof.
  intros Ek Hk [Ht (q & Eq & Hs & Hf & Hn)]. split; [done|]. simpl. destruct (decide (k = m)) as [->|Hne].
  - assert (p = q) as -> by congruence. destruct (Hk eq_refl Hs) as (? & Est & Enm). exists p'.
    rewrite lookup_insert_eq, Est, Enm. by split_and!.
  - exists q. rewrite lookup_insert_ne by done. by split_and!.
Qed.

Lemma jammed_timer n m st k st' : on_timer k st = Some st' -> jammed n m st -> jammed n m st'.
Proof.
  unfold on_timer. intros E Hj. destruct (jammed_locked n m st Hj) as [Hmap _]. destruct (decide (k = n)) as [->|Hk].
  { destruct Hj as [Ht Hj]. rewrite Ht, (jammed_full n m) in E by done. by destruct (x_pipes st !! n). }
  assert (Hset : forall t st1, jammed n m st1 -> jammed n m (set_timer k t st1)).
  { intros t st1 [Ht1 Hp1]. split; [|exact Hp1]. simpl. by rewrite lookup_partial_alter_ne. }
  destruct (x_timers st !! k) as [[| | |m']|]; try done.
  - destruct (x_pipes st !! k); [|done]. injection E as <-. by apply Hset.
  - destruct (x_pipes st !! k) as [q|]; [|done]. destruct (p_name q); simpl in E; [|done]. by rewrite Hmap in E.
  - destruct (x_pipes st !! k) as [q|]; [|done]. destruct (p_name q); simpl in E; [|done]. by rewrite Hmap in E.
  - destruct (send_up ByTimer m' Eof st) as [[b st1]|] eqn:Es; [|by destruct (x_pipes st !! k)].
    assert (E' : set_timer k None st1 = st') by (destruct (x_pipes st !! k); simpl in E; by injection E as <-). subst st'.
    apply Hset. by eapply jammed_send.
Qed.

Lemma jammed_step n m ls st l st' : server_ok cfg ls st -> xstep cfg st l = Some st' -> jammed n m st -> jammed n m st'.
Proof.
  intros (_ & Hp & (_ & _ & Hready & Hoffer)) E Hj. pose proof (jammed_locked n m st Hj) as [Hmap Hses].
  pose proof Hj as [Ht (p & Ep & Hs & Hfull & Hname)].
  assert (Hwait : forall k q, stage_of st k = Some Waiting -> x_pipes st !! k = Some q -> k = m -> p_stage q = NoGet -> False).
  { intros k q Hw Hq -> Hg. unfold stage_of in Hw. rewrite Hq in Hw. simpl in Hw. congruence. }
  assert (Hadd : forall name s, jammed n m (add_pipe (pipe_new name s) st)).
  { intros name s. split; [done|]. exists p. simpl. rewrite lookup_insert_ne; [by split_and!|]. intros Heq.
    rewrite <- Heq, (next_fresh st Hp) in Ep. done. }
  destruct l as [r req|r|r|r|r f|r|r|r|r|k| |k j|k buf|k]; simpl in E.
  - unfold on_request in E. destruct (x_handlers st !! r); [done|]. injection E as <-.
    destruct (handle_request cfg req) as [| |[|]|[|] ?]; try exact Hj. apply Hadd.
  - unfold on_enter in E. destruct (x_handlers st !! r) as [[]|]; try done. by rewrite Hmap in E.
  - unfold on_session in E. destruct (x_handlers st !! r) as [[|k kd| | | | |]|]; try done.
    destruct (x_pipes st !! k) as [q|] eqn:Eq; simpl in E; [|done]. destruct (session_locked st k) eqn:Ek; [done|]. injection E as <-.
    unfold session_get, session_post. destruct kd as [|[s|]]; [case_decide; [|exact Hj]|by destruct (parse_uint _ s)|exact Hj].
    apply (jammed_pipe n m st k q); [done| |exact Hj]. intros ->. congruence.
  - unfold on_offer in E. destruct (x_handlers st !! r) as [[]|]; try done. case_decide; [|done]. by injection E as <-.
  - unfold on_body_frame in E. destruct (x_handlers st !! r) as [[]|], (x_pumps st !! r) as [[]|]; try done; by injection E as <-.
  - unfold on_send in E. destruct (x_handlers st !! r) as [[]|]; try done.
    destruct (send_up _ _ _ st) as [[b st1]|] eqn:Es; simpl in E; [|done]. injection E as <-. apply (jammed_send _ _ _ _ _ _ _ _ Hj Es).
  - unfold on_pump in E. destruct (x_pumps st !! r) as [[]|]; try done;
      (destruct (send_up _ _ _ st) as [[b st1]|] eqn:Es; simpl in E; [|done]); injection E as <-; apply (jammed_send _ _ _ _ _ _ _ _ Hj Es).
  - unfold on_abort in E. destruct (x_handlers st !! r) as [[| |k| | | |]|] eqn:Eh; try done; try (by injection E as <-).
    destruct (x_pipes st !! k) as [q|] eqn:Eq; simpl in E; [|done]. injection E as <-.
    apply (jammed_pipe n m st k q); [done| |exact Hj]. intros Hk Hg. destruct (Hwait k q (Hoffer _ _ Eh) Eq Hk Hg).
  - unfold on_body in E. destruct (x_handlers st !! r) as [[| | | | |resp|]|]; try done. destruct (resp_body resp) as [|k]; [by injection E as <-|].
    destruct (x_pipes st !! k) as [q|] eqn:Eq; simpl in E; [|done]. destruct (p_down q); [destruct (negb _); [by injection E as <-|done]|].
    injection E as <-. by apply (jammed_pipe n m st k q).
  - by eapply jammed_timer.
  - unfold accept in E. destruct (x_ready st) as [|k rest] eqn:Er; [done|]. destruct (x_pipes st !! k) as [q|] eqn:Eq; simpl in E; [|done].
    injection E as <-. apply (jammed_pipe n m (set_ready rest st) k q); [done| |exact Hj]. intros Hk Hg.
    destruct (Hready k) as [Hw _]; [by left|]. destruct (Hwait k q Hw Eq Hk Hg).
  - unfold on_read in E. destruct (x_pipes st !! k) as [q|] eqn:Eq; simpl in E; [|done]. case_decide as Hw; [|done].
    destruct (poll_read j _). injection E as <-. apply (jammed_pipe n m st k q); [done| |exact Hj]. intros _ Hg. destruct Hw. congruence.
  - unfold on_write, poll_write in E. destruct (x_pipes st !! k) as [q|] eqn:Eq; simpl in E; [|done]. case_decide as Hw; [|done].
    destruct (down_receiver st k); [|by injection E as <-]. case_decide; [|done]. injection E as <-. by apply (jammed_pipe n m st k q).
  - unfold on_drop in E. destruct (x_pipes st !! k) as [q|] eqn:Eq; simpl in E; [|done]. case_decide as Hw; [|done]. injection E as <-.
    apply (jammed_pipe n m st k q); [done| |exact Hj]. intros _ Hg. congruence.
Qed.

(** One session stops the server: from then on, whatever happens, no request that names a
    session gets past the map of sessions. *)
Theorem jammed_forever n m ls st ls' st' :
  server_ok cfg ls st -> jammed n m st -> steps cfg st ls' = Some st' ->
  jammed n m st' /\ forall r, xstep cfg st' (XEnter r) = None.
Proof.
  intros Hok Hj Hs. assert (Hj' : jammed n m st').
  { revert ls st Hok Hj Hs. induction ls' as [|l ls' IH]; intros ls st Hok Hj; simpl; [by intros [= <-]|].
    destruct (xstep cfg st l) as [st1|] eqn:E; [|done]. simpl. apply (IH (ls ++ [l])); [by eapply xstep_ok|by eapply jammed_step]. }
  split; [done|]. intros r. simpl. unfold on_enter. destruct (jammed_locked _ _ _ Hj') as [-> _].
  by destruct (x_handlers st' !! r) as [[]|].
Qed.

(** A connection does not survive its session's timer.  300 seconds after the GET the
    timer removes the session, whether the connection is in use or not: without
    a running POST the stream has no sender left, so that its reader sees the end; and
    a later POST of the connection gets a session of its own. *)
Theorem live_connection_cut_by_timer ls sid n p st :
  steps cfg server_new ls = Some st -> x_names st !! sid = Some n -> x_timers st !! n = Some TSleep ->
  x_pipes st !! n = Some p -> map_locked st = false ->
  exists st', xstep cfg st (XTimer n) = Some st' /\ x_pipes st' = x_pipes st /\ x_names st' !! sid = None /\
    ((forall r h, x_handlers st !! r = Some h -> match h with HReplied _ | HGone => True | _ => False end) ->
     x_pumps st = ∅ -> up_sender st' n = false) /\
    forall r k st'', x_handlers st' !! r = Some (HEnter sid k) -> xstep cfg st' (XEnter r) = Some st'' ->
      exists n', x_handlers st'' !! r = Some (HSession n' k) /\ n' <> n.
Proof.
  intros Hs Hn Ht Ep Hl. pose proof (reachable_ok cfg ls st Hs) as (_ & [Hp Hnames] & _).
  pose proof (Hnames sid n Hn) as En. unfold name_of in En. rewrite Ep in En. injection En as En.
  simpl. unfold on_timer. rewrite Ht, Ep, En. simpl. rewrite Hl. eexists. split; [done|]. simpl.
  split_and!; [done|by rewrite lookup_delete_eq| |].
  - intros Hdone Hq. assert (Hno : forall f (st1 : server H), x_handlers st1 = x_handlers st ->
      (forall h, match h with HReplied _ | HGone => f h = false | _ => True end) -> any f (x_handlers st1) = false).
    { intros f st1 -> Hf. apply not_true_iff_false. intros ([r h] & Hin & Hx)%existsb_exists.
      apply list_elem_of_In, elem_of_map_to_list in Hin. specialize (Hdone r h Hin). specialize (Hf h). simpl in Hx. destruct h; try done; congruence. }
    unfold up_sender, session_alive. cbn [x_pipes x_names x_handlers x_pumps x_timers set_timer set_names]. rewrite Ep, Hq. simpl. rewrite En.
    rewrite (Hno _ st), (Hno _ st) by (done || by intros []). rewrite !orb_false_r.
    apply orb_false_iff. split; apply not_true_iff_false; intros ([k x] & Hin & Hx)%existsb_exists;
      apply list_elem_of_In, elem_of_map_to_list in Hin; simpl in Hx.
    + apply bool_decide_eq_true in Hx as ->. apply lookup_delete_Some in Hin as [Hne Hin]. apply Hnames in Hin.
      unfold name_of in Hin. rewrite Ep in Hin. simpl in Hin. rewrite En in Hin. by injection Hin as <-.
    + destruct x as [| | |m]; try done. assert (Hk : x_timers st !! k = Some (TEof m)).
      { destruct (decide (k = n)) as [->|Hk]; [by rewrite lookup_partial_alter_eq in Hin|by rewrite lookup_partial_alter_ne in Hin by done]. }
      assert (map_locked st = true) by (by eapply any_true). congruence.
  - intros r k st'' Eh. simpl. unfold on_enter. simpl. rewrite Eh. unfold get_or_create_session. simpl.
    rewrite lookup_delete_eq. intros E. destruct (map_locked (set_timer _ _ _)); [done|]. injection E as <-. simpl. exists (x_next st). rewrite lookup_insert_eq.
    split; [done|]. destruct (Hp n p Ep). lia.
Qed.

(** A response outlives its stream: as long as the session is in the map, the session's own
    sender keeps the body of the GET's response open, although the protocol has
    finished and dropped its stream. *)
Theorem downlink_held_open ls sid n p st r :
  steps cfg server_new ls = Some st -> x_names st !! sid = Some n -> x_pipes st !! n = Some p -> p_down p = [] ->
  x_handlers st !! r = Some (HReplied (downlink_response n)) -> xstep cfg st (XBody r) = None.
Proof.
  intros Hs Hn Ep Ed Eh. pose proof (reachable_ok cfg ls st Hs) as (_ & [_ Hnames] & _).
  pose proof (Hnames sid n Hn) as En. unfold name_of in En. rewrite Ep in En. injection En as En.
  simpl. unfold on_body. rewrite Eh. simpl. rewrite Ep. simpl. rewrite Ed. unfold down_sender, session_alive. rewrite Ep. simpl. rewrite En.
  rewrite (any_true (fun m => bool_decide (m = n)) (x_names st) sid n Hn) by (by apply bool_decide_eq_true).
  simpl. by rewrite orb_true_r.
Qed.
End timers.

(** ** Concrete runs *)

#[local] Existing Instance list_heap.
#[local] Existing Instance list_heap_laws.

Definition demo_cfg : XhttpConfig := {| cfg_path := str "/ray/"; cfg_host := None |}.
Definition demo_request (m : Method) (path : list Z) : Request := {| req_method := m; req_host := None; req_path := path |}.
Definition demo_post (r : nat) (path : list Z) (frames : list (list Z)) : list xlabel :=
  [XRequest r (demo_request POST path); XEnter r; XSession r] ++ ((fun d => XFrame r (FData d)) <$> frames) ++ [XFrame r FEnd; XSend r].

(** Two packets out of order, reads between them, an answer; then a second GET. *)
Definition demo_labels : list xlabel :=
  demo_post 0 (str "/ray/ab/1") [[3]] ++
  [XRequest 1 (demo_request GET (str "/ray/ab")); XEnter 1; XSession 1; XOffer 1; XAccept; XRead 0 10] ++
  demo_post 2 (str "/ray/ab/0") [[1]; [2]] ++
  [XRead 0 1; XRead 0 10; XRead 0 10; XWrite 0 [9; 8]; XBody 1;
   XRequest 3 (demo_request GET (str "/ray/ab")); XEnter 3].
Definition demo_state : server (list PktEntry) := default server_new (steps demo_cfg server_new demo_labels).
Definition demo_pipe : pipe (list PktEntry) := default (pipe_new None NoGet) (x_pipes demo_state !! 0%nat).

Example demo_run : got (p_reads demo_pipe) = [1; 2; 3] /\ p_out demo_pipe = [[9; 8]].
Proof. vm_compute. split; reflexivity. Qed.

Lemma sessions_are_separate_witness :
  exists st', xstep demo_cfg demo_state (XSession 3) = Some st' /\ st' = set_handler 3 (HReplied (plain CONFLICT)) demo_state.
Proof.
  destruct (sessions_are_separate demo_cfg demo_labels demo_state) as (_ & _ & H & _); [vm_compute; reflexivity|].
  destruct (xstep demo_cfg demo_state (XSession 3)) as [st'|] eqn:E; [|vm_compute in E; discriminate E].
  exists st'. split; [reflexivity|]. apply (H 3%nat 0%nat); [vm_compute; reflexivity|vm_compute; discriminate|exact E].
Defined.

Lemma connection_carries_witness : got (p_reads demo_pipe) `prefix_of` [1; 2; 3].
Proof.
  destruct (connection_carries demo_cfg demo_labels demo_state 0 demo_pipe) as (_ & _ & H); [vm_compute; reflexivity|vm_compute; reflexivity|].
  apply (H [[1; 2]; [3]] []).
  - repeat constructor; discriminate.
  - reflexivity.
  - replace ((p_given demo_pipe).*2) with [Packet 1 [3]; Packet 0 [1; 2]] by (vm_compute; reflexivity). apply Permutation_swap.
Defined.

(** 64 empty POSTs of a session without a GET, and its timer. *)
Definition jam_labels : list xlabel := (List.seq 0 64 ≫= (fun r => demo_post r (str "/ray/ab/0") [])) ++ [XTimer 0; XTimer 0].
Definition jam_state : server (list PktEntry) := default server_new (steps demo_cfg server_new jam_labels).

Lemma jammed_forever_witness : forall ls st', steps demo_cfg jam_state ls = Some st' -> forall r, xstep demo_cfg st' (XEnter r) = None.
Proof.
  intros ls st' Hs. apply (jammed_forever demo_cfg 0 0 jam_labels jam_state ls st'); [|split; [vm_compute; reflexivity|]|exact Hs].
  - apply reachable_ok. vm_compute. reflexivity.
  - eexists. split; [vm_compute; reflexivity|]. split_and!; [reflexivity|apply Nat.leb_le; reflexivity|by eexists].
Defined.
