(* ===== verification/Tuic.v ===== *)
(** * TUIC: command codec and connection
    ([src/src/tuic/proto.rs], [src/src/tuic/connection.rs])

    The codec runs on any byte source.  The connection is a state machine: the
    handlers of streams and datagrams are tasks that wait (for authentication,
    for a name to resolve), so that every interleaving of them with the client,
    the targets and the timers is a sequence of labels. *)
From S2P Require Import Prelude RustStd Net Target.

Definition VERSION : Z := 0x05.

(** [SocketAddr]: four octets or eight segments, and the port. *)
Inductive SocketAddr :=
| V4 (octets : list Z) (port : Z)
| V6 (segments : list Z) (port : Z).

Inductive Address :=
| AddressNone
| DomainAddress (domain : list Z) (port : Z)
| SocketAddress (sa : SocketAddr).

#[export] Instance SocketAddr_eq_dec : EqDecision SocketAddr.
Proof. solve_decision. Defined.
#[export] Instance Address_eq_dec : EqDecision Address.
Proof. solve_decision. Defined.

(** ** Addresses *)

Definition Address_read_from {S} `{Source S} : M S Address :=
  t ← read_u8;
  if decide (t = 0xff) then mret AddressNone
  else if decide (t = 0x00) then
    len ← read_u8;
    let len := Z.to_nat len in
    domain_buf ← read_exact (len + 2);
    p0 ← lift (index domain_buf len);
    p1 ← lift (index domain_buf (len + 1));
    let port := be_val [p0; p1] in
    domain ← lift (from_utf8 (take len domain_buf));
    mret (DomainAddress domain port)
  else if decide (t = 0x01) then
    b ← read_exact 6;
    mret (SocketAddress (V4 (take 4 b) (be_val (drop 4 b))))
  else if decide (t = 0x02) then
    b ← read_exact 18;
    mret (SocketAddress (V6 (segments_of (take 16 b)) (be_val (drop 16 b))))
  else bail "unknown address type".

Definition Address_to_bytes (a : Address) : list Z :=
  match a with
  | AddressNone => [0xff]
  | DomainAddress domain port => [0x00; u8 (Z.of_nat (length domain))] ++ domain ++ be_bytes 2 port
  | SocketAddress (V4 o port) => [0x01] ++ o ++ be_bytes 2 port
  | SocketAddress (V6 segs port) => [0x02] ++ concat (be_bytes 2 <$> segs) ++ be_bytes 2 port
  end.

Definition Address_to_string (a : Address) : list Z :=
  match a with
  | AddressNone => str "none"
  | DomainAddress d p => d ++ [58] ++ dec p
  | SocketAddress (V4 o p) => ipv4_to_string o ++ [58] ++ dec p
  | SocketAddress (V6 segs p) => [91] ++ ipv6_to_string segs ++ [93] ++ [58] ++ dec p
  end.

(** ** Commands *)

Definition CMD_AUTHENTICATE : Z := 0x00.
Definition CMD_CONNECT : Z := 0x01.
Definition CMD_PACKET : Z := 0x02.
Definition CMD_DISSOCIATE : Z := 0x03.
Definition CMD_HEARTBEAT : Z := 0x04.

Record PacketInfo := MkPacket {
  assoc_id : Z;
  pkt_id : Z;
  frag_total : Z;
  frag_id : Z;
  size : Z;
  addr : Address;
}.

Inductive Command :=
| Authenticate (uuid token : list Z)
| Connect (a : Address)
| Packet (info : PacketInfo)
| Dissociate (assoc_id : Z)
| Heartbeat.

Definition is_tuic_prefix (p0 p1 : Z) : bool := (p0 =? VERSION) && (p1 <=? CMD_HEARTBEAT).

(** The fixed fields of a packet command, after the eight bytes [buf]. *)
Definition packet_info (buf : list Z) (a : Address) : PacketInfo :=
  MkPacket (be_val (take 2 buf)) (be_val (take 2 (drop 2 buf))) (be_val (take 1 (drop 4 buf)))
    (be_val (take 1 (drop 5 buf))) (be_val (drop 6 buf)) a.

(** On a stream, after the two bytes of the prefix. *)
Definition parse_command_with_prefix {S} `{Source S} (ver cmd : Z) : M S Command :=
  if decide (ver <> VERSION) then bail "unsupported TUIC version" else
  if decide (cmd = CMD_AUTHENTICATE) then
    buf ← read_exact 48;
    mret (Authenticate (take 16 buf) (drop 16 buf))
  else if decide (cmd = CMD_CONNECT) then
    a ← Address_read_from;
    mret (Connect a)
  else if decide (cmd = CMD_PACKET) then
    buf ← read_exact 8;
    a ← Address_read_from;
    mret (Packet (packet_info buf a))
  else if decide (cmd = CMD_DISSOCIATE) then
    buf ← read_exact 2;
    mret (Dissociate (be_val buf))
  else if decide (cmd = CMD_HEARTBEAT) then mret Heartbeat
  else bail "unknown command".

(** In a datagram: the same fields, and no connect command. *)
Definition read_address_sync : M (list Z) Address := Address_read_from.

Definition read_from_sync : M (list Z) Command :=
  ver ← read_u8;
  cmd ← read_u8;
  if decide (ver <> VERSION) then bail "unsupported TUIC version" else
  if decide (cmd = CMD_AUTHENTICATE) then
    buf ← read_exact 48;
    mret (Authenticate (take 16 buf) (drop 16 buf))
  else if decide (cmd = CMD_PACKET) then
    buf ← read_exact 8;
    a ← read_address_sync;
    mret (Packet (packet_info buf a))
  else if decide (cmd = CMD_HEARTBEAT) then mret Heartbeat
  else if decide (cmd = CMD_DISSOCIATE) then
    buf ← read_exact 2;
    mret (Dissociate (be_val buf))
  else bail "unexpected cmd in datagram".

Definition read_from_datagram (data : list Z) : outcome Command := (read_from_sync data).1.

Definition build_packet_header (assoc pkt : Z) (a : Address) (payload_len : Z) : list Z :=
  [VERSION; CMD_PACKET] ++ be_bytes 2 assoc ++ be_bytes 2 pkt ++ [1; 0] ++ be_bytes 2 payload_len ++
  Address_to_bytes a.

(** ** The connection *)

(** [to_ipv4_mapped], and the rewriting both ends of a session do. *)
Definition unmap (sa : SocketAddr) : SocketAddr :=
  match sa with
  | V6 [0; 0; 0; 0; 0; 0xffff; a; b] port => V4 (be_bytes 2 a ++ be_bytes 2 b) port
  | _ => sa
  end.

Inductive UdpMode := Quic | Native.

Inductive tevent :=
| TConnect (sa : SocketAddr) (ok : bool)           (** [TcpStream::connect] *)
| TRelay (sa : SocketAddr)                         (** the copy loops run *)
| TReset                                           (** the stream is reset *)
| TUdp (sess : nat) (payload : list Z) (dst : SocketAddr)  (** [send_to] of a session's socket *)
| TClient (mode : UdpMode) (bs : list Z).          (** a datagram or a stream to the client *)

(** The program around a connection: the configuration, the TLS exporter, and
    the network as functions of what has happened so far. *)
Record tenv := TEnv {
  users : gmap (list Z) (list Z);
  exporter : list Z -> list Z -> option (list Z);
    (** [export_keying_material(32 bytes, label, context)] *)
  udp_relay_ipv6 : bool;
  lookup_host : list tevent -> list Z -> Z -> option (list SocketAddr);
  tcp_connect_ok : list tevent -> SocketAddr -> bool;
  bind_ok : list tevent -> bool;
  send_ok : list tevent -> SocketAddr -> bool;
}.

(** A UDP session: its identifier, and whether its receiving task runs. *)
Record UdpSession := MkSession { sess_assoc : Z; sess_listening : bool }.

(** A handler that waits. *)
Inductive task :=
| WaitBi (ver cmd : Z) (rest : list Z)                 (** [handle_bi], for authentication *)
| WaitDatagram (dg : list Z)                           (** [handle_datagram], for authentication *)
| WaitPacket (info : PacketInfo) (rest : list Z)       (** [handle_packet_stream], for authentication *)
| Resolving (info : PacketInfo) (payload : list Z).    (** [handle_packet_data], for the resolver *)

Record tstate := TState {
  t_auth : option (list Z);
  t_closed : bool;
  t_mode : option UdpMode;
  t_map : gmap Z nat;
  t_sessions : gmap nat UdpSession;
  t_next : nat;
  t_tasks : list (option task);
  t_trace : list tevent;
}.

Definition tstate0 : tstate := TState None false None ∅ ∅ 0 [] [].

Definition is_authenticated (st : tstate) : bool := bool_decide (t_auth st <> None).
Definition set_auth (u : list Z) (st : tstate) : tstate :=
  TState (Some u) (t_closed st) (t_mode st) (t_map st) (t_sessions st) (t_next st) (t_tasks st) (t_trace st).
Definition close (st : tstate) : tstate :=
  TState (t_auth st) true (t_mode st) (t_map st) (t_sessions st) (t_next st) (t_tasks st) (t_trace st).
Definition set_mode (m : UdpMode) (st : tstate) : tstate :=
  TState (t_auth st) (t_closed st) (Some m) (t_map st) (t_sessions st) (t_next st) (t_tasks st) (t_trace st).
Definition set_sessions (m : gmap Z nat) (ss : gmap nat UdpSession) (n : nat) (st : tstate) : tstate :=
  TState (t_auth st) (t_closed st) (t_mode st) m ss n (t_tasks st) (t_trace st).
Definition set_tasks (ts : list (option task)) (st : tstate) : tstate :=
  TState (t_auth st) (t_closed st) (t_mode st) (t_map st) (t_sessions st) (t_next st) ts (t_trace st).
Definition temit (e : tevent) (st : tstate) : tstate :=
  TState (t_auth st) (t_closed st) (t_mode st) (t_map st) (t_sessions st) (t_next st) (t_tasks st)
    (t_trace st ++ [e]).
Definition spawn (k : task) (st : tstate) : tstate := set_tasks (t_tasks st ++ [Some k]) st.

Section connection.
Context (E : tenv).

Definition validate_token (uuid password token : list Z) : bool :=
  match exporter E uuid password with
  | Some expected => bool_decide (expected = token)
  | None => false
  end.

(** One step here; [TuicAuth.login_step] has the look at the flag and what follows apart, as
    another task may run in between. *)
Definition handle_authenticate (uuid token : list Z) (st : tstate) : tstate :=
  if is_authenticated st then st else
  let valid := match users E !! uuid with
               | Some password => validate_token uuid password token
               | None => false
               end in
  if valid then set_auth uuid st else close st.

Definition resolve_addr_list (tr : list tevent) (a : Address) : option (list SocketAddr) :=
  match a with
  | AddressNone => None
  | SocketAddress sa => Some [sa]
  | DomainAddress domain port =>
      addrs ← lookup_host E tr domain port;
      if decide (addrs = []) then None else Some addrs
  end.

Definition resolve_addr (tr : list tevent) (a : Address) : option SocketAddr :=
  list ← resolve_addr_list tr a; head list.

(** The loop of [dial_tcp]: the first address that answers. *)
Fixpoint dial_addrs (addrs : list SocketAddr) (st : tstate) : option SocketAddr * tstate :=
  match addrs with
  | [] => (None, st)
  | sa :: addrs =>
      let ok := tcp_connect_ok E (t_trace st) sa in
      let st := temit (TConnect sa ok) st in
      if ok then (Some sa, st) else dial_addrs addrs st
  end.
Definition dial_tcp (a : Address) (st : tstate) : option SocketAddr * tstate :=
  match resolve_addr_list (t_trace st) a with
  | Some addrs => dial_addrs addrs st
  | None => (None, st)
  end.

Definition handle_connect (a : Address) (st : tstate) : tstate :=
  match dial_tcp a st with
  | (Some sa, st) => temit (TRelay sa) st
  | (None, st) => temit TReset st
  end.

(** [handle_packet_data] up to the resolver. *)
Definition handle_packet_data (info : PacketInfo) (payload : list Z) (mode : UdpMode) (st : tstate) : tstate :=
  let st := match t_mode st with None => set_mode mode st | Some _ => st end in
  if decide (frag_total info <> 1) then st else spawn (Resolving info payload) st.

(** [UdpSession::send]: the socket address it sends to. *)
Definition send_addr (sa : SocketAddr) : option SocketAddr :=
  match unmap sa with
  | V4 o p => Some (V4 o p)
  | V6 s p => if udp_relay_ipv6 E then Some (V6 s p) else None
  end.
Definition UdpSession_send (sid : nat) (payload : list Z) (sa : SocketAddr) (st : tstate) : tstate :=
  match send_addr sa with
  | Some dst => if send_ok E (t_trace st) dst then temit (TUdp sid payload dst) st else st
  | None => st
  end.

(** "Get or create UDP session". *)
Definition get_session (assoc : Z) (st : tstate) : option (nat * tstate) :=
  match t_map st !! assoc with
  | Some sid => Some (sid, st)
  | None =>
      if bind_ok E (t_trace st) then
        let sid := t_next st in
        Some (sid, set_sessions (<[assoc := sid]> (t_map st))
                     (<[sid := MkSession assoc true]> (t_sessions st)) (S sid) st)
      else None
  end.

(** The rest of [handle_packet_data]. *)
Definition packet_resolved (info : PacketInfo) (payload : list Z) (st : tstate) : tstate :=
  match resolve_addr (t_trace st) (addr info) with
  | None => st
  | Some target =>
      match get_session (assoc_id info) st with
      | Some (sid, st) => UdpSession_send sid payload target st
      | None => st
      end
  end.

(** The rest of [handle_packet_stream], authenticated. *)
Definition packet_stream_ready (info : PacketInfo) (rest : list Z) (st : tstate) : tstate :=
  match read_exact (Z.to_nat (size info)) rest with
  | (Done payload, _) => handle_packet_data info payload Quic st
  | _ => st
  end.

Definition set_listening (sid : nat) (b : bool) (st : tstate) : tstate :=
  set_sessions (t_map st)
    (alter (fun s => MkSession (sess_assoc s) b) sid (t_sessions st)) (t_next st) st.

(** [close] of the session ends its receiving task. *)
Definition handle_dissociate (assoc : Z) (st : tstate) : tstate :=
  match t_map st !! assoc with
  | Some sid =>
      set_listening sid false (set_sessions (delete assoc (t_map st)) (t_sessions st) (t_next st) st)
  | None => st
  end.

(** A unidirectional stream with the contents [bs]. *)
Definition handle_uni (bs : list Z) (st : tstate) : tstate :=
  match read_exact 2 bs with
  | (Done [p0; p1], rest) =>
      if is_tuic_prefix p0 p1 then
        match parse_command_with_prefix p0 p1 rest with
        | (Done (Authenticate uuid token), _) => handle_authenticate uuid token st
        | (Done (Packet info), rest) =>
            if is_authenticated st then packet_stream_ready info rest st
            else spawn (WaitPacket info rest) st
        | (Done (Dissociate id), _) => handle_dissociate id st
        | _ => st
        end
      else st
  | _ => st
  end.

(** A bidirectional stream, after the wait. *)
Definition bi_ready (p0 p1 : Z) (rest : list Z) (st : tstate) : tstate :=
  match parse_command_with_prefix p0 p1 rest with
  | (Done (Connect a), _) => handle_connect a st
  | _ => st
  end.
Definition handle_bi (bs : list Z) (st : tstate) : tstate :=
  match read_exact 2 bs with
  | (Done [p0; p1], rest) =>
      if is_tuic_prefix p0 p1 then
        if is_authenticated st then bi_ready p0 p1 rest st else spawn (WaitBi p0 p1 rest) st
      else st
  | _ => st
  end.

(** A datagram, after the wait: the payload starts after the header. *)
Definition datagram_ready (dg : list Z) (st : tstate) : tstate :=
  match read_from_datagram dg with
  | Done (Packet info) =>
      let hdr_len := (2 + 8 + length (Address_to_bytes (addr info)))%nat in
      if decide (length dg < hdr_len)%nat then st
      else handle_packet_data info (drop hdr_len dg) Native st
  | _ => st
  end.
Definition handle_datagram (dg : list Z) (st : tstate) : tstate :=
  match dg with
  | p0 :: p1 :: _ =>
      if is_tuic_prefix p0 p1 then
        if is_authenticated st then datagram_ready dg st else spawn (WaitDatagram dg) st
      else st
  | _ => st
  end.

(** On a closed connection the sends fail. *)
Definition relay_udp_to_client (header payload : list Z) (st : tstate) : tstate :=
  if t_closed st then st else
  match t_mode st with
  | Some Native | None => temit (TClient Native (header ++ payload)) st
  | Some Quic => temit (TClient Quic (header ++ payload)) st
  end.

(** One turn of the receiving task: a packet [pkt] from [from]; [rnd] is the
    random packet number. *)
Definition session_recv (sid : nat) (rnd : Z) (pkt : list Z) (from : SocketAddr) (st : tstate) : tstate :=
  match t_sessions st !! sid with
  | Some s =>
      if sess_listening s then
        let hdr := build_packet_header (sess_assoc s) rnd (SocketAddress (unmap from))
                     (u16 (Z.of_nat (length pkt))) in
        relay_udp_to_client hdr pkt st
      else st
  | None => st
  end.

Inductive label :=
| LUni (bs : list Z)           (** the client opens a unidirectional stream *)
| LBi (bs : list Z)            (** a bidirectional stream *)
| LDatagram (dg : list Z)
| LRun (i : nat)               (** the waiting task [i] goes on *)
| LGiveUp (i : nat)            (** the waiting task [i] times out *)
| LAuthTimeout                 (** the watchdog of [handle] fires *)
| LReply (sid : nat) (rnd : Z) (pkt : list Z) (from : SocketAddr)
| LSessionTimeout (sid : nat).

(** A task that goes on: those that wait for authentication need it. *)
Definition run_task (k : task) (st : tstate) : option tstate :=
  match k with
  | Resolving info payload => Some (packet_resolved info payload st)
  | WaitBi p0 p1 rest => if is_authenticated st then Some (bi_ready p0 p1 rest st) else None
  | WaitDatagram dg => if is_authenticated st then Some (datagram_ready dg st) else None
  | WaitPacket info rest => if is_authenticated st then Some (packet_stream_ready info rest st) else None
  end.

(** [None] where the label cannot happen: nothing arrives on a closed
    connection. *)
Definition tstep (st : tstate) (l : label) : option tstate :=
  match l with
  | LUni bs => if t_closed st then None else Some (handle_uni bs st)
  | LBi bs => if t_closed st then None else Some (handle_bi bs st)
  | LDatagram dg => if t_closed st then None else Some (handle_datagram dg st)
  | LRun i =>
      match t_tasks st !! i with
      | Some (Some k) => run_task k (set_tasks (<[i := None]> (t_tasks st)) st)
      | _ => None
      end
  | LGiveUp i =>
      match t_tasks st !! i with
      | Some (Some (Resolving _ _)) | Some None | None => None
      | Some (Some _) => Some (set_tasks (<[i := None]> (t_tasks st)) st)
      end
  | LAuthTimeout => Some (if is_authenticated st then st else close st)
  | LReply sid rnd pkt from => Some (session_recv sid rnd pkt from st)
  | LSessionTimeout sid => Some (set_listening sid false st)
  end.

Fixpoint trun (st : tstate) (ls : list label) : option tstate :=
  match ls with [] => Some st | l :: ls => st' ← tstep st l; trun st' ls end.
End connection.

(** ** The codec is exact *)

Definition seg_ok (z : Z) : Prop := 0 <= z < 65536.
Definition addr_ok (a : Address) : Prop :=
  match a with
  | AddressNone => True
  | DomainAddress d p => (length d <= 255)%nat /\ bytes_ok d /\ utf8_valid d = true /\ port_ok p
  | SocketAddress (V4 o p) => length o = 4%nat /\ bytes_ok o /\ port_ok p
  | SocketAddress (V6 s p) => length s = 8%nat /\ Forall seg_ok s /\ port_ok p
  end.

#[export] Instance seg_ok_dec z : Decision (seg_ok z).
Proof. unfold seg_ok. apply _. Defined.
#[export] Instance addr_ok_dec a : Decision (addr_ok a).
Proof. destruct a as [|d p|[o p|s p]]; simpl; apply _. Defined.

Definition packet_ok (i : PacketInfo) : Prop :=
  seg_ok (assoc_id i) /\ seg_ok (pkt_id i) /\ byte_ok (frag_total i) /\ byte_ok (frag_id i) /\
  seg_ok (size i) /\ addr_ok (addr i).

Definition command_ok (c : Command) : Prop :=
  match c with
  | Authenticate u t => length u = 16%nat /\ length t = 32%nat
  | Connect a => addr_ok a
  | Packet i => packet_ok i
  | Dissociate id => seg_ok id
  | Heartbeat => True
  end.

Definition cmd_code (c : Command) : Z :=
  match c with
  | Authenticate _ _ => CMD_AUTHENTICATE
  | Connect _ => CMD_CONNECT
  | Packet _ => CMD_PACKET
  | Dissociate _ => CMD_DISSOCIATE
  | Heartbeat => CMD_HEARTBEAT
  end.

(** A command on the wire, after the two bytes of version and type. *)
Definition command_wire (c : Command) : list Z :=
  match c with
  | Authenticate u t => u ++ t
  | Connect a => Address_to_bytes a
  | Packet i =>
      (be_bytes 2 (assoc_id i) ++ be_bytes 2 (pkt_id i) ++ [frag_total i; frag_id i] ++ be_bytes 2 (size i)) ++
      Address_to_bytes (addr i)
  | Dissociate id => be_bytes 2 id
  | Heartbeat => []
  end.

Lemma segments_concat segs : Forall seg_ok segs -> segments_of (concat (be_bytes 2 <$> segs)) = segs.
Proof.
  induction 1 as [|s segs Hs _ IH]; [done|]. rewrite fmap_cons, concat_cons, u16_be_bytes. cbn [app segments_of]. rewrite IH.
  unfold seg_ok in Hs. f_equal. dlia.
Qed.

Lemma concat_segments o :
  bytes_ok o -> (exists k, length o = (2 * k)%nat) ->
  concat (be_bytes 2 <$> segments_of o) = o /\ Forall seg_ok (segments_of o) /\
  length o = (2 * length (segments_of o))%nat.
Proof.
  revert o. fix IH 1. intros [|a [|b r]] Hok Hk; [done|destruct Hk; simpl in *; lia|].
  rewrite !Forall_cons in Hok. destruct Hok as (Ha & Hb & Hr). unfold byte_ok in Ha, Hb.
  destruct (IH r Hr) as (E & Hs & Hl); [destruct Hk as [k Hk]; exists (k - 1)%nat; simpl in Hk; lia|].
  cbn [segments_of]. rewrite fmap_cons, concat_cons, E, u16_be_bytes. split_and!.
  - simpl. repeat f_equal; dlia.
  - constructor; [unfold seg_ok; lia|done].
  - simpl. lia.
Qed.

Lemma length_concat_segs segs : length (concat (be_bytes 2 <$> segs)) = (2 * length segs)%nat.
Proof. induction segs as [|s segs IH]; [done|]. rewrite fmap_cons, concat_cons, length_app, IH, length_be_bytes. simpl. lia. Qed.

(** A buffer of [n + 2] bytes read as a text and a port. *)
Lemma buf_split n (buf : list Z) :
  length buf = (n + 2)%nat -> exists p0 p1, buf = take n buf ++ [p0; p1] /\
    index buf n = Done p0 /\ index buf (n + 1) = Done p1.
Proof.
  intros Hl. assert (Hd : length (drop n buf) = 2%nat) by (rewrite length_drop; lia).
  assert (Ht : length (take n buf) = n) by (rewrite length_take; lia).
  pose proof (take_drop n buf) as E. destruct (drop n buf) as [|p0 [|p1 [|]]]; simpl in Hd; try lia.
  exists p0, p1. split; [done|]. rewrite <- E at 1 2. split; [by apply index_app|].
  rewrite app_mid. apply index_app. rewrite length_app. simpl. lia.
Qed.

Section codec.
Context {S : Type} `{SourceLaws S}.

Lemma tuic_reads_address a : addr_ok a -> reads (S := S) Address_read_from (Address_to_bytes a) a.
Proof.
  intros Ha. unfold Address_read_from.
  destruct a as [|d p|[o p|segs p]]; cbn [Address_to_bytes addr_ok] in *; destruct_and?;
    (eapply (reads_bind _ _ [_]); [apply reads_u8|]); guard_true.
  - apply reads_ret.
  - assert (Hu : u8 (Z.of_nat (length d)) = Z.of_nat (length d)).
    { unfold wrap. rewrite Z.mod_small; [done|]. change (2 ^ 8) with 256. lia. }
    rewrite Hu. eapply (reads_bind _ _ [_]); [apply reads_u8|]. rewrite Nat2Z.id.
    eapply reads_bind_r; [apply reads_exact; rewrite length_app, length_be_bytes; lia|].
    eapply reads_bind_r; [apply reads_lift; by apply index_app|].
    eapply reads_bind_r; [apply reads_lift|].
    { rewrite u16_be_bytes. change (d ++ [p / 256 mod 256; p mod 256]) with (d ++ [p / 256 mod 256] ++ [p mod 256]).
      rewrite app_assoc. apply index_app. rewrite length_app. simpl. lia. }
    rewrite take_app_length. eapply reads_bind_r; [by apply reads_utf8|].
    change [_; _] with (be_bytes 2 p). rewrite be_val_bytes by done. apply reads_ret.
  - eapply reads_bind_r; [apply reads_exact; rewrite length_app, length_be_bytes; lia|].
    rewrite take_app_length', drop_app_length' by done. rewrite be_val_bytes by done. apply reads_ret.
  - assert (Hl : length (concat (be_bytes 2 <$> segs)) = 16%nat) by (rewrite length_concat_segs; lia).
    eapply reads_bind_r; [apply reads_exact; rewrite length_app, length_be_bytes; lia|].
    rewrite take_app_length', drop_app_length' by done. rewrite be_val_bytes by done.
    rewrite segments_concat by done. apply reads_ret.
Qed.

Lemma tuic_sound_address : sound (S := S) Address_read_from (fun bs a => addr_ok a /\ bs = Address_to_bytes a).
Proof.
  unfold Address_read_from. eapply sound_bind; [apply sound_u8|]. intros ? t _ [-> _].
  case_decide as Ht; [subst; by apply sound_ret|].
  case_decide as Ht1; [|case_decide as Ht2; [|case_decide as Ht3; [|apply sound_fail]]]; subst.
  - eapply sound_bind; [apply sound_u8|]. intros ? len _ [-> Hlen]. unfold byte_ok in Hlen.
    eapply sound_bind; [apply sound_exact|]. intros ? buf Hok [-> Hl].
    destruct (buf_split _ buf Hl) as (p0 & p1 & Eb & E0 & E1). rewrite E0, E1.
    eapply sound_bind with (P := fun bs x => bs = [] /\ x = p0); [apply sound_lift; by intros ? [= <-]|].
    intros ? ? _ [-> ->].
    eapply sound_bind with (P := fun bs x => bs = [] /\ x = p1); [apply sound_lift; by intros ? [= <-]|].
    intros ? ? _ [-> ->]. set (d := take (Z.to_nat len) buf) in *.
    eapply sound_bind with (P := fun bs x => bs = [] /\ x = d /\ utf8_valid d = true).
    { apply sound_utf8. auto. }
    intros ? ? _ (-> & -> & Hu). apply sound_ret. rewrite Eb in Hok |- *.
    apply Forall_app in Hok as [Hd Hp]. assert (Ld : length d = Z.to_nat len) by (unfold d; rewrite length_take; lia).
    pose proof (be_val_bound _ Hp) as Hb. simpl length in Hb. split.
    + simpl. split_and!; [lia|done|done|exact Hb].
    + cbn [Address_to_bytes]. rewrite (be_bytes_val 2) by done. rewrite Ld, Z2Nat.id by lia.
      unfold wrap. rewrite Z.mod_small by lia. simpl. by rewrite app_nil_r.
  - eapply sound_bind; [apply sound_exact|]. intros ? b Hok [-> Hl]. apply sound_ret.
    assert (Hd : bytes_ok (drop 4 b)) by auto with bytes.
    assert (Ld : length (drop 4 b) = 2%nat) by (rewrite length_drop; lia).
    pose proof (be_val_bound _ Hd) as Hb. rewrite Ld in Hb. cbn [Address_to_bytes addr_ok].
    split; [split_and!; [rewrite length_take; lia|auto with bytes|exact Hb]|].
    rewrite be_bytes_val by done. by rewrite take_drop, app_nil_r.
  - eapply sound_bind; [apply sound_exact|]. intros ? b Hok [-> Hl]. apply sound_ret.
    assert (Hd : bytes_ok (drop 16 b)) by auto with bytes.
    assert (Ld : length (drop 16 b) = 2%nat) by (rewrite length_drop; lia).
    pose proof (be_val_bound _ Hd) as Hb. rewrite Ld in Hb. cbn [Address_to_bytes addr_ok].
    destruct (concat_segments (take 16 b)) as (E & Hs & Lt);
      [auto with bytes|exists 8%nat; rewrite length_take; lia|].
    rewrite length_take in Lt. split; [split_and!; [lia|done|exact Hb]|].
    rewrite E, be_bytes_val by done. by rewrite take_drop, app_nil_r.
Qed.

Lemma tuic_quiet_address : quiet (S := S) Address_read_from.
Proof.
  unfold Address_read_from. eapply quiet_bind; [apply quiet_u8|]. intros.
  case_decide; [apply quiet_ret|]. case_decide; [|case_decide; [|case_decide; [|apply quiet_fail]]].
  - eapply quiet_bind; [apply quiet_u8|]. intros ? len ? _.
    eapply quiet_bind; [apply quiet_exact|]. intros ? buf ? E%exact_length.
    destruct (buf_split _ buf E) as (p0 & p1 & _ & E0 & E1). rewrite E0, E1.
    eapply quiet_bind; [by apply quiet_lift|]. intros. eapply quiet_bind; [by apply quiet_lift|]. intros.
    eapply quiet_bind; [apply quiet_utf8|]. intros. apply quiet_ret.
  - eapply quiet_bind; [apply quiet_exact|]. intros. apply quiet_ret.
  - eapply quiet_bind; [apply quiet_exact|]. intros. apply quiet_ret.
Qed.

Lemma packet_info_wire i :
  packet_ok i ->
  packet_info (be_bytes 2 (assoc_id i) ++ be_bytes 2 (pkt_id i) ++ [frag_total i; frag_id i] ++ be_bytes 2 (size i))
    (addr i) = i.
Proof.
  destruct i as [a p ft fi sz ad]. unfold packet_ok, packet_info, seg_ok. simpl assoc_id. simpl pkt_id. simpl frag_total.
  simpl frag_id. simpl size. simpl addr. intros (Ha & Hp & _ & _ & Hs & _). f_equal.
  - exact (be_val_bytes 2 a Ha).
  - exact (be_val_bytes 2 p Hp).
  - exact (be_val_bytes 2 sz Hs).
Qed.

Lemma packet_info_inv buf ad :
  bytes_ok buf -> length buf = 8%nat -> addr_ok ad ->
  let i := packet_info buf ad in
  packet_ok i /\
  buf = be_bytes 2 (assoc_id i) ++ be_bytes 2 (pkt_id i) ++ [frag_total i; frag_id i] ++ be_bytes 2 (size i).
Proof.
  intros Hok Hl Ha i. destruct buf as [|a0 [|a1 [|p0 [|p1 [|ft [|fi [|s0 [|s1 [|]]]]]]]]]; simpl in Hl; try lia.
  rewrite !Forall_cons in Hok. destruct Hok as (H0' & H1' & H2' & H3' & H4' & H5' & H6' & H7' & _).
  assert (Hpair : forall x y, byte_ok x -> byte_ok y -> 0 <= be_val [x; y] < 65536 /\ be_bytes 2 (be_val [x; y]) = [x; y]).
  { intros x y Hx Hy. assert (Hxy : bytes_ok [x; y]) by (by rewrite !Forall_cons). split.
    - exact (be_val_bound [x; y] Hxy).
    - by apply be_bytes_val. }
  change (assoc_id i) with (be_val [a0; a1]). change (pkt_id i) with (be_val [p0; p1]).
  change (size i) with (be_val [s0; s1]). change (frag_total i) with ft. change (frag_id i) with fi.
  destruct (Hpair a0 a1), (Hpair p0 p1), (Hpair s0 s1); try done. split.
  - unfold packet_ok, seg_ok. repeat (split; [assumption|]). assumption.
  - by do 3 match goal with H : be_bytes 2 _ = _ |- _ => rewrite H; clear H end.
Qed.

Lemma reads_command c : command_ok c -> reads (S := S) (parse_command_with_prefix VERSION (cmd_code c)) (command_wire c) c.
Proof.
  intros Hc. unfold parse_command_with_prefix.
  destruct c as [u t|a|i|id|]; cbn [command_ok command_wire cmd_code] in *; guard_true; destruct_and?.
  - eapply reads_bind_r; [apply reads_exact; rewrite length_app; lia|].
    rewrite take_app_length', drop_app_length' by done. apply reads_ret.
  - eapply reads_bind_r; [by apply tuic_reads_address|]. apply reads_ret.
  - eapply reads_bind; [apply reads_exact; rewrite !length_app, !length_be_bytes; done|].
    assert (Ha : addr_ok (addr i)) by (by destruct Hc as (_ & _ & _ & _ & _ & ?)).
    eapply reads_bind_r; [by apply tuic_reads_address|]. rewrite packet_info_wire by done. apply reads_ret.
  - eapply reads_bind_r; [apply reads_exact, length_be_bytes|]. rewrite be_val_bytes by done. apply reads_ret.
  - apply reads_ret.
Qed.

Lemma sound_command ver cmd :
  sound (S := S) (parse_command_with_prefix ver cmd) (fun bs c =>
    ver = VERSION /\ cmd = cmd_code c /\ command_ok c /\ bs = command_wire c).
Proof.
  unfold parse_command_with_prefix. case_decide as Hv; [apply sound_fail|]. subst ver.
  case_decide as H1'; [|case_decide as H2'; [|case_decide as H3'; [|case_decide as H4'; [|case_decide as H5'; [|apply sound_fail]]]]];
    subst cmd.
  - eapply sound_bind; [apply sound_exact|]. intros ? buf _ [-> Hl]. apply sound_ret. rewrite app_nil_r.
    cbn [command_ok command_wire]. rewrite take_drop, length_take, length_drop. split_and!; done || lia.
  - eapply sound_bind; [apply tuic_sound_address|]. intros ? a _ [Ha ->]. apply sound_ret. by rewrite app_nil_r.
  - eapply sound_bind; [apply sound_exact|]. intros ? buf Hok [-> Hl].
    eapply sound_bind; [apply tuic_sound_address|]. intros ? a _ [Ha ->]. apply sound_ret. rewrite app_nil_r.
    destruct (packet_info_inv buf a Hok Hl Ha) as [Hi E]. split_and!; [done..|].
    cbn [command_wire]. by rewrite <- E.
  - eapply sound_bind; [apply sound_exact|]. intros ? buf Hok [-> Hl]. apply sound_ret. rewrite app_nil_r.
    cbn [command_ok command_wire]. rewrite be_bytes_val by done. pose proof (be_val_bound buf Hok) as Hb.
    rewrite Hl in Hb. by split_and!.
  - by apply sound_ret.
Qed.

Lemma quiet_command ver cmd : quiet (S := S) (parse_command_with_prefix ver cmd).
Proof.
  unfold parse_command_with_prefix.
  repeat (case_decide; [first [apply quiet_fail | apply quiet_ret |
    eapply quiet_bind; [apply quiet_exact || apply tuic_quiet_address|]; intros; first [apply quiet_ret |
      eapply quiet_bind; [apply tuic_quiet_address|]; intros; apply quiet_ret]]|]).
  apply quiet_fail.
Qed.
End codec.

(** In a datagram the prefix is read with the rest, and there is no connect. *)
Lemma reads_sync c :
  command_ok c -> (forall a, c <> Connect a) ->
  reads read_from_sync ([VERSION; cmd_code c] ++ command_wire c) c.
Proof.
  intros Hc Hn. unfold read_from_sync, read_address_sync.
  eapply (reads_bind _ _ [_]); [apply reads_u8|]. eapply (reads_bind _ _ [_]); [apply reads_u8|].
  pose proof (reads_command (S := list Z) c Hc) as Hr. unfold parse_command_with_prefix in Hr.
  destruct c as [u t|a|i|id|]; cbn [cmd_code] in *; [|by destruct (Hn a)|..];
    repeat (rewrite decide_False in Hr by done || rewrite decide_True in Hr by done);
    by guard_true.
Qed.

Lemma sound_sync :
  sound read_from_sync (fun bs c =>
    (forall a, c <> Connect a) /\ command_ok c /\ bs = [VERSION; cmd_code c] ++ command_wire c).
Proof.
  unfold read_from_sync, read_address_sync.
  eapply sound_bind; [apply sound_u8|]. intros ? ver _ [-> _].
  eapply sound_bind; [apply sound_u8|]. intros ? cmd _ [-> _].
  pose proof (sound_command (S := list Z) ver cmd) as Hs. unfold parse_command_with_prefix in Hs.
  case_decide as Hv; [apply sound_fail|].
  assert (Hfin : forall bs c, VERSION = VERSION /\ cmd = cmd_code c /\ command_ok c /\ bs = command_wire c ->
    cmd <> CMD_CONNECT ->
    (forall a, c <> Connect a) /\ command_ok c /\ [VERSION] ++ [cmd] ++ bs = [VERSION; cmd_code c] ++ command_wire c).
  { intros bs c (_ & -> & Hc & ->) Hne. split_and!; [by intros a ->|done|done]. }
  subst ver.
  destruct (decide (cmd = CMD_AUTHENTICATE)) as [->|N1]; [eapply sound_impl; [exact Hs|]; intros; by apply Hfin|].
  destruct (decide (cmd = CMD_PACKET)) as [->|N2].
  { rewrite decide_False in Hs by done. eapply sound_impl; [exact Hs|]; intros; by apply Hfin. }
  destruct (decide (cmd = CMD_HEARTBEAT)) as [->|N3].
  { rewrite !decide_False in Hs by done. eapply sound_impl; [exact Hs|]; intros; by apply Hfin. }
  destruct (decide (cmd = CMD_DISSOCIATE)) as [->|N4]; [|apply sound_fail].
  rewrite !decide_False in Hs by done. eapply sound_impl; [exact Hs|]; intros; by apply Hfin.
Qed.

Lemma datagram_command c rest :
  command_ok c -> (forall a, c <> Connect a) ->
  read_from_datagram ([VERSION; cmd_code c] ++ command_wire c ++ rest) = Done c.
Proof.
  intros Hc Hn. unfold read_from_datagram.
  destruct (reads_sync c Hc Hn ([VERSION; cmd_code c] ++ command_wire c ++ rest) rest) as (s' & E & _);
    [simpl; by rewrite ?app_assoc|]. by rewrite E.
Qed.

Lemma datagram_command_inv dg c :
  bytes_ok dg -> read_from_datagram dg = Done c ->
  exists rest, dg = [VERSION; cmd_code c] ++ command_wire c ++ rest /\ command_ok c /\ (forall a, c <> Connect a).
Proof.
  unfold read_from_datagram. intros Hok E. destruct (read_from_sync dg) as [o rest] eqn:Er. simpl in E. subst o.
  destruct (sound_sync dg c rest Hok Er) as (bs & P & (Hn & Hc & ->) & _).
  exists rest. simpl in P. unfold id in P. split_and!; [|done..]. rewrite P. simpl. done.
Qed.

(** C27: the TUIC command parsers accept exactly the wire format.  On every byte
    source, the encoding of a command is parsed to that command, consuming
    exactly the encoding, and whatever is accepted was the encoding of a
    well-formed command (sizes and ports 16 bits wide, domains UTF-8 of at
    most 255 bytes); the datagram parser accepts the same commands except
    connect.  No input makes a parser panic. *)
Theorem command_parsers_exact {S : Type} `{SourceLaws S} :
  (forall c, command_ok c ->
     reads (S := S) (parse_command_with_prefix VERSION (cmd_code c)) (command_wire c) c /\
     ((forall a, c <> Connect a) -> forall rest,
        read_from_datagram ([VERSION; cmd_code c] ++ command_wire c ++ rest) = Done c)) /\
  (forall ver cmd, quiet (S := S) (parse_command_with_prefix ver cmd) /\
     sound (S := S) (parse_command_with_prefix ver cmd) (fun bs c =>
       ver = VERSION /\ cmd = cmd_code c /\ command_ok c /\ bs = command_wire c)) /\
  (forall dg c, bytes_ok dg -> read_from_datagram dg = Done c ->
     exists rest, dg = [VERSION; cmd_code c] ++ command_wire c ++ rest /\ command_ok c /\
       (forall a, c <> Connect a)).
Proof.
  split_and!.
  - intros c Hc. split; [by apply reads_command|]. intros Hn rest. by apply datagram_command.
  - intros ver cmd. split; [apply quiet_command|apply sound_command].
  - apply datagram_command_inv.
Qed.

(** ** The connection: who may do what *)

Definition label_ok (l : label) : Prop :=
  match l with LUni bs => bytes_ok bs | LBi bs => bytes_ok bs | LDatagram dg => bytes_ok dg | _ => True end.

Section invariants.
Context (E : tenv).

(** The first two bytes of a unidirectional stream and the command in it. *)
Lemma uni_command bs p0 p1 rest c rest' :
  bytes_ok bs -> read_exact 2 bs = (Done [p0; p1], rest) ->
  parse_command_with_prefix p0 p1 rest = (Done c, rest') ->
  bs = [VERSION; cmd_code c] ++ command_wire c ++ rest' /\ command_ok c.
Proof.
  intros Hok Hr Hp. destruct (sound_slice _ _ bs _ _ (sound_exact 2) Hok Hr) as (b0 & P0 & [-> _]).
  assert (Hokr : bytes_ok rest) by (rewrite P0 in Hok; by apply (Forall_app _ [p0; p1]) in Hok as [_ ?]).
  destruct (sound_slice _ _ rest c rest' (sound_command p0 p1) Hokr Hp) as (b1 & P1 & (-> & -> & Hc & ->)).
  by rewrite P0, P1.
Qed.

(** What a step of the connection leaves alone unless it authenticates. *)
Definition same_auth (st st' : tstate) : Prop := t_auth st' = t_auth st /\ t_closed st' = t_closed st.

Lemma same_refl st : same_auth st st.
Proof. done. Qed.
Lemma same_trans a b c : same_auth a b -> same_auth b c -> same_auth a c.
Proof. unfold same_auth. intuition congruence. Qed.

Lemma dial_same addrs st : same_auth st (dial_addrs E addrs st).2.
Proof.
  revert st. induction addrs as [|sa addrs IH]; intros st; [done|]. cbn [dial_addrs].
  destruct (tcp_connect_ok _ _ _); [done|]. eapply same_trans; [|apply IH]. done.
Qed.

Lemma connect_same a st : same_auth st (handle_connect E a st).
Proof.
  unfold handle_connect, dial_tcp. destruct (resolve_addr_list _ _ _) as [addrs|]; [|done].
  pose proof (dial_same addrs st) as Hd. destruct (dial_addrs E addrs st) as [[sa|] st1]; exact Hd.
Qed.

Lemma packet_data_same i p m st : same_auth st (handle_packet_data i p m st).
Proof. unfold handle_packet_data. destruct (t_mode st); by case_decide. Qed.

Lemma resolved_same i p st : same_auth st (packet_resolved E i p st).
Proof.
  unfold packet_resolved, get_session, UdpSession_send. destruct (resolve_addr _ _ _); [|done].
  destruct (t_map st !! _); [|destruct (bind_ok _ _); [|done]];
    (destruct (send_addr _ _); [|done]); by destruct (send_ok _ _ _).
Qed.

Lemma stream_ready_same i r st : same_auth st (packet_stream_ready i r st).
Proof.
  unfold packet_stream_ready. destruct (read_exact _ _) as [[p|e|] ?]; [|done..]. apply packet_data_same.
Qed.

Lemma datagram_ready_same dg st : same_auth st (datagram_ready dg st).
Proof.
  unfold datagram_ready. destruct (read_from_datagram dg) as [[| |i| |]|e|]; try done.
  case_decide; [done|]. apply packet_data_same.
Qed.

Lemma bi_ready_same p0 p1 r st : same_auth st (bi_ready E p0 p1 r st).
Proof.
  unfold bi_ready. destruct (parse_command_with_prefix p0 p1 r) as [[[|a| | |]|e|] ?]; try done. apply connect_same.
Qed.

Lemma recv_same sid rnd pkt from st : same_auth st (session_recv sid rnd pkt from st).
Proof.
  unfold session_recv, relay_udp_to_client. destruct (t_sessions st !! sid) as [s|]; [|done].
  destruct (sess_listening s); [|done]. destruct (t_closed st) eqn:?; [done|]. by destruct (t_mode st) as [[]|].
Qed.

Lemma dissociate_same id st : same_auth st (handle_dissociate id st).
Proof. unfold handle_dissociate. by destruct (t_map st !! id). Qed.

(** A unidirectional stream authenticates, closes, or leaves both alone. *)
Lemma uni_auth bs st :
  bytes_ok bs ->
  same_auth st (handle_uni E bs st) \/
  t_auth st = None /\ exists u token rest, bs = [VERSION; CMD_AUTHENTICATE] ++ (u ++ token) ++ rest /\
    handle_uni E bs st = handle_authenticate E u token st.
Proof.
  intros Hok. unfold handle_uni. destruct (read_exact 2 bs) as [[[|p0 [|p1 [|]]]|e|] rest] eqn:Er; try by left.
  destruct (is_tuic_prefix p0 p1); [|by left].
  destruct (parse_command_with_prefix p0 p1 rest) as [[c|e|] rest'] eqn:Ep; [|by left..].
  destruct (uni_command _ _ _ _ _ _ Hok Er Ep) as [Eb _].
  destruct c as [u token|a|i|id|].
  - unfold handle_authenticate at 1 2. destruct (is_authenticated st) eqn:Ea; [by left|]. right.
    unfold is_authenticated in Ea. apply bool_decide_eq_false_1 in Ea. split; [by destruct (t_auth st); [destruct Ea|]|].
    exists u, token, rest'. split; [done|]. unfold handle_authenticate, is_authenticated.
    by rewrite bool_decide_eq_false_2.
  - by left.
  - left. destruct (is_authenticated st); [|done]. apply stream_ready_same.
  - left. apply dissociate_same.
  - by left.
Qed.

(** Before authentication: nothing but waiting tasks. *)
Definition is_resolving (k : option task) : Prop := match k with Some (Resolving _ _) => True | _ => False end.
Definition idle (st : tstate) : Prop :=
  t_trace st = [] /\ t_map st = ∅ /\ t_sessions st = ∅ /\ Forall (fun k => ~ is_resolving k) (t_tasks st).

Lemma idle_spawn k st : idle st -> ~ is_resolving (Some k) -> idle (spawn k st).
Proof.
  intros (T & M & S & F) Hk. unfold idle. simpl. split_and!; [done..|]. apply Forall_app. split; [done|].
  by constructor.
Qed.

Lemma idle_uni bs st : idle st -> t_auth st = None -> idle (handle_uni E bs st).
Proof.
  intros Hi Ha. assert (Hna : is_authenticated st = false) by (unfold is_authenticated; by rewrite Ha).
  unfold handle_uni. destruct (read_exact 2 bs) as [[[|p0 [|p1 [|]]]|e|] rest]; try done.
  destruct (is_tuic_prefix p0 p1); [|done].
  destruct (parse_command_with_prefix p0 p1 rest) as [[[u t|a|i|id|]|e|] rest']; try done.
  - unfold handle_authenticate. rewrite Hna. by destruct (users E !! u); [destruct (validate_token _ _ _ _)|].
  - rewrite Hna. (apply idle_spawn; [done|by intros []]).
  - unfold handle_dissociate. destruct Hi as (T & M & S & F). by rewrite M, lookup_empty.
Qed.

(** The state of the connection's authentication, against its history. *)
Definition auth_inv (ls : list label) (st : tstate) : Prop :=
  (t_auth st = None -> idle st) /\
  (t_closed st = true -> t_auth st = None) /\
  (forall u, t_auth st = Some u -> exists password token rest,
     users E !! u = Some password /\ exporter E u password = Some token /\
     LUni ([VERSION; CMD_AUTHENTICATE] ++ (u ++ token) ++ rest) ∈ ls).

Lemma auth_inv_keep ls l st st' :
  auth_inv ls st -> same_auth st st' -> (t_auth st = None -> idle st -> idle st') -> auth_inv (ls ++ [l]) st'.
Proof.
  intros (Hn & Hc & Hs) [Ea Ec] Hi. unfold auth_inv. rewrite Ea, Ec. split_and!; [auto|done|].
  intros u Hu. destruct (Hs u Hu) as (p & t & r & ? & ? & Hin). exists p, t, r. split_and!; [done..|].
  apply elem_of_app. by left.
Qed.

Lemma auth_inv_uni ls bs st :
  bytes_ok bs -> t_closed st = false -> auth_inv ls st -> auth_inv (ls ++ [LUni bs]) (handle_uni E bs st).
Proof.
  intros Hok Hc Hinv. destruct (uni_auth bs st Hok) as [Hs|(Ha & u & token & rest & Eb & Eh)].
  { eapply auth_inv_keep; [done|done|]. intros Ha Hi. by apply idle_uni. }
  pose proof (idle_uni bs st (proj1 Hinv Ha) Ha) as Hidle. rewrite Eh in Hidle |- *.
  unfold handle_authenticate in *. unfold is_authenticated in *. rewrite Ha in *. simpl in *.
  destruct (users E !! u) as [password|] eqn:Eu;
    [|unfold auth_inv; simpl; rewrite Ha; split_and!; [intros; apply Hidle|done|done]].
  unfold validate_token in *. destruct (exporter E u password) as [expected|] eqn:Ex;
    [|unfold auth_inv; simpl; rewrite Ha; split_and!; [intros; apply Hidle|done|done]].
  case_bool_decide as Et; [|unfold auth_inv; simpl; rewrite Ha; split_and!; [intros; apply Hidle|done|done]].
  unfold auth_inv. simpl. rewrite Hc. split_and!; [done|done|]. intros ? [= <-]. exists password, token, rest.
  subst expected. split_and!; [done..|]. apply elem_of_app. right. apply list_elem_of_singleton. by rewrite Eb.
Qed.

(** A step that neither authenticates nor, before that, does anything. *)
Definition uneventful (st st' : tstate) : Prop := same_auth st st' /\ (t_auth st = None -> idle st -> idle st').

Lemma keeps_spawn k st : ~ is_resolving (Some k) -> uneventful st (spawn k st).
Proof. intros Hk. split; [done|]. intros. by apply idle_spawn. Qed.

Lemma keeps_bi bs st : uneventful st (handle_bi E bs st).
Proof.
  unfold handle_bi. destruct (read_exact 2 bs) as [[[|p0 [|p1 [|]]]|e|] rest]; try by split.
  destruct (is_tuic_prefix p0 p1); [|by split]. unfold is_authenticated.
  case_bool_decide; [split; [apply bi_ready_same|done]|apply keeps_spawn; by intros []].
Qed.

Lemma keeps_datagram dg st : uneventful st (handle_datagram dg st).
Proof.
  unfold handle_datagram. destruct dg as [|p0 [|p1 dg]]; try by split.
  destruct (is_tuic_prefix p0 p1); [|by split]. unfold is_authenticated.
  case_bool_decide; [split; [apply datagram_ready_same|done]|apply keeps_spawn; by intros []].
Qed.

Lemma keeps_run k i st st' : t_tasks st !! i = Some (Some k) ->
  run_task E k (set_tasks (<[i := None]> (t_tasks st)) st) = Some st' -> uneventful st st'.
Proof.
  intros Ek. set (st1 := set_tasks _ st). intros Hr. unfold uneventful.
  unfold run_task in Hr. change (is_authenticated st1) with (is_authenticated st) in Hr.
  assert (Hna : is_authenticated st = true -> t_auth st = None -> idle st -> idle st')
    by (unfold is_authenticated; by intros ?%bool_decide_eq_true_1).
  assert (H1 : same_auth st st1) by done.
  destruct k as [p0 p1 r|dg|inf r|inf p].
  - destruct (is_authenticated st); [|done]. injection Hr as <-. split; [|auto].
    eapply same_trans; [exact H1|apply bi_ready_same].
  - destruct (is_authenticated st); [|done]. injection Hr as <-. split; [|auto].
    eapply same_trans; [exact H1|apply datagram_ready_same].
  - destruct (is_authenticated st); [|done]. injection Hr as <-. split; [|auto].
    eapply same_trans; [exact H1|apply stream_ready_same].
  - injection Hr as <-. split; [eapply same_trans; [exact H1|apply resolved_same]|].
    intros _ (_ & _ & _ & F). rewrite Forall_forall in F. exfalso.
    apply (F (Some (Resolving inf p))); [by eapply list_elem_of_lookup_2|done].
Qed.

Lemma keeps_give_up i st : uneventful st (set_tasks (<[i := None]> (t_tasks st)) st).
Proof.
  split; [done|]. intros _ (T & M & S & F). unfold idle. simpl. split_and!; [done..|].
  apply Forall_insert; [done|]. by intros [].
Qed.

Lemma keeps_listening sid st : uneventful st (set_listening sid false st).
Proof.
  split; [done|]. intros _ (T & M & S & F). unfold idle. simpl.
  split_and!; [done..| |done]. rewrite S. apply map_eq. intros j.
  destruct (decide (sid = j)) as [->|]; [by rewrite lookup_alter_eq, lookup_empty|by rewrite lookup_alter_ne, lookup_empty].
Qed.

Lemma keeps_recv sid rnd pkt from st : uneventful st (session_recv sid rnd pkt from st).
Proof.
  split; [apply recv_same|]. intros _ Hi.
  unfold session_recv. destruct Hi as (T & M & S & F). by rewrite S, lookup_empty.
Qed.

Lemma auth_inv_close ls st : is_authenticated st = false -> auth_inv ls st -> auth_inv (ls ++ [LAuthTimeout]) (close st).
Proof.
  unfold is_authenticated. case_bool_decide as Hb; [done|]. intros _ (Hn & Hc & Hs).
  assert (Ha : t_auth st = None) by (destruct (t_auth st); [by destruct Hb|done]).
  unfold auth_inv. simpl. rewrite Ha. split_and!; [|done|done]. intros _. apply Hn, Ha.
Qed.

Lemma auth_inv_step ls st l st' :
  label_ok l -> auth_inv ls st -> tstep E st l = Some st' -> auth_inv (ls ++ [l]) st'.
Proof.
  intros Hl Hinv Hst. assert (Hu : (exists bs, l = LUni bs) \/ (forall bs, l <> LUni bs)) by (destruct l; eauto; by right).
  destruct Hu as [[bs ->]|Hnu].
  { simpl in Hst. destruct (t_closed st) eqn:Hc; [done|]. injection Hst as <-. by apply auth_inv_uni. }
  assert (Ht : l = LAuthTimeout /\ st' = close st /\ is_authenticated st = false \/ uneventful st st');
    [|destruct Ht as [(-> & -> & Ha)|[Hs Hi]]; [by apply auth_inv_close|by eapply auth_inv_keep]].
  destruct l as [bs|bs|dg|i|i| |sid rnd pkt from|sid]; simpl in Hst.
  - by destruct (Hnu bs).
  - destruct (t_closed st); [done|]. injection Hst as <-. right. apply keeps_bi.
  - destruct (t_closed st); [done|]. injection Hst as <-. right. apply keeps_datagram.
  - destruct (t_tasks st !! i) as [[k|]|] eqn:Ek; [|done..]. right. by eapply keeps_run.
  - destruct (t_tasks st !! i) as [[k|]|] eqn:Ek; [|done..].
    assert (st' = set_tasks (<[i := None]> (t_tasks st)) st) as -> by (destruct k; congruence). right. apply keeps_give_up.
  - injection Hst as <-. destruct (is_authenticated st); [by right|by left].
  - injection Hst as <-. right. apply keeps_recv.
  - injection Hst as <-. right. apply keeps_listening.
Qed.

Lemma trun_app st ls1 ls2 : trun E st (ls1 ++ ls2) = trun E st ls1 ≫= fun st' => trun E st' ls2.
Proof. revert st. induction ls1 as [|l ls1 IH]; intros st; [done|]. simpl. destruct (tstep E st l); [apply IH|done]. Qed.

Lemma auth_inv_reachable ls st : Forall label_ok ls -> trun E tstate0 ls = Some st -> auth_inv ls st.
Proof.
  revert st. induction ls as [|l ls IH] using rev_ind; intros st Hls Hrun.
  - injection Hrun as <-. unfold auth_inv, idle. simpl. split_and!; done.
  - apply Forall_app in Hls as [Hls Hl]. apply Forall_inv in Hl. rewrite trun_app in Hrun.
    destruct (trun E tstate0 ls) as [st1|]; [|done]. simpl in Hrun.
    destruct (tstep E st1 l) as [st2|] eqn:Es; [|done]. injection Hrun as <-.
    eapply auth_inv_step; [done|by apply IH|done].
Qed.

(** The TUIC authentication gate, under every interleaving of streams,
    datagrams, resolver answers, target replies and timers.  As long as the
    connection is not authenticated, nothing has been connected, sent or
    relayed, and there is no UDP session.  It is authenticated only if a
    unidirectional stream carried the UUID of a configured user together with
    the 32 bytes the TLS exporter gives for that UUID and the user's password;
    and a connection the server closed (failed or late authentication) was
    never authenticated. *)
Theorem auth_gate ls st :
  Forall label_ok ls -> trun E tstate0 ls = Some st ->
  (t_auth st = None -> t_trace st = [] /\ t_map st = ∅ /\ t_sessions st = ∅) /\
  (t_closed st = true -> t_auth st = None) /\
  (forall u, t_auth st = Some u -> exists password token rest,
     users E !! u = Some password /\ exporter E u password = Some token /\
     LUni ([VERSION; CMD_AUTHENTICATE] ++ (u ++ token) ++ rest) ∈ ls).
Proof.
  intros Hls Hrun. destruct (auth_inv_reachable ls st Hls Hrun) as (Hn & Hc & Hs).
  split_and!; [|done..]. intros Ha. destruct (Hn Ha) as (T & M & S & _). done.
Qed.

(** ** UDP sessions *)

(** What the session map promises: its entries are sessions of their
    identifier, and new sessions get fresh numbers. *)
Definition sess_inv (st : tstate) : Prop :=
  (forall a sid, t_map st !! a = Some sid -> exists s, t_sessions st !! sid = Some s /\ sess_assoc s = a) /\
  (forall sid s, t_sessions st !! sid = Some s -> (sid < t_next st)%nat).

(** How the session tables of two states of a connection are related, when
    the association [a] is not dissolved in between. *)
Definition sess_step (a : Z) (st st' : tstate) : Prop :=
  (sess_inv st -> sess_inv st') /\
  forall sid, sess_inv st -> t_map st !! a = Some sid ->
    t_map st' !! a = Some sid /\
    forall s, t_sessions st !! sid = Some s -> sess_listening s = false -> t_sessions st' !! sid = Some s.

Lemma sess_same a st st' :
  t_map st' = t_map st -> t_sessions st' = t_sessions st -> t_next st' = t_next st -> sess_step a st st'.
Proof. intros Em Es En. unfold sess_step, sess_inv. rewrite Em, Es, En. split; [done|]. intros sid _ Hm. auto. Qed.

Lemma sess_trans a x y z : sess_step a x y -> sess_step a y z -> sess_step a x z.
Proof.
  intros [I1 S1] [I2 S2]. split; [auto|]. intros sid Hi Hm. destruct (S1 sid Hi Hm) as [Hm1 Hs1].
  destruct (S2 sid (I1 Hi) Hm1) as [Hm2 Hs2]. split; [done|]. auto.
Qed.

Lemma sess_get a b st sid st' : get_session E b st = Some (sid, st') -> sess_step a st st' /\ t_map st' !! b = Some sid.
Proof.
  unfold get_session. destruct (t_map st !! b) as [x|] eqn:Em; [intros [= <- <-]; split; [by apply sess_same|done]|].
  destruct (bind_ok _ _); [|done]. intros [= <- <-]. simpl. split; [|by rewrite lookup_insert_eq]. split.
  - intros [Hm Hn]. split; simpl.
    + intros c sid Hc. destruct (decide (b = c)) as [->|Hne].
      * rewrite lookup_insert_eq in Hc. injection Hc as <-. rewrite lookup_insert_eq. by eexists.
      * rewrite lookup_insert_ne in Hc by done. destruct (Hm c sid Hc) as (s & Hs & E'). exists s.
        apply Hn in Hs as Hlt. by rewrite lookup_insert_ne by lia.
    + intros sid s. destruct (decide (t_next st = sid)) as [<-|Hne]; [intros; lia|].
      rewrite lookup_insert_ne by done. intros Hs%Hn. lia.
  - intros sid [Hm Hn] Ha. simpl. assert (b <> a) by congruence. rewrite lookup_insert_ne by done. split; [done|].
    intros s Hs _. apply Hn in Hs as Hlt. by rewrite lookup_insert_ne by lia.
Qed.

Lemma sess_resolved a i p st : sess_step a st (packet_resolved E i p st).
Proof.
  unfold packet_resolved. destruct (resolve_addr _ _ _) as [sa|]; [|by apply sess_same].
  destruct (get_session _ _ _) as [[sid st1]|] eqn:Eg; [|by apply sess_same].
  apply (sess_get a) in Eg as [Hs _]. eapply sess_trans; [exact Hs|]. apply sess_same;
    unfold UdpSession_send; destruct (send_addr _ _); try done; by destruct (send_ok _ _ _).
Qed.

Lemma sess_unlisten a sid st : sess_step a st (set_listening sid false st).
Proof.
  split.
  - intros [Hm Hn]. split; simpl.
    + intros b x Hb. destruct (Hm b x Hb) as (s & Hs & E').
      destruct (decide (sid = x)) as [->|]; [|exists s; by rewrite lookup_alter_ne].
      exists (MkSession (sess_assoc s) false). by rewrite lookup_alter_eq, Hs.
    + intros x s. destruct (decide (sid = x)) as [->|]; [|rewrite lookup_alter_ne by done; apply Hn].
      rewrite lookup_alter_eq. destruct (t_sessions st !! x) eqn:Ex; [|done]. intros _. by eapply Hn.
  - intros x _ Hm. split; [done|]. simpl. intros s Hs Hl. destruct (decide (sid = x)) as [->|].
    + rewrite lookup_alter_eq, Hs. simpl. destruct s. simpl in Hl. by subst.
    + by rewrite lookup_alter_ne.
Qed.

Lemma sess_dissociate a b st : a <> b -> sess_step a st (handle_dissociate b st).
Proof.
  intros Hne. unfold handle_dissociate. destruct (t_map st !! b) as [sid|]; [|by apply sess_same].
  eapply sess_trans; [|apply sess_unlisten]. split.
  - intros [Hm Hn]. split; simpl; [|done]. intros c x Hc. apply lookup_delete_Some in Hc as [_ Hc]. by apply Hm.
  - intros x _ Hm. simpl. by rewrite lookup_delete_ne.
Qed.

Lemma sess_packet_data a i p m st : sess_step a st (handle_packet_data i p m st).
Proof. apply sess_same; unfold handle_packet_data; destruct (t_mode st); by case_decide. Qed.

Lemma sess_stream_ready a i r st : sess_step a st (packet_stream_ready i r st).
Proof.
  unfold packet_stream_ready. destruct (read_exact _ _) as [[p|e|] ?]; [apply sess_packet_data|by apply sess_same..].
Qed.
Lemma sess_datagram_ready a dg st : sess_step a st (datagram_ready dg st).
Proof.
  unfold datagram_ready. destruct (read_from_datagram dg) as [[| |i| |]|e|]; try by apply sess_same.
  case_decide; [by apply sess_same|apply sess_packet_data].
Qed.
Lemma sess_dial a addrs st : sess_step a st (dial_addrs E addrs st).2.
Proof.
  revert st. induction addrs as [|sa addrs IH]; intros st; [by apply sess_same|]. cbn [dial_addrs].
  destruct (tcp_connect_ok _ _ _); [by apply sess_same|]. eapply sess_trans; [|apply IH]. by apply sess_same.
Qed.
Lemma sess_bi_ready a p0 p1 r st : sess_step a st (bi_ready E p0 p1 r st).
Proof.
  unfold bi_ready. destruct (parse_command_with_prefix p0 p1 r) as [[[|b| | |]|e|] ?]; try by apply sess_same.
  unfold handle_connect, dial_tcp. destruct (resolve_addr_list _ _ _) as [addrs|]; [|by apply sess_same].
  pose proof (sess_dial a addrs st) as Hd. destruct (dial_addrs E addrs st) as [[sa|] st1];
    (eapply sess_trans; [exact Hd|by apply sess_same]).
Qed.

(** The label does not dissolve the association. *)
Definition keeps (a : Z) (l : label) : Prop :=
  forall rest, l <> LUni ([VERSION; CMD_DISSOCIATE] ++ be_bytes 2 a ++ rest).

Lemma sess_uni a bs st : bytes_ok bs -> keeps a (LUni bs) -> sess_step a st (handle_uni E bs st).
Proof.
  intros Hok Hk. unfold handle_uni. destruct (read_exact 2 bs) as [[[|p0 [|p1 [|]]]|e|] rest] eqn:Er; try by apply sess_same.
  destruct (is_tuic_prefix p0 p1); [|by apply sess_same].
  destruct (parse_command_with_prefix p0 p1 rest) as [[c|e|] rest'] eqn:Ep; [|by apply sess_same..].
  destruct (uni_command _ _ _ _ _ _ Hok Er Ep) as [Eb _]. destruct c as [u t|b|i|id|]; try by apply sess_same.
  - apply sess_same; unfold handle_authenticate; destruct (is_authenticated st); try done;
      destruct (users E !! u); try done; by destruct (validate_token _ _ _ _).
  - destruct (is_authenticated st); [apply sess_stream_ready|by apply sess_same].
  - apply sess_dissociate. intros ->. apply (Hk rest'). by rewrite Eb.
Qed.

Lemma sess_tstep a st l st' :
  label_ok l -> keeps a l -> tstep E st l = Some st' -> sess_step a st st'.
Proof.
  intros Hl Hk. destruct l as [bs|bs|dg|i|i| |sid rnd pkt from|sid]; simpl.
  - destruct (t_closed st); [done|]. intros [= <-]. by apply sess_uni.
  - destruct (t_closed st); [done|]. intros [= <-]. unfold handle_bi.
    destruct (read_exact 2 bs) as [[[|p0 [|p1 [|]]]|e|] rest]; try by apply sess_same.
    destruct (is_tuic_prefix p0 p1); [|by apply sess_same].
    destruct (is_authenticated st); [apply sess_bi_ready|by apply sess_same].
  - destruct (t_closed st); [done|]. intros [= <-]. unfold handle_datagram.
    destruct dg as [|p0 [|p1 dg]]; try by apply sess_same. destruct (is_tuic_prefix p0 p1); [|by apply sess_same].
    destruct (is_authenticated st); [apply sess_datagram_ready|by apply sess_same].
  - destruct (t_tasks st !! i) as [[k|]|]; [|done..]. intros Hr.
    apply sess_trans with (set_tasks (<[i := None]> (t_tasks st)) st); [by apply sess_same|]. revert Hr.
    unfold run_task. destruct k as [p0 p1 r|dg|inf r|inf p]; repeat case_match; try done; intros [= <-].
    + apply sess_bi_ready.
    + apply sess_datagram_ready.
    + apply sess_stream_ready.
    + apply sess_resolved.
  - destruct (t_tasks st !! i) as [[k|]|]; [|done..]. intros Hr.
    assert (st' = set_tasks (<[i := None]> (t_tasks st)) st) as -> by (destruct k; congruence). by apply sess_same.
  - intros [= <-]. destruct (is_authenticated st); by apply sess_same.
  - intros [= <-]. apply sess_same; unfold session_recv, relay_udp_to_client;
      (destruct (t_sessions st !! sid) as [s|]; [|done]); (destruct (sess_listening s); [|done]);
      (destruct (t_closed st); [done|]); by destruct (t_mode st) as [[]|].
  - intros [= <-]. apply sess_unlisten.
Qed.

Lemma sess_trun a st ls st' :
  Forall label_ok ls -> Forall (keeps a) ls -> trun E st ls = Some st' -> sess_step a st st'.
Proof.
  intros Hl Hk. revert st. induction Hl as [|l ls Hl Hls IH]; intros st Hrun.
  - injection Hrun as <-. by apply sess_same.
  - apply Forall_cons_1 in Hk as [Hk Hks]. simpl in Hrun. destruct (tstep E st l) as [st1|] eqn:Es; [|done].
    eapply sess_trans; [by eapply sess_tstep|by apply IH].
Qed.

Lemma sess_inv_reachable ls st : Forall label_ok ls -> trun E tstate0 ls = Some st -> sess_inv st.
Proof.
  intros Hl. revert st. induction ls as [|l ls IH] using rev_ind; intros st Hrun.
  - injection Hrun as <-. by split; intros ? ?; simpl; rewrite lookup_empty.
  - apply Forall_app in Hl as [Hls Hl]. apply Forall_inv in Hl. rewrite trun_app in Hrun.
    destruct (trun E tstate0 ls) as [st1|]; [|done]. simpl in Hrun.
    destruct (tstep E st1 l) as [st2|] eqn:Es; [|done]. injection Hrun as <-.
    (* an identifier this label does not dissolve *)
    assert (Hex : exists a, keeps a l).
    { destruct l as [bs| | | | | | |]; try (by exists 0; intros rest). destruct (decide (bs !! 2%nat = Some 0)) as [H0|H0].
      - exists 256. intros rest [= ->]. done.
      - exists 0. intros rest [= ->]. done. }
    destruct Hex as [a Hk]. destruct (sess_tstep a _ _ _ Hl Hk Es) as [Hi _]. apply Hi. by apply IH.
Qed.

(** a UDP session that timed out stays in the map and is deaf.  Once the
    receiving task of the session of an association has ended by its timeout,
    then whatever happens, short of a dissociate command for it: the
    association keeps that session, packets of the client are still sent
    through its socket, and no reply of a target is ever relayed. *)
Theorem timed_out_session_is_deaf ls st a sid s ls' st' :
  Forall label_ok (ls ++ ls') -> trun E tstate0 ls = Some st ->
  t_map st !! a = Some sid -> t_sessions st !! sid = Some s -> sess_listening s = false ->
  Forall (keeps a) ls' -> trun E st ls' = Some st' ->
  get_session E a st' = Some (sid, st') /\
  forall rnd pkt from, session_recv sid rnd pkt from st' = st'.
Proof.
  intros Hl Hrun Hm Hs Hls Hk Hrun'. apply Forall_app in Hl as [Hl Hl'].
  pose proof (sess_inv_reachable ls st Hl Hrun) as Hi.
  destruct (sess_trun a st ls' st' Hl' Hk Hrun') as [_ Hst]. destruct (Hst sid Hi Hm) as [Hm' Hs'].
  split; [unfold get_session; by rewrite Hm'|]. intros rnd pkt from. unfold session_recv.
  by rewrite (Hs' s Hs Hls), Hls.
Qed.

Lemma unmap_ok sa : addr_ok (SocketAddress sa) -> addr_ok (SocketAddress (unmap sa)).
Proof.
  destruct sa as [o p|segs p]; [done|]. intros (Hl & Hs & Hp). unfold unmap.
  repeat case_match; try done. split_and!; [done|auto with bytes|done].
Qed.

Lemma udp_forward st i payload sa dst :
  sess_inv st -> t_closed st = false -> is_authenticated st = true ->
  packet_ok i -> frag_total i = 1 ->
  (forall tr, bind_ok E tr = true) -> (forall tr x, send_ok E tr x = true) ->
  resolve_addr E (t_trace st) (addr i) = Some sa -> send_addr E sa = Some dst ->
  exists sid s st', trun E st [LDatagram ([VERSION; CMD_PACKET] ++ command_wire (Packet i) ++ payload);
                              LRun (length (t_tasks st))] = Some st' /\
    t_trace st' = t_trace st ++ [TUdp sid payload dst] /\
    t_map st' !! assoc_id i = Some sid /\ t_sessions st' !! sid = Some s /\ sess_assoc s = assoc_id i.
Proof.
  intros [Hmap _] Hnc Hau Hi Hf Hb Hs Hr Hd.
  assert (Ed : datagram_ready ([VERSION; CMD_PACKET] ++ command_wire (Packet i) ++ payload) st =
    handle_packet_data i payload Native st).
  { unfold datagram_ready. pose proof (datagram_command (Packet i) payload Hi) as Ep. cbn [cmd_code] in Ep.
    rewrite Ep by done.
    assert (Hlen : length ([VERSION; CMD_PACKET] ++ command_wire (Packet i)) =
      (2 + 8 + length (Address_to_bytes (addr i)))%nat).
    { cbn [command_wire]. rewrite !length_app, !length_be_bytes. simpl. lia. }
    rewrite app_assoc, <- Hlen. rewrite decide_False by (rewrite length_app; lia). by rewrite drop_app_length. }
  assert (E1 : tstep E st (LDatagram ([VERSION; CMD_PACKET] ++ command_wire (Packet i) ++ payload)) =
    Some (handle_packet_data i payload Native st)).
  { cbn [tstep]. rewrite Hnc, <- Ed. unfold handle_datagram. cbn [app].
    change (is_tuic_prefix VERSION CMD_PACKET) with true. by rewrite Hau. }
  cbn [trun]. rewrite E1. unfold handle_packet_data. rewrite decide_False by (by intros []).
  set (st1 := match t_mode st with None => set_mode Native st | Some _ => st end).
  assert (Hst1 : t_map st1 = t_map st /\ t_sessions st1 = t_sessions st /\ t_next st1 = t_next st /\
    t_tasks st1 = t_tasks st /\ t_trace st1 = t_trace st) by (unfold st1; by destruct (t_mode st)).
  destruct Hst1 as (M1 & S1 & N1 & K1 & T1). simpl. rewrite K1.
  rewrite lookup_app_r, Nat.sub_diag by lia. simpl. unfold packet_resolved. simpl. rewrite T1, Hr.
  unfold get_session. simpl. rewrite M1. destruct (t_map st !! assoc_id i) as [sid|] eqn:Em.
  - destruct (Hmap _ _ Em) as (s & Es & Ea). exists sid, s. eexists. split; [reflexivity|].
    unfold UdpSession_send. rewrite Hd. simpl. rewrite Hs. simpl. by rewrite T1, M1, S1.
  - rewrite Hb. exists (t_next st1), (MkSession (assoc_id i) true). eexists. split; [reflexivity|].
    unfold UdpSession_send. rewrite Hd. simpl. rewrite Hs. simpl. by rewrite T1, !lookup_insert_eq.
Qed.

Lemma header_parses a rnd from len bs :
  seg_ok a -> seg_ok rnd -> addr_ok (SocketAddress from) -> 0 <= len < 65536 ->
  read_from_datagram (build_packet_header a rnd (SocketAddress (unmap from)) len ++ bs) =
    Done (Packet (MkPacket a rnd 1 0 len (SocketAddress (unmap from)))).
Proof.
  intros Ha Hr Hf Hl. set (i := MkPacket a rnd 1 0 len (SocketAddress (unmap from))).
  assert (Hi : packet_ok i).
  { unfold packet_ok. change (addr i) with (SocketAddress (unmap from)).
    split; [exact Ha|]. split; [exact Hr|]. split; [by vm_compute|]. split; [by vm_compute|].
    split; [exact Hl|]. by apply unmap_ok. }
  by rewrite <- (datagram_command (Packet i) bs Hi).
Qed.

End invariants.

(** ** Witnesses *)

Definition toy_uuid : list Z := replicate 16 1.
Definition toy_token : list Z := replicate 32 2.
Definition toy_tenv : tenv := {|
  users := {[toy_uuid := str "secret"]};
  exporter := fun _ _ => Some toy_token;
  udp_relay_ipv6 := false;
  lookup_host := fun _ _ _ => Some [V4 [10; 0; 0; 1] 53];
  tcp_connect_ok := fun _ _ => true;
  bind_ok := fun _ => true;
  send_ok := fun _ _ => true;
|}.
Definition toy_login : label := LUni ([VERSION; CMD_AUTHENTICATE] ++ (toy_uuid ++ toy_token) ++ []).
Definition toy_packet : PacketInfo := MkPacket 7 1 1 0 3 (DomainAddress (str "a.example") 53).
Definition toy_udp : label := LDatagram ([VERSION; CMD_PACKET] ++ command_wire (Packet toy_packet) ++ [9; 9; 9]).
Definition toy_state (ls : list label) : tstate := default tstate0 (trun toy_tenv tstate0 ls).

Lemma toy_login_ok : label_ok toy_login.
Proof. apply (bool_decide_eq_true (bytes_ok _)). vm_compute. reflexivity. Qed.
Lemma toy_udp_ok : label_ok toy_udp.
Proof. apply (bool_decide_eq_true (bytes_ok _)). vm_compute. reflexivity. Qed.

Lemma command_parsers_exact_witness :
  read_from_datagram ([VERSION; CMD_DISSOCIATE] ++ be_bytes 2 7 ++ [1]) = Done (Dissociate 7).
Proof.
  destruct (command_parsers_exact (S := list Z)) as [H _].
  apply (H (Dissociate 7)); [unfold command_ok, seg_ok; lia|done].
Defined.

Lemma auth_gate_witness :
  exists password token rest, users toy_tenv !! toy_uuid = Some password /\
    exporter toy_tenv toy_uuid password = Some token /\
    LUni ([VERSION; CMD_AUTHENTICATE] ++ (toy_uuid ++ token) ++ rest) ∈ [toy_login].
Proof.
  apply (auth_gate toy_tenv [toy_login] (toy_state [toy_login])).
  - constructor; [apply toy_login_ok|constructor].
  - vm_compute. reflexivity.
  - vm_compute. reflexivity.
Defined.

Lemma timed_out_session_is_deaf_witness :
  forall rnd pkt from, session_recv 0 rnd pkt from (toy_state [toy_login; toy_udp; LRun 0; LSessionTimeout 0; toy_udp; LRun 1])
    = toy_state [toy_login; toy_udp; LRun 0; LSessionTimeout 0; toy_udp; LRun 1].
Proof.
  eapply (timed_out_session_is_deaf toy_tenv [toy_login; toy_udp; LRun 0; LSessionTimeout 0]
    (toy_state [toy_login; toy_udp; LRun 0; LSessionTimeout 0]) 7 0 (MkSession 7 false) [toy_udp; LRun 1]).
  - rewrite !Forall_app, !Forall_cons, !Forall_nil. repeat split; apply toy_login_ok || apply toy_udp_ok.
  - vm_compute. reflexivity.
  - vm_compute. reflexivity.
  - vm_compute. reflexivity.
  - reflexivity.
  - rewrite !Forall_cons. by split_and!.
  - vm_compute. reflexivity.
Defined.

