(* ===== verification/TuicConn.v ===== *)
(** * TUIC: what a connection does for its client
    ([src/src/tuic/connection.rs])

    The step relation of a connection is [Tuic.tstep].  Here every event of its
    trace is traced back to what the client sent: a connection attempt to a connect
    command, a datagram of a session's socket to a packet command of the session's
    association, a packet for the client to an answer to such a socket.  [grows] is
    what every handler promises; the theorem is proved against it. *)
From S2P Require Import Prelude RustStd Net Target Tuic.

(** ** What the client asked for *)

Definition asked_connect (ls : list label) (a : Address) : Prop :=
  addr_ok a /\ exists rest, LBi ([VERSION; CMD_CONNECT] ++ command_wire (Connect a) ++ rest) ∈ ls.

(** A packet command with its payload, in a datagram or a stream of its own. *)
Definition asked_packet (ls : list label) (i : PacketInfo) (payload : list Z) : Prop :=
  packet_ok i /\
  (LDatagram ([VERSION; CMD_PACKET] ++ command_wire (Packet i) ++ payload) ∈ ls \/
   length payload = Z.to_nat (size i) /\
   exists rest, LUni ([VERSION; CMD_PACKET] ++ command_wire (Packet i) ++ payload ++ rest) ∈ ls).

Definition asked_assoc (ls : list label) (a : Z) : Prop := exists i payload, asked_packet ls i payload /\ assoc_id i = a.

(** The association of a session. *)
Definition assoc_of (st : tstate) (sid : nat) : option Z := sess_assoc <$> t_sessions st !! sid.

Section confined.
Context (E : tenv).

Definition event_ok (ls : list label) (assoc : nat -> option Z) (e : tevent) : Prop :=
  match e with
  | TConnect sa _ | TRelay sa =>
      exists a tr addrs, asked_connect ls a /\ resolve_addr_list E tr a = Some addrs /\ sa ∈ addrs
  | TReset => exists a, asked_connect ls a
  | TUdp sid payload dst => exists i sa tr, asked_packet ls i payload /\ frag_total i = 1 /\
      resolve_addr E tr (addr i) = Some sa /\ send_addr E sa = Some dst /\ assoc sid = Some (assoc_id i)
  | TClient _ bs => exists sid a rnd pkt from, LReply sid rnd pkt from ∈ ls /\ assoc sid = Some a /\ asked_assoc ls a /\
      bs = build_packet_header a rnd (SocketAddress (unmap from)) (u16 (Z.of_nat (length pkt))) ++ pkt
  end.

Definition task_ok (ls : list label) (k : task) : Prop :=
  match k with
  | WaitBi p0 p1 rest => bytes_ok (p0 :: p1 :: rest) /\ LBi (p0 :: p1 :: rest) ∈ ls
  | WaitDatagram dg => bytes_ok dg /\ LDatagram dg ∈ ls
  | WaitPacket i rest => packet_ok i /\ bytes_ok rest /\ LUni ([VERSION; CMD_PACKET] ++ command_wire (Packet i) ++ rest) ∈ ls
  | Resolving i payload => asked_packet ls i payload /\ frag_total i = 1
  end.

(** A handler only adds what [ls] asks for; sessions keep their associations. *)
Record grows (ls : list label) (st st' : tstate) : Prop := {
  g_keep : forall sid a, assoc_of st sid = Some a -> assoc_of st' sid = Some a;
  g_new : forall sid a, assoc_of st' sid = Some a -> assoc_of st sid = Some a \/ asked_assoc ls a;
  g_trace : forall e, e ∈ t_trace st' -> e ∈ t_trace st \/ event_ok ls (assoc_of st') e;
  g_tasks : forall k, Some k ∈ t_tasks st' -> Some k ∈ t_tasks st \/ task_ok ls k;
}.

Lemma event_ok_keep ls f g e :
  (forall sid a, f sid = Some a -> g sid = Some a) -> event_ok ls f e -> event_ok ls g e.
Proof.
  intros Hfg. destruct e as [sa ok|sa| |sid p dst|m bs]; simpl; [done..| |].
  - intros (i & sa & tr & ? & ? & ? & ? & ?). exists i, sa, tr. split_and!; auto.
  - intros (sid & a & rnd & pkt & from & ? & ? & ? & ->). exists sid, a, rnd, pkt, from. split_and!; auto.
Qed.

Lemma grows_trans ls a b c : grows ls a b -> grows ls b c -> grows ls a c.
Proof.
  intros [K1 N1 T1 S1] [K2 N2 T2 S2]. split.
  - auto.
  - intros sid x [?|?]%N2; auto.
  - intros e [[?|He]%T1|?]%T2; [by left| |by right]. right. by eapply event_ok_keep.
  - intros k [[?|?]%S1|?]%S2; auto.
Qed.

(** Steps that touch neither sessions, trace nor tasks. *)
Lemma grows_same ls st st' :
  t_sessions st' = t_sessions st -> t_trace st' = t_trace st -> t_tasks st' = t_tasks st -> grows ls st st'.
Proof. intros Es Et Ek. split; unfold assoc_of; rewrite ?Es, ?Et, ?Ek; auto. Qed.
Lemma grows_refl ls st : grows ls st st.
Proof. by apply grows_same. Qed.

Lemma grows_emit ls st e : event_ok ls (assoc_of st) e -> grows ls st (temit e st).
Proof.
  intros He. split; [by auto..| |by auto]. intros e' [?| ->%list_elem_of_singleton]%elem_of_app; [by left|by right].
Qed.

Lemma grows_spawn ls st k : task_ok ls k -> grows ls st (spawn k st).
Proof.
  intros Hk. split; [by auto..|]. intros k' [?|[= ->]%list_elem_of_singleton]%elem_of_app; [by left|by right].
Qed.

(** A task that is over. *)
Lemma grows_unspawn ls st i : grows ls st (set_tasks (<[i := None]> (t_tasks st)) st).
Proof.
  split; [by auto..|]. simpl. intros k (j & Hj)%list_elem_of_lookup. left.
  apply list_lookup_insert_Some in Hj as [(_ & ? & _)|[_ Hj]]; [done|]. by eapply list_elem_of_lookup_2.
Qed.

Lemma grows_unlisten ls st sid : grows ls st (set_listening sid false st).
Proof.
  assert (Ha : forall x, assoc_of (set_listening sid false st) x = assoc_of st x).
  { intros x. unfold assoc_of. simpl. destruct (decide (sid = x)) as [->|]; [|by rewrite lookup_alter_ne].
    rewrite lookup_alter_eq. by destruct (t_sessions st !! x). }
  split; [by setoid_rewrite Ha|intros x a; rewrite Ha; auto|by auto..].
Qed.

(** *** The handlers *)

Lemma grows_dial ls a tr all addrs st :
  asked_connect ls a -> resolve_addr_list E tr a = Some all -> (forall sa, sa ∈ addrs -> sa ∈ all) ->
  grows ls st (dial_addrs E addrs st).2 /\ forall sa, (dial_addrs E addrs st).1 = Some sa -> sa ∈ all.
Proof.
  intros Ha Hr. revert st. induction addrs as [|sa addrs IH]; intros st Hin; [split; [apply grows_refl|done]|].
  cbn [dial_addrs]. assert (Hsa : sa ∈ all) by (apply Hin; by left).
  assert (Hg : forall ok, grows ls st (temit (TConnect sa ok) st)) by (intros ok; apply grows_emit; by exists a, tr, all).
  destruct (tcp_connect_ok _ _ _); [split; [apply Hg|by intros ? [= <-]]|].
  destruct (IH (temit (TConnect sa false) st)) as [H1 H2]; [intros; apply Hin; by right|].
  split; [|exact H2]. by eapply grows_trans.
Qed.

Lemma grows_connect ls a st : asked_connect ls a -> grows ls st (handle_connect E a st).
Proof.
  intros Ha. assert (Hreset : forall s, grows ls s (temit TReset s)) by (intros s; apply grows_emit; by exists a).
  unfold handle_connect, dial_tcp. destruct (resolve_addr_list E (t_trace st) a) as [addrs|] eqn:Er; [|apply Hreset].
  destruct (grows_dial ls a _ addrs addrs st Ha Er) as [Hg Hs]; [done|].
  destruct (dial_addrs E addrs st) as [[sa|] st1]; (eapply grows_trans; [exact Hg|]); [|apply Hreset].
  apply grows_emit. exists a, (t_trace st), addrs. auto.
Qed.

Lemma grows_packet_data ls i p m st : asked_packet ls i p -> grows ls st (handle_packet_data i p m st).
Proof.
  intros Hp. unfold handle_packet_data. set (st1 := match t_mode st with None => _ | Some _ => _ end).
  assert (H1 : grows ls st st1) by (unfold st1; destruct (t_mode st); by apply grows_same).
  case_decide as Hf; [exact H1|]. eapply grows_trans; [exact H1|]. apply grows_spawn. split; [done|].
  destruct (decide (frag_total i = 1)); [done|by destruct Hf].
Qed.

Lemma grows_stream_ready ls i rest st : task_ok ls (WaitPacket i rest) -> grows ls st (packet_stream_ready i rest st).
Proof.
  intros (Hi & Hok & Hin). unfold packet_stream_ready.
  destruct (read_exact (Z.to_nat (size i)) rest) as [[payload|e|] rest'] eqn:Er; [|apply grows_refl..].
  destruct (sound_slice _ _ rest _ _ (sound_exact _) Hok Er) as (bs & P & [-> Hl]).
  apply grows_packet_data. split; [done|]. right. split; [done|]. exists rest'. by rewrite P in Hin.
Qed.

Lemma grows_datagram_ready ls dg st : task_ok ls (WaitDatagram dg) -> grows ls st (datagram_ready dg st).
Proof.
  intros [Hok Hin]. unfold datagram_ready. destruct (read_from_datagram dg) as [[u t|a|i|id|]|e|] eqn:Ed; try apply grows_refl.
  destruct (datagram_command_inv dg _ Hok Ed) as (rest & -> & Hi & _). case_decide; [apply grows_refl|].
  assert (Hl : length ([VERSION; CMD_PACKET] ++ command_wire (Packet i)) = (2 + 8 + length (Address_to_bytes (addr i)))%nat)
    by (unfold command_wire; rewrite !length_app, !length_be_bytes; simpl; lia).
  apply grows_packet_data. split; [done|]. left. cbn [cmd_code] in *.
  enough (drop (2 + 8 + length (Address_to_bytes (addr i))) ([VERSION; CMD_PACKET] ++ command_wire (Packet i) ++ rest) = rest) as -> by done.
  rewrite app_assoc, <- Hl. apply drop_app_length.
Qed.

(** The command of a bidirectional stream. *)
Lemma grows_bi_ready ls p0 p1 rest st : task_ok ls (WaitBi p0 p1 rest) -> grows ls st (bi_ready E p0 p1 rest st).
Proof.
  intros [Hok Hin]. unfold bi_ready.
  destruct (parse_command_with_prefix p0 p1 rest) as [[[u t|a|i|id|]|e|] rest'] eqn:Ep; try apply grows_refl.
  destruct (uni_command (p0 :: p1 :: rest) p0 p1 rest _ rest' Hok eq_refl Ep) as [Eb Hc].
  apply grows_connect. split; [done|]. exists rest'. by rewrite Eb in Hin.
Qed.

Lemma grows_bi ls bs st : bytes_ok bs -> LBi bs ∈ ls -> grows ls st (handle_bi E bs st).
Proof.
  intros Hok Hin. unfold handle_bi. destruct (read_exact 2 bs) as [[[|p0 [|p1 [|]]]|e|] rest] eqn:Er; try apply grows_refl.
  destruct (is_tuic_prefix p0 p1); [|apply grows_refl].
  destruct (sound_slice _ _ bs _ _ (sound_exact 2) Hok Er) as (b0 & P0 & [-> _]). subst bs.
  case_match; [by apply grows_bi_ready|by apply grows_spawn].
Qed.

Lemma grows_datagram ls dg st : bytes_ok dg -> LDatagram dg ∈ ls -> grows ls st (handle_datagram dg st).
Proof.
  intros Hok Hin. unfold handle_datagram. destruct dg as [|p0 [|p1 dg]]; try apply grows_refl.
  destruct (is_tuic_prefix p0 p1); [|apply grows_refl]. case_match; [by apply grows_datagram_ready|by apply grows_spawn].
Qed.

Lemma grows_dissociate ls id st : grows ls st (handle_dissociate id st).
Proof.
  unfold handle_dissociate. destruct (t_map st !! id); [|apply grows_refl].
  eapply grows_trans; [|apply grows_unlisten]. by apply grows_same.
Qed.

Lemma grows_uni ls bs st : bytes_ok bs -> LUni bs ∈ ls -> grows ls st (handle_uni E bs st).
Proof.
  intros Hok Hin. unfold handle_uni. destruct (read_exact 2 bs) as [[[|p0 [|p1 [|]]]|e|] rest] eqn:Er; try apply grows_refl.
  destruct (is_tuic_prefix p0 p1); [|apply grows_refl].
  destruct (parse_command_with_prefix p0 p1 rest) as [[[u t|a|i|id|]|e|] rest'] eqn:Ep; try apply grows_refl.
  - unfold handle_authenticate. repeat case_match; by apply grows_same.
  - destruct (uni_command _ _ _ _ _ _ Hok Er Ep) as [-> Hc].
    assert (Ht : task_ok ls (WaitPacket i rest')).
    { split; [done|]. split; [|done]. by do 2 apply Forall_app in Hok as [_ Hok]. }
    case_match; [by apply grows_stream_ready|by apply grows_spawn].
  - apply grows_dissociate.
Qed.

(** The session of a packet. *)
Lemma grows_get_session ls i payload st sid st' :
  sess_inv st -> asked_packet ls i payload -> get_session E (assoc_id i) st = Some (sid, st') ->
  grows ls st st' /\ assoc_of st' sid = Some (assoc_id i).
Proof.
  intros [Hm Hn] Hp. unfold get_session. destruct (t_map st !! assoc_id i) as [x|] eqn:Em.
  - intros [= <- <-]. split; [apply grows_refl|]. destruct (Hm _ _ Em) as (s & Es & Ea). unfold assoc_of. rewrite Es. simpl. by rewrite Ea.
  - destruct (bind_ok _ _); [|done]. intros [= <- <-]. unfold assoc_of. simpl. rewrite lookup_insert_eq. split; [|done].
    assert (Hfresh : t_sessions st !! t_next st = None)
      by (destruct (t_sessions st !! t_next st) eqn:Ex; [apply Hn in Ex; lia|done]).
    split; unfold assoc_of; simpl; [| |by auto..]; intros x a; (destruct (decide (t_next st = x)) as [<-|]; [|rewrite lookup_insert_ne by done; auto]).
    + by rewrite Hfresh.
    + rewrite lookup_insert_eq. intros [= <-]. right. by exists i, payload.
Qed.

Lemma grows_resolved ls i payload st : sess_inv st -> task_ok ls (Resolving i payload) -> grows ls st (packet_resolved E i payload st).
Proof.
  intros Hs [Hp Hf]. unfold packet_resolved. destruct (resolve_addr E (t_trace st) (addr i)) as [sa|] eqn:Er; [|apply grows_refl].
  destruct (get_session E (assoc_id i) st) as [[sid st1]|] eqn:Eg; [|apply grows_refl].
  destruct (grows_get_session _ _ _ _ _ _ Hs Hp Eg) as [Hg Ha]. eapply grows_trans; [exact Hg|].
  unfold UdpSession_send. destruct (send_addr E sa) as [dst|] eqn:Ed; [|apply grows_refl]. destruct (send_ok _ _ _); [|apply grows_refl].
  apply grows_emit. exists i, sa, (t_trace st). auto.
Qed.

Lemma grows_recv ls sid rnd pkt from st :
  (forall x a, assoc_of st x = Some a -> asked_assoc ls a) -> LReply sid rnd pkt from ∈ ls -> grows ls st (session_recv sid rnd pkt from st).
Proof.
  intros Ha Hin. unfold session_recv. destruct (t_sessions st !! sid) as [s|] eqn:Es; [|apply grows_refl].
  assert (Has : assoc_of st sid = Some (sess_assoc s)) by (unfold assoc_of; by rewrite Es).
  destruct (sess_listening s); [|apply grows_refl]. unfold relay_udp_to_client. destruct (t_closed st); [apply grows_refl|].
  assert (Hg : forall m, grows ls st (temit (TClient m (build_packet_header (sess_assoc s) rnd (SocketAddress (unmap from))
    (u16 (Z.of_nat (length pkt))) ++ pkt)) st)).
  { intros m. apply grows_emit. exists sid, (sess_assoc s), rnd, pkt, from. split_and!; eauto. }
  destruct (t_mode st) as [[]|]; apply Hg.
Qed.

Lemma grows_run_task ls k st st' : sess_inv st -> task_ok ls k -> run_task E k st = Some st' -> grows ls st st'.
Proof.
  intros Hs Hk. unfold run_task. destruct k as [p0 p1 rest|dg|i rest|i payload].
  - destruct (is_authenticated st); [|done]. intros [= <-]. by apply grows_bi_ready.
  - destruct (is_authenticated st); [|done]. intros [= <-]. by apply grows_datagram_ready.
  - destruct (is_authenticated st); [|done]. intros [= <-]. by apply grows_stream_ready.
  - intros [= <-]. by apply grows_resolved.
Qed.

(** *** Every step *)

Record confined (ls : list label) (st : tstate) : Prop := {
  c_assoc : forall sid a, assoc_of st sid = Some a -> asked_assoc ls a;
  c_events : Forall (event_ok ls (assoc_of st)) (t_trace st);
  c_waiting : forall k, Some k ∈ t_tasks st -> task_ok ls k;
}.

Lemma grows_confined ls st st' : confined ls st -> grows ls st st' -> confined ls st'.
Proof.
  intros [A T K] [K1 N1 T1 S1]. split.
  - intros sid a [?|?]%N1; eauto.
  - apply Forall_forall. intros e [He|?]%T1; [|done]. rewrite Forall_forall in T. apply T in He. by eapply event_ok_keep.
  - intros k [?|?]%S1; auto.
Qed.

Lemma asked_packet_more ls l i p : asked_packet ls i p -> asked_packet (ls ++ [l]) i p.
Proof.
  intros (? & [?|(? & rest & ?)]); (split; [done|]); [left; by apply elem_of_app; left|].
  right. split; [done|]. exists rest. by apply elem_of_app; left.
Qed.
Lemma asked_connect_more ls l a : asked_connect ls a -> asked_connect (ls ++ [l]) a.
Proof. intros (? & rest & ?). split; [done|]. exists rest. by apply elem_of_app; left. Qed.
Lemma asked_assoc_more ls l a : asked_assoc ls a -> asked_assoc (ls ++ [l]) a.
Proof. intros (i & p & ? & ?). exists i, p. split; [by apply asked_packet_more|done]. Qed.

Lemma confined_more ls l st : confined ls st -> confined (ls ++ [l]) st.
Proof.
  intros [A T K]. split.
  - intros sid a ?%A. by apply asked_assoc_more.
  - eapply Forall_impl; [exact T|]. intros [sa ok|sa| |sid p dst|m bs]; simpl.
    1, 2: intros (a & tr & addrs & ? & ?); exists a, tr, addrs; split; [by apply asked_connect_more|done].
    + intros [a ?]. exists a. by apply asked_connect_more.
    + intros (i & sa & tr & ? & ?). exists i, sa, tr. split; [by apply asked_packet_more|done].
    + intros (sid & a & rnd & pkt & from & ? & ? & ? & ?). exists sid, a, rnd, pkt, from.
      split_and!; [by apply elem_of_app; left|done|by apply asked_assoc_more|done].
  - intros k Hk%K. destruct k as [p0 p1 rest|dg|i rest|i payload]; simpl in *.
    + split; [apply Hk|]. apply elem_of_app. left. apply Hk.
    + split; [apply Hk|]. apply elem_of_app. left. apply Hk.
    + destruct Hk as (? & ? & ?). split_and!; [done..|]. by apply elem_of_app; left.
    + destruct Hk. split; [by apply asked_packet_more|done].
Qed.

Lemma grows_step ls st l st' :
  label_ok l -> l ∈ ls -> sess_inv st -> confined ls st -> tstep E st l = Some st' -> grows ls st st'.
Proof.
  intros Hl Hin Hs [A _ K]. destruct l as [bs|bs|dg|i|i| |sid rnd pkt from|sid]; simpl.
  - destruct (t_closed st); [done|]. intros [= <-]. by apply grows_uni.
  - destruct (t_closed st); [done|]. intros [= <-]. by apply grows_bi.
  - destruct (t_closed st); [done|]. intros [= <-]. by apply grows_datagram.
  - destruct (t_tasks st !! i) as [[k|]|] eqn:Ek; [|done..]. intros Hr.
    eapply grows_trans; [apply (grows_unspawn ls st i)|]. eapply grows_run_task; [done| |exact Hr].
    apply K. by eapply list_elem_of_lookup_2.
  - destruct (t_tasks st !! i) as [[k|]|] eqn:Ek; [|done..]. intros Hr.
    assert (st' = set_tasks (<[i := None]> (t_tasks st)) st) as -> by (destruct k; congruence). apply grows_unspawn.
  - intros [= <-]. case_match; by apply grows_same.
  - intros [= <-]. by apply grows_recv.
  - intros [= <-]. apply grows_unlisten.
Qed.

Lemma confined_reachable ls st : Forall label_ok ls -> trun E tstate0 ls = Some st -> confined ls st.
Proof.
  revert st. induction ls as [|l ls IH] using rev_ind; intros st Hls Hrun.
  - injection Hrun as <-. split; [intros sid a; unfold assoc_of; simpl; by rewrite lookup_empty|constructor|by intros k ?%elem_of_nil].
  - apply Forall_app in Hls as [Hls Hl]. apply Forall_inv in Hl. rewrite trun_app in Hrun.
    destruct (trun E tstate0 ls) as [st1|] eqn:E1; [|done]. simpl in Hrun.
    destruct (tstep E st1 l) as [st2|] eqn:Es; [|done]. injection Hrun as <-.
    pose proof (confined_more ls l st1 (IH st1 Hls eq_refl)) as Hc. eapply grows_confined; [exact Hc|].
    eapply grows_step; [done|apply elem_of_app; right; by left|by eapply sess_inv_reachable|exact Hc|done].
Qed.
End confined.

(** ** Property *)

Lemma trun_authenticated E ls st :
  Forall label_ok ls -> trun E tstate0 ls = Some st -> t_trace st <> [] ->
  exists u password token rest, t_auth st = Some u /\
    users E !! u = Some password /\ exporter E u password = Some token /\
    LUni ([VERSION; CMD_AUTHENTICATE] ++ (u ++ token) ++ rest) ∈ ls.
Proof.
  intros Hls Hrun Hne. destruct (auth_inv_reachable E ls st Hls Hrun) as (Hn & _ & Hs).
  destruct (t_auth st) as [u|]; [|by destruct Hne; apply Hn].
  destruct (Hs u eq_refl) as (p & t & r & ? & ? & ?). by exists u, p, t, r.
Qed.

(** C4: a TUIC connection only does what its authenticated user asks for, under every
    interleaving of streams, datagrams, resolver answers, replies and timers.  If anything is visible at
    all, the client has proved a configured user's password over the TLS exporter.
    Every connection attempt and relay is to an address that the destination of one of the
    client's connect commands resolves to; every datagram a session sends carries the
    payload of a packet command of that session's association, unfragmented, to what its
    address resolves to; and every packet for the client is an answer that such a session
    received, headed by its association and the sender's address.  Until the client is authenticated
    nothing is connected, sent or relayed and there is no session; and a connection the server
    closed (failed or late authentication) was never authenticated (each login and the
    watchdog taken as one step; [TuicAuth.overlapping_logins] has the exception). *)
Theorem tuic_confined E ls st :
  Forall label_ok ls -> trun E tstate0 ls = Some st ->
  (t_trace st <> [] -> exists u password token rest, t_auth st = Some u /\
     users E !! u = Some password /\ exporter E u password = Some token /\
     LUni ([VERSION; CMD_AUTHENTICATE] ++ (u ++ token) ++ rest) ∈ ls) /\
  Forall (event_ok E ls (assoc_of st)) (t_trace st) /\
  (forall sid a, assoc_of st sid = Some a -> asked_assoc ls a) /\
  (t_auth st = None -> t_trace st = [] /\ t_map st = ∅ /\ t_sessions st = ∅) /\
  (t_closed st = true -> t_auth st = None).
Proof.
  intros Hls Hrun. split; [by apply trun_authenticated|].
  destruct (confined_reachable E ls st Hls Hrun) as [A T _]. destruct (auth_inv_reachable E ls st Hls Hrun) as (Hn & Hc & _).
  split_and!; [done|done| |done]. by intros (? & ? & ? & _)%Hn.
Qed.

(** *** Witness *)

#[export] Instance label_ok_dec l : Decision (label_ok l).
Proof. destruct l; simpl; apply _. Defined.

(** A connect command that has to wait for the login, a datagram, and its answer. *)
Definition tuic_labels : list label :=
  [LBi ([VERSION; CMD_CONNECT] ++ command_wire (Connect (DomainAddress (str "a.example") 80)) ++ []);
   toy_login; toy_udp; LRun 0; LRun 1; LReply 0 5 [8; 8] (V4 [10; 0; 0; 1] 53)].
Definition tuic_trace : list tevent :=
  [TConnect (V4 [10; 0; 0; 1] 53) true; TRelay (V4 [10; 0; 0; 1] 53); TUdp 0 [9; 9; 9] (V4 [10; 0; 0; 1] 53);
   TClient Native (build_packet_header 7 5 (SocketAddress (V4 [10; 0; 0; 1] 53)) 2 ++ [8; 8])].

Lemma tuic_confined_witness :
  t_trace (toy_state tuic_labels) = tuic_trace /\ t_auth (toy_state tuic_labels) = Some toy_uuid /\
  Forall (event_ok toy_tenv tuic_labels (assoc_of (toy_state tuic_labels))) tuic_trace.
Proof.
  assert (Ht : t_trace (toy_state tuic_labels) = tuic_trace) by (vm_compute; reflexivity).
  split; [exact Ht|]. split; [vm_compute; reflexivity|]. rewrite <- Ht.
  apply (tuic_confined toy_tenv tuic_labels (toy_state tuic_labels)); [|vm_compute; reflexivity].
  apply (bool_decide_eq_true_1 (Forall label_ok tuic_labels)). vm_compute. reflexivity.
Defined.
