(* ===== verification/TuicAuth.v ===== *)
(** * TUIC: the wait for authentication ([Authenticated] of
    [src/src/tuic/connection.rs])

    Streams and datagrams that come before the authentication wait for it in tasks of
    their own.  [astep] is one access to the shared state by one of the tasks, so that
    every interleaving of the calls of [set] and [wait] is a sequence of labels.
    In [Tuic] both are one step; here it is shown that no waiter is forgotten.  The same
    for [handle_authenticate]: [login_step] takes it apart, and [overlapping_logins] shows
    what overlapping calls can do that calls one after the other cannot. *)
From S2P Require Import Prelude RustStd.

(** tokio's [Notify]: [notified] is a future, ready after the next [notify_waiters]
    even if it is not polled before. *)
Class Notify (N : Type) := {
  Notified : Type;
  notified : N -> Notified;
  notify_waiters : N -> N;
  ready : Notified -> N -> bool;
}.
Class NotifyLaws (N : Type) `{Notify N} := {
  created : Notified -> N -> Prop;              (** at this state, or earlier *)
  created_here n : created (notified n) n;
  created_before t n : created t n -> created t (notify_waiters n);
  ready_after t n : created t n -> ready t (notify_waiters n) = true;
  not_ready_yet n : ready (notified n) n = false;
}.

Section authenticated.
Context {N : Type} `{Notify N} (n0 : N).

(** A call of [set], and how far it is: it writes the UUID, stores the flag, notifies. *)
Inductive setter_pc := SBegin | SWritten | SStored | SDone.
(** A call of [wait]: it looks at the flag, makes the future, looks again, awaits. *)
Inductive waiter_pc := WBegin | WCreate | WCheck (t : Notified) | WAwait (t : Notified) | WReturned.

Record authenticated := Auth {
  au_uuid : option (list Z);
  au_flag : bool;
  au_notify : N;
  au_setters : list (list Z * setter_pc);
  au_waiters : list waiter_pc;
}.

(** [Authenticated::new], with the calls there will be. *)
Definition authenticated_new (setters : list (list Z)) (waiters : nat) : authenticated :=
  Auth None false n0 ((fun u => (u, SBegin)) <$> setters) (replicate waiters WBegin).

Inductive alabel := SetStep (i : nat) | WaitStep (j : nat).
#[export] Instance alabel_eq_dec : EqDecision alabel.
Proof. solve_decision. Defined.

Definition set_step (i : nat) (st : authenticated) : option authenticated :=
  '(u, pc) ← au_setters st !! i;
  let at_pc pc' := <[i := (u, pc')]> (au_setters st) in
  match pc with
  | SBegin => Some (Auth (Some u) (au_flag st) (au_notify st) (at_pc SWritten) (au_waiters st))
  | SWritten => Some (Auth (au_uuid st) true (au_notify st) (at_pc SStored) (au_waiters st))
  | SStored => Some (Auth (au_uuid st) (au_flag st) (notify_waiters (au_notify st)) (at_pc SDone) (au_waiters st))
  | SDone => Some st
  end.

(** [None] where the future is not ready; a call that has returned stays so. *)
Definition wait_step (j : nat) (st : authenticated) : option authenticated :=
  w ← au_waiters st !! j;
  let at_pc w' := Some (Auth (au_uuid st) (au_flag st) (au_notify st) (au_setters st) (<[j := w']> (au_waiters st))) in
  match w with
  | WBegin => at_pc (if au_flag st then WReturned else WCreate)
  | WCreate => at_pc (WCheck (notified (au_notify st)))
  | WCheck t => at_pc (if au_flag st then WReturned else WAwait t)
  | WAwait t => if ready t (au_notify st) then at_pc WReturned else None
  | WReturned => Some st
  end.

Definition au_step (st : authenticated) (l : alabel) : option authenticated :=
  match l with SetStep i => set_step i st | WaitStep j => wait_step j st end.

Fixpoint au_run (st : authenticated) (ls : list alabel) : option authenticated :=
  match ls with [] => Some st | l :: ls => st' ← au_step st l; au_run st' ls end.

(** ** The invariant *)
Context `{!NotifyLaws N}.

Definition setter_ok (st : authenticated) (s : list Z * setter_pc) : Prop :=
  match s.2 with
  | SBegin => True
  | SWritten => au_uuid st <> None
  | SStored => au_flag st = true
  | SDone => au_flag st = true /\ ready (notified n0) (au_notify st) = true
  end.

Definition waiter_ok (st : authenticated) (w : waiter_pc) : Prop :=
  match w with
  | WBegin | WCreate => True
  | WCheck t => created t (au_notify st) /\ (au_flag st = false -> t = notified n0)
  | WAwait t => t = notified n0
  | WReturned => au_flag st = true
  end.

Record au_inv (st : authenticated) : Prop := {
  a_setters : Forall (setter_ok st) (au_setters st);
  a_waiters : Forall (waiter_ok st) (au_waiters st);
  a_quiet : au_flag st = false -> au_notify st = n0;
  a_first : created (notified n0) (au_notify st);
  a_uuid : au_flag st = true -> au_uuid st <> None;
  a_user : forall u, au_uuid st = Some u -> exists pc, (u, pc) ∈ au_setters st /\ pc <> SBegin;
}.

Lemma au_inv_new setters waiters : au_inv (authenticated_new setters waiters).
Proof.
  split; simpl; try done.
  - apply Forall_fmap, Forall_true. done.
  - by apply Forall_replicate.
  - apply created_here.
Qed.

(** What never gets worse. *)
Record later (st st' : authenticated) : Prop := {
  l_uuid : au_uuid st <> None -> au_uuid st' <> None;
  l_flag : au_flag st = true -> au_flag st' = true;
  l_created : forall t, created t (au_notify st) -> created t (au_notify st');
  l_ready : ready (notified n0) (au_notify st) = true -> ready (notified n0) (au_notify st') = true;
}.

Lemma setters_later st st' ss : later st st' -> Forall (setter_ok st) ss -> Forall (setter_ok st') ss.
Proof.
  intros [Hu Hf Hc Hr] Hs. eapply Forall_impl; [exact Hs|]. intros [u []]; unfold setter_ok; simpl; [done|auto..|].
  intros [? ?]. auto.
Qed.

Lemma waiters_later st st' ws : later st st' -> Forall (waiter_ok st) ws -> Forall (waiter_ok st') ws.
Proof.
  intros [Hu Hf Hc Hr] Hs. eapply Forall_impl; [exact Hs|]. intros []; unfold waiter_ok; [done|done| |done|auto].
  intros [? Ht]. split; [auto|]. intros Hf'. apply Ht. destruct (au_flag st); [|done]. by rewrite Hf in Hf'.
Qed.

(** The setters after a step of one of them. *)
Lemma setter_users (ss : list (list Z * setter_pc)) (i : nat) u pc pc' x : ss !! i = Some (u, pc) -> pc' <> SBegin ->
  (exists p, (x, p) ∈ ss /\ p <> SBegin) -> exists p, (x, p) ∈ <[i := (u, pc')]> ss /\ p <> SBegin.
Proof.
  intros Hi Hp (p & (k & Hk)%list_elem_of_lookup & Hne). destruct (decide (i = k)) as [<-|Hik].
  - rewrite Hi in Hk. injection Hk as <- <-. exists pc'. split; [|done]. apply (list_elem_of_lookup_2 _ i).
    apply list_lookup_insert_eq. by eapply lookup_lt_Some.
  - exists p. split; [|done]. apply (list_elem_of_lookup_2 _ k). by rewrite list_lookup_insert_ne.
Qed.

Lemma set_step_inv i st st' : au_inv st -> set_step i st = Some st' -> au_inv st' /\ later st st'.
Proof.
  intros [Hs Hw Hq Hc Hu Hx]. unfold set_step. destruct (au_setters st !! i) as [[u pc]|] eqn:Ei; [|done]. simpl.
  pose proof (Forall_lookup_1 _ _ _ _ Hs Ei) as Hok. unfold setter_ok in Hok. simpl in Hok.
  assert (Hin : forall pc', (u, pc') ∈ <[i := (u, pc')]> (au_setters st))
    by (intros; apply (list_elem_of_lookup_2 _ i), list_lookup_insert_eq; by eapply lookup_lt_Some).
  assert (Hcr : forall t, created t (au_notify st) -> ready t (notify_waiters (au_notify st)) = true) by (intros t; apply ready_after).
  destruct pc; intros [= <-]; cbv zeta.
  - assert (Hl : later st (Auth (Some u) (au_flag st) (au_notify st) (<[i := (u, SWritten)]> (au_setters st)) (au_waiters st)))
      by by split.
    split; [|exact Hl]. split; simpl; [|by eapply waiters_later|done|done|done|].
    + apply Forall_insert; [by eapply setters_later|done].
    + intros x [= <-]. by exists SWritten.
  - assert (Hl : later st (Auth (au_uuid st) true (au_notify st) (<[i := (u, SStored)]> (au_setters st)) (au_waiters st)))
      by by split.
    split; [|exact Hl]. split; simpl; [|by eapply waiters_later|done|done|done|].
    + apply Forall_insert; [by eapply setters_later|done].
    + intros x ?%Hx. by eapply setter_users.
  - assert (Hl : later st (Auth (au_uuid st) (au_flag st) (notify_waiters (au_notify st)) (<[i := (u, SDone)]> (au_setters st)) (au_waiters st)))
      by (split; simpl; [done|done|intros; by apply created_before|intros; by apply Hcr]).
    split; [|exact Hl]. split; simpl; [|by eapply waiters_later|congruence|by apply created_before|done|].
    + apply Forall_insert; [by eapply setters_later|]. split; [done|]. by apply Hcr.
    + intros x ?%Hx. by eapply setter_users.
  - split; [by split|by split].
Qed.

Lemma wait_step_inv j st st' : au_inv st -> wait_step j st = Some st' -> au_inv st' /\ later st st'.
Proof.
  intros [Hs Hw Hq Hc Hu Hx]. unfold wait_step. destruct (au_waiters st !! j) as [w|] eqn:Ej; [|done]. simpl.
  pose proof (Forall_lookup_1 _ _ _ _ Hw Ej) as Hok.
  assert (Hset : forall w', waiter_ok st w' ->
    let st1 := Auth (au_uuid st) (au_flag st) (au_notify st) (au_setters st) (<[j := w']> (au_waiters st)) in au_inv st1 /\ later st st1).
  { intros w' Hw'. cbv zeta. split; [|by split]. split; simpl; try done. by apply Forall_insert. }
  destruct w as [| |t|t|]; simpl.
  - intros [= <-]. apply Hset. destruct (au_flag st) eqn:Ef; [exact Ef|exact I].
  - intros [= <-]. apply Hset. split; [apply created_here|]. intros Hf. by rewrite (Hq Hf).
  - intros [= <-]. apply Hset. destruct Hok as [_ Ht]. destruct (au_flag st) eqn:Ef; [exact Ef|by apply Ht].
  - destruct (ready t (au_notify st)) eqn:Er; [|done]. intros [= <-]. apply Hset. simpl in Hok |- *. subst t.
    destruct (au_flag st) eqn:Ef; [done|]. rewrite (Hq eq_refl), not_ready_yet in Er. done.
  - intros [= <-]. split; by split.
Qed.

Lemma au_run_inv ls st st' : au_inv st -> au_run st ls = Some st' -> au_inv st' /\ later st st'.
Proof.
  revert st. induction ls as [|l ls IH]; intros st Hi; simpl; [intros [= <-]; split; [done|by split]|].
  destruct (au_step st l) as [st1|] eqn:E; [|done]. simpl. intros Hr.
  assert (H1 : au_inv st1 /\ later st st1) by (destruct l; [by eapply set_step_inv|by eapply wait_step_inv]).
  destruct H1 as [Hi1 [A B C D]]. destruct (IH st1 Hi1 Hr) as [Hi2 [A2 B2 C2 D2]]. split; [done|]. split; auto.
Qed.

(** ** A waiter gets on *)

Definition rank (w : waiter_pc) : nat :=
  match w with WBegin => 4 | WCreate => 3 | WCheck _ => 2 | WAwait _ => 1 | WReturned => 0 end.

(** A call of [set] has returned. *)
Definition finished (st : authenticated) : Prop := exists u, (u, SDone) ∈ au_setters st.

Lemma finished_ready st : au_inv st -> finished st -> au_flag st = true /\ ready (notified n0) (au_notify st) = true.
Proof. intros [Hs _ _ _ _ _] [u Hu]. rewrite Forall_forall in Hs. apply (Hs _ Hu). Qed.

(** Then a waiter can always take its next step, and is nearer to its end. *)
Lemma waiter_progress j st w :
  au_inv st -> finished st -> au_waiters st !! j = Some w ->
  exists st' w', wait_step j st = Some st' /\ au_waiters st' !! j = Some w' /\ (rank w' <= rank w - 1)%nat.
Proof.
  intros Hi Hf Ej. destruct (finished_ready st Hi Hf) as [Hflag Hr]. unfold wait_step. rewrite Ej. simpl.
  assert (Hl : (j < length (au_waiters st))%nat) by by eapply lookup_lt_Some.
  pose proof (Forall_lookup_1 _ _ _ _ (a_waiters _ Hi) Ej) as Hok.
  destruct w as [| |t|t|]; simpl in Hok |- *.
  - eexists _, _. split; [done|]. simpl. rewrite list_lookup_insert_eq by done. split; [done|]. rewrite Hflag. simpl. lia.
  - eexists _, _. split; [done|]. simpl. rewrite list_lookup_insert_eq by done. split; [done|]. simpl. lia.
  - eexists _, _. split; [done|]. simpl. rewrite list_lookup_insert_eq by done. split; [done|]. rewrite Hflag. simpl. lia.
  - subst t. rewrite Hr. eexists _, _. split; [done|]. simpl. rewrite list_lookup_insert_eq by done. split; [done|]. simpl. lia.
  - exists st, WReturned. done.
Qed.

(** What a step leaves of the others. *)
Lemma au_step_others st l st' :
  au_step st l = Some st' ->
  (au_setters st').*1 = (au_setters st).*1 /\ length (au_waiters st') = length (au_waiters st) /\
  (finished st -> finished st') /\ (forall j, l <> WaitStep j -> au_waiters st' !! j = au_waiters st !! j).
Proof.
  destruct l as [i|k]; simpl; [unfold set_step|unfold wait_step].
  - destruct (au_setters st !! i) as [[u pc]|] eqn:Ei; [|done]. simpl.
    assert (Hfst : forall pc', (<[i := (u, pc')]> (au_setters st)).*1 = (au_setters st).*1).
    { intros pc'. rewrite list_fmap_insert. simpl. apply list_insert_id. by rewrite list_lookup_fmap, Ei. }
    assert (Hfin : forall pc', pc <> SDone -> finished st -> exists v, (v, SDone) ∈ <[i := (u, pc')]> (au_setters st)).
    { intros pc' Hpc [v (k & Hk)%list_elem_of_lookup]. exists v. apply (list_elem_of_lookup_2 _ k).
      rewrite list_lookup_insert_ne; [done|]. intros ->. rewrite Ei in Hk. by injection Hk. }
    destruct pc; intros [= <-]; simpl; (split; [by rewrite ?Hfst|]); (split; [done|]); (split; [|done]); try (by apply Hfin); done.
  - destruct (au_waiters st !! k) as [w|] eqn:Ek; [|done]. simpl.
    assert (Hset : forall w', let st1 := Auth (au_uuid st) (au_flag st) (au_notify st) (au_setters st) (<[k := w']> (au_waiters st)) in
      (au_setters st1).*1 = (au_setters st).*1 /\ length (au_waiters st1) = length (au_waiters st) /\
      (finished st -> finished st1) /\ (forall j, WaitStep k <> WaitStep j -> au_waiters st1 !! j = au_waiters st !! j)).
    { intros w'. simpl. split_and!; [done|by rewrite length_insert|done|]. intros j Hj. apply list_lookup_insert_ne. congruence. }
    destruct w; try (intros [= <-]; apply Hset); [|by intros [= <-]].
    destruct (ready t (au_notify st)); [|done]. intros [= <-]. apply Hset.
Qed.

Definition turns (j : nat) (ls : list alabel) : nat :=
  length (filter (fun l => l = WaitStep j) ls).

Lemma waiter_returns j ls st st' w :
  au_inv st -> finished st -> au_waiters st !! j = Some w -> au_run st ls = Some st' ->
  exists w', au_waiters st' !! j = Some w' /\ (rank w' <= rank w - turns j ls)%nat.
Proof.
  revert st w. induction ls as [|l ls IH]; intros st w Hi Hf Ej; simpl.
  { intros [= <-]. exists w. split; [done|]. unfold turns. simpl. lia. }
  destruct (au_step st l) as [st1|] eqn:E; [|done]. simpl. intros Hr.
  destruct (au_step_others _ _ _ E) as (_ & _ & Hf1 & Hj).
  assert (Hi1 : au_inv st1) by (destruct l; [by eapply set_step_inv|by eapply wait_step_inv]).
  unfold turns. rewrite filter_cons. case_decide as Hl.
  - subst l. simpl in E. destruct (waiter_progress j st w Hi Hf Ej) as (st1' & w1 & E1 & Ej1 & Hw1). rewrite E in E1. injection E1 as <-.
    destruct (IH st1 w1 Hi1 (Hf1 Hf) Ej1 Hr) as (w' & Ew & Hrk). exists w'. split; [done|]. unfold turns in Hrk. simpl. lia.
  - rewrite <- Hj in Ej by done. by apply (IH st1 w Hi1 (Hf1 Hf) Ej).
Qed.

Lemma au_run_others ls st st' :
  au_run st ls = Some st' -> (au_setters st').*1 = (au_setters st).*1 /\ length (au_waiters st') = length (au_waiters st).
Proof.
  revert st. induction ls as [|l ls IH]; intros st; simpl; [by intros [= <-]|].
  destruct (au_step st l) as [st1|] eqn:E; [|done]. simpl. intros [E1 E2]%IH.
  destruct (au_step_others _ _ _ E) as (E3 & E4 & _). split; congruence.
Qed.

(** C35: nobody waits for an authentication that has happened.  Under every interleaving of the
    calls of [set] and [wait], whose accesses to the UUID, the flag and the notification
    are separate steps: the flag is only seen set when the UUID of one of the calls
    has been written; a call of [wait] only returns once the flag is set; and as soon as
    one call of [set] has returned, every call of [wait], wherever it is (between its
    two looks at the flag, or in the future it then made), can take its next step, and
    has returned after at most four of them, whatever the others do. *)
Theorem wait_no_lost_wakeup setters n ls st :
  au_run (authenticated_new setters n) ls = Some st ->
  (au_flag st = true -> exists u, au_uuid st = Some u /\ u ∈ setters) /\
  (forall j, au_waiters st !! j = Some WReturned -> au_flag st = true) /\
  (finished st -> forall j, (j < n)%nat ->
     is_Some (wait_step j st) /\
     forall ls' st', au_run st ls' = Some st' -> (4 <= turns j ls')%nat -> au_waiters st' !! j = Some WReturned).
Proof.
  intros Hr. destruct (au_run_inv _ _ _ (au_inv_new setters n) Hr) as [Hi _]. destruct (au_run_others _ _ _ Hr) as [Es Ew].
  split; [|split].
  - intros Hf. pose proof (a_uuid _ Hi Hf) as Hu. destruct (au_uuid st) as [u|] eqn:Eu; [|done]. exists u. split; [done|].
    destruct (a_user _ Hi u Eu) as (pc & Hin & _). apply (list_elem_of_fmap_2 fst) in Hin. simpl in Hin.
    rewrite Es in Hin. simpl in Hin. rewrite <- list_fmap_compose in Hin. by rewrite list_fmap_id in Hin.
  - intros j Hj. exact (Forall_lookup_1 _ _ _ _ (a_waiters _ Hi) Hj).
  - intros Hf j Hj. destruct (lookup_lt_is_Some_2 (au_waiters st) j) as [w Hw].
    { rewrite Ew. simpl. by rewrite length_replicate. }
    split; [destruct (waiter_progress j st w Hi Hf Hw) as (st' & w' & E & _); by exists st'|].
    intros ls' st' Hr' H4. destruct (waiter_returns j ls' st st' w Hi Hf Hw Hr') as (w' & Ew' & Hrk).
    rewrite Ew'. destruct w, w'; simpl in Hrk; try lia; done.
Qed.
End authenticated.

(** ** A notification that counts *)

#[export] Instance count_notify : Notify nat := {
  Notified := nat;
  notified n := n;
  notify_waiters n := S n;
  ready t n := bool_decide (t < n)%nat;
}.
#[export] Instance count_laws : NotifyLaws nat.
Proof.
  refine {| created := fun (t : @Notified nat count_notify) (n : nat) => ((t : nat) <= n)%nat |}; simpl; intros.
  - lia.
  - lia.
  - rewrite bool_decide_true; [done|lia].
  - rewrite bool_decide_false; [done|lia].
Defined.

(** The waiter looks at the flag before it is stored, and awaits after the notification. *)
Definition race_labels : list alabel :=
  [WaitStep 0; SetStep 0; WaitStep 0; WaitStep 0; SetStep 0; SetStep 0].

Lemma wait_no_lost_wakeup_witness :
  exists st, au_run (N := nat) (authenticated_new 0%nat [[7]] 1) race_labels = Some st /\
    au_waiters st = [WAwait (N := nat) 0%nat] /\ is_Some (wait_step 0 st).
Proof.
  eexists. split; [reflexivity|]. split; [reflexivity|].
  refine (proj1 (proj2 (proj2 (wait_no_lost_wakeup 0%nat [[7]] 1 race_labels _ eq_refl)) _ 0%nat _)).
  - exists [7]. left.
  - lia.
Defined.

(** ** Logins that overlap

    [handle_authenticate] and the watchdog look at the flag first and act on what they saw;
    another task may run in between.  [Tuic.handle_authenticate] has both in one step;
    here they are apart. *)

(** A call: before its look at the flag; having seen it unset; over. *)
Inductive login_pc := LoginBegin | LoginChecked | LoginDone.

(** The calls, each with its UUID and whether its token is valid; the watchdog is a call
    that never is. *)
Record logins := Logins {
  lg_auth : option (list Z);
  lg_closed : bool;
  lg_calls : list (list Z * bool * login_pc);
}.

Definition login_step (i : nat) (st : logins) : option logins :=
  '(u, valid, pc) ← lg_calls st !! i;
  let at_pc pc' := <[i := (u, valid, pc')]> (lg_calls st) in
  match pc with
  | LoginBegin =>
      Some (Logins (lg_auth st) (lg_closed st) (at_pc (if lg_auth st is Some _ then LoginDone else LoginChecked)))
  | LoginChecked =>
      Some (if valid : bool then Logins (Some u) (lg_closed st) (at_pc LoginDone)
            else Logins (lg_auth st) true (at_pc LoginDone))
  | LoginDone => None
  end.

Fixpoint login_run (st : logins) (ls : list nat) : option logins :=
  match ls with [] => Some st | i :: ls => st' ← login_step i st; login_run st' ls end.

(** Whatever overlaps, the connection is authenticated only by a valid token, and closed only
    by a call without one. *)
Lemma logins_sound calls ls st :
  login_run (Logins None false ((fun c => (c, LoginBegin)) <$> calls)) ls = Some st ->
  (forall u, lg_auth st = Some u -> (u, true) ∈ calls) /\
  (lg_closed st = true -> exists u, (u, false) ∈ calls).
Proof.
  enough (Hgo : forall ls st0 st, (forall c, c ∈ lg_calls st0 -> c.1 ∈ calls) ->
    (forall u, lg_auth st0 = Some u -> (u, true) ∈ calls) -> (lg_closed st0 = true -> exists u, (u, false) ∈ calls) ->
    login_run st0 ls = Some st ->
    (forall u, lg_auth st = Some u -> (u, true) ∈ calls) /\ (lg_closed st = true -> exists u, (u, false) ∈ calls)).
  { apply Hgo; simpl; [|done..]. by intros c (x & -> & ?)%list_elem_of_fmap. }
  clear ls st. intros ls. induction ls as [|i ls IH]; intros st0 st Hc Ha Hcl; [by intros [= <-]|].
  cbn [login_run]. destruct (login_step i st0) as [st1|] eqn:E; [|done]. unfold login_step in E.
  destruct (lg_calls st0 !! i) as [[[u v] pc]|] eqn:Ei; [|done]. cbn [mbind option_bind] in E.
  pose proof (Hc _ (list_elem_of_lookup_2 _ _ _ Ei)) as Hin. cbn [fst] in Hin.
  assert (Hins : forall pc' c, c ∈ <[i := (u, v, pc')]> (lg_calls st0) -> c.1 ∈ calls).
  { intros pc' c [j Hj]%list_elem_of_lookup_1. apply list_lookup_insert_Some in Hj as [(_ & <- & _)|[_ Hj]]; [done|].
    by eapply Hc, list_elem_of_lookup_2. }
  destruct pc; [| |done]; injection E as <-.
  - by apply IH; [apply Hins|..].
  - assert (Ha' : v = true -> forall w, Some u = Some w -> (w, true) ∈ calls) by (by intros -> ? [= <-]).
    destruct v; apply IH; first [apply Hins|exact Ha|exact Hcl|exact (Ha' eq_refl)|by exists u].
Qed.

(** Two logins of a client, of which one is not valid: the server lets the client in, and
    closes the connection. *)
Lemma overlapping_logins u u' : exists st,
  login_run (Logins None false [(u, true, LoginBegin); (u', false, LoginBegin)]) [0; 1; 0; 1]%nat = Some st /\
  lg_auth st = Some u /\ lg_closed st = true.
Proof. eexists. split; [reflexivity|]. done. Qed.
