(* ===== verification/TuicError.v ===== *)
(** * TUIC: errors ([src/src/tuic/error.rs])

    What a connection's tasks fail with, how the errors of streams and of the connection
    become such errors, and how they are printed. *)
From S2P Require Import Prelude RustStd.

Section errors.
(** The errors of [std::io], rustls and anyhow, and of a stream's reads. *)
Context {IoError RustlsError AnyError ReadError Uuid SocketAddr : Type}.

Inductive Error :=
| Io (e : IoError)
| Rustls (e : RustlsError)
| InvalidMaxIdleTime
| TimedOut
| LocallyClosed
| DuplicatedAuth
| AuthFailed (uuid : Uuid)
| UnexpectedPacketSource
| Socket (what : list Z) (e : IoError)
| TaskNegotiationTimeout
| UdpRelayIpv6Disabled (addr : SocketAddr)
| Protocol (what : list Z)
| Other (e : AnyError).

Definition is_trivial (e : Error) : bool :=
  match e with TimedOut | LocallyClosed => true | _ => false end.

(** How each of them is written. *)
Class Texts := {
  io_text : IoError -> list Z;
  rustls_text : RustlsError -> list Z;
  any_text : AnyError -> list Z;
  uuid_text : Uuid -> list Z;
  addr_text : SocketAddr -> list Z;
}.

Definition display `{Texts} (e : Error) : list Z :=
  match e with
  | Io e => io_text e
  | Rustls e => rustls_text e
  | InvalidMaxIdleTime => str "invalid max idle time"
  | TimedOut => str "connection timed out"
  | LocallyClosed => str "connection locally closed"
  | DuplicatedAuth => str "duplicated authentication"
  | AuthFailed uuid => str "authentication failed: " ++ uuid_text uuid
  | UnexpectedPacketSource => str "received packet from unexpected source"
  | Socket what e => what ++ str ": " ++ io_text e
  | TaskNegotiationTimeout => str "task negotiation timed out"
  | UdpRelayIpv6Disabled addr =>
      str "failed sending packet to " ++ addr_text addr ++ str ": relaying IPv6 UDP packet is disabled"
  | Protocol what => str "protocol error: " ++ what
  | Other e => str "anyhow: " ++ any_text e
  end.

(** quinn's errors: of a [read_exact], and of a connection (the ways a connection can
    end that the code does not tell apart are [OtherEnd]). *)
Inductive ReadExactError := ReadFailed (e : ReadError) | FinishedEarly (n : nat).
Inductive ConnectionError := ConnTimedOut | ConnLocallyClosed | OtherEnd (code : nat).
Context (io_of_read : ReadError -> IoError) (io_of_connection : ConnectionError -> IoError) (unexpected_eof : IoError).

Definition from_read_exact (e : ReadExactError) : Error :=
  match e with
  | ReadFailed e => Io (io_of_read e)
  | FinishedEarly _ => Io unexpected_eof
  end.

Definition from_connection (e : ConnectionError) : Error :=
  match e with
  | ConnTimedOut => TimedOut
  | ConnLocallyClosed => LocallyClosed
  | e => Io (io_of_connection e)
  end.

(** A connection's end is quiet exactly if it timed out or was closed here; a truncated
    command never is. *)
Theorem quiet_ends e : is_trivial (from_connection e) = true <-> e = ConnTimedOut \/ e = ConnLocallyClosed.
Proof. destruct e; simpl; naive_solver. Qed.

Theorem truncation_is_reported e : is_trivial (from_read_exact e) = false.
Proof. by destruct e. Qed.
End errors.
