(* ===== verification/AnyTlsPadding.v ===== *)
(** * AnyTLS: padding schemes ([src/src/anytls/padding.rs])

    A scheme maps packet numbers to the sizes a packet is cut into; the server
    sends its text to clients that have another one. *)
From S2P Require Import Prelude RustStd.

(** ** Schemes *)

Definition CHECK_MARK : Z := -1.

Record PaddingScheme := MkScheme {
  stop : Z;
  rules : gmap Z (list Z);
  raw : list Z;
  md5_hex : list Z;
}.

Section padding.
(** [gen_range(lo..=hi)] after the draws so far, and the MD5 of the crate. *)
Context (gen_range : list Z -> Z -> Z -> Z) (md5 : list Z -> list Z).

(** One part of a size list, given the sizes so far. *)
Definition parse_size (out : list Z) (part : list Z) : list Z :=
  let part := trim part in
  if decide (part = str "c") then out ++ [CHECK_MARK] else
  match split_once 45 part with
  | Some (lo_s, hi_s) =>
      match parse_i64 lo_s, parse_i64 hi_s with
      | Some lo, Some hi =>
          if decide (lo <= 0 \/ hi <= 0) then out else
          let '(lo, hi) := (Z.min lo hi, Z.max lo hi) in
          if decide (lo = hi) then out ++ [lo] else out ++ [gen_range out lo hi]
      | _, _ => out
      end
  | None => out
  end.
Definition parse_size_list (s : list Z) : list Z := foldl parse_size [] (split_on 44 s).

(** The loop over the lines; [None] when a line has no '=' or [stop] does not
    parse. *)
Fixpoint parse_scheme_lines (ls : list (list Z)) (st : option Z) (rs : gmap Z (list Z))
    : option (option Z * gmap Z (list Z)) :=
  match ls with
  | [] => Some (st, rs)
  | line :: ls =>
      let line := trim line in
      if decide (line = []) then parse_scheme_lines ls st rs else
      '(k, v) ← split_once 61 line;
      let k := trim k in
      let v := trim v in
      if decide (k = str "stop") then
        x ← parse_uint (2 ^ 32 - 1) v;
        parse_scheme_lines ls (Some x) rs
      else
        match parse_uint (2 ^ 32 - 1) k with
        | Some idx => parse_scheme_lines ls st (<[idx := parse_size_list v]> rs)
        | None => parse_scheme_lines ls st rs
        end
  end.

Definition from_bytes (raw : list Z) : option PaddingScheme :=
  if utf8_valid raw then
    '(st, rs) ← parse_scheme_lines (lines raw) None ∅;
    stop ← st;
    Some (MkScheme stop rs raw (hex_encode (md5 raw)))
  else None.

Definition sizes_for (p : PaddingScheme) (pkt : Z) : list Z := default [] (rules p !! pkt).

Definition newline : list Z := [10].
Definition DEFAULT_SCHEME_BYTES : list Z :=
  str "stop=8" ++ newline ++ str "0=30-30" ++ newline ++ str "1=100-400" ++ newline ++
  str "2=400-500,c,500-1000,c,500-1000,c,500-1000,c,500-1000" ++ newline ++
  str "3=9-9,500-1000" ++ newline ++ str "4=500-1000" ++ newline ++ str "5=500-1000" ++ newline ++
  str "6=500-1000" ++ newline ++ str "7=500-1000".

(** [SharedPadding]: the lock holds the current scheme. *)
Definition new_default : outcome PaddingScheme :=
  match from_bytes DEFAULT_SCHEME_BYTES with Some s => Done s | None => Panic end.
Definition update (cur : PaddingScheme) (raw : list Z) : PaddingScheme * bool :=
  match from_bytes raw with Some s => (s, true) | None => (cur, false) end.
End padding.

(** ** Properties *)

Section padding_facts.
Context (gen_range : list Z -> Z -> Z -> Z) (md5 : list Z -> list Z).

Definition size_ok (z : Z) : Prop := z = CHECK_MARK \/ 1 <= z < 2 ^ 63.

Lemma parse_digits_max max acc bs v : acc <= max -> parse_digits max acc bs = Some v -> v <= max.
Proof.
  revert acc. induction bs as [|b bs IH]; intros acc Ha; simpl; [by intros [= <-]|].
  destruct (_ && _); [|done]. case_match eqn:E; [|done]. apply IH. by apply Z.leb_le.
Qed.

Lemma parse_i64_max bs v : parse_i64 bs = Some v -> 0 < v -> v < 2 ^ 63.
Proof.
  unfold parse_i64, parse_uint. destruct bs as [|b r]; [done|].
  assert (Hd : forall k r, parse_digits (2 ^ 63 - 1) 0 r = Some k -> k < 2 ^ 63)
    by (intros k ? ?%parse_digits_max; lia).
  assert (Hnn : forall m a r k, 0 <= a -> parse_digits m a r = Some k -> 0 <= k).
  { clear. intros m a r. revert a. induction r as [|x r IH]; intros a k Ha; simpl; [by intros [= <-]|].
    destruct ((48 <=? x) && (x <=? 57)) eqn:E; [|done]. case_match; [|done]. apply IH. apply andb_true_iff in E. lia. }
  destruct (b =? 45).
  - case_decide; [done|]. destruct (parse_digits _ _ r) as [k|] eqn:E; [|done]. intros [= <-] Hk.
    apply Hnn in E; lia.
  - destruct (b =? 43); [case_decide; [done|]|]; intros E _; by apply Hd in E.
Qed.

Context (gen_range_spec : forall out lo hi, lo < hi -> lo <= gen_range out lo hi <= hi).

Lemma parse_size_ok out part : Forall size_ok out -> Forall size_ok (parse_size gen_range out part).
Proof.
  intros Ho. unfold parse_size. assert (Hadd : forall z, size_ok z -> Forall size_ok (out ++ [z])).
  { intros z Hz. apply Forall_app. split; [done|]. by apply Forall_singleton. }
  case_decide; [apply Hadd; by left|]. destruct (split_once 45 (trim part)) as [[l h]|]; [|done].
  destruct (parse_i64 l) as [lo|] eqn:El; [|done]. destruct (parse_i64 h) as [hi|] eqn:Eh; [|done].
  case_decide; [done|]. apply parse_i64_max in El, Eh; [|lia..]. case_decide as Hlh; apply Hadd; right; [lia|].
  destruct (gen_range_spec out (Z.min lo hi) (Z.max lo hi)); lia.
Qed.

Lemma parse_size_list_ok v : Forall size_ok (parse_size_list gen_range v).
Proof.
  unfold parse_size_list. assert (H : Forall size_ok []) by constructor. revert H.
  generalize (@nil Z) as out. induction (split_on 44 v) as [|p ps IH]; intros out Ho; [done|].
  simpl. by apply IH, parse_size_ok.
Qed.

Lemma parse_scheme_lines_ok ls st rs st' rs' :
  map_Forall (fun _ => Forall size_ok) rs -> parse_scheme_lines gen_range ls st rs = Some (st', rs') ->
  map_Forall (fun _ => Forall size_ok) rs'.
Proof.
  revert st rs. induction ls as [|l ls IH]; intros st rs Hr; [by intros [= _ <-]|]. cbn [parse_scheme_lines].
  case_decide; [by apply IH|]. destruct (split_once 61 (trim l)) as [[k v]|]; [|done]. cbn [mbind option_bind].
  case_decide.
  - destruct (parse_uint _ (trim v)); [|done]. by apply IH.
  - case_match; [|by apply IH]. apply IH. by apply map_Forall_insert_2; [apply parse_size_list_ok|].
Qed.

Lemma default_parses :
  exists s, from_bytes gen_range md5 DEFAULT_SCHEME_BYTES = Some s /\ stop s = 8 /\ raw s = DEFAULT_SCHEME_BYTES.
Proof.
  destruct (from_bytes gen_range md5 DEFAULT_SCHEME_BYTES) as [s|] eqn:E.
  - exists s. split; [done|]. unfold from_bytes in E. destruct (utf8_valid DEFAULT_SCHEME_BYTES); [|done].
    destruct (parse_scheme_lines gen_range (lines DEFAULT_SCHEME_BYTES) None ∅) as [[st rs]|] eqn:Ep; [|done].
    assert (Hst : fst <$> parse_scheme_lines gen_range (lines DEFAULT_SCHEME_BYTES) None ∅ = Some (Some 8)).
    { replace (lines DEFAULT_SCHEME_BYTES) with
        [str "stop=8"; str "0=30-30"; str "1=100-400"; str "2=400-500,c,500-1000,c,500-1000,c,500-1000,c,500-1000";
         str "3=9-9,500-1000"; str "4=500-1000"; str "5=500-1000"; str "6=500-1000"; str "7=500-1000"]
        by (vm_compute; reflexivity). reflexivity. }
    rewrite Ep in Hst. simpl in Hst. injection Hst as ->. simpl in E. by injection E as <-.
  - exfalso. unfold from_bytes in E. vm_compute in E. done.
Qed.

(** C40: padding schemes are usable.  Whatever bytes an update brings, every
    packet size of the scheme in use is the check mark or a positive 64-bit
    size, an update that is refused leaves the scheme as it was, and the
    built-in scheme parses, so that [new_default] does not panic. *)
Theorem padding_sizes_valid cur raws :
  (forall pkt, Forall size_ok (sizes_for cur pkt)) ->
  let cur' := foldl (fun c r => (update gen_range md5 c r).1) cur raws in
  (forall pkt, Forall size_ok (sizes_for cur' pkt)) /\
  (forall raw, (update gen_range md5 cur' raw).2 = false -> (update gen_range md5 cur' raw).1 = cur') /\
  exists s, new_default gen_range md5 = Done s /\ stop s = 8 /\ raw s = DEFAULT_SCHEME_BYTES /\
    forall pkt, Forall size_ok (sizes_for s pkt).
Proof.
  assert (Hfrom : forall raw s, from_bytes gen_range md5 raw = Some s -> forall pkt, Forall size_ok (sizes_for s pkt)).
  { intros raw s. unfold from_bytes. destruct (utf8_valid raw); [|done].
    destruct (parse_scheme_lines _ _ _ _) as [[st rs]|] eqn:E; [|done]. simpl. destruct st as [st|]; [|done].
    intros [= <-] pkt. unfold sizes_for. simpl. apply parse_scheme_lines_ok in E; [|by apply map_Forall_empty].
    destruct (rs !! pkt) as [l|] eqn:El; [|constructor]. by apply (E pkt). }
  intros Hc. split_and!.
  - revert cur Hc. induction raws as [|r raws IH]; intros cur Hc; [done|]. simpl. apply IH. unfold update.
    destruct (from_bytes gen_range md5 r) eqn:E; [by eapply Hfrom|done].
  - intros raw. unfold update. by destruct (from_bytes _ _ raw).
  - destruct default_parses as (s & E & ? & ?). exists s. unfold new_default. rewrite E.
    split_and!; [done..|]. by eapply Hfrom.
Qed.
End padding_facts.

(** ** Witnesses *)

Definition demo_scheme : PaddingScheme := MkScheme 8 ∅ (str "stop=8") (str "md5").

Lemma padding_sizes_valid_witness :
  exists s, new_default (fun _ lo _ => lo) (fun _ => []) = Done s /\ stop s = 8.
Proof.
  assert (H0 : forall pkt, Forall size_ok (sizes_for demo_scheme pkt)).
  { intros pkt. unfold sizes_for. cbn [rules demo_scheme]. rewrite lookup_empty. constructor. }
  assert (Hg : forall (out : list Z) (lo hi : Z), lo < hi -> lo <= (fun _ lo _ => lo) out lo hi <= hi)
    by (intros; cbv beta; lia).
  destruct (padding_sizes_valid (fun _ lo _ => lo) (fun _ => []) Hg demo_scheme [] H0) as (_ & _ & s & E & Es & _).
  by exists s.
Defined.
