(* ===== verification/AnyTls.v ===== *)
(** * AnyTLS: frames, the stream multiplexer, authentication
    ([src/src/anytls/session.rs], [handle_conn] of [src/src/anytls/server.rs])

    The session's read loop and the stream handlers run concurrently; [mstep] is
    one step, so that every interleaving is a sequence of labels. *)
From S2P Require Import Prelude RustStd Net Target AnyTlsPadding.

(** ** Frames *)

Definition CMD_WASTE : Z := 0.
Definition CMD_SYN : Z := 1.
Definition CMD_PSH : Z := 2.
Definition CMD_FIN : Z := 3.
Definition CMD_SETTINGS : Z := 4.
Definition CMD_ALERT : Z := 5.
Definition CMD_UPDATE_PADDING : Z := 6.
Definition CMD_SYNACK : Z := 7.
Definition CMD_HEART_REQUEST : Z := 8.
Definition CMD_HEART_RESPONSE : Z := 9.
Definition CMD_SERVER_SETTINGS : Z := 10.
Definition HEADER_SIZE : nat := 7.

Record frame := Frame { f_cmd : Z; f_sid : Z; f_data : list Z }.
#[export] Instance frame_eq_dec : EqDecision frame.
Proof. solve_decision. Defined.

(** The head of the read loop: one frame; at the end of the stream, or inside
    a frame, an error, which ends the loop. *)
Definition read_frame {S} `{Source S} : M S frame :=
  hdr ← read_exact HEADER_SIZE;
  cmd ← lift (index hdr 0);
  sid ← lift (slice hdr 1 5);
  len ← lift (slice hdr 5 7);
  let dlen := Z.to_nat (be_val len) in
  data ← (if decide (0 < dlen)%nat then read_exact dlen else mret []);
  mret (Frame cmd (be_val sid) data).

(** The writer task's encoding. *)
Definition write_frame (f : frame) : list Z :=
  [f_cmd f] ++ be_bytes 4 (f_sid f) ++ be_bytes 2 (u16 (Z.of_nat (length (f_data f)))) ++ f_data f.

Definition strip_pairs (ls : list (list Z)) : gmap (list Z) (list Z) :=
  foldl (fun m line => match split_once 61 line with
                       | Some (k, v) => <[trim k := trim v]> m
                       | None => m
                       end) ∅ ls.
Definition parse_kv (data : list Z) : gmap (list Z) (list Z) :=
  if utf8_valid data then strip_pairs (lines data) else ∅.

(** ** The session's read loop *)

(** The channel to a stream handler: the messages in it, whether the map still
    holds its sender, whether the receiver is still there; [ch_given] is all
    that was ever sent. *)
Record chan := Chan {
  ch_sid : Z;
  ch_queue : list (list Z);
  ch_rx : bool;
  ch_given : list (list Z);
}.

Record msession := MSession {
  m_streams : gmap Z nat;
  m_chans : gmap nat chan;
  m_next : nat;
  m_version : Z;
  m_settings : bool;
  m_out : list frame;        (** what has been handed to the writer task *)
  m_ended : bool;            (** the read loop has left *)
}.

Definition msession0 : msession := MSession ∅ ∅ 0 1 false [] false.
Definition STREAM_CAP : nat := 64.

Definition m_write (f : frame) (m : msession) : msession :=
  MSession (m_streams m) (m_chans m) (m_next m) (m_version m) (m_settings m) (m_out m ++ [f]) (m_ended m).
Definition m_end (m : msession) : msession :=
  MSession (m_streams m) (m_chans m) (m_next m) (m_version m) (m_settings m) (m_out m) true.
Definition set_streams (s : gmap Z nat) (m : msession) : msession :=
  MSession s (m_chans m) (m_next m) (m_version m) (m_settings m) (m_out m) (m_ended m).
Definition set_chans (c : gmap nat chan) (m : msession) : msession :=
  MSession (m_streams m) c (m_next m) (m_version m) (m_settings m) (m_out m) (m_ended m).

Definition push (d : list Z) (c : chan) : chan :=
  Chan (ch_sid c) (ch_queue c ++ [d]) (ch_rx c) (ch_given c ++ [d]).

(** [tx.send(d)]: waits ([None]) while the channel is full; an error when the
    receiver is gone. *)
Definition chan_send (ch : nat) (d : list Z) (m : msession) : option (bool * msession) :=
  c ← m_chans m !! ch;
  if ch_rx c then
    if decide (length (ch_queue c) < STREAM_CAP)%nat
    then Some (true, set_chans (<[ch := push d c]> (m_chans m)) m)
    else None
  else Some (false, m).

Definition ALERT_TEXT : list Z := str "client did not send its settings before opening a stream".

Definition on_settings (scheme : PaddingScheme) (data : list Z) (m : msession) : msession :=
  let settings := parse_kv data in
  let version := match settings !! str "v" with
                 | Some v_str => match parse_uint 255 v_str with Some v => v | None => m_version m end
                 | None => m_version m
                 end in
  let m := MSession (m_streams m) (m_chans m) (m_next m) version true (m_out m) (m_ended m) in
  let client_md5 := default [] (settings !! str "padding-md5") in
  let m := if decide (client_md5 <> md5_hex scheme)
           then m_write (Frame CMD_UPDATE_PADDING 0 (raw scheme)) m else m in
  if decide (2 <= version) then m_write (Frame CMD_SERVER_SETTINGS 0 (str "v=2")) m else m.

Definition on_syn (sid : Z) (m : msession) : msession :=
  if m_settings m then
    let ch := m_next m in
    let m := MSession (<[sid := ch]> (m_streams m)) (<[ch := Chan sid [] true []]> (m_chans m)) (S ch)
               (m_version m) (m_settings m) (m_out m) (m_ended m) in
    if decide (2 <= m_version m) then m_write (Frame CMD_SYNACK sid []) m else m
  else m_end (m_write (Frame CMD_ALERT 0 ALERT_TEXT) m).

(** The [match cmd] of the loop. *)
Definition on_frame (scheme : PaddingScheme) (f : frame) (m : msession) : option msession :=
  let sid := f_sid f in
  if decide (f_cmd f = CMD_WASTE) then Some m
  else if decide (f_cmd f = CMD_SETTINGS) then Some (on_settings scheme (f_data f) m)
  else if decide (f_cmd f = CMD_SYN) then Some (on_syn sid m)
  else if decide (f_cmd f = CMD_PSH) then
    match m_streams m !! sid with
    | Some ch =>
        '(ok, m) ← chan_send ch (f_data f) m;
        Some (if ok : bool then m else set_streams (delete sid (m_streams m)) m)
    | None => Some m
    end
  else if decide (f_cmd f = CMD_FIN) then
    match m_streams m !! sid with
    | Some ch =>
        '(_, m) ← chan_send ch [] (set_streams (delete sid (m_streams m)) m);
        Some m
    | None => Some m
    end
  else if decide (f_cmd f = CMD_HEART_REQUEST) then Some (m_write (Frame CMD_HEART_RESPONSE sid []) m)
  else if decide (f_cmd f = CMD_HEART_RESPONSE) then Some m
  else if decide (f_cmd f = CMD_ALERT) then Some (m_end m)
  else Some m.

(** After the loop: one stream of the map gets the end marker. *)
Definition drain_one (sid : Z) (m : msession) : option msession :=
  ch ← m_streams m !! sid;
  '(_, m) ← chan_send ch [] (set_streams (delete sid (m_streams m)) m);
  Some m.

Inductive mlabel :=
| LFrame (f : frame)     (** the read loop handles a frame *)
| LEof                   (** the read loop's read fails *)
| LDrain (sid : Z)       (** after the loop: the next stream of the map *)
| LTake (ch : nat)       (** a stream handler receives a message *)
| LDrop (ch : nat)       (** a stream handler ends and drops its receiver *)
| LWrite (f : frame).    (** a stream handler hands a frame to the writer task *)
#[export] Instance mlabel_eq_dec : EqDecision mlabel.
Proof. solve_decision. Defined.

Definition mstep (scheme : PaddingScheme) (m : msession) (l : mlabel) : option msession :=
  match l with
  | LFrame f => if m_ended m then None else on_frame scheme f m
  | LEof => if m_ended m then None else Some (m_end m)
  | LDrain sid => if m_ended m then drain_one sid m else None
  | LTake ch =>
      c ← m_chans m !! ch;
      match ch_queue c with
      | d :: q => if ch_rx c then
                    Some (set_chans (<[ch := Chan (ch_sid c) q true (ch_given c)]> (m_chans m)) m)
                  else None
      | [] => None
      end
  | LDrop ch =>
      c ← m_chans m !! ch;
      Some (set_chans (<[ch := Chan (ch_sid c) (ch_queue c) false (ch_given c)]> (m_chans m)) m)
  | LWrite f => Some (m_write f m)
  end.

Fixpoint mrun (scheme : PaddingScheme) (m : msession) (ls : list mlabel) : option msession :=
  match ls with [] => Some m | l :: ls => m' ← mstep scheme m l; mrun scheme m' ls end.

(** [handle_conn] up to the session: [Done true] when the client has
    authenticated. *)
Definition authenticate {S} `{Source S} (password_hash : list Z) : M S bool :=
  auth_buf ← read_exact 34;
  if decide (take 32 auth_buf <> password_hash) then mret false else
  let padding0_len := Z.to_nat (be_val (drop 32 auth_buf)) in
  _ ← (if decide (0 < padding0_len)%nat then read_exact padding0_len else mret []);
  mret true.

(** ** Frames round-trip *)

Definition frame_ok (f : frame) : Prop :=
  byte_ok (f_cmd f) /\ 0 <= f_sid f < 2 ^ 32 /\ (length (f_data f) < Z.to_nat 65536)%nat.

Lemma reads_frame {S} `{SourceLaws S} f : frame_ok f -> reads (S := S) read_frame (write_frame f) f.
Proof.
  intros (Hc & Hs & Hl). unfold read_frame, write_frame, wrap. rewrite Z.mod_small by (change (2 ^ 16) with 65536; lia).
  rewrite app_assoc, app_assoc.
  set (hdr := ([f_cmd f] ++ be_bytes 4 (f_sid f)) ++ be_bytes 2 (Z.of_nat (length (f_data f)))).
  assert (Lh : length hdr = 7%nat) by (unfold hdr; rewrite !length_app, !length_be_bytes; done).
  eapply reads_bind; [by apply reads_exact|].
  eapply (reads_bind _ _ []); [by apply reads_lift|].
  eapply (reads_bind _ _ []); [apply reads_lift|].
  { unfold hdr. rewrite <- app_assoc. apply slice_app; [done|]. by rewrite length_be_bytes. }
  eapply (reads_bind _ _ []); [apply reads_lift|].
  { unfold hdr. rewrite <- (app_nil_r (be_bytes 2 _)). apply slice_app;
      rewrite !length_app, ?length_be_bytes; done. }
  rewrite (be_val_bytes 2) by lia. rewrite Nat2Z.id, (be_val_bytes 4) by done.
  apply reads_bind_r with (f_data f); [|destruct f; apply reads_ret].
  case_decide; [by apply reads_exact|].
  assert (Hd : f_data f = []) by (apply nil_length_inv; lia). change (reads (S := S) (mret []) (f_data f) (f_data f)). rewrite Hd. apply reads_ret.
Qed.

(** Whatever the loop reads as a frame is the encoding of one. *)
Lemma sound_frame {S} `{SourceLaws S} :
  sound (S := S) read_frame (fun bs f => bs = write_frame f /\ frame_ok f /\ bytes_ok (f_data f)).
Proof.
  unfold read_frame. eapply sound_bind; [apply sound_exact|]. intros b1 hdr Hok [-> Hl].
  destruct hdr as [|c [|s1 [|s2 [|s3 [|s4 [|l1 [|l2 [|]]]]]]]]; try discriminate Hl. clear Hl.
  assert (bytes_ok [s1; s2; s3; s4] /\ bytes_ok [l1; l2] /\ byte_ok c) as (Hs & Hl & Hc).
  { rewrite !Forall_cons in Hok. rewrite !Forall_cons. naive_solver. }
  eapply (sound_bind _ _ (fun bs x => bs = [] /\ x = c)); [apply sound_lift; by intros ? [= <-]|]. intros ? ? _ [-> ->].
  eapply (sound_bind _ _ (fun bs x => bs = [] /\ x = [s1; s2; s3; s4])); [apply sound_lift; by intros ? [= <-]|]. intros ? ? _ [-> ->].
  eapply (sound_bind _ _ (fun bs x => bs = [] /\ x = [l1; l2])); [apply sound_lift; by intros ? [= <-]|]. intros ? ? _ [-> ->].
  cbv zeta. pose proof (be_val_bound _ Hs) as Bs. pose proof (be_val_bound _ Hl) as Bl.
  change (256 ^ Z.of_nat (length [s1; s2; s3; s4])) with (2 ^ 32) in Bs.
  change (256 ^ Z.of_nat (length [l1; l2])) with 65536 in Bl.
  eapply (sound_bind _ _ (fun bs d => bs = d /\ length bs = Z.to_nat (be_val [l1; l2]))).
  { case_decide; [exact (sound_exact _)|]. apply sound_ret. split; [done|]. cbn [length]. lia. }
  intros b2 d Hd [-> Hld]. apply sound_ret. unfold write_frame, frame_ok, wrap. cbn [f_cmd f_sid f_data].
  rewrite Hld, Z2Nat.id, Z.mod_small by (change (2 ^ 16) with 65536; lia).
  rewrite !be_bytes_val by done. rewrite app_nil_r. split_and!; [done|done|lia|lia|lia|done].
Qed.

Lemma quiet_frame {S} `{SourceLaws S} : quiet (S := S) read_frame.
Proof.
  unfold read_frame. apply quiet_bind; [apply quiet_exact|]. intros s hdr s' E.
  assert (Hh : length hdr = HEADER_SIZE).
  { destruct (decide (HEADER_SIZE <= length (pending s))%nat) as [Hl|Hl].
    - destruct (read_exact_done HEADER_SIZE s Hl) as (s1 & E1 & _). rewrite E in E1. injection E1 as -> _.
      rewrite length_take. lia.
    - destruct (read_exact_eof HEADER_SIZE s) as (s1 & E1 & _); [lia|]. congruence. }
  destruct hdr as [|? [|? [|? [|? [|? [|? [|? [|]]]]]]]]; try discriminate Hh.
  do 3 (apply quiet_bind; [by apply quiet_lift|intros ? ? ? _]). cbv zeta. quiet_solve.
Qed.

(** The frames the read loop takes from its input. *)
Fixpoint read_frames {S} `{Source S} (n : nat) : M S (list frame) :=
  match n with O => mret [] | Datatypes.S n => f ← read_frame; fs ← read_frames n; mret (f :: fs) end.

(** AnyTLS frames round-trip.  What the writer task sends for any sequence
    of frames with payloads below 64 KiB, a read loop reads back as exactly
    these frames, with nothing left over. *)
Theorem frames_roundtrip {S} `{SourceLaws S} fs :
  Forall frame_ok fs -> reads (S := S) (read_frames (length fs)) (f ← fs; write_frame f) fs.
Proof.
  induction 1 as [|f fs Hf _ IH]; [apply reads_ret|]. cbn [length read_frames].
  change (x ← f :: fs; write_frame x) with (write_frame f ++ (x ← fs; write_frame x)).
  eapply reads_bind; [by apply reads_frame|]. eapply reads_bind_r; [exact IH|]. apply reads_ret.
Qed.

(** ** What a stream handler is given *)

(** The events that close the channel to stream [sid]. *)
Definition closes (sid : Z) (l : mlabel) : bool :=
  match l with
  | LFrame f => bool_decide (f_sid f = sid) && (bool_decide (f_cmd f = CMD_SYN) || bool_decide (f_cmd f = CMD_FIN))
  | LDrain s => bool_decide (s = sid)
  | _ => false
  end.

(** What an event sends to the stream. *)
Definition message (sid : Z) (l : mlabel) : list (list Z) :=
  match l with
  | LFrame f => if decide (f_sid f = sid) then
                  if decide (f_cmd f = CMD_PSH) then [f_data f]
                  else if decide (f_cmd f = CMD_FIN) then [[]] else []
                else []
  | LDrain s => if decide (s = sid) then [[]] else []
  | _ => []
  end.

(** The messages of a stream opened before the events [ls]: the data pushed to
    its identifier, up to the event that closes it, with the end marker if that
    is the end of the stream or of the session. *)
Fixpoint delivered (sid : Z) (ls : list mlabel) : list (list Z) :=
  match ls with
  | [] => []
  | l :: ls => message sid l ++ (if closes sid l then [] else delivered sid ls)
  end.

Definition open_after (sid : Z) (ls : list mlabel) : bool := negb (existsb (closes sid) ls).

Lemma delivered_snoc sid ls l :
  delivered sid (ls ++ [l]) = delivered sid ls ++ (if open_after sid ls then message sid l else []).
Proof.
  unfold open_after. induction ls as [|x ls IH]; simpl; [by destruct (closes sid l); rewrite ?app_nil_r|].
  destruct (closes sid x); simpl; [by rewrite !app_nil_r|]. by rewrite IH, app_assoc.
Qed.

Lemma open_after_snoc sid ls l : open_after sid (ls ++ [l]) = open_after sid ls && negb (closes sid l).
Proof. unfold open_after. rewrite existsb_app. simpl. by rewrite orb_false_r, negb_orb. Qed.

Lemma chan_send_spec k d m ok m' :
  chan_send k d m = Some (ok, m') ->
  exists c, m_chans m !! k = Some c /\
    ((ok = true /\ ch_rx c = true /\ m' = set_chans (<[k := push d c]> (m_chans m)) m) \/
     (ok = false /\ ch_rx c = false /\ m' = m)).
Proof.
  unfold chan_send. destruct (m_chans m !! k) as [c|]; [|done]. simpl. intros E. exists c. split; [done|].
  destruct (ch_rx c); [case_decide; [|done]|]; injection E as <- <-; auto.
Qed.

(** The map leads to channels of the right stream. *)
Definition minv (m : msession) : Prop :=
  (forall s k, m_streams m !! s = Some k -> exists c, m_chans m !! k = Some c /\ ch_sid c = s) /\
  (forall k c, m_chans m !! k = Some c -> (k < m_next m)%nat).

(** The channel [ch] of stream [sid], after the events [ls] since it was opened. *)
Definition tracked (sid : Z) (ch : nat) (ls : list mlabel) (m : msession) : Prop :=
  m_settings m = true /\
  (open_after sid ls = true -> m_streams m !! sid = Some ch) /\
  (open_after sid ls = false -> m_streams m !! sid <> Some ch) /\
  exists c taken, m_chans m !! ch = Some c /\ ch_sid c = sid /\ ch_rx c = true /\
    ch_given c = delivered sid ls /\ ch_given c = taken ++ ch_queue c.

(** A step that touches neither the streams nor the channels. *)
Lemma tracked_keep sid ch ls l m m' :
  tracked sid ch ls m -> m_settings m' = m_settings m -> m_streams m' = m_streams m -> m_chans m' = m_chans m ->
  message sid l = [] -> closes sid l = false -> tracked sid ch (ls ++ [l]) m'.
Proof.
  intros (Hs & Ho & Hc & c & t & E & R) Es Em Ec Hm Hcl. unfold tracked.
  rewrite Es, Em, Ec, open_after_snoc, delivered_snoc, Hm, Hcl. simpl. rewrite andb_true_r.
  split_and!; [done..|]. exists c, t. by destruct (open_after sid ls); rewrite app_nil_r.
Qed.

(** A message to a stream: to another one, or to this one. *)
Lemma tracked_send sid ch ls l m k d ok m' s (close : bool) :
  minv m -> tracked sid ch ls m -> m_streams m !! s = Some k ->
  let m0 := if close then set_streams (delete s (m_streams m)) m else m in
  chan_send k d m0 = Some (ok, m') -> message sid l = (if decide (s = sid) then [d] else []) ->
  closes sid l = (close && bool_decide (s = sid)) ->
  (ok = false -> k <> ch) /\ tracked sid ch (ls ++ [l]) m'.
Proof.
  intros [Hmap _] (Hs & Ho & Hc & c & t & E & Esid & Erx & Eg & Et) Hk m0 Hsend Hmsg Hcl.
  assert (E0 : m_chans m0 = m_chans m) by (unfold m0; by destruct close).
  assert (Es0 : m_settings m0 = m_settings m) by (unfold m0; by destruct close).
  apply chan_send_spec in Hsend as (ck & Ek & Hcase). rewrite E0 in Ek.
  destruct (Hmap s k Hk) as (c' & Ek' & Es). rewrite Ek in Ek'. injection Ek' as <-.
  assert (Hsm : m_settings m' = true /\ m_streams m' = m_streams m0)
    by (destruct Hcase as [(_ & _ & ->)|(_ & _ & ->)]; simpl; by rewrite Es0).
  destruct Hsm as [Hs' Hm']. assert (Hdel : m_streams m0 !! sid =
    if close && bool_decide (s = sid) then None else m_streams m !! sid).
  { unfold m0. destruct close; [|done]. simpl. case_bool_decide as Hd; [rewrite Hd; apply lookup_delete_eq|].
    by apply lookup_delete_ne. }
  destruct (decide (k = ch)) as [->|Hne].
  - rewrite E in Ek. injection Ek as <-. assert (s = sid) as -> by congruence.
    destruct Hcase as [(-> & _ & Em)|(_ & Hf & _)]; [|congruence]. split; [done|].
    assert (Hop : open_after sid ls = true) by (destruct (open_after sid ls); [done|by destruct Hc]).
    unfold tracked. rewrite open_after_snoc, delivered_snoc, Hmsg, Hcl, Hop, Hm', Hdel, bool_decide_true by done.
    rewrite decide_True by done. split_and!; [done|..].
    + rewrite andb_true_r. destruct close; simpl; [done|]. intros _. by apply Ho.
    + rewrite andb_true_r. destruct close; simpl; done.
    + exists (push d c), t. rewrite Em. simpl. rewrite lookup_insert_eq, Eg. split_and!; [done..|].
      rewrite <- Eg, Et. by rewrite app_assoc.
  - assert (Hno : s = sid -> open_after sid ls = false).
    { intros ->. destruct (open_after sid ls); [|done]. exfalso. apply Hne.
      specialize (Ho eq_refl). rewrite Hk in Ho. by injection Ho. }
    assert (Ech : m_chans m' !! ch = Some c).
    { destruct Hcase as [(_ & _ & ->)|(_ & _ & ->)]; simpl; rewrite ?E0; [by rewrite lookup_insert_ne|done]. }
    split; [done|]. unfold tracked. rewrite open_after_snoc, delivered_snoc, Hmsg, Hcl, Hm', Hdel.
    destruct (decide (s = sid)) as [->|Hns].
    + rewrite Hno by done. simpl. rewrite bool_decide_true by done.
      split_and!; [done|done|intros _; destruct close; simpl; [done|by apply Hc, Hno]|].
      exists c, t. by rewrite app_nil_r.
    + rewrite bool_decide_false by done. rewrite andb_false_r, andb_true_r.
      split_and!; [done|done|done|]. exists c, t. by destruct (open_after sid ls); rewrite app_nil_r.
Qed.

Lemma tracked_delete sid ch ls m s k :
  tracked sid ch ls m -> m_streams m !! s = Some k -> k <> ch ->
  tracked sid ch ls (set_streams (delete s (m_streams m)) m).
Proof.
  intros (Hs & Ho & Hc & R) Hk Hne. unfold tracked. simpl. split_and!; [done| | |done].
  - intros Hop. specialize (Ho Hop). rewrite lookup_delete_ne; [done|]. intros ->. congruence.
  - intros Hop. specialize (Hc Hop). rewrite lookup_delete_Some. naive_solver.
Qed.

(** Every step keeps the map in order, and the settings once seen. *)
Lemma minv_streams m st :
  minv m -> (forall s k, st !! s = Some k -> m_streams m !! s = Some k) -> minv (set_streams st m).
Proof. intros [Hm Hc] Hst. split; simpl; [|done]. intros s k Hk. by apply Hm, Hst. Qed.

Lemma minv_send k d m ok m' : minv m -> chan_send k d m = Some (ok, m') -> minv m'.
Proof.
  intros [Hm Hc] (c & Ek & [(_ & _ & ->)|(_ & _ & ->)])%chan_send_spec; [|done]. split; simpl.
  - intros s j Hj. destruct (Hm s j Hj) as (c' & E & Es). destruct (decide (k = j)) as [->|].
    + rewrite lookup_insert_eq. exists (push d c). split; [done|]. simpl. congruence.
    + exists c'. by rewrite lookup_insert_ne.
  - intros j c'. destruct (decide (k = j)) as [->|]; [intros _; by eapply Hc|rewrite lookup_insert_ne by done; apply Hc].
Qed.

Lemma delete_sub {A} (st : gmap Z A) x s k : delete x st !! s = Some k -> st !! s = Some k.
Proof. by intros [_ ?]%lookup_delete_Some. Qed.

Lemma minv_update m k c c' :
  minv m -> m_chans m !! k = Some c -> ch_sid c' = ch_sid c -> minv (set_chans (<[k := c']> (m_chans m)) m).
Proof.
  intros [Hm Hc] Ek Es. split; simpl.
  - intros s j Hj. destruct (Hm s j Hj) as (x & E & Ex). destruct (decide (k = j)) as [->|].
    + rewrite lookup_insert_eq. exists c'. split; [done|]. congruence.
    + exists x. by rewrite lookup_insert_ne.
  - intros j x. destruct (decide (k = j)) as [->|]; [intros _; by eapply Hc|rewrite lookup_insert_ne by done; apply Hc].
Qed.

Lemma on_settings_same scheme d m :
  m_streams (on_settings scheme d m) = m_streams m /\ m_chans (on_settings scheme d m) = m_chans m /\
  m_next (on_settings scheme d m) = m_next m /\ m_settings (on_settings scheme d m) = true /\
  m_ended (on_settings scheme d m) = m_ended m.
Proof. unfold on_settings. by repeat case_decide. Qed.

Lemma minv_same m m' :
  minv m -> m_streams m' = m_streams m -> m_chans m' = m_chans m -> m_next m' = m_next m -> minv m'.
Proof. unfold minv. by intros ? -> -> ->. Qed.

Lemma on_syn_next sid m :
  m_settings m = true ->
  m_streams (on_syn sid m) = <[sid := m_next m]> (m_streams m) /\
  m_chans (on_syn sid m) = <[m_next m := Chan sid [] true []]> (m_chans m) /\
  m_next (on_syn sid m) = S (m_next m) /\ m_settings (on_syn sid m) = true /\ m_ended (on_syn sid m) = m_ended m.
Proof. intros Hs. unfold on_syn. rewrite Hs. by case_decide. Qed.

Lemma minv_syn sid m : minv m -> minv (on_syn sid m).
Proof.
  intros [Hm Hc]. destruct (m_settings m) eqn:Hs; [|unfold on_syn; by rewrite Hs].
  destruct (on_syn_next sid m Hs) as (E1 & E2 & E3 & _). unfold minv. rewrite E1, E2, E3. split.
  - intros s k Hk. destruct (decide (sid = s)) as [->|Hne].
    + rewrite lookup_insert_eq in Hk. injection Hk as <-. rewrite lookup_insert_eq. by eexists.
    + rewrite lookup_insert_ne in Hk by done. destruct (Hm s k Hk) as (c & Ec & Es). exists c.
      apply Hc in Ec as Hlt. by rewrite lookup_insert_ne by lia.
  - intros k c. destruct (decide (m_next m = k)) as [<-|]; [intros; lia|].
    rewrite lookup_insert_ne by done. intros Hk%Hc. lia.
Qed.

Lemma minv_step scheme m l m' : minv m -> mstep scheme m l = Some m' -> minv m'.
Proof.
  intros Hi. destruct l as [f| |s|k|k|f]; simpl.
  - destruct (m_ended m); [done|]. unfold on_frame.
    case_decide; [by intros [= <-]|]. case_decide.
    { intros [= <-]. destruct (on_settings_same scheme (f_data f) m) as (E1 & E2 & E3 & _). by eapply minv_same. }
    case_decide; [intros [= <-]; by apply minv_syn|].
    case_decide.
    { destruct (m_streams m !! f_sid f) as [k|] eqn:Ek; [|by intros [= <-]].
      destruct (chan_send _ _ _) as [[ok m1]|] eqn:Es; [|done]. simpl. intros [= <-].
      apply (minv_send _ _ _ _ _ Hi) in Es. destruct ok; [done|]. apply minv_streams; [done|]. intros ? ?. apply delete_sub. }
    case_decide.
    { destruct (m_streams m !! f_sid f) as [k|] eqn:Ek; [|by intros [= <-]].
      destruct (chan_send _ _ _) as [[ok m1]|] eqn:Es; [|done]. simpl. intros [= <-].
      eapply minv_send; [|exact Es]. apply minv_streams; [done|]. intros ? ?. apply delete_sub. }
    repeat (case_decide; [by intros [= <-]|]). by intros [= <-].
  - destruct (m_ended m); [done|]. by intros [= <-].
  - destruct (m_ended m); [|done]. unfold drain_one. destruct (m_streams m !! s) as [k|]; [|done]. simpl.
    destruct (chan_send _ _ _) as [[ok m1]|] eqn:Es; [|done]. simpl. intros [= <-].
    eapply minv_send; [|exact Es]. apply minv_streams; [done|]. intros ? ?. apply delete_sub.
  - destruct (m_chans m !! k) as [c|] eqn:Ek; [|done]. simpl. destruct (ch_queue c); [done|].
    destruct (ch_rx c); [|done]. intros [= <-]. by eapply minv_update.
  - destruct (m_chans m !! k) as [c|] eqn:Ek; [|done]. simpl. intros [= <-]. by eapply minv_update.
  - by intros [= <-].
Qed.

Lemma tracked_syn sid ch ls m s d :
  minv m -> tracked sid ch ls m -> tracked sid ch (ls ++ [LFrame (Frame CMD_SYN s d)]) (on_syn s m).
Proof.
  intros [Hm Hc] (Hs & Ho & Hcl & c & t & E & Esid & R). destruct (on_syn_next s m Hs) as (E1 & E2 & E3 & E4 & _).
  unfold tracked. rewrite E1, E2, E4, open_after_snoc, delivered_snoc. simpl.
  apply Hc in E as Hlt.
  assert (Hch : <[m_next m := Chan s [] true []]> (m_chans m) !! ch = Some c) by (by rewrite lookup_insert_ne by lia).
  destruct (decide (s = sid)) as [->|Hne].
  - rewrite bool_decide_true by done. simpl. rewrite andb_false_r. split_and!; [done|done| |].
    + intros _. rewrite lookup_insert_eq. intros [= Heq]. lia.
    + exists c, t. by destruct (open_after sid ls); rewrite app_nil_r.
  - rewrite bool_decide_false by done. simpl. rewrite andb_true_r, lookup_insert_ne by done.
    split_and!; [done|done|done|]. exists c, t. by destruct (open_after sid ls); rewrite app_nil_r.
Qed.

Lemma tracked_queue sid ch ls l m k c q :
  tracked sid ch ls m -> m_chans m !! k = Some c -> (exists d, ch_queue c = d :: q) ->
  message sid l = [] -> closes sid l = false -> ch_rx c = true ->
  tracked sid ch (ls ++ [l]) (set_chans (<[k := Chan (ch_sid c) q true (ch_given c)]> (m_chans m)) m).
Proof.
  intros (Hs & Ho & Hc & c0 & t & E & Esid & Erx & Eg & Et) Ek [d Ed] Hmsg Hcl Hrx.
  unfold tracked. rewrite open_after_snoc, delivered_snoc, Hmsg, Hcl. simpl. rewrite andb_true_r.
  split_and!; [done..|]. destruct (decide (k = ch)) as [->|].
  - rewrite E in Ek. injection Ek as <-. exists (Chan (ch_sid c0) q true (ch_given c0)), (t ++ [d]).
    rewrite lookup_insert_eq. simpl. split_and!; [done|done|done| |].
    + by destruct (open_after sid ls); rewrite app_nil_r.
    + rewrite Et, Ed. by rewrite <- app_assoc.
  - exists c0, t. rewrite lookup_insert_ne by done. by destruct (open_after sid ls); rewrite app_nil_r.
Qed.

(** A frame that is not for a channel of the map: of another kind, or for an
    identifier that has no stream. *)
Lemma tracked_other sid ch ls l m m' :
  tracked sid ch ls m -> m_settings m' = m_settings m -> m_streams m' = m_streams m -> m_chans m' = m_chans m ->
  (message sid l = [] /\ closes sid l = false \/ m_streams m !! sid = None) -> tracked sid ch (ls ++ [l]) m'.
Proof.
  intros Ht Es Em Ec [[Hm Hc]|Hno]; [by eapply tracked_keep|].
  destruct Ht as (Hs & Ho & Hc & c & t & R). assert (Hop : open_after sid ls = false).
  { destruct (open_after sid ls); [|done]. by rewrite (Ho eq_refl) in Hno. }
  unfold tracked. rewrite Es, Em, Ec, open_after_snoc, delivered_snoc, Hop. simpl.
  split_and!; [done|done|intros _; by apply Hc|]. exists c, t. by rewrite app_nil_r.
Qed.

Lemma message_none sid cmd s d :
  cmd <> CMD_SYN -> cmd <> CMD_PSH -> cmd <> CMD_FIN ->
  let l := LFrame (Frame cmd s d) in message sid l = [] /\ closes sid l = false.
Proof.
  intros N1 N2 N3. simpl. rewrite (bool_decide_false (cmd = CMD_SYN)), (bool_decide_false (cmd = CMD_FIN)) by done.
  rewrite (decide_False (P := cmd = CMD_PSH)), (decide_False (P := cmd = CMD_FIN)), andb_false_r by done.
  by destruct (decide (s = sid)).
Qed.

Lemma message_foreign sid cmd s d :
  s <> sid -> let l := LFrame (Frame cmd s d) in message sid l = [] /\ closes sid l = false.
Proof. intros N. simpl. by rewrite decide_False, bool_decide_false by done. Qed.

(** The data and end frames: to the channel of their stream, if there is one. *)
Lemma tracked_psh sid ch ls m s d m' :
  minv m -> tracked sid ch ls m -> (match m_streams m !! s with
    | Some k => '(ok, m) ← chan_send k d m; Some (if ok : bool then m else set_streams (delete s (m_streams m)) m)
    | None => Some m end) = Some m' -> tracked sid ch (ls ++ [LFrame (Frame CMD_PSH s d)]) m'.
Proof.
  intros Hi Ht. destruct (m_streams m !! s) as [k|] eqn:Ek.
  - destruct (chan_send k d m) as [[ok m1]|] eqn:Es; [|done]. simpl. intros [= <-].
    destruct (tracked_send sid ch ls (LFrame (Frame CMD_PSH s d)) m k d ok m1 s false Hi Ht Ek Es) as [Hok Ht'];
      [done|simpl; by rewrite andb_false_r|]. destruct ok; [done|].
    apply (tracked_delete _ _ _ _ _ k Ht'); [|by apply Hok].
    apply chan_send_spec in Es as (c & _ & [(? & _)|(_ & _ & ->)]); done.
  - intros [= <-]. apply (tracked_other _ _ _ _ m); [done..|].
    destruct (decide (s = sid)) as [->|Hne]; [by right|left; by apply message_foreign].
Qed.

Lemma tracked_fin sid ch ls m s d m' :
  minv m -> tracked sid ch ls m -> (match m_streams m !! s with
    | Some k => '(_, m) ← chan_send k [] (set_streams (delete s (m_streams m)) m); Some m
    | None => Some m end) = Some m' -> tracked sid ch (ls ++ [LFrame (Frame CMD_FIN s d)]) m'.
Proof.
  intros Hi Ht. destruct (m_streams m !! s) as [k|] eqn:Ek.
  - destruct (chan_send k [] _) as [[ok m1]|] eqn:Es; [|done]. simpl. intros [= <-].
    by apply (tracked_send sid ch ls (LFrame (Frame CMD_FIN s d)) m k [] ok m1 s true Hi Ht Ek Es);
      [|simpl; rewrite andb_true_r].
  - intros [= <-]. apply (tracked_other _ _ _ _ m); [done..|].
    destruct (decide (s = sid)) as [->|Hne]; [by right|left; by apply message_foreign].
Qed.

Lemma tracked_frame scheme sid ch ls m f m' :
  minv m -> tracked sid ch ls m -> on_frame scheme f m = Some m' -> tracked sid ch (ls ++ [LFrame f]) m'.
Proof.
  intros Hi Ht. destruct f as [cmd s d]. unfold on_frame. cbn [f_cmd f_sid f_data].
  assert (Hkeep : forall m', cmd <> CMD_SYN -> cmd <> CMD_PSH -> cmd <> CMD_FIN -> m_settings m' = m_settings m ->
    m_streams m' = m_streams m -> m_chans m' = m_chans m -> tracked sid ch (ls ++ [LFrame (Frame cmd s d)]) m').
  { intros m1 N1 N2 N3 Es Em Ec. apply (tracked_other _ _ _ _ m); [done..|]. left. by apply message_none; auto. }
  case_decide as C0; [intros [= <-]; subst; by apply Hkeep|].
  case_decide as C4.
  { intros [= <-]. destruct (on_settings_same scheme d m) as (E1 & E2 & _ & E4 & _). subst.
    apply Hkeep; [done..| |done|done]. rewrite E4. symmetry. apply Ht. }
  case_decide as C1; [intros [= <-]; subst; by apply tracked_syn|].
  case_decide as C2; [subst; by apply tracked_psh|]. case_decide as C3; [subst; by apply tracked_fin|].
  repeat (case_decide; [intros [= <-]; by apply Hkeep|]). intros [= <-]. by apply Hkeep.
Qed.

Lemma tracked_step scheme sid ch ls l m m' :
  minv m -> tracked sid ch ls m -> mstep scheme m l = Some m' -> l <> LDrop ch -> tracked sid ch (ls ++ [l]) m'.
Proof.
  intros Hi Ht. destruct l as [f| |s|k|k|f]; simpl.
  - destruct (m_ended m); [done|]. intros Hf _. by eapply tracked_frame.
  - destruct (m_ended m); [done|]. intros [= <-] _. by eapply tracked_keep.
  - destruct (m_ended m); [|done]. unfold drain_one. destruct (m_streams m !! s) as [k|] eqn:Ek; [|done]. simpl.
    destruct (chan_send k [] _) as [[ok m1]|] eqn:Es; [|done]. simpl. intros [= <-] _.
    by apply (tracked_send sid ch ls (LDrain s) m k [] ok m1 s true Hi Ht Ek Es).
  - destruct (m_chans m !! k) as [c|] eqn:Ek; [|done]. simpl. destruct (ch_queue c) as [|d q] eqn:Eq; [done|].
    destruct (ch_rx c) eqn:Erx; [|done]. intros [= <-] _. apply tracked_queue; eauto.
  - destruct (m_chans m !! k) as [c|] eqn:Ek; [|done]. simpl. intros [= <-] Hne.
    assert (k <> ch) by congruence. destruct Ht as (Hs & Ho & Hc & c0 & t & R).
    unfold tracked. rewrite open_after_snoc, delivered_snoc. simpl. rewrite andb_true_r. split_and!; [done..|].
    exists c0, t. rewrite lookup_insert_ne by done. by destruct (open_after sid ls); rewrite app_nil_r.
  - intros [= <-] _. by eapply tracked_keep.
Qed.

Lemma mrun_app scheme m ls1 ls2 : mrun scheme m (ls1 ++ ls2) = mrun scheme m ls1 ≫= fun m' => mrun scheme m' ls2.
Proof. revert m. induction ls1 as [|l ls1 IH]; intros m; [done|]. simpl. destruct (mstep scheme m l); [apply IH|done]. Qed.

Lemma minv_run scheme m ls m' : minv m -> mrun scheme m ls = Some m' -> minv m'.
Proof.
  revert m. induction ls as [|l ls IH]; intros m Hi; [by intros [= <-]|]. simpl.
  destruct (mstep scheme m l) as [m1|] eqn:E; [|done]. apply IH. by eapply minv_step.
Qed.

Lemma minv0 : minv msession0.
Proof. split; intros ? ?; simpl; by rewrite lookup_empty. Qed.

(** ** Which streams there are *)

(** The frames among the events, and how many of them open a stream. *)
Definition frames_of (ls : list mlabel) : list frame :=
  omap (fun l => match l with LFrame f => Some f | _ => None end) ls.
Definition opened (fs : list frame) : nat := length (filter (fun f => f_cmd f = CMD_SYN) fs).

Lemma frames_of_app l1 l2 : frames_of (l1 ++ l2) = frames_of l1 ++ frames_of l2.
Proof. apply omap_app. Qed.
Lemma opened_app l1 l2 : opened (l1 ++ l2) = (opened l1 + opened l2)%nat.
Proof. unfold opened. by rewrite filter_app, length_app. Qed.

Lemma opened_one f : opened [f] = if decide (f_cmd f = CMD_SYN) then 1%nat else 0%nat.
Proof. unfold opened. rewrite filter_cons, filter_nil. by case_decide. Qed.

(** Only a SYN frame opens a stream, and only after the settings. *)
Definition opens (m : msession) (l : mlabel) : bool :=
  match l with LFrame f => bool_decide (f_cmd f = CMD_SYN) && m_settings m | _ => false end.

Lemma mstep_next scheme m l m' : mstep scheme m l = Some m' ->
  m_next m' = (if opens m l then S (m_next m) else m_next m) /\
  (m_settings m = true -> m_settings m' = true) /\
  (m_ended m' = false -> m_ended m = false /\ forall f, l = LFrame f -> f_cmd f = CMD_SYN -> m_settings m = true).
Proof.
  assert (Hsend : forall k d m1 ok m2, chan_send k d m1 = Some (ok, m2) ->
    m_next m2 = m_next m1 /\ m_settings m2 = m_settings m1 /\ m_ended m2 = m_ended m1).
  { intros k d m1 ok m2 (c & _ & [(_ & _ & ->)|(_ & _ & ->)])%chan_send_spec; done. }
  destruct l as [f| |s|k|k|f]; simpl.
  - destruct (m_ended m) eqn:Een; [done|].
    destruct (decide (f_cmd f = CMD_SYN)) as [Ec|Nc].
    { assert (on_frame scheme f m = Some (on_syn (f_sid f) m)) as -> by (unfold on_frame; by rewrite Ec).
      rewrite bool_decide_true by done. intros [= <-]. simpl.
      destruct (m_settings m) eqn:Es.
      - destruct (on_syn_next (f_sid f) m Es) as (_ & _ & E3 & E4 & E5). rewrite E3, E4, E5. by split_and!.
      - unfold on_syn. rewrite Es. simpl. by split_and!. }
    unfold on_frame. rewrite (bool_decide_false (f_cmd f = CMD_SYN)), (decide_False (P := f_cmd f = CMD_SYN)) by done. simpl.
    assert (Hno : forall f', LFrame f = LFrame f' -> f_cmd f' = CMD_SYN -> m_settings m = true) by (by intros ? [= <-]).
    case_decide; [intros [= <-]; by split_and!|]. case_decide.
    { intros [= <-]. destruct (on_settings_same scheme (f_data f) m) as (_ & _ & E3 & E4 & E5).
      rewrite E3, E4, E5. by split_and!. }
    case_decide; [|case_decide].
    + destruct (m_streams m !! f_sid f) as [k|]; [|intros [= <-]; by split_and!].
      destruct (chan_send _ _ _) as [[ok m1]|] eqn:Es; [|done]. simpl. intros [= <-].
      destruct (Hsend _ _ _ _ _ Es) as (E1 & E2 & E3). destruct ok; simpl; rewrite E1, E2, E3; by split_and!.
    + destruct (m_streams m !! f_sid f) as [k|]; [|intros [= <-]; by split_and!].
      destruct (chan_send _ _ _) as [[ok m1]|] eqn:Es; [|done]. simpl. intros [= <-].
      destruct (Hsend _ _ _ _ _ Es) as (E1 & E2 & E3). rewrite E1, E2, E3. by split_and!.
    + repeat (case_decide; [intros [= <-]; by split_and!|]). intros [= <-]. by split_and!.
  - destruct (m_ended m); [done|]. intros [= <-]. by split_and!.
  - destruct (m_ended m) eqn:Een; [|done]. unfold drain_one. destruct (m_streams m !! s) as [k|]; [|done]. simpl.
    destruct (chan_send _ _ _) as [[ok m1]|] eqn:Es; [|done]. simpl. intros [= <-].
    destruct (Hsend _ _ _ _ _ Es) as (E1 & E2 & E3). rewrite E1, E2, E3. simpl. rewrite Een. by split_and!.
  - destruct (m_chans m !! k) as [c|]; [|done]. simpl. destruct (ch_queue c); [done|]. destruct (ch_rx c); [|done].
    intros [= <-]. by split_and!.
  - destruct (m_chans m !! k) as [c|]; [|done]. simpl. intros [= <-]. by split_and!.
  - intros [= <-]. by split_and!.
Qed.

(** The streams are numbered by the SYN frames so far. *)
Lemma next_opened scheme ls m :
  mrun scheme msession0 ls = Some m -> m_ended m = false -> m_next m = opened (frames_of ls).
Proof.
  revert m. induction ls as [|l ls IH] using rev_ind; intros m; [by intros [= <-]|]. rewrite mrun_app.
  destruct (mrun scheme msession0 ls) as [m1|]; [|done]. simpl. destruct (mstep scheme m1 l) as [m2|] eqn:E; [|done].
  intros [= <-] He. destruct (mstep_next _ _ _ _ E) as (En & _ & Hen). destruct (Hen He) as [He1 Hset].
  rewrite En, frames_of_app, opened_app, (IH m1) by done. destruct l as [f| | | | |]; simpl; try (by rewrite Nat.add_0_r).
  change (frames_of [LFrame f]) with [f]. rewrite opened_one. case_decide as Hc.
  - rewrite bool_decide_true, (Hset f) by done. simpl. lia.
  - rewrite bool_decide_false by done. simpl. lia.
Qed.

(** A stream that is there was opened by a SYN frame. *)
Lemma opened_at scheme ls m ch :
  mrun scheme msession0 ls = Some m -> (ch < m_next m)%nat ->
  exists ls1 sid d ls2 m1, ls = ls1 ++ LFrame (Frame CMD_SYN sid d) :: ls2 /\ mrun scheme msession0 ls1 = Some m1 /\
    m_next m1 = ch /\ m_settings m1 = true /\ m_ended m1 = false /\ mrun scheme (on_syn sid m1) ls2 = Some m.
Proof.
  revert m. induction ls as [|l ls IH] using rev_ind; intros m; [intros [= <-]; simpl; lia|]. rewrite mrun_app.
  destruct (mrun scheme msession0 ls) as [m1|] eqn:E1; [|done]. simpl. destruct (mstep scheme m1 l) as [m2|] eqn:E; [|done].
  intros [= <-] Hlt. destruct (mstep_next _ _ _ _ E) as (En & _ & _).
  destruct (decide (ch < m_next m1)%nat) as [Hl|Hg].
  - destruct (IH m1 eq_refl Hl) as (ls1 & sid & d & ls2 & m0 & -> & ? & ? & ? & ? & Er).
    exists ls1, sid, d, (ls2 ++ [l]), m0. rewrite <- app_assoc. split_and!; [done..|].
    rewrite mrun_app, Er. simpl. by rewrite E.
  - destruct (opens m1 l) eqn:Eo; [|lia]. destruct l as [[c sid d]| | | | |]; try done.
    simpl in Eo. apply andb_true_iff in Eo as [Hc%bool_decide_eq_true Hs]. cbn [f_cmd] in Hc. subst c.
    exists ls, sid, d, [], m1. simpl in E. destruct (m_ended m1); [done|]. injection E as <-. split_and!; [done|done|lia|done..].
Qed.

(** What a step does to a channel: nothing, one more message, or what its
    handler does with it. *)
Inductive chan_change (ch : nat) (c : chan) : mlabel -> chan -> Prop :=
| chan_same l : chan_change ch c l c
| chan_push l d : ch_rx c = true -> chan_change ch c l (push d c)
| chan_take d q : ch_rx c = true -> ch_queue c = d :: q ->
    chan_change ch c (LTake ch) (Chan (ch_sid c) q true (ch_given c))
| chan_drop : chan_change ch c (LDrop ch) (Chan (ch_sid c) (ch_queue c) false (ch_given c)).

Lemma chan_evolves scheme m l m' ch c :
  minv m -> mstep scheme m l = Some m' -> m_chans m !! ch = Some c ->
  exists c', m_chans m' !! ch = Some c' /\ chan_change ch c l c'.
Proof.
  intros [_ Hlt] Hs Hc.
  assert (Hkeep : m_chans m' = m_chans m -> exists c', m_chans m' !! ch = Some c' /\ chan_change ch c l c').
  { intros ->. exists c. split; [done|constructor]. }
  assert (Hsend : forall k d m1 ok m2, m_chans m1 = m_chans m -> chan_send k d m1 = Some (ok, m2) ->
    exists c', m_chans m2 !! ch = Some c' /\ chan_change ch c l c').
  { intros k d m1 ok m2 E1 (c1 & Ek & [(_ & Hr & ->)|(_ & _ & ->)])%chan_send_spec; rewrite E1 in Ek.
    - simpl. rewrite E1. destruct (decide (k = ch)) as [->|Hne].
      + rewrite Hc in Ek. injection Ek as <-. rewrite lookup_insert_eq. eexists. split; [done|]. by constructor.
      + rewrite lookup_insert_ne by done. exists c. split; [done|constructor].
    - rewrite E1. exists c. split; [done|constructor]. }
  destruct l as [f| |s|k|k|f]; simpl in Hs.
  - destruct (m_ended m); [done|]. unfold on_frame in Hs.
    case_decide; [injection Hs as <-; by apply Hkeep|]. case_decide.
    { injection Hs as <-. apply Hkeep, on_settings_same. }
    case_decide; [|case_decide; [|case_decide]].
    + injection Hs as <-. destruct (m_settings m) eqn:Es; [|apply Hkeep; unfold on_syn; by rewrite Es].
      rewrite (proj1 (proj2 (on_syn_next (f_sid f) m Es))). exists c. apply Hlt in Hc as Hl.
      rewrite lookup_insert_ne by lia. split; [done|constructor].
    + destruct (m_streams m !! f_sid f) as [k|]; [|injection Hs as <-; by apply Hkeep].
      destruct (chan_send _ _ _) as [[ok m1]|] eqn:Es; [|done]. simpl in Hs. injection Hs as <-.
      apply Hsend in Es; [|done]. by destruct ok.
    + destruct (m_streams m !! f_sid f) as [k|]; [|injection Hs as <-; by apply Hkeep].
      destruct (chan_send _ _ _) as [[ok m1]|] eqn:Es; [|done]. simpl in Hs. injection Hs as <-. by apply Hsend in Es.
    + repeat (case_decide; [injection Hs as <-; by apply Hkeep|]). injection Hs as <-. by apply Hkeep.
  - destruct (m_ended m); [done|]. injection Hs as <-. by apply Hkeep.
  - destruct (m_ended m); [|done]. unfold drain_one in Hs. destruct (m_streams m !! s) as [k|]; [|done]. simpl in Hs.
    destruct (chan_send _ _ _) as [[ok m1]|] eqn:Es; [|done]. simpl in Hs. injection Hs as <-. by apply Hsend in Es.
  - destruct (m_chans m !! k) as [c1|] eqn:Ek; [|done]. simpl in Hs. destruct (ch_queue c1) as [|d q] eqn:Eq; [done|].
    destruct (ch_rx c1) eqn:Er; [|done]. injection Hs as <-. simpl. destruct (decide (k = ch)) as [->|Hne].
    + rewrite Hc in Ek. injection Ek as <-. rewrite lookup_insert_eq. eexists. split; [done|]. by econstructor.
    + rewrite lookup_insert_ne by done. exists c. split; [done|constructor].
  - destruct (m_chans m !! k) as [c1|] eqn:Ek; [|done]. simpl in Hs. injection Hs as <-. simpl.
    destruct (decide (k = ch)) as [->|Hne].
    + rewrite Hc in Ek. injection Ek as <-. rewrite lookup_insert_eq. eexists. split; [done|]. constructor.
    + rewrite lookup_insert_ne by done. exists c. split; [done|constructor].
  - injection Hs as <-. by apply Hkeep.
Qed.

(** After a handler has dropped its receiver nothing more is given to it. *)
Lemma chan_dead ch c l c' :
  chan_change ch c l c' -> ch_rx c = false ->
  ch_sid c' = ch_sid c /\ ch_rx c' = false /\ ch_given c' = ch_given c.
Proof. destruct 1; simpl; intros; [by split_and!|congruence|congruence|by split_and!]. Qed.

(** Frames are only added to those handed to the writer task, and data frames only
    by the handlers. *)
Definition wrote (l : mlabel) (out out' : list frame) : Prop :=
  exists fs, out' = out ++ fs /\ (forall f, l = LWrite f -> fs = [f]) /\
    (forall f, f ∈ fs -> f_cmd f = CMD_PSH -> l = LWrite f).

Lemma wrote_none l out : (forall f, l <> LWrite f) -> wrote l out out.
Proof.
  intros Hl. exists []. rewrite app_nil_r. split_and!; [done|by intros f ->; destruct (Hl f)|by intros f ?%elem_of_nil].
Qed.

Lemma wrote_own l out fs : (forall f, l <> LWrite f) -> Forall (fun f => f_cmd f <> CMD_PSH) fs -> wrote l out (out ++ fs).
Proof.
  intros Hl Hfs. exists fs. split_and!; [done|by intros f ->; destruct (Hl f)|].
  rewrite Forall_forall in Hfs. intros f Hf Hc. by destruct (Hfs f Hf).
Qed.

Lemma mstep_out scheme m l m' : mstep scheme m l = Some m' -> wrote l (m_out m) (m_out m').
Proof.
  assert (Hsend : forall k d m1 ok m2, chan_send k d m1 = Some (ok, m2) -> m_out m2 = m_out m1).
  { by intros k d m1 ok m2 (c & _ & [(_ & _ & ->)|(_ & _ & ->)])%chan_send_spec. }
  assert (Hsame : m_out m' = m_out m -> (forall f, l <> LWrite f) -> wrote l (m_out m) (m_out m')).
  { intros ->. by apply wrote_none. }
  destruct l as [f| |s|k|k|f]; simpl.
  - destruct (m_ended m); [done|]. unfold on_frame.
    case_decide; [intros [= <-]; by apply Hsame|]. case_decide.
    { intros [= <-]. unfold on_settings. simpl. repeat case_decide; simpl; rewrite <- ?app_assoc;
        first [apply wrote_none | apply wrote_own]; try done; repeat (apply Forall_cons; split); done || apply Forall_nil. }
    case_decide; [|case_decide; [|case_decide; [|case_decide]]].
    + intros [= <-]. unfold on_syn. destruct (m_settings m); [case_decide|]; simpl;
        first [apply wrote_none | apply wrote_own]; try done; by apply Forall_singleton.
    + destruct (m_streams m !! f_sid f) as [k|]; [|intros [= <-]; by apply Hsame].
      destruct (chan_send _ _ _) as [[ok m1]|] eqn:Es; [|done]. simpl. intros [= <-]. apply Hsend in Es.
      apply Hsame; [by destruct ok|done].
    + destruct (m_streams m !! f_sid f) as [k|]; [|intros [= <-]; by apply Hsame].
      destruct (chan_send _ _ _) as [[ok m1]|] eqn:Es; [|done]. simpl. intros [= <-]. apply Hsend in Es. by apply Hsame.
    + intros [= <-]. apply wrote_own; [done|]. by apply Forall_singleton.
    + repeat (case_decide; [intros [= <-]; by apply Hsame|]). intros [= <-]. by apply Hsame.
  - destruct (m_ended m); [done|]. intros [= <-]. by apply Hsame.
  - destruct (m_ended m); [|done]. unfold drain_one. destruct (m_streams m !! s) as [k|]; [|done]. simpl.
    destruct (chan_send _ _ _) as [[ok m1]|] eqn:Es; [|done]. simpl. intros [= <-]. apply Hsend in Es. by apply Hsame.
  - destruct (m_chans m !! k) as [c|]; [|done]. simpl. destruct (ch_queue c); [done|]. destruct (ch_rx c); [|done].
    intros [= <-]. by apply Hsame.
  - destruct (m_chans m !! k) as [c|]; [|done]. simpl. intros [= <-]. by apply Hsame.
  - intros [= <-]. exists [f]. split_and!; [done|by intros ? [= <-]|]. by intros f' ->%list_elem_of_singleton.
Qed.

Lemma tracked_open sid m : m_settings m = true -> tracked sid (m_next m) [] (on_syn sid m).
Proof.
  intros Hs. destruct (on_syn_next sid m Hs) as (E1 & E2 & _ & E4 & _). unfold tracked. rewrite E1, E2, E4.
  split_and!; [done|by rewrite lookup_insert_eq|done|]. exists (Chan sid [] true []), []. by rewrite lookup_insert_eq.
Qed.

(** What a stream's channel is given, also after its handler has ended. *)
Lemma given_prefix scheme sid m1 ls m :
  minv m1 -> m_settings m1 = true -> mrun scheme (on_syn sid m1) ls = Some m ->
  exists c, m_chans m !! m_next m1 = Some c /\ ch_sid c = sid /\ ch_given c `prefix_of` delivered sid ls.
Proof.
  intros Hi Hs Hr. pose proof (minv_syn sid m1 Hi) as Hi2.
  enough (exists c, m_chans m !! m_next m1 = Some c /\ ch_sid c = sid /\ ch_given c `prefix_of` delivered sid ls /\
    (ch_rx c = true -> tracked sid (m_next m1) ls m)) as (c & ? & ? & ? & _) by eauto.
  revert m Hr. induction ls as [|l ls IH] using rev_ind; intros m Hr.
  - injection Hr as <-. pose proof (tracked_open sid m1 Hs) as Ht. pose proof Ht as (_ & _ & _ & c & t & E & Es & Er & Eg & _).
    exists c. split_and!; [done|done|by rewrite Eg|done].
  - rewrite mrun_app in Hr. destruct (mrun scheme (on_syn sid m1) ls) as [m2|] eqn:E2; [|done]. simpl in Hr.
    destruct (mstep scheme m2 l) as [m3|] eqn:E3; [|done]. injection Hr as <-.
    pose proof (minv_run _ _ _ _ Hi2 E2) as Him. destruct (IH m2 eq_refl) as (c & E & Esid & Hg & Ht).
    assert (Hmono : delivered sid ls `prefix_of` delivered sid (ls ++ [l])) by (rewrite delivered_snoc; by apply prefix_app_r).
    destruct (ch_rx c) eqn:Erx.
    + destruct (decide (l = LDrop (m_next m1))) as [->|Hnd].
      * simpl in E3. rewrite E in E3. simpl in E3. injection E3 as <-. simpl. rewrite lookup_insert_eq. eexists.
        split; [done|]. simpl. split_and!; [done|by etrans|done].
      * pose proof (tracked_step _ _ _ _ _ _ _ Him (Ht eq_refl) E3 Hnd) as Ht3.
        pose proof Ht3 as (_ & _ & _ & c3 & t & E4 & Es & Er & Eg & _). exists c3. split_and!; [done|done|by rewrite Eg|done].
    + destruct (chan_evolves _ _ _ _ _ _ Him E3 E) as (c' & E' & Hch). destruct (chan_dead _ _ _ _ Hch Erx) as (Es' & Er' & Eg'). exists c'.
      split_and!; [done|congruence|by rewrite Eg'; etrans|congruence].
Qed.

(** the AnyTLS multiplexer keeps streams apart.  Under every interleaving of
    the client's frames with the handlers that take messages, once a stream
    has been opened, its handler's channel is given exactly the payloads of
    the data frames with that stream's identifier, in order, until the frame
    that closes or reopens the identifier, with an empty end marker at its end
    frame or the end of the session; the handler takes them in that order.  No
    frame of another stream changes it. *)
Theorem stream_delivery scheme ls1 sid d ls2 m1 m :
  mrun scheme msession0 ls1 = Some m1 -> m_settings m1 = true ->
  mrun scheme m1 (LFrame (Frame CMD_SYN sid d) :: ls2) = Some m ->
  let ch := m_next m1 in
  Forall (fun l => l <> LDrop ch) ls2 ->
  exists c taken, m_chans m !! ch = Some c /\ ch_sid c = sid /\
    ch_given c = delivered sid ls2 /\ ch_given c = taken ++ ch_queue c.
Proof.
  intros H1 Hs H2 ch Hd. pose proof (minv_run _ _ _ _ minv0 H1) as Hi. cbn [mrun] in H2.
  destruct (mstep scheme m1 _) as [m2|] eqn:E; [|done]. cbn [mbind option_bind] in H2.
  pose proof (minv_step _ _ _ _ Hi E) as Hi2. simpl in E. destruct (m_ended m1); [done|].
  injection E as <-.
  pose proof (tracked_open sid m1 Hs) as Ht.
  enough (tracked sid ch ls2 m) as (_ & _ & _ & c & t & ? & ? & _ & ? & ?) by (by exists c, t).
  clear H1 Hs Hi. revert m H2. induction ls2 as [|l ls2 IH] using rev_ind; intros m H2.
  - by injection H2 as <-.
  - apply Forall_app in Hd as [Hd Hl]. apply Forall_inv in Hl. rewrite mrun_app in H2.
    destruct (mrun scheme (on_syn sid m1) ls2) as [m3|] eqn:E3; [|done]. simpl in H2.
    destruct (mstep scheme m3 l) as [m4|] eqn:E4; [|done]. injection H2 as <-.
    eapply tracked_step; [by eapply minv_run|by apply IH|done|done].
Qed.

(** ** Authentication *)

(** The server reads 34 bytes, and then the padding if they start with the hash. *)
Definition credential (hash : list Z) (pad : list Z) : list Z := hash ++ be_bytes 2 (Z.of_nat (length pad)) ++ pad.

Lemma reads_authenticate {S} `{SourceLaws S} hash pad :
  length hash = 32%nat -> (length pad < Z.to_nat 65536)%nat -> reads (S := S) (authenticate hash) (credential hash pad) true.
Proof.
  intros Hh Hp. unfold credential. rewrite app_assoc. unfold authenticate.
  eapply reads_bind; [apply reads_exact; by rewrite length_app, Hh|].
  destruct (take_drop_app_eq hash (be_bytes 2 (Z.of_nat (length pad))) 32 Hh) as [-> ->].
  rewrite decide_False by auto. rewrite be_val_bytes by (change (256 ^ Z.of_nat 2) with 65536; lia). rewrite Nat2Z.id.
  apply reads_bind_r with pad; [|apply reads_ret].
  case_decide; [by apply reads_exact|]. replace pad with (@nil Z) by (destruct pad; simpl in *; [done|lia]).
  apply reads_ret.
Qed.

Lemma sound_authenticate {S} `{SourceLaws S} hash :
  sound (S := S) (authenticate hash) (fun bs b =>
    if b then exists pad, bs = credential hash pad else length bs = 34%nat /\ take 32 bs <> hash).
Proof.
  unfold authenticate. eapply sound_bind; [apply sound_exact|]. intros b1 a Hok [-> Hl].
  case_decide as Hne; [by apply sound_ret; rewrite app_nil_r|].
  eapply (sound_bind _ _ (fun bs _ => length bs = Z.to_nat (be_val (drop 32 a)))).
  - case_decide; [|apply sound_ret; simpl; lia]. eapply sound_impl; [apply sound_exact|]. simpl. tauto.
  - intros pad _ _ Hpad. apply sound_ret. exists pad. unfold credential. rewrite app_nil_r.
    assert (Hd : bytes_ok (drop 32 a)) by auto with bytes.
    rewrite Hpad, Z2Nat.id by (apply be_val_bound in Hd; lia).
    rewrite be_bytes_val by (rewrite ?length_drop; (done || lia)).
    by rewrite app_assoc, <- Hne, take_drop.
Qed.

Lemma quiet_authenticate {S} `{SourceLaws S} hash : quiet (S := S) (authenticate hash).
Proof. unfold authenticate. quiet_solve. Qed.

(** the AnyTLS server lets in exactly the clients that know the password.
    A client that sends the password hash and any padding is authenticated,
    and exactly that prefix is consumed; one whose first 34 bytes are complete
    but start differently is turned away after them; nothing else is let in,
    and authentication neither panics nor has a visible effect. *)
Theorem authenticate_exact {S} `{SourceLaws S} hash :
  length hash = 32%nat ->
  (forall pad, (length pad < Z.to_nat 65536)%nat -> reads (authenticate hash) (credential hash pad) true) /\
  sound (authenticate hash) (fun bs b =>
    if b then exists pad, bs = credential hash pad else length bs = 34%nat /\ take 32 bs <> hash) /\
  quiet (authenticate hash).
Proof.
  intros Hh. split_and!; [by intros; apply reads_authenticate|apply sound_authenticate|apply quiet_authenticate].
Qed.

(** ** Witnesses *)

Definition demo_open : list mlabel := [LFrame (Frame CMD_SETTINGS 0 (str "v=2"))].
Definition demo_events : list mlabel :=
  [LFrame (Frame CMD_PSH 5 [1; 2]); LFrame (Frame CMD_SYN 6 []); LFrame (Frame CMD_PSH 6 [9]); LTake 0;
   LFrame (Frame CMD_PSH 5 [3]); LFrame (Frame CMD_FIN 5 [])].

Lemma stream_delivery_witness :
  exists m c, (mrun demo_scheme msession0 demo_open ≫= fun m1 =>
    mrun demo_scheme m1 (LFrame (Frame CMD_SYN 5 []) :: demo_events)) = Some m /\
    m_chans m !! 0%nat = Some c /\ ch_given c = [[1; 2]; [3]; []].
Proof.
  destruct (mrun demo_scheme msession0 demo_open) as [m1|] eqn:E1; [|discriminate E1].
  destruct (mrun demo_scheme m1 (LFrame (Frame CMD_SYN 5 []) :: demo_events)) as [m|] eqn:E2.
  2: { exfalso. vm_compute in E1. injection E1 as <-. vm_compute in E2. discriminate E2. }
  assert (Hs : m_settings m1 = true) by (vm_compute in E1; injection E1 as <-; reflexivity).
  assert (Hn : m_next m1 = 0%nat) by (vm_compute in E1; injection E1 as <-; reflexivity).
  assert (Hd : Forall (fun l => l <> LDrop (m_next m1)) demo_events) by (repeat constructor; discriminate).
  destruct (stream_delivery demo_scheme demo_open 5 [] demo_events m1 m E1 Hs E2 Hd) as (c & t & Ec & _ & Eg & _).
  rewrite Hn in Ec. exists m, c. split; [exact E2|]. split; [exact Ec|]. rewrite Eg. reflexivity.
Defined.

Lemma demo_frames_ok : Forall frame_ok [Frame 2 5 [1; 2]; Frame 3 5 []].
Proof. unfold frame_ok, byte_ok. repeat (apply Forall_cons; split); try apply Forall_nil; cbn [f_cmd f_sid f_data length]; lia. Qed.

Lemma frames_roundtrip_witness :
  exists s', read_frames 2 ([2; 0; 0; 0; 5; 0; 2; 1; 2; 3; 0; 0; 0; 5; 0; 0; 44] : list Z) =
    (Done [Frame 2 5 [1; 2]; Frame 3 5 []], s') /\ s' = [44].
Proof.
  destruct (@frames_roundtrip (list Z) slice_source slice_laws _ demo_frames_ok
    [2; 0; 0; 0; 5; 0; 2; 1; 2; 3; 0; 0; 0; 5; 0; 0; 44] [44] eq_refl) as (s' & E & P & _).
  exists s'. exact (conj E P).
Defined.

Lemma authenticate_exact_witness :
  exists s', authenticate (replicate 32 7) (replicate 32 7 ++ [0; 1; 9; 4] : list Z) = (Done true, s') /\ s' = [4].
Proof.
  assert (H1 : (length [9] < Z.to_nat 65536)%nat) by (simpl; lia).
  destruct (proj1 (@authenticate_exact (list Z) slice_source slice_laws (replicate 32 7) eq_refl) [9] H1
    (replicate 32 7 ++ [0; 1; 9; 4]) [4] eq_refl) as (s' & E & P & _).
  exists s'. exact (conj E P).
Defined.
