(* ===== verification/AnyTlsRelay.v ===== *)
(** * AnyTLS: a stream's handler ([StreamConn] of [src/src/anytls/session.rs],
    [handle_stream] and [read_socks5_addr] of [src/src/anytls/server.rs])

    A handler reads the destination from its stream and then relays.  The two
    halves of the relay run concurrently and share a lock; [rstep] is one step of
    one of them, so that every interleaving is a sequence of labels. *)
From S2P Require Import Prelude RustStd Net Target AnyTls.

(** ** The stream of a handler *)

(** [rx]: the messages that will arrive; the sender is dropped after the last. *)
Record StreamConn := MkStream { sc_rx : list (list Z); sc_buf : list Z }.

(** [read] into [n] bytes; the empty result is its 0. *)
Definition stream_read (n : nat) (s : StreamConn) : list Z * StreamConn :=
  match sc_buf s with
  | _ :: _ => (take n (sc_buf s), MkStream (sc_rx s) (drop n (sc_buf s)))
  | [] =>
      match sc_rx s with
      | [] => ([], s)
      | [] :: rx => ([], MkStream rx [])
      | d :: rx => (take n d, MkStream rx (drop n d))
      end
  end.

(** [read_exact_from]; every turn of the loop reads at least one byte. *)
Fixpoint read_exact_loop (fuel n : nat) (acc : list Z) : M StreamConn (list Z) := fun s =>
  match fuel with
  | O => (Panic, s)
  | S fuel =>
      if decide (length acc < n)%nat then
        let '(d, s) := stream_read (n - length acc) s in
        if decide (d = []) then (Fail EEof, s) else read_exact_loop fuel n (acc ++ d) s
      else (Done acc, s)
  end.
Definition read_exact_from (n : nat) : M StreamConn (list Z) := read_exact_loop (S n) n [].

Section address.
Context {S : Type} (read : nat -> M S (list Z)).
(** [read_socks5_addr], over the reads of a stream. *)
Definition read_socks5_addr : M S (list Z) :=
  atyp ← read 1%nat;
  host ← (
    if decide (atyp = [0x01]) then
      b ← read 4%nat;
      mret (ipv4_to_string b)
    else if decide (atyp = [0x03]) then
      lb ← read 1%nat;
      b ← read (Z.to_nat (be_val lb));
      lift (from_utf8 b)
    else if decide (atyp = [0x04]) then
      b ← read 16%nat;
      mret ([91] ++ ipv6_to_string (segments_of b) ++ [93])
    else bail "anytls: unknown ATYP");
  pb ← read 2%nat;
  mret (host ++ [58] ++ dec (be_val pb)).
End address.

(** ** The relay of a stream

    Both halves of [handle_stream]'s relay take the same lock: the uplink to
    read from the stream, the downlink to write to it.  The lock is fair: it is
    passed on in the order of the requests. *)
Inductive side := Up | Down.

#[export] Instance side_eq_dec : EqDecision side.
Proof. solve_decision. Defined.

Inductive up_pc :=
| ULock                    (** [stream_r.lock().await] *)
| URead                    (** holds the lock, in [s.read(..).await] *)
| UWrite (d : list Z)      (** [out_w.write_all] *)
| UDone.
#[export] Instance up_pc_eq_dec : EqDecision up_pc.
Proof. solve_decision. Defined.
Inductive down_pc :=
| DRead                    (** [out_r.read(..).await] *)
| DLock (d : list Z)       (** [stream_w.lock().await], to write [d] *)
| DFin                     (** [stream_w.lock().await], to close *)
| DDone.
#[export] Instance down_pc_eq_dec : EqDecision down_pc.
Proof. solve_decision. Defined.

Record rstate := RState {
  r_holder : option side;
  r_waiting : list side;          (** the requests for the lock, in order *)
  r_up : up_pc;
  r_down : down_pc;
  r_stream : StreamConn;          (** [sc_rx] holds what has been delivered so far *)
  r_target : list (list Z);       (** reads of the target, not yet done *)
  r_fwd : list Z;                 (** written to the target *)
  r_sent : list frame;            (** handed to the session's writer *)
}.

(** Both tasks start by asking for what they need; [s] is the stream after the
    address was read from it. *)
Definition relay_start (s : StreamConn) : rstate := RState None [Up] ULock DRead s [] [] [].
Definition rstate0 : rstate := relay_start (MkStream [] []).

Inductive rlabel :=
| RClient (d : list Z)     (** the session delivers a message; empty is its end marker *)
| RTarget (d : list Z)     (** the target sends data; empty is its end *)
| RGrant                   (** the lock goes to the first request *)
| RGrantGone               (** the same, when the session's writer task has ended *)
| RUp                      (** the uplink moves *)
| RUpFail                  (** the uplink's write to the target fails *)
| RDown.                   (** the downlink moves *)

Definition READ_BUF : nat := Z.to_nat (32 * 1024).

Section relay.
Context (sid : Z).

(** A move of the uplink: the read under the lock waits for a message; then
    the lock is released, the data written, the lock asked for again. *)
Definition up_move (write_ok : bool) (r : rstate) : option rstate :=
  match r_up r with
  | URead =>
      if decide (sc_buf (r_stream r) = [] /\ sc_rx (r_stream r) = []) then None else
      let '(d, s) := stream_read READ_BUF (r_stream r) in
      Some (RState None (r_waiting r) (if decide (d = []) then UDone else UWrite d) (r_down r) s
              (r_target r) (r_fwd r) (r_sent r))
  | UWrite d =>
      if write_ok then
        Some (RState (r_holder r) (r_waiting r ++ [Up]) ULock (r_down r) (r_stream r) (r_target r) (r_fwd r ++ d) (r_sent r))
      else Some (RState (r_holder r) (r_waiting r) UDone (r_down r) (r_stream r) (r_target r) (r_fwd r) (r_sent r))
  | ULock | UDone => None
  end.

(** A move of the downlink outside the lock: read the target, ask for the
    lock. *)
Definition down_move (r : rstate) : option rstate :=
  match r_down r, r_target r with
  | DRead, d :: t =>
      Some (RState (r_holder r) (r_waiting r ++ [Down]) (r_up r) (if decide (d = []) then DFin else DLock d)
              (r_stream r) t (r_fwd r) (r_sent r))
  | _, _ => None
  end.

(** The first request gets the free lock.  The downlink hands its frame to the
    session's writer and releases the lock at once (the writer's channel has
    room); without a writer its loop ends, and it asks for the lock again, to
    close.  The uplink keeps the lock for its read. *)
Definition grant (writer : bool) (r : rstate) : option rstate :=
  match r_holder r, r_waiting r with
  | None, Up :: q => Some (RState (Some Up) q URead (r_down r) (r_stream r) (r_target r) (r_fwd r) (r_sent r))
  | None, Down :: q =>
      match r_down r with
      | DLock d =>
          if writer then
            Some (RState None q (r_up r) DRead (r_stream r) (r_target r) (r_fwd r) (r_sent r ++ [Frame CMD_PSH sid d]))
          else Some (RState None (q ++ [Down]) (r_up r) DFin (r_stream r) (r_target r) (r_fwd r) (r_sent r))
      | DFin => Some (RState None q (r_up r) DDone (r_stream r) (r_target r) (r_fwd r)
                        (r_sent r ++ if writer then [Frame CMD_FIN sid []] else []))
      | _ => None
      end
  | _, _ => None
  end.

Definition rstep (r : rstate) (l : rlabel) : option rstate :=
  match l with
  | RClient d =>
      Some (RState (r_holder r) (r_waiting r) (r_up r) (r_down r)
              (MkStream (sc_rx (r_stream r) ++ [d]) (sc_buf (r_stream r))) (r_target r) (r_fwd r) (r_sent r))
  | RTarget d =>
      Some (RState (r_holder r) (r_waiting r) (r_up r) (r_down r) (r_stream r) (r_target r ++ [d]) (r_fwd r) (r_sent r))
  | RGrant => grant true r
  | RGrantGone => grant false r
  | RUp => up_move true r
  | RUpFail => up_move false r
  | RDown => down_move r
  end.

Fixpoint rrun (r : rstate) (ls : list rlabel) : option rstate :=
  match ls with [] => Some r | l :: ls => r' ← rstep r l; rrun r' ls end.
End relay.

(** ** A handler's reads of its stream *)

(** As a byte source: what can be read before the end marker. *)
#[export] Instance stream_source : Source StreamConn := {
  pending := fun s => sc_buf s ++ concat (until_eof (sc_rx s));
  trace := fun _ => [];
  read_exact := read_exact_from;
}.

Lemma stream_read_some n s :
  (0 < n)%nat -> pending s <> [] ->
  exists d s', stream_read n s = (d, s') /\ (0 < length d <= n)%nat /\ pending s = d ++ pending s'.
Proof.
  destruct s as [rx buf]. unfold pending. simpl. unfold stream_read. simpl. intros Hn Hp.
  assert (Hsplit : forall b l rest, exists d s', (take n (b :: l), MkStream rest (drop n (b :: l))) = (d, s') /\
    (0 < length d <= n)%nat /\ (b :: l) ++ concat (until_eof rest) = d ++ sc_buf s' ++ concat (until_eof (sc_rx s'))).
  { intros b l rest. eexists _, _. split; [done|]. rewrite length_take. cbn [sc_buf sc_rx].
    rewrite (app_assoc (take n _)), take_drop. split; [simpl; lia|done]. }
  destruct buf as [|b buf]; [|apply Hsplit]. destruct rx as [|[|b d] rx]; [done|done|]. simpl in *. apply Hsplit.
Qed.

Lemma stream_read_none n s : pending s = [] -> exists s', stream_read n s = ([], s').
Proof.
  destruct s as [rx buf]. unfold pending, stream_read. simpl. intros Hp.
  apply app_eq_nil in Hp as [-> Hp]. destruct rx as [|[|b d] rx]; [by eexists..|done].
Qed.

Lemma read_exact_loop_ok fuel n acc s :
  (n < fuel + length acc)%nat -> (length acc <= n)%nat ->
  if decide (n - length acc <= length (pending s))%nat
  then exists s', read_exact_loop fuel n acc s = (Done (acc ++ take (n - length acc) (pending s)), s') /\
         pending s' = drop (n - length acc) (pending s)
  else exists s', read_exact_loop fuel n acc s = (Fail EEof, s').
Proof.
  revert acc s. induction fuel as [|fuel IH]; intros acc s Hf Ha; [lia|]. cbn [read_exact_loop].
  destruct (decide (length acc < n)%nat) as [Hlt|Hge].
  2: { replace (n - length acc)%nat with 0%nat by lia. rewrite decide_True by lia. exists s.
       by rewrite take_0, app_nil_r, drop_0. }
  destruct (decide (pending s = [])) as [Hp|Hp].
  - destruct (stream_read_none (n - length acc) s Hp) as [s' ->]. rewrite Hp. simpl.
    rewrite decide_False by lia. by exists s'.
  - destruct (stream_read_some (n - length acc) s) as (d & s' & -> & Hd & Hs); [lia|done|].
    destruct (decide (d = [])) as [->|_]; [simpl in Hd; lia|].
    specialize (IH (acc ++ d) s'). rewrite length_app in IH. rewrite Hs, length_app.
    replace (n - (length acc + length d))%nat with (n - length acc - length d)%nat in IH by lia.
    specialize (IH ltac:(lia) ltac:(lia)). case_decide as Hle.
    + rewrite decide_True by lia. destruct IH as (s2 & E1 & E2). exists s2.
      rewrite take_app_ge, drop_app_ge by lia. by rewrite E1, E2, app_assoc.
    + rewrite decide_False by lia. exact IH.
Qed.

(** [read_exact_from] obeys what the decoders rely on, up to the state of a
    stream that has ended. *)
Lemma read_exact_from_spec n s :
  if decide (n <= length (pending s))%nat
  then exists s', read_exact_from n s = (Done (take n (pending s)), s') /\ pending s' = drop n (pending s)
  else exists s', read_exact_from n s = (Fail EEof, s').
Proof.
  pose proof (read_exact_loop_ok (S n) n [] s) as H. simpl length in H. rewrite Nat.sub_0_r in H. apply H; lia.
Qed.

Lemma reads_stream n bs : length bs = n -> reads (read_exact_from n) bs bs.
Proof.
  intros <- s rest Hp. pose proof (read_exact_from_spec (length bs) s) as H.
  rewrite Hp, decide_True in H by (rewrite length_app; lia). destruct H as (s' & E & P).
  rewrite take_app_length in E. rewrite drop_app_length in P. by exists s'.
Qed.

Lemma sound_stream n : sound (read_exact_from n) (fun bs x => bs = x /\ length bs = n).
Proof.
  intros s a s' _ E. pose proof (read_exact_from_spec n s) as H. case_decide as Hl; destruct H as (s1 & H).
  - destruct H as [E1 P]. rewrite E in E1. injection E1 as -> ->. exists (take n (pending s)).
    rewrite P, take_drop, length_take. split_and!; [done|done|lia|done].
  - congruence.
Qed.
#[local] Hint Resolve sound_stream : dec.

Lemma reads_socks5_addr h p :
  host_ok h -> port_ok p ->
  reads (read_socks5_addr read_exact_from) (host_wire 1 3 4 h ++ be_bytes 2 p) (target_text h p).
Proof.
  intros Hh Hp. unfold read_socks5_addr, target_text.
  assert (Htail : forall t, reads (pb ← read_exact_from 2; mret (t ++ [58] ++ dec (be_val pb))) (be_bytes 2 p) (t ++ [58] ++ dec p)).
  { intros t. eapply reads_bind_r; [by apply reads_stream|]. rewrite be_val_bytes by done. apply reads_ret. }
  destruct h as [o|d|o]; cbn [host_wire host_text host_ok] in *.
  - eapply (reads_bind _ _ [1] (o ++ _)); [by apply reads_stream|]. cbn beta. guard_true.
    eapply reads_bind; [|apply Htail]. eapply reads_bind_r; [apply reads_stream; tauto|]. apply reads_ret.
  - eapply (reads_bind _ _ [3] ((_ :: d) ++ _)); [by apply reads_stream|]. cbn beta. guard_true.
    eapply reads_bind; [|apply Htail].
    eapply (reads_bind _ _ [Z.of_nat (length d)] d); [by apply reads_stream|]. cbn beta.
    eapply reads_bind_r; [apply reads_stream; unfold be_val; cbn [foldl]; lia|]. apply reads_utf8. tauto.
  - eapply (reads_bind _ _ [4] (o ++ _)); [by apply reads_stream|]. cbn beta. guard_true.
    eapply reads_bind; [|apply Htail]. eapply reads_bind_r; [apply reads_stream; tauto|]. apply reads_ret.
Qed.

Lemma sound_socks5_addr :
  sound (read_socks5_addr read_exact_from) (fun bs t => exists h p, host_ok h /\ port_ok p /\
    t = target_text h p /\ bs = host_wire 1 3 4 h ++ be_bytes 2 p).
Proof.
  unfold read_socks5_addr. eapply sound_bind; [apply sound_stream|]. intros b1 atyp _ [-> _].
  eapply (sound_bind _ _ (fun bs t => exists h, host_ok h /\ t = host_text h /\ atyp ++ bs = host_wire 1 3 4 h)).
  - repeat case_decide; [..|apply sound_fail]; subst.
    + eapply sound_bind; [apply sound_stream|]. intros o o' Ho [-> Hl]. apply sound_ret. rewrite app_nil_r.
      by exists (HIp4 o').
    + eapply sound_bind; [apply sound_stream|]. intros b2 lb Hlb [-> Hl2].
      eapply sound_bind; [apply sound_stream|]. intros d d' Hd [-> Hl]. apply sound_utf8. intros Hu.
      rewrite app_nil_r. exists (HDomain d'). destruct lb as [|x [|]]; [done| |done].
      apply Forall_inv in Hlb. unfold byte_ok, be_val in *. simpl in *. split_and!; [lia|done|done|done|].
      rewrite Hl, Z2Nat.id by lia. done.
    + eapply sound_bind; [apply sound_stream|]. intros o o' Ho [-> Hl]. apply sound_ret. rewrite app_nil_r.
      by exists (HIp6 o').
  - intros b2 t _ (h & Hh & -> & Hb). eapply sound_bind; [apply sound_stream|]. intros b3 pb Hpb [-> Hl].
    apply sound_ret. rewrite app_nil_r. pose proof (be_val_bound pb Hpb) as Hbd. rewrite Hl in Hbd.
    exists h, (be_val pb). rewrite be_bytes_val by done. split_and!; [done|done|done|]. by rewrite <- Hb, app_assoc.
Qed.

(** an AnyTLS stream's destination is read exactly, however the client cuts
    it into data frames: from a stream whose messages start with the address
    in the SOCKS5 form, the handler gets the target text and leaves exactly
    the bytes that follow; and what it accepts was such an address. *)
Theorem stream_address_exact :
  (forall h p s rest, host_ok h -> port_ok p ->
     sc_buf s ++ concat (until_eof (sc_rx s)) = host_wire 1 3 4 h ++ be_bytes 2 p ++ rest ->
     exists s', read_socks5_addr read_exact_from s = (Done (target_text h p), s') /\
       sc_buf s' ++ concat (until_eof (sc_rx s')) = rest) /\
  (forall s t s', bytes_ok (sc_buf s ++ concat (until_eof (sc_rx s))) ->
     read_socks5_addr read_exact_from s = (Done t, s') ->
     exists h p, host_ok h /\ port_ok p /\ t = target_text h p /\
       sc_buf s ++ concat (until_eof (sc_rx s)) =
         host_wire 1 3 4 h ++ be_bytes 2 p ++ sc_buf s' ++ concat (until_eof (sc_rx s'))).
Proof.
  split.
  - intros h p s rest Hh Hp Hs. rewrite app_assoc in Hs.
    destruct (reads_socks5_addr h p Hh Hp s rest Hs) as (s' & E & P & _). by exists s'.
  - intros s t s' Hok E. destruct (sound_socks5_addr s t s' Hok E) as (bs & P & (h & p & ? & ? & ? & ->) & _).
    exists h, p. split_and!; [done..|]. unfold pending in P. simpl in P. by rewrite P, <- app_assoc.
Qed.

Lemma until_eof_app l1 l2 : [] ∉ l1 -> until_eof (l1 ++ l2) = l1 ++ until_eof l2.
Proof.
  induction l1 as [|[|b x] l1 IH]; simpl; [done|by rewrite elem_of_cons; intros []; left|].
  intros Hn. rewrite IH; [done|]. intros Hin. apply Hn. by right.
Qed.

Lemma until_eof_prefix l1 l2 : l1 `prefix_of` l2 -> until_eof l1 `prefix_of` until_eof l2.
Proof.
  intros [k ->]. induction l1 as [|[|b x] l1 IH]; simpl; [apply prefix_nil|done|by apply prefix_cons].
Qed.

Lemma concat_prefix {A} (l1 l2 : list (list A)) : l1 `prefix_of` l2 -> concat l1 `prefix_of` concat l2.
Proof. intros [k ->]. exists (concat k). apply concat_app. Qed.

(** A read takes the buffer's bytes or the next message's; an empty one is the end. *)
Lemma stream_read_bytes n s d s' :
  stream_read n s = (d, s') -> (0 < n)%nat -> sc_buf s <> [] \/ sc_rx s <> [] -> d <> [] ->
  exists used, sc_rx s = used ++ sc_rx s' /\ [] ∉ used /\ sc_buf s ++ concat used = d ++ sc_buf s'.
Proof.
  unfold stream_read. destruct s as [rx [|b buf]]; simpl.
  - destruct rx as [|[|x m] rx]; intros [= <- <-] Hn Hne Hd; simpl; [done|done|]. exists [x :: m]. simpl.
    rewrite app_nil_r, take_drop, list_elem_of_singleton. by split_and!.
  - intros [= <- <-] Hn _ _. exists []. simpl. rewrite app_nil_r, take_drop. split_and!; [done|by intros ?%elem_of_nil|done].
Qed.

(** From [s] to [s'] whole messages were taken from the channel, none of them the end
    marker; of their bytes [bs] were read and the rest is in the buffer. *)
Definition took (s : StreamConn) (bs : list Z) (s' : StreamConn) : Prop :=
  exists used, sc_rx s = used ++ sc_rx s' /\ [] ∉ used /\ sc_buf s ++ concat used = bs ++ sc_buf s'.

Lemma took_refl s : took s [] s.
Proof. exists []. simpl. rewrite app_nil_r. split_and!; [done|by intros ?%elem_of_nil|done]. Qed.

Lemma took_trans s1 b1 s2 b2 s3 : took s1 b1 s2 -> took s2 b2 s3 -> took s1 (b1 ++ b2) s3.
Proof.
  intros (u1 & R1 & N1 & B1) (u2 & R2 & N2 & B2). exists (u1 ++ u2). split_and!.
  - by rewrite R1, R2, app_assoc.
  - rewrite elem_of_app. tauto.
  - by rewrite concat_app, app_assoc, B1, <- !app_assoc, B2.
Qed.

(** A decoder over a stream that takes messages in this way. *)
Definition takes {A} (m : M StreamConn A) : Prop := forall s a s', m s = (Done a, s') -> exists bs, took s bs s'.

Lemma takes_ret {A} (a : A) : takes (mret a).
Proof. intros s a' s' [= _ <-]. exists []. apply took_refl. Qed.
Lemma takes_lift {A} (o : outcome A) : takes (lift o).
Proof. intros s a' s' [= _ <-]. exists []. apply took_refl. Qed.
Lemma takes_fail {A} e : takes (A := A) (fail e).
Proof. by intros s a' s' [=]. Qed.

Lemma takes_bind {A B} (m : M StreamConn A) (f : A -> M StreamConn B) : takes m -> (forall a, takes (f a)) -> takes (m ≫= f).
Proof.
  intros Hm Hf s b s2 (a & s1 & E1 & E2)%bind_Done. destruct (Hm _ _ _ E1) as [b1 T1]. destruct (Hf _ _ _ _ E2) as [b2 T2].
  exists (b1 ++ b2). by eapply took_trans.
Qed.

Lemma takes_loop fuel n acc : takes (read_exact_loop fuel n acc).
Proof.
  revert acc. induction fuel as [|fuel IH]; intros acc s a s'; simpl; [done|].
  destruct (decide (length acc < n)%nat); [|by apply (takes_ret acc)].
  destruct (stream_read (n - length acc) s) as [d s1] eqn:Er. destruct (decide (d = [])); [done|]. intros E2.
  destruct (IH _ _ _ _ E2) as [b2 T2]. exists (d ++ b2). eapply took_trans; [|exact T2].
  apply (stream_read_bytes _ _ _ _ Er); [lia| |done]. destruct s as [[|m rx] [|b buf]]; simpl in *; auto.
  by injection Er as <- _.
Qed.

Lemma takes_address : takes (read_socks5_addr read_exact_from).
Proof.
  assert (Hr : forall n, takes (read_exact_from n)) by (intros; apply takes_loop).
  unfold read_socks5_addr. repeat first [apply takes_bind; [|intros]|apply Hr|apply takes_ret|apply takes_lift|apply takes_fail|case_decide].
Qed.

(** The address, and what is left for the relay: whatever arrives later, the client's
    bytes are the address and then the relay's. *)
Lemma read_address_spec msgs t s :
  bytes_ok (concat (until_eof msgs)) -> read_socks5_addr read_exact_from (MkStream msgs []) = (Done t, s) ->
  exists h p, host_ok h /\ port_ok p /\ t = target_text h p /\
    forall more, concat (until_eof (msgs ++ more)) =
      host_wire 1 3 4 h ++ be_bytes 2 p ++ sc_buf s ++ concat (until_eof (sc_rx s ++ more)).
Proof.
  intros Hb E. destruct (sound_socks5_addr (MkStream msgs []) _ _ Hb E) as (wire & P & (h & p & Hh & Hp & Ht & ->) & _).
  destruct (takes_address _ _ _ E) as (bs & used & R & N & B). unfold pending in P. simpl in P, R, B.
  exists h, p. split_and!; [done..|]. intros more. rewrite R, <- app_assoc, until_eof_app, concat_app, B by done.
  assert (bs = host_wire 1 3 4 h ++ be_bytes 2 p) as ->; [|by rewrite <- !app_assoc].
  rewrite R, until_eof_app, concat_app, B, <- app_assoc in P by done. by apply app_inv_tail in P.
Qed.

(** ** The relay *)

Section relay_facts.
Context (sid : Z) (s0 : StreamConn).

Lemma rrun_app r ls1 ls2 : rrun sid r (ls1 ++ ls2) = rrun sid r ls1 ≫= fun r' => rrun sid r' ls2.
Proof. revert r. induction ls1 as [|l ls1 IH]; intros r; [done|]. simpl. destruct (rstep sid r l); [apply IH|done]. Qed.

(** Induction along a run from the start. *)
Lemma rrun_ind (P : list rlabel -> rstate -> Prop) :
  P [] (relay_start s0) ->
  (forall ls r l r', P ls r -> rstep sid r l = Some r' -> P (ls ++ [l]) r') ->
  forall ls r, rrun sid (relay_start s0) ls = Some r -> P ls r.
Proof.
  intros H0 Hs ls. induction ls as [|l ls IH] using rev_ind; intros r.
  - by intros [= <-].
  - rewrite rrun_app. destruct (rrun sid (relay_start s0) ls) as [r1|]; [|done]. simpl.
    destruct (rstep sid r1 l) as [r2|] eqn:E; [|done]. intros [= <-]. eapply Hs; [by apply IH|done].
Qed.

(** What the session delivers during a run, and what the target sends. *)
Definition client_messages (ls : list rlabel) : list (list Z) :=
  omap (fun l => match l with RClient d => Some d | _ => None end) ls.
Definition client_bytes (ls : list rlabel) : list Z :=
  sc_buf s0 ++ concat (until_eof (sc_rx s0 ++ client_messages ls)).
Definition target_bytes (ls : list rlabel) : list Z :=
  concat (omap (fun l => match l with RTarget d => Some d | _ => None end) ls).
Definition has_client (l : rlabel) : Prop := match l with RClient _ => True | _ => False end.

Lemma client_snoc ls l :
  client_messages (ls ++ [l]) = client_messages ls ++ match l with RClient d => [d] | _ => [] end.
Proof. unfold client_messages. rewrite omap_app. f_equal. by destruct l. Qed.
Lemma target_snoc ls l : target_bytes (ls ++ [l]) = target_bytes ls ++ match l with RTarget d => d | _ => [] end.
Proof. unfold target_bytes. rewrite omap_app, concat_app. f_equal. destruct l; simpl; by rewrite ?app_nil_r. Qed.

(** The lock, its queue and the two tasks agree. *)
Definition down_waits (d : down_pc) : Prop := match d with DLock _ | DFin => True | _ => False end.
Definition lock_inv (r : rstate) : Prop :=
  (r_holder r = Some Up <-> r_up r = URead) /\ r_holder r <> Some Down /\ NoDup (r_waiting r) /\
  (Up ∈ r_waiting r <-> r_up r = ULock) /\ (Down ∈ r_waiting r <-> down_waits (r_down r)).

Lemma nodup_snoc {A} (l : list A) x : NoDup l -> x ∉ l -> NoDup (l ++ [x]).
Proof.
  intros Hl Hx. apply NoDup_app. split_and!; [done| |apply NoDup_singleton].
  by intros y Hy ->%list_elem_of_singleton.
Qed.

Lemma lock_grant w r r' : lock_inv r -> grant sid w r = Some r' -> lock_inv r'.
Proof.
  intros (Hh & Hd & Hn & Hu & Hw). unfold grant. destruct (r_holder r) as [h|] eqn:Eh; [by destruct h|].
  destruct (r_waiting r) as [|[] q] eqn:Ew; [done| |]; apply NoDup_cons in Hn as [Hq Hn].
  - intros [= <-]. assert (Eu : r_up r = ULock) by (apply Hu; left).
    unfold lock_inv. simpl. split_and!; [done|done|done|done|].
    rewrite <- Hw. split; [by right|by intros [?|?]%elem_of_cons].
  - assert (Eu : Up ∈ q <-> r_up r = ULock).
    { rewrite <- Hu. split; [by right|by intros [?|?]%elem_of_cons]. }
    destruct (r_down r) as [|d| |] eqn:Ed; [done| | |done]; [destruct w|]; intros [= <-]; unfold lock_inv; simpl;
      (split_and!; [done|done| | |]); try done.
    + by apply nodup_snoc.
    + rewrite elem_of_app, <- Eu, list_elem_of_singleton. intuition done.
    + split; [done|]. intros _. apply elem_of_app. right. by left.
Qed.

Lemma lock_up ok r r' : lock_inv r -> up_move ok r = Some r' -> lock_inv r'.
Proof.
  intros (Hh & Hd & Hn & Hu & Hw). unfold up_move. destruct (r_up r) as [| |x|] eqn:Eu; try done.
  - case_decide; [done|]. destruct (stream_read _ _) as [x s']. intros [= <-].
    unfold lock_inv. simpl. split_and!; [by case_decide|done|done| |done]. split; [by intros ?%Hu|by case_decide].
  - destruct ok; intros [= <-]; unfold lock_inv; simpl.
    + assert (Hnu : Up ∉ r_waiting r) by (by intros ?%Hu).
      split_and!; [split; [by intros ?%Hh|done]|done|by apply nodup_snoc| |].
      * split; [done|]. intros _. apply elem_of_app. right. by left.
      * rewrite elem_of_app, <- Hw, list_elem_of_singleton. intuition done.
    + split_and!; [split; [by intros ?%Hh|done]|done|done|split; [by intros ?%Hu|done]|done].
Qed.

Lemma lock_down r r' : lock_inv r -> down_move r = Some r' -> lock_inv r'.
Proof.
  intros (Hh & Hd & Hn & Hu & Hw). unfold down_move. destruct (r_down r) eqn:Ed; try done.
  destruct (r_target r) as [|x t]; [done|]. intros [= <-]. assert (Hnd : Down ∉ r_waiting r) by (by intros ?%Hw).
  unfold lock_inv. simpl. split_and!; [done|done|by apply nodup_snoc| |].
  - rewrite elem_of_app, <- Hu, list_elem_of_singleton. intuition done.
  - split; [intros _; by case_decide|]. intros _. apply elem_of_app. right. by left.
Qed.

Lemma lock_step r l r' : lock_inv r -> rstep sid r l = Some r' -> lock_inv r'.
Proof.
  intros Hl. destruct l; simpl; [by intros [= <-]..|by apply lock_grant|by apply lock_grant|by apply lock_up|by apply lock_up|by apply lock_down].
Qed.

Lemma lock_start : lock_inv (relay_start s0).
Proof.
  unfold lock_inv. simpl. split_and!; [done|done|apply NoDup_singleton|..].
  - split; [done|]. intros _. by left.
  - split; [by intros ?%list_elem_of_singleton|done].
Qed.

Lemma lock_reachable ls r : rrun sid (relay_start s0) ls = Some r -> lock_inv r.
Proof.
  revert ls r. apply (rrun_ind (fun _ => lock_inv)); [apply lock_start|]. intros ls r l r' Hi Hs. by eapply lock_step.
Qed.

Definition up_flight (u : up_pc) : list Z := match u with UWrite d => d | _ => [] end.
Definition down_flight (d : down_pc) : list Z := match d with DLock x => x | _ => [] end.

(** The uplink has taken the messages [used] so far, none of them empty. *)
Definition up_inv (ls : list rlabel) (r : rstate) : Prop :=
  r_fwd r `prefix_of` client_bytes ls /\
  (r_up r <> UDone -> exists used, sc_rx s0 ++ client_messages ls = used ++ sc_rx (r_stream r) /\ [] ∉ used /\
     sc_buf s0 ++ concat used = r_fwd r ++ up_flight (r_up r) ++ sc_buf (r_stream r)).

Lemma client_bytes_snoc ls l : client_bytes ls `prefix_of` client_bytes (ls ++ [l]).
Proof.
  unfold client_bytes. apply prefix_app, concat_prefix, until_eof_prefix. rewrite client_snoc, app_assoc. by apply prefix_app_r.
Qed.

Lemma up_inv_keep ls r l r' :
  up_inv ls r -> (forall d, l <> RClient d) -> r_fwd r' = r_fwd r ->
  (r_up r' <> UDone -> r_up r <> UDone /\ r_stream r' = r_stream r /\ up_flight (r_up r') = up_flight (r_up r)) ->
  up_inv (ls ++ [l]) r'.
Proof.
  intros [Hp Hu] Hl Ef Hk. split; [rewrite Ef; etrans; [exact Hp|apply client_bytes_snoc]|].
  intros Hne. destruct (Hk Hne) as (Hn & Es & Efl). destruct (Hu Hn) as (used & E & Hno & Hb). exists used.
  rewrite client_snoc, Es, Ef, Efl. destruct l; [by destruct (Hl d)|..]; by rewrite app_nil_r.
Qed.

Lemma up_inv_move ok ls r l r' :
  up_inv ls r -> (forall d, l <> RClient d) -> up_move ok r = Some r' -> up_inv (ls ++ [l]) r'.
Proof.
  intros Hi Hl. unfold up_move. destruct (r_up r) as [| |x|] eqn:Eu; try done.
  - case_decide as He; [done|]. destruct (stream_read _ _) as [d s'] eqn:Er. intros [= <-]. case_decide as Hd.
    { by apply (up_inv_keep _ r). }
    destruct Hi as [Hp Hu]. split; simpl; [etrans; [exact Hp|apply client_bytes_snoc]|]. intros _.
    destruct (Hu ltac:(by rewrite Eu)) as (used & E & Hno & Hb).
    destruct (stream_read_bytes _ _ _ _ Er ltac:(unfold READ_BUF; lia)) as (u2 & E2 & Hno2 & Hb2); [|done|].
    { destruct (decide (sc_buf (r_stream r) = [])); [right; intros Hrx; by apply He|by left]. }
    exists (used ++ u2). rewrite client_snoc. destruct l; [by destruct (Hl d0)|..]; rewrite app_nil_r, E, E2, <- app_assoc;
      (split_and!; [done|rewrite elem_of_app; tauto|]); rewrite concat_app, app_assoc, Hb, Eu, <- Hb2; simpl;
      by rewrite <- app_assoc.
  - destruct ok; intros [= <-]; [|by apply (up_inv_keep _ r)].
    destruct Hi as [Hp Hu]. destruct (Hu ltac:(by rewrite Eu)) as (used & E & Hno & Hb). rewrite Eu in Hb. simpl in Hb.
    assert (Hc : client_messages (ls ++ [l]) = client_messages ls)
      by (rewrite client_snoc; destruct l; [by destruct (Hl d)|..]; by rewrite app_nil_r).
    split; simpl.
    + unfold client_bytes. rewrite Hc, E, until_eof_app, concat_app, app_assoc, Hb by done.
      rewrite <- !app_assoc, app_assoc. by apply prefix_app_r.
    + intros _. exists used. rewrite Hc. split_and!; [done|done|]. by rewrite Hb, <- app_assoc.
Qed.

Lemma up_inv_step ls r l r' : lock_inv r -> up_inv ls r -> rstep sid r l = Some r' -> up_inv (ls ++ [l]) r'.
Proof.
  intros (_ & _ & _ & Hlu & _) Hi Hs.
  assert (Hg : forall w, (forall d, l <> RClient d) -> grant sid w r = Some r' -> up_inv (ls ++ [l]) r').
  { intros w Hl. unfold grant. destruct (r_holder r) as [[]|]; [done..|]. destruct (r_waiting r) as [|[] q] eqn:Eq; [done| |].
    - intros [= <-]. apply (up_inv_keep _ r); [done..|]. simpl. intros _.
      assert (Eu : r_up r = ULock) by (apply Hlu; left). by rewrite Eu.
    - destruct (r_down r); try done; [destruct w|]; intros [= <-]; by apply (up_inv_keep _ r). }
  destruct l as [d|d| | | | |]; simpl in Hs; [| |by eapply Hg|by eapply Hg|by eapply up_inv_move|by eapply up_inv_move|].
  - injection Hs as <-. destruct Hi as [Hp Hu]. split; simpl; [etrans; [exact Hp|apply client_bytes_snoc]|].
    intros Hne. destruct (Hu Hne) as (used & E & Hno & Hb). exists used. rewrite client_snoc, app_assoc, E, <- app_assoc.
    by split_and!.
  - injection Hs as <-. by apply (up_inv_keep _ r).
  - unfold down_move in Hs. destruct (r_down r); try done. destruct (r_target r); [done|]. injection Hs as <-.
    by apply (up_inv_keep _ r).
Qed.

(** What the target sent: the frames sent back, what is lost with the writer, what
    waits for the lock, what is still to be read. *)
Definition down_inv (ls : list rlabel) (r : rstate) : Prop :=
  (exists lost, target_bytes ls = concat (f_data <$> r_sent r) ++ lost ++ down_flight (r_down r) ++ concat (r_target r) /\
     (r_down r = DRead \/ (exists d, r_down r = DLock d) \/ RGrantGone ∉ ls -> lost = [])) /\
  Forall (fun f => f_sid f = sid /\ (f_cmd f = CMD_PSH \/ f_cmd f = CMD_FIN)) (r_sent r).

Lemma down_inv_keep ls r l r' :
  down_inv ls r -> (forall d, l <> RTarget d) -> r_sent r' = r_sent r -> r_down r' = r_down r -> r_target r' = r_target r ->
  down_inv (ls ++ [l]) r'.
Proof.
  intros [(lost & E & Hlost) Hf] Hl E1 E2 E3. unfold down_inv. rewrite E1, E2, E3, target_snoc.
  assert (match l with RTarget d => d | _ => [] end = @nil Z) as -> by (destruct l; [done|by destruct (Hl d)|done..]).
  rewrite app_nil_r. split; [|done]. exists lost. split; [done|]. rewrite elem_of_app. intuition auto.
Qed.

Lemma down_inv_grant (w : bool) ls r l r' :
  l = (if w then RGrant else RGrantGone) -> down_inv ls r -> grant sid w r = Some r' -> down_inv (ls ++ [l]) r'.
Proof.
  intros -> Hi. unfold grant. destruct (r_holder r) as [[]|]; [done..|]. destruct (r_waiting r) as [|[] q]; [done| |].
  - intros [= <-]. apply (down_inv_keep _ r); try done. by destruct w.
  - assert (Hgone : w = false -> RGrantGone ∈ ls ++ [if w then RGrant else RGrantGone])
      by (intros ->; apply elem_of_app; right; by left).
    destruct Hi as [(lost & E & Hlost) Hf]. unfold down_inv. rewrite target_snoc.
    assert (match (if w then RGrant else RGrantGone) with RTarget d => d | _ => [] end = @nil Z) as -> by (by destruct w).
    rewrite app_nil_r, E. destruct (r_down r) as [|d| |] eqn:Ed; [done| | |done].
    + rewrite Hlost by eauto. destruct w; intros [= <-]; simpl.
      * split; [exists []; by rewrite fmap_app, concat_app; simpl; rewrite app_nil_r, <- app_assoc|].
        apply Forall_app. split; [done|]. apply Forall_singleton. simpl. auto.
      * split; [|done]. exists d. split; [done|]. intros [?|[[? ?]|Hn]]; [done..|]. by destruct (Hn (Hgone eq_refl)).
    + destruct w; intros [= <-]; simpl; rewrite ?app_nil_r.
      * split; [|apply Forall_app; split; [done|]; apply Forall_singleton; simpl; auto].
        exists lost. rewrite fmap_app, concat_app. simpl. rewrite !app_nil_r. split; [done|].
        rewrite elem_of_app. intros [?|[[? ?]|Hn]]; [done..|]. apply Hlost. tauto.
      * split; [|done]. exists lost. split; [done|]. intros [?|[[? ?]|Hn]]; [done..|]. by destruct (Hn (Hgone eq_refl)).
Qed.

Lemma down_inv_step ls r l r' : down_inv ls r -> rstep sid r l = Some r' -> down_inv (ls ++ [l]) r'.
Proof.
  intros Hi. destruct l as [d|d| | | | |]; simpl; [| |by apply down_inv_grant|by apply down_inv_grant|..].
  - intros [= <-]. by apply (down_inv_keep _ r).
  - intros [= <-]. destruct Hi as [(lost & E & Hlost) Hf]. split; [|done]. simpl. exists lost. rewrite target_snoc, E.
    rewrite concat_app. simpl. rewrite app_nil_r, <- !app_assoc. split; [done|]. rewrite elem_of_app. intuition auto.
  - unfold up_move. destruct (r_up r); try done; [case_decide; [done|]; destruct (stream_read _ _)|];
      intros [= <-]; by apply (down_inv_keep _ r).
  - unfold up_move. destruct (r_up r); try done; [case_decide; [done|]; destruct (stream_read _ _)|];
      intros [= <-]; by apply (down_inv_keep _ r).
  - unfold down_move. destruct (r_down r) eqn:Ed; try done. destruct (r_target r) as [|x t] eqn:Et; [done|]. intros [= <-].
    destruct Hi as [(lost & E & Hlost) Hf]. split; [|done]. rewrite Ed, Et in E. rewrite Hlost in E by auto.
    exists []. rewrite target_snoc, E, app_nil_r. simpl. split; [|done]. by case_decide; subst.
Qed.

(** All three hold along a run. *)
Lemma relay_run ls r : rrun sid (relay_start s0) ls = Some r -> lock_inv r /\ up_inv ls r /\ down_inv ls r.
Proof.
  revert ls r. apply rrun_ind.
  - split_and!; [apply lock_start| |].
    + split; [apply prefix_nil|]. intros _. exists []. simpl. rewrite !app_nil_r.
      split_and!; [done|by intros ?%elem_of_nil|done].
    + split; [by exists []|constructor].
  - intros ls r l r' (Hl & Hu & Hd) Hs. split_and!; [by eapply lock_step|by eapply up_inv_step|by eapply down_inv_step].
Qed.

(** an AnyTLS stream's relay forwards in order.  Under every interleaving, what
    has been written to the target is a prefix of what the client pushed before the end
    of its stream (after the bytes left over from the address), and
    while the uplink runs what is missing is exactly what it still holds; the
    frames sent back are data and end frames of this stream whose payloads are a
    prefix of what the target sent, and what is missing is still to be read or
    waits for the lock (only when the session's writer has ended, a piece is lost). *)
Theorem relay_in_order ls r :
  rrun sid (relay_start s0) ls = Some r ->
  (exists rest, client_bytes ls = r_fwd r ++ rest /\
     (r_up r <> UDone -> rest = up_flight (r_up r) ++ pending (r_stream r))) /\
  (exists lost, target_bytes ls = concat (f_data <$> r_sent r) ++ lost ++ down_flight (r_down r) ++ concat (r_target r) /\
     (RGrantGone ∉ ls -> lost = [])) /\
  Forall (fun f => f_sid f = sid /\ (f_cmd f = CMD_PSH \/ f_cmd f = CMD_FIN)) (r_sent r).
Proof.
  intros (_ & [Hp Hu] & [(lost & E & Hlost) Hf])%relay_run. split_and!; [|by exists lost; auto|done].
  destruct (decide (r_up r = UDone)) as [Hd|Hd]; [destruct Hp as [rest Hp]; by exists rest|].
  destruct (Hu Hd) as (used & Em & Hno & Hb). eexists. split; [|done]. unfold client_bytes.
  rewrite Em, until_eof_app, concat_app, app_assoc, Hb by done. unfold pending. simpl. by rewrite <- !app_assoc.
Qed.
End relay_facts.

(** Frames are only added to those sent. *)
Lemma rstep_sent sid r l r' : rstep sid r l = Some r' -> r_sent r `prefix_of` r_sent r'.
Proof.
  destruct l; simpl; [by intros [= <-]|by intros [= <-]|unfold grant..|unfold up_move|unfold up_move|unfold down_move];
    repeat case_match; intros; simplify_eq; simpl; try done; by apply prefix_app_r.
Qed.

Lemma rrun_snoc sid r ls l r1 r2 : rrun sid r ls = Some r1 -> rstep sid r1 l = Some r2 -> rrun sid r (ls ++ [l]) = Some r2.
Proof. intros E1 E2. rewrite rrun_app, E1. simpl. by rewrite E2. Qed.

(** The uplink has the lock, or is to get it next, and there is nothing to read. *)
Definition up_first (r : rstate) : Prop :=
  (r_up r = URead \/ (r_holder r = None /\ exists q, r_waiting r = Up :: q) /\ r_up r = ULock) /\
  r_stream r = MkStream [] [].

Lemma up_first_step sid r l r' :
  lock_inv r -> up_first r -> ~ has_client l -> rstep sid r l = Some r' ->
  up_first r' /\ r_sent r' = r_sent r /\ r_fwd r' = r_fwd r.
Proof.
  intros (Hh & _) [Hu Hst] Hn.
  assert (Hg : forall w, grant sid w r = Some r' -> up_first r' /\ r_sent r' = r_sent r /\ r_fwd r' = r_fwd r).
  { intros w. unfold grant. destruct Hu as [Hu|[[Hho [q Hq]] Hu]]; [apply Hh in Hu; by rewrite Hu|].
    rewrite Hho, Hq. intros [= <-]. unfold up_first. simpl. auto. }
  assert (Hm : forall ok, up_move ok r = Some r' -> False).
  { intros ok. unfold up_move. destruct Hu as [-> |[_ ->]]; [|done]. by rewrite Hst, decide_True. }
  destruct l as [d|d| | | | |]; simpl; [by destruct Hn| |apply Hg|apply Hg|by intros ?%Hm..|].
  - by intros [= <-].
  - unfold down_move. destruct (r_down r); try done. destruct (r_target r); [done|]. intros [= <-].
    split; [|done]. split; [|done]. destruct Hu as [Hu|[[Hho [q Hq]] Hu]]; [by left|right]. simpl. rewrite Hq. eauto.
Qed.

(** C36: the downlink of an AnyTLS stream needs the client to keep sending.  The
    uplink holds the stream's lock while it waits for data, so from any
    reachable state in which it waits and has nothing to read, as long as the
    client sends nothing, no byte and no end marker goes back, whatever the
    target sends and however the tasks run; in particular a target that speaks
    first is never heard. *)
Theorem downlink_waits_for_client sid s0 ls r ls' r' :
  rrun sid (relay_start s0) ls = Some r ->
  (r_up r = URead \/ ls = []) -> r_stream r = MkStream [] [] ->
  Forall (fun l => ~ has_client l) ls' -> rrun sid r ls' = Some r' ->
  r_sent r' = r_sent r /\ r_fwd r' = r_fwd r.
Proof.
  intros Hrun Hr Hst Hls. pose proof (lock_reachable _ _ ls r Hrun) as Hl.
  assert (Hf : up_first r).
  { split; [|done]. destruct Hr as [?| ->]; [by left|right]. injection Hrun as <-. simpl. eauto. }
  clear Hr Hst Hrun. revert r Hl Hf r'.
  induction Hls as [|l ls' Hn _ IH]; intros r Hl Hf r' Hrun; [by injection Hrun as <-|].
  simpl in Hrun. destruct (rstep sid r l) as [r1|] eqn:Es; [|done]. simpl in Hrun.
  destruct (up_first_step _ _ _ _ Hl Hf Hn Es) as (Hf1 & <- & <-). by eapply IH; [eapply lock_step|..].
Qed.

(** ** Witnesses *)

Definition demo_moves : list rlabel := [RGrant; RTarget [7]; RDown; RClient [1; 2]; RUp; RGrant; RUp].

Lemma relay_in_order_witness :
  exists r, rrun 5 rstate0 demo_moves = Some r /\ r_fwd r = [1; 2] /\
    client_bytes (MkStream [] []) demo_moves = r_fwd r ++ [] /\ target_bytes demo_moves = concat (f_data <$> r_sent r).
Proof.
  destruct (rrun 5 rstate0 demo_moves) as [r|] eqn:E; [|vm_compute in E; discriminate E].
  destruct (relay_in_order 5 (MkStream [] []) demo_moves r E) as ((rest & Hc & _) & (lost & Ht & Hl) & _).
  vm_compute in E. injection E as <-. exists (RState None [Up] ULock DRead (MkStream [] []) [] [1; 2] [Frame CMD_PSH 5 [7]]).
  split; [reflexivity|]. split; [reflexivity|]. split.
  - rewrite Hc. f_equal. simpl in Hc. by injection Hc.
  - rewrite Ht, Hl; [reflexivity|]. intros Hin. repeat (apply elem_of_cons in Hin as [Hin|Hin]; [discriminate Hin|]).
    by apply not_elem_of_nil in Hin.
Defined.

Definition demo_silent : list rlabel := [RGrant; RTarget [7]; RDown].

Lemma downlink_waits_for_client_witness :
  exists r, rrun 5 rstate0 demo_silent = Some r /\ r_down r = DLock [7] /\ r_sent r = [].
Proof.
  destruct (rrun 5 rstate0 demo_silent) as [r|] eqn:E; [|vm_compute in E; discriminate E].
  assert (Hn : Forall (fun l => ~ has_client l) demo_silent) by (repeat constructor; intros []).
  destruct (downlink_waits_for_client 5 (MkStream [] []) [] rstate0 demo_silent r eq_refl (or_intror eq_refl) eq_refl Hn E) as [Hs _].
  exists r. split; [reflexivity|]. split; [|exact Hs]. vm_compute in E. injection E as <-. reflexivity.
Defined.

Lemma demo_host_ok : host_ok (HDomain (str "a.example")).
Proof. apply (bool_decide_eq_true (host_ok _)). vm_compute. reflexivity. Qed.

Lemma stream_address_exact_witness :
  exists s', read_socks5_addr read_exact_from (MkStream [[3; 9]; str "a.exa"; str "mple" ++ [1]; [187; 22]] []) =
    (Done (str "a.example:443"), s') /\ sc_buf s' ++ concat (until_eof (sc_rx s')) = [22].
Proof.
  apply (proj1 stream_address_exact (HDomain (str "a.example")) 443); [exact demo_host_ok|unfold port_ok; lia|reflexivity].
Defined.
