(* ===== verification/AnyTlsConn.v ===== *)
(** * AnyTLS: a whole connection ([handle_conn] and [handle_stream] of
    [src/src/anytls/server.rs], [run_server_session] of
    [src/src/anytls/session.rs])

    One task reads the client's frames, one writes the frames handed to it, and
    each stream has a task that reads its destination, connects and relays.
    [astep] is one step of one of them, composed of the steps of the
    multiplexer ([AnyTls]) and of the relays ([AnyTlsRelay]). *)
From S2P Require Import Prelude RustStd Net Target AnyTlsPadding AnyTls AnyTlsRelay.

(** ** The state *)

(** A stream's task: where it is, and what it is going by. *)
Inductive handler :=
| HAddr (msgs : list (list Z))                  (** reads the address; received so far *)
| HConnect (target : list Z) (s : StreamConn)   (** in [TcpStream::connect] *)
| HRelay (target : list Z) (r : rstate)
| HEnded (target : option (list Z)) (r : option rstate).

(** [a_written]: how many of the frames handed to the writer task it has
    written; [a_writer]: whether it runs. *)
Record aconn := AConn {
  a_conn : conn;
  a_mux : msession;
  a_handlers : gmap nat handler;
  a_written : nat;
  a_writer : bool;
}.

Definition session_start (c : conn) : aconn := AConn c msession0 ∅ 0 true.

Definition set_mux (m : msession) (a : aconn) : aconn :=
  AConn (a_conn a) m (a_handlers a) (a_written a) (a_writer a).
Definition set_handler (ch : nat) (h : handler) (a : aconn) : aconn :=
  AConn (a_conn a) (a_mux a) (<[ch := h]> (a_handlers a)) (a_written a) (a_writer a).
Definition set_conn (c : conn) (a : aconn) : aconn :=
  AConn c (a_mux a) (a_handlers a) (a_written a) (a_writer a).
Definition a_emit (e : event) (a : aconn) : aconn :=
  set_conn (Conn (c_in (a_conn a)) (c_trace (a_conn a) ++ [e])) a.

Inductive move := MGrant | MUp | MUpFail | MDown.

Inductive alabel :=
| ARead                              (** the read loop: the next frame, or the end *)
| ADrain (sid : Z)                   (** after the loop: the next stream of the map *)
| AWrite                             (** the writer task writes a frame *)
| ARecv (ch : nat)                   (** a stream's task gets a message, or learns there is none *)
| AConnect (ch : nat)                (** a stream's connection attempt ends *)
| ATarget (ch : nat) (d : list Z)    (** a stream's target sends; empty is its end *)
| AMove (ch : nat) (m : move).       (** a stream's relay moves *)

Section session.
Context (E : env) (scheme : PaddingScheme).

(** A stream's task continues as [h]; when it ends it drops its receiver. *)
Definition settle (ch : nat) (h : handler) (a : aconn) : option aconn :=
  match h with
  | HEnded _ _ => m ← mstep scheme (a_mux a) (LDrop ch); Some (set_handler ch h (set_mux m a))
  | _ => Some (set_handler ch h a)
  end.

(** The read loop; a SYN frame starts a task for its stream. *)
Definition read_step (a : aconn) : option aconn :=
  match read_frame (a_conn a) with
  | (Done f, c) =>
      m ← mstep scheme (a_mux a) (LFrame f);
      let hs := if opens (a_mux a) (LFrame f) then <[m_next (a_mux a) := HAddr []]> (a_handlers a) else a_handlers a in
      Some (AConn c m hs (a_written a) (a_writer a))
  | (Fail _, c) =>
      m ← mstep scheme (a_mux a) LEof;
      Some (set_conn c (set_mux m a))
  | (Panic, _) => None
  end.

(** The writer task; it ends when a write fails. *)
Definition write_step (a : aconn) : option aconn :=
  if a_writer a then
    f ← m_out (a_mux a) !! a_written a;
    match write_all E (write_frame f) (a_conn a) with
    | (Done _, c) => Some (AConn c (a_mux a) (a_handlers a) (S (a_written a)) true)
    | (_, c) => Some (AConn c (a_mux a) (a_handlers a) (a_written a) false)
    end
  else None.

(** [read_socks5_addr] on the messages so far: when they do not suffice and none
    of them is the end marker, the task waits for the next. *)
Definition read_address (msgs : list (list Z)) : handler :=
  match read_socks5_addr read_exact_from (MkStream msgs []) with
  | (Done t, s) => HConnect t s
  | (Fail e, _) => if decide (e = EEof /\ [] ∉ msgs) then HAddr msgs else HEnded None None
  | (Panic, _) => HEnded None None
  end.

(** Whether a stream's task waits in [rx.recv()]. *)
Definition wants (h : handler) : bool :=
  match h with
  | HAddr _ => true
  | HRelay _ r => bool_decide (r_up r = URead /\ sc_buf (r_stream r) = [] /\ sc_rx (r_stream r) = [])
  | _ => false
  end.

(** [rx.recv()]: the next message; without one, the end once the map has dropped
    the sender ([read] returns 0 then, as for the end marker). *)
Definition chan_recv (ch : nat) (c : chan) (m : msession) : option (list Z * msession) :=
  match ch_queue c with
  | d :: _ => m ← mstep scheme m (LTake ch); Some (d, m)
  | [] => if decide (m_streams m !! ch_sid c = Some ch) then None else Some ([], m)
  end.

Definition recv_step (ch : nat) (a : aconn) : option aconn :=
  h ← a_handlers a !! ch;
  c ← m_chans (a_mux a) !! ch;
  if wants h then
    '(d, m) ← chan_recv ch c (a_mux a);
    match h with
    | HAddr msgs => settle ch (read_address (msgs ++ [d])) (set_mux m a)
    | HRelay t r =>
        r ← rstep (ch_sid c) r (RClient d);
        settle ch (HRelay t r) (set_mux m a)
    | _ => None
    end
  else None.

Definition connect_step (ch : nat) (a : aconn) : option aconn :=
  match a_handlers a !! ch with
  | Some (HConnect t s) =>
      let a' := a_emit (EvConnect t) a in
      match env_connect E (c_trace (a_conn a)) t with
      | ConnOk => settle ch (HRelay t (relay_start s)) a'
      | ConnRefused | ConnTimeout => settle ch (HEnded (Some t) None) a'
      end
  | _ => None
  end.

Definition target_step (ch : nat) (d : list Z) (a : aconn) : option aconn :=
  match a_handlers a !! ch with
  | Some (HRelay t r) =>
      r ← rstep 0 r (RTarget d);
      settle ch (HRelay t r) a
  | _ => None
  end.

Definition relay_label (writer : bool) (m : move) : rlabel :=
  match m with
  | MGrant => if writer then RGrant else RGrantGone
  | MUp => RUp
  | MUpFail => RUpFail
  | MDown => RDown
  end.

Definition forwards (t : list Z) (r : rstate) (m : move) (a : aconn) : aconn :=
  match m, r_up r with MUp, UWrite d => a_emit (EvForward t d) a | _, _ => a end.

(** A move of a relay: its frames go to the writer; when both halves have
    ended, so has the task. *)
Definition move_step (ch : nat) (m : move) (a : aconn) : option aconn :=
  match a_handlers a !! ch with
  | Some (HRelay t r) =>
      c ← m_chans (a_mux a) !! ch;
      r' ← rstep (ch_sid c) r (relay_label (a_writer a) m);
      mux ← mrun scheme (a_mux a) (LWrite <$> drop (length (r_sent r)) (r_sent r'));
      settle ch (if decide (r_up r' = UDone /\ r_down r' = DDone) then HEnded (Some t) (Some r') else HRelay t r')
        (forwards t r m (set_mux mux a))
  | _ => None
  end.

Definition astep (a : aconn) (l : alabel) : option aconn :=
  match l with
  | ARead => if m_ended (a_mux a) then None else read_step a
  | ADrain sid => m ← mstep scheme (a_mux a) (LDrain sid); Some (set_mux m a)
  | AWrite => write_step a
  | ARecv ch => recv_step ch a
  | AConnect ch => connect_step ch a
  | ATarget ch d => target_step ch d a
  | AMove ch m => move_step ch m a
  end.

Fixpoint arun (a : aconn) (ls : list alabel) : option aconn :=
  match ls with [] => Some a | l :: ls => a' ← astep a l; arun a' ls end.

(** A schedule: labels that are not possible are left out. *)
Definition scheduled (a : aconn) (ls : list alabel) : aconn :=
  foldl (fun a l => default a (astep a l)) a ls.

(** [handle_conn] after the handshake, with what happens to its tasks. *)
Definition session_conn (password_hash : list Z) (sched : list alabel) : M conn unit :=
  ok ← authenticate password_hash;
  if ok : bool then modify (fun c => a_conn (scheduled (session_start c) sched)) else mret tt.
End session.

#[local] Arguments opens : simpl never.

(** ** What a stream's task has done *)

Definition h_target (h : handler) : option (list Z) :=
  match h with HRelay t _ => Some t | HEnded o _ => o | _ => None end.
Definition h_relay (h : handler) : option rstate :=
  match h with HRelay _ r => Some r | HEnded _ o => o | _ => None end.
(** Written to the target, and sent back to the client. *)
Definition h_forwarded (h : handler) : list Z := default [] (r_fwd <$> h_relay h).
Definition h_sent (h : handler) : list frame := default [] (r_sent <$> h_relay h).

(** The targets of all streams; what a stream's target sent. *)
Definition targets (hs : gmap nat handler) : list (list Z) := omap (fun x => h_target x.2) (map_to_list hs).
Definition from_target (ch : nat) (ls : list alabel) : list Z :=
  concat (omap (fun l => match l with ATarget k d => if decide (k = ch) then Some d else None | _ => None end) ls).

Lemma from_target_snoc ch ls l :
  from_target ch (ls ++ [l]) =
    from_target ch ls ++ match l with ATarget k d => if decide (k = ch) then d else [] | _ => [] end.
Proof.
  unfold from_target. rewrite omap_app, concat_app. f_equal. destruct l; simpl; try done. case_decide; simpl; [|done].
  by rewrite app_nil_r.
Qed.

Lemma targets_delete hs ch h : hs !! ch = Some h -> targets hs ≡ₚ option_list (h_target h) ++ targets (delete ch hs).
Proof.
  intros Hh. unfold targets. rewrite <- (insert_delete_id hs ch h Hh) at 1.
  rewrite (map_to_list_insert (delete ch hs)) by apply lookup_delete_eq. simpl. by destruct (h_target h).
Qed.

Lemma targets_insert hs ch h : targets (<[ch := h]> hs) ≡ₚ option_list (h_target h) ++ targets (delete ch hs).
Proof.
  rewrite <- insert_delete_eq. unfold targets. rewrite map_to_list_insert by apply lookup_delete_eq. simpl.
  by destruct (h_target h).
Qed.

(** A task that goes on to the same target, and one that has made its connection. *)
Lemma targets_same hs ch h h' : hs !! ch = Some h -> h_target h' = h_target h -> targets (<[ch := h']> hs) ≡ₚ targets hs.
Proof. intros Hh E. by rewrite targets_insert, E, <- targets_delete. Qed.

Lemma targets_new hs ch h h' t :
  hs !! ch = Some h -> h_target h = None -> h_target h' = Some t -> targets (<[ch := h']> hs) ≡ₚ t :: targets hs.
Proof. intros Hh E E'. rewrite targets_insert, E', (targets_delete hs ch h Hh), E. done. Qed.

Lemma targets_fresh hs ch h : hs !! ch = None -> h_target h = None -> targets (<[ch := h]> hs) ≡ₚ targets hs.
Proof. intros Hn E. by rewrite targets_insert, E, delete_id. Qed.

(** ** A task and its channel *)

(** The messages [X] a task was given are those it took from its channel, with
    perhaps an end that it learnt from the closed channel. *)
Definition input_of (c : chan) (X : list (list Z)) : Prop :=
  exists taken, taken `prefix_of` ch_given c /\ (ch_rx c = true -> ch_given c = taken ++ ch_queue c) /\
    ([] ∉ X -> X = taken) /\ until_eof X `prefix_of` until_eof taken.

Lemma until_eof_stop X l : [] ∈ X -> until_eof (X ++ l) = until_eof X.
Proof.
  induction X as [|[|b x] X IH]; simpl; [by intros ?%elem_of_nil|done|].
  intros [?|Hin]%elem_of_cons; [done|]. by rewrite IH.
Qed.

Lemma input_push c X d : input_of c X -> ch_rx c = true -> input_of (push d c) X.
Proof.
  intros (taken & Hp & Hq & Hx & Hu) Hrx. exists taken. simpl. split_and!; [by apply prefix_app_r| |done|done].
  intros _. by rewrite (Hq Hrx), app_assoc.
Qed.

Lemma input_drop c X : input_of c X -> input_of (Chan (ch_sid c) (ch_queue c) false (ch_given c)) X.
Proof. intros (taken & Hp & Hq & Hx & Hu). exists taken. by split_and!. Qed.

Lemma input_take c X d q :
  input_of c X -> ch_rx c = true -> ch_queue c = d :: q -> input_of (Chan (ch_sid c) q true (ch_given c)) (X ++ [d]).
Proof.
  intros (taken & Hp & Hq & Hx & Hu) Hrx Eq. specialize (Hq Hrx). rewrite Eq in Hq. exists (taken ++ [d]). simpl.
  rewrite Hq, <- app_assoc. split_and!; [|done| |].
  - apply prefix_app. by exists q.
  - rewrite elem_of_app. intros Hn. by rewrite Hx by tauto.
  - destruct (decide ([] ∈ X)) as [Hin|Hno].
    + rewrite until_eof_stop by done. etrans; [exact Hu|]. apply until_eof_prefix. by apply prefix_app_r.
    + by rewrite Hx.
Qed.

Lemma input_end c X : input_of c X -> input_of c (X ++ [[]]).
Proof.
  intros (taken & Hp & Hq & Hx & Hu). exists taken. split_and!; [done|done| |].
  - intros Hn. destruct Hn. apply elem_of_app. right. by left.
  - destruct (decide ([] ∈ X)) as [Hin|Hno]; [by rewrite until_eof_stop|].
    rewrite until_eof_app by done. simpl. rewrite app_nil_r, Hx by done.
    pose proof (until_eof_app taken [] ltac:(by rewrite <- Hx)) as Et. simpl in Et. rewrite !app_nil_r in Et. by rewrite Et.
Qed.

(** The address was read, and [s] left. *)
Definition addressed (c : chan) (t : list Z) (s : StreamConn) : Prop :=
  exists msgs, input_of c msgs /\ read_socks5_addr read_exact_from (MkStream msgs []) = (Done t, s).

(** A relay: a run of [AnyTlsRelay] on what the channel gave and the target sent. *)
Definition relayed (c : chan) (got : list Z) (t : list Z) (r : rstate) : Prop :=
  exists msgs s ls, read_socks5_addr read_exact_from (MkStream msgs []) = (Done t, s) /\
    rrun (ch_sid c) (relay_start s) ls = Some r /\ input_of c (msgs ++ client_messages ls) /\ target_bytes ls = got.

Definition alive (h : handler) : Prop := match h with HEnded _ _ => False | _ => True end.

Definition hinv (c : chan) (got : list Z) (h : handler) : Prop :=
  (alive h -> ch_rx c = true) /\
  match h with
  | HAddr msgs => input_of c msgs /\ got = []
  | HConnect t s => addressed c t s /\ got = []
  | HEnded (Some t) None => (exists s, addressed c t s) /\ got = []
  | HRelay t r | HEnded (Some t) (Some r) => relayed c got t r
  | HEnded None None => got = []
  | HEnded None (Some _) => False
  end.

(** What other tasks do keeps a task's invariant, *)
Lemma hinv_change ch c l c' got h :
  chan_change ch c l c' -> l <> LTake ch -> l <> LDrop ch -> hinv c got h -> hinv c' got h /\ ch_sid c' = ch_sid c.
Proof.
  intros Hc Ht Hd Hi. destruct Hc as [l|l d Hrx|d q _ _|]; [done| |done|done]. split; [|done].
  assert (Hin : forall X, input_of c X -> input_of (push d c) X) by (intros; by apply input_push).
  destruct Hi as [Ha Hi]. split; [done|].
  assert (Hrel : forall t r, relayed c got t r -> relayed (push d c) got t r).
  { intros t r (msgs & s & ls & E & Hr & Hx & Hg). exists msgs, s, ls. by split_and!; [| |apply Hin|]. }
  destruct h as [msgs|t s|t r|[t|] [r|]]; try done; try (by apply Hrel).
  - destruct Hi. by split; [apply Hin|].
  - destruct Hi as [(msgs & ? & ?) ?]. split; [|done]. exists msgs. by split; [apply Hin|].
  - destruct Hi as [(s & msgs & ? & ?) ?]. split; [|done]. exists s, msgs. by split; [apply Hin|].
Qed.

(** and so does the end of the task itself. *)
Lemma hinv_drop c got t r :
  hinv c got (HEnded t r) -> hinv (Chan (ch_sid c) (ch_queue c) false (ch_given c)) got (HEnded t r).
Proof.
  intros [_ Hi]. split; [by intros []|]. destruct t as [t|], r as [r|]; try done.
  - destruct Hi as (msgs & s & ls & E & Hr & Hx & Hg). exists msgs, s, ls. by split_and!; [| |apply input_drop|].
  - destruct Hi as [(s & msgs & ? & ?) ?]. split; [|done]. exists s, msgs. by split; [apply input_drop|].
Qed.

(** ** The invariant of a connection *)

(** All tasks but those in [skip]. *)
Definition tasks_ok (skip : nat -> Prop) (m : msession) (hs : gmap nat handler) (got : nat -> list Z) : Prop :=
  forall ch h, ~ skip ch -> hs !! ch = Some h ->
    exists c, m_chans m !! ch = Some c /\ hinv c (got ch) h /\ h_sent h `sublist_of` m_out m.
Definition nobody (ch : nat) : Prop := False.

Lemma tasks_step scheme skip m l m' hs got :
  minv m -> mstep scheme m l = Some m' -> (forall ch, ~ skip ch -> l <> LTake ch /\ l <> LDrop ch) ->
  tasks_ok skip m hs got -> tasks_ok skip m' hs got.
Proof.
  intros Hm Hs Hl Ht ch h Hch Hh. destruct (Ht ch h Hch Hh) as (c & Hc & Hi & Hsub).
  destruct (chan_evolves _ _ _ _ _ _ Hm Hs Hc) as (c' & Hc' & Hchg). exists c'. split; [done|].
  destruct (Hl ch Hch). split; [by eapply hinv_change|].
  destruct (mstep_out _ _ _ _ Hs) as (fs & -> & _ & _). by apply sublist_inserts_r.
Qed.

Lemma tasks_run scheme fs m m' hs skip got :
  minv m -> mrun scheme m (LWrite <$> fs) = Some m' -> tasks_ok skip m hs got ->
  tasks_ok skip m' hs got /\ m_chans m' = m_chans m /\ m_out m' = m_out m ++ fs.
Proof.
  revert m. induction fs as [|f fs IH]; intros m Hm.
  - intros [= <-] Ht. by rewrite app_nil_r.
  - intros Hr Ht. change (mrun scheme (m_write f m) (LWrite <$> fs) = Some m') in Hr.
    destruct (IH (m_write f m)) as (Ht' & E1 & E2); [by eapply (minv_step scheme m (LWrite f))|done| |].
    + eapply (tasks_step scheme skip m (LWrite f)); [done|done|by intros|done].
    + split; [done|]. split; [done|]. rewrite E2. simpl. by rewrite <- app_assoc.
Qed.

(** A task that continues as [h]: the others stay as they were. *)
Lemma settle_ok scheme ch h a a' got c :
  minv (a_mux a) -> settle scheme ch h a = Some a' ->
  tasks_ok (eq ch) (a_mux a) (a_handlers a) got -> m_chans (a_mux a) !! ch = Some c -> ch_rx c = true ->
  hinv c (got ch) h -> h_sent h `sublist_of` m_out (a_mux a) ->
  tasks_ok nobody (a_mux a') (a_handlers a') got /\ a_handlers a' = <[ch := h]> (a_handlers a) /\
  a_conn a' = a_conn a /\ a_written a' = a_written a /\ m_out (a_mux a') = m_out (a_mux a) /\
  exists ls, mrun scheme (a_mux a) ls = Some (a_mux a') /\ frames_of ls = [] /\ LEof ∉ ls.
Proof.
  intros Hm Hs Ht Hc Hrx Hi Hsub. unfold settle in Hs.
  assert (Hlive : alive h -> Some (set_handler ch h a) = Some a' ->
    tasks_ok nobody (a_mux a') (a_handlers a') got /\ a_handlers a' = <[ch := h]> (a_handlers a) /\
    a_conn a' = a_conn a /\ a_written a' = a_written a /\ m_out (a_mux a') = m_out (a_mux a) /\
    exists ls, mrun scheme (a_mux a) ls = Some (a_mux a') /\ frames_of ls = [] /\ LEof ∉ ls).
  { intros _ [= <-]. split_and!; [|done..|exists []; split_and!; [done|done|by intros ?%elem_of_nil]].
    intros ch' h' _. simpl. rewrite lookup_insert_Some. intros [[<- <-]|[Hne Hh]]; [by exists c|by apply Ht]. }
  destruct h as [msgs|t s|t r|t r]; try (by apply Hlive).
  destruct (mstep scheme (a_mux a) (LDrop ch)) as [m|] eqn:E; [|done]. simpl in Hs. injection Hs as <-. simpl.
  split_and!; [|done..| |].
  - assert (Ht' : tasks_ok (eq ch) m (a_handlers a) got).
    { eapply tasks_step; [done|exact E| |done]. intros ch' Hne. split; [done|]. by intros [= ->]. }
    intros ch' h' _. rewrite lookup_insert_Some. intros [[<- <-]|[Hne Hh]]; [|by apply Ht'].
    simpl in E. rewrite Hc in E. injection E as <-. simpl. rewrite lookup_insert_eq. eexists.
    split; [done|]. split; [by apply hinv_drop|done].
  - simpl in E. rewrite Hc in E. by injection E as <-.
  - exists [LDrop ch]. split; [simpl in *; by rewrite E|]. split; [done|]. by intros ?%list_elem_of_singleton.
Qed.

Definition wire (fs : list frame) : list Z := f ← fs; write_frame f.
Definition frame_in (f : frame) : Prop := frame_ok f /\ bytes_ok (f_data f).

(** The multiplexer ran on the frames of the input. *)
Definition mux_ok (scheme : PaddingScheme) (c0 : conn) (a : aconn) : Prop :=
  exists mls rest, mrun scheme msession0 mls = Some (a_mux a) /\ c_in c0 = wire (frames_of mls) ++ rest /\
    (m_ended (a_mux a) = false -> c_in (a_conn a) = rest) /\ Forall frame_in (frames_of mls).

(** What can be seen: connections, and what the writer task wrote. *)
Definition trace_ok (c0 : conn) (a : aconn) : Prop :=
  exists l, c_trace (a_conn a) = c_trace c0 ++ l /\ connects l ≡ₚ targets (a_handlers a) /\
    written l = wire (take (a_written a) (m_out (a_mux a))) /\ (a_written a <= length (m_out (a_mux a)))%nat.

(** Data frames for the client come from the streams' tasks. *)
Definition data_ok (out : list frame) (hs : gmap nat handler) : Prop :=
  forall f, f ∈ out -> f_cmd f = CMD_PSH -> exists ch h, hs !! ch = Some h /\ f ∈ h_sent h.

Record ainv (scheme : PaddingScheme) (c0 : conn) (ls : list alabel) (a : aconn) : Prop := {
  i_mux : mux_ok scheme c0 a;
  i_trace : trace_ok c0 a;
  i_dom : forall ch, is_Some (a_handlers a !! ch) <-> (ch < m_next (a_mux a))%nat;
  i_fresh : forall ch, a_handlers a !! ch = None -> from_target ch ls = [];
  i_tasks : tasks_ok nobody (a_mux a) (a_handlers a) (fun ch => from_target ch ls);
  i_data : data_ok (m_out (a_mux a)) (a_handlers a);
}.

Section steps.
Context (E : env) (scheme : PaddingScheme) (c0 : conn).
Context (Hb0 : bytes_ok (c_in c0)).

Lemma i_minv ls a : ainv scheme c0 ls a -> minv (a_mux a).
Proof. intros [(mls & rest & Hr & _) _ _ _ _ _]. eapply minv_run; [apply minv0|exact Hr]. Qed.

(** Steps of the multiplexer that read nothing. *)
Lemma mux_ok_more a a' new :
  mux_ok scheme c0 a -> mrun scheme (a_mux a) new = Some (a_mux a') -> frames_of new = [] -> 
  c_in (a_conn a') = c_in (a_conn a) -> mux_ok scheme c0 a'.
Proof.
  intros (mls & rest & Hr & Hw & Hrest & Hf) Hn Hfr Hin. exists (mls ++ new), rest.
  rewrite frames_of_app, Hfr, app_nil_r, mrun_app, Hr. split_and!; [done|done| |done].
  intros He. rewrite Hin. apply Hrest. clear Hr Hin Hrest Hfr. revert a Hn.
  assert (Hg : forall m, mrun scheme m new = Some (a_mux a') -> m_ended m = false).
  { induction new as [|l new IH]; intros m; simpl; [by intros [= ->]|].
    destruct (mstep scheme m l) as [m1|] eqn:E1; [|done]. intros Hn. apply (mstep_next _ _ _ _ E1). by apply IH. }
  intros a. apply Hg.
Qed.

Lemma take_out_more a m fs : (a_written a <= length (m_out (a_mux a)))%nat -> m_out m = m_out (a_mux a) ++ fs ->
  take (a_written a) (m_out m) = take (a_written a) (m_out (a_mux a)) /\ (a_written a <= length (m_out m))%nat.
Proof. intros Hl ->. rewrite take_app_le, length_app by done. split; [done|lia]. Qed.

Lemma data_ok_more l m out' hs :
  data_ok (m_out m) hs -> wrote l (m_out m) out' -> (forall f, l <> LWrite f) -> data_ok out' hs.
Proof.
  intros Hd (fs & -> & _ & Hw) Hl f [Hin|Hin]%elem_of_app Hc; [by apply Hd|]. by destruct (Hl f), (Hw f Hin Hc).
Qed.

Lemma data_ok_insert out hs ch h0 h :
  data_ok out hs -> hs !! ch = Some h0 -> h_sent h0 `prefix_of` h_sent h -> data_ok out (<[ch := h]> hs).
Proof.
  intros Hd Hh [k Hk] f Hin Hc. destruct (Hd f Hin Hc) as (ch' & h' & Hh' & Hf). destruct (decide (ch = ch')) as [->|Hne].
  - exists ch', h. rewrite lookup_insert_eq. split; [done|]. rewrite Hk. apply elem_of_app. left. by simplify_eq.
  - exists ch', h'. by rewrite lookup_insert_ne.
Qed.

(** Steps that leave the trace. *)
Lemma trace_ok_same a a' fs :
  trace_ok c0 a -> c_trace (a_conn a') = c_trace (a_conn a) -> a_written a' = a_written a ->
  m_out (a_mux a') = m_out (a_mux a) ++ fs -> targets (a_handlers a') ≡ₚ targets (a_handlers a) -> trace_ok c0 a'.
Proof.
  intros (l & Ht & Hc & Hw & Hl) Et Ew Em Eh. exists l. destruct (take_out_more a (a_mux a') fs Hl Em) as [E1 E2].
  rewrite Et, Ew, E1, Eh. by split_and!.
Qed.

Lemma ainv_read ls a a' : ainv scheme c0 ls a -> astep E scheme a ARead = Some a' -> ainv scheme c0 (ls ++ [ARead]) a'.
Proof.
  intros Hi. pose proof (i_minv _ _ Hi) as Hm. destruct Hi as [(mls & rest & Hr & Hw & Hrest & Hf) Ht Hd Hn Hk Hps].
  simpl. destruct (m_ended (a_mux a)) eqn:Een; [done|]. specialize (Hrest eq_refl). unfold read_step.
  destruct (read_frame (a_conn a)) as [[f|e|] c] eqn:Er; [| |done].
  - destruct (mstep scheme (a_mux a) (LFrame f)) as [m|] eqn:Es; [|done]. simpl. intros [= <-].
    assert (Hbr : bytes_ok (c_in (a_conn a))) by (rewrite Hw in Hb0; apply Forall_app in Hb0; rewrite Hrest; tauto).
    destruct (sound_conn _ _ _ _ _ sound_frame Hbr Er) as (bs & P & (-> & Hfo & Hfd) & T).
    pose proof (mstep_out _ _ _ _ Es) as Hwr. pose proof Hwr as (fs & Eo & _). destruct (mstep_next _ _ _ _ Es) as (En & _ & _).
    assert (Hlab : forall ch, ~ nobody ch -> LFrame f <> LTake ch /\ LFrame f <> LDrop ch) by done.
    pose proof (tasks_step _ _ _ _ _ _ _ Hm Es Hlab Hk) as Hk'. constructor; simpl.
    + exists (mls ++ [LFrame f]), (c_in c). rewrite mrun_app, Hr. simpl in *. rewrite Es, frames_of_app. split_and!; [done| |done|].
      * rewrite Hw, <- Hrest, P. unfold wire. rewrite bind_app. simpl. by rewrite app_nil_r, <- app_assoc.
      * apply Forall_app. split; [done|]. by apply Forall_singleton.
    + apply (trace_ok_same a _ fs); [exact Ht|exact T|reflexivity|exact Eo|]. simpl. destruct (opens _ _); [|reflexivity].
      apply targets_fresh; [|done]. apply eq_None_not_Some. intros Hs. apply Hd in Hs. lia.
    + intros ch. rewrite En. destruct (opens _ _); [|apply Hd]. rewrite lookup_insert_is_Some, Hd. lia.
    + intros ch. rewrite from_target_snoc, app_nil_r. destruct (opens _ _); [rewrite lookup_insert_None; intros [? _]|]; by apply Hn.
    + intros ch h _ Hh. rewrite from_target_snoc, app_nil_r. destruct (opens _ _) eqn:Eop; [|exact (Hk' ch h id Hh)].
      rewrite lookup_insert_Some in Hh. destruct Hh as [[<- <-]|[Hne Hh]]; [|exact (Hk' ch h id Hh)].
      unfold opens in Eop. apply andb_true_iff in Eop as [Hc%bool_decide_eq_true Hs].
      simpl in Es. rewrite Een in Es. assert (m = on_syn (f_sid f) (a_mux a)) as ->.
      { unfold on_frame in Es. rewrite Hc in Es. by injection Es. }
      destruct (on_syn_next (f_sid f) (a_mux a) Hs) as (_ & E2 & _). rewrite E2, lookup_insert_eq. eexists. split; [done|].
      split; [|apply sublist_nil_l]. split; [done|]. split; [|apply Hn, eq_None_not_Some; rewrite Hd; lia].
      exists []. split_and!; [done|done|done|done].
    + assert (Hps' : data_ok (m_out m) (a_handlers a)) by (by eapply data_ok_more).
      destruct (opens _ _); [|done]. intros f' Hin Hc. destruct (Hps' f' Hin Hc) as (ch & h & Hh & Hf'). exists ch, h.
      rewrite lookup_insert_ne; [done|]. intros <-. assert (Hlt : is_Some (a_handlers a !! m_next (a_mux a))) by done.
      apply Hd in Hlt. lia.
  - simpl. rewrite Een. simpl. intros [= <-]. constructor; simpl.
    + exists (mls ++ [LEof]), rest. rewrite mrun_app, Hr, frames_of_app. simpl. rewrite Een, app_nil_r. by split_and!.
    + apply (trace_ok_same a _ []); [done| |done|by rewrite app_nil_r|done]. simpl.
      by destruct (quiet_conn _ _ _ _ quiet_frame Er).
    + apply Hd.
    + intros ch. rewrite from_target_snoc, app_nil_r. apply Hn.
    + intros ch h _ Hh. rewrite from_target_snoc, app_nil_r. destruct (Hk ch h id Hh) as (c1 & ? & ? & ?). by exists c1.
    + exact Hps.
Qed.

Lemma mrun_out m ms m' : mrun scheme m ms = Some m' -> exists fs, m_out m' = m_out m ++ fs.
Proof.
  revert m. induction ms as [|l ms IH]; intros m; simpl; [intros [= <-]; exists []; by rewrite app_nil_r|].
  destruct (mstep scheme m l) as [m1|] eqn:E1; [|done]. intros Hr. destruct (mstep_out _ _ _ _ E1) as (f1 & Eo & _ & _).
  destruct (IH m1 Hr) as [f2 E2]. exists (f1 ++ f2). by rewrite E2, Eo, app_assoc.
Qed.

Lemma mrun_next m ms m' : mrun scheme m ms = Some m' -> frames_of ms = [] -> m_next m' = m_next m.
Proof.
  revert m. induction ms as [|l ms IH]; intros m; simpl; [by intros [= <-]|].
  destruct (mstep scheme m l) as [m1|] eqn:E1; [|done]. intros Hr Hf. destruct (mstep_next _ _ _ _ E1) as (En & _).
  destruct l; try discriminate Hf; rewrite (IH m1 Hr Hf), En; done.
Qed.

(** Task [ch] went from [h0] to [h], and what else there is to see is [ev]. *)
Lemma ainv_task ls l a a1 a' ch h0 h c new ev :
  ainv scheme c0 ls a -> a_handlers a !! ch = Some h0 ->
  a_handlers a1 = a_handlers a -> a_written a1 = a_written a -> c_in (a_conn a1) = c_in (a_conn a) ->
  c_trace (a_conn a1) = c_trace (a_conn a) ++ ev -> written ev = [] ->
  option_list (h_target h) = option_list (h_target h0) ++ connects ev ->
  mrun scheme (a_mux a) new = Some (a_mux a1) -> frames_of new = [] ->
  tasks_ok (eq ch) (a_mux a1) (a_handlers a) (fun k => from_target k ls) ->
  (forall k, k <> ch -> from_target k (ls ++ [l]) = from_target k ls) ->
  m_chans (a_mux a1) !! ch = Some c -> ch_rx c = true -> hinv c (from_target ch (ls ++ [l])) h ->
  h_sent h `sublist_of` m_out (a_mux a1) -> h_sent h0 `prefix_of` h_sent h ->
  (forall f, f ∈ m_out (a_mux a1) -> f ∈ m_out (a_mux a) \/ f ∈ h_sent h) ->
  settle scheme ch h a1 = Some a' -> ainv scheme c0 (ls ++ [l]) a'.
Proof.
  intros Hi Hh0 Eh Ew Ein Et Hw Htg Hr Hfr Hk Hgot Hc Hrx Hh Hsub Hgrow Hnew Hs.
  assert (Hm1 : minv (a_mux a1)) by (eapply minv_run; [by eapply i_minv|exact Hr]).
  assert (Hk1 : tasks_ok (eq ch) (a_mux a1) (a_handlers a1) (fun k => from_target k (ls ++ [l]))).
  { intros k h1 Hne Hk1. rewrite Eh in Hk1. rewrite Hgot by (by intros ->). by apply Hk. }
  destruct (settle_ok _ _ _ _ _ _ _ Hm1 Hs Hk1 Hc Hrx Hh Hsub) as (Hk' & Eh' & Ec' & Ew' & Eo' & ms & Hr' & Hfr' & _).
  destruct (mrun_out _ _ _ Hr) as [fs Efs]. pose proof (mrun_next _ _ _ Hr Hfr) as En. pose proof (mrun_next _ _ _ Hr' Hfr') as En'.
  destruct Hi as [Hmux (tr & Htr & Hcn & Hwr & Hlen) Hd Hn Hks Hps]. constructor.
  - apply (mux_ok_more a a' (new ++ ms)); [done| | |by rewrite Ec', Ein].
    + rewrite mrun_app, Hr. exact Hr'.
    + by rewrite frames_of_app, Hfr, Hfr'.
  - assert (Eo : m_out (a_mux a') = m_out (a_mux a) ++ fs) by (by rewrite Eo').
    destruct (take_out_more a (a_mux a') fs Hlen Eo) as [E1 E2]. exists (tr ++ ev).
    rewrite Ec', Et, Htr, Ew', Ew, E1, Eh', Eh, <- app_assoc, connects_app, written_app, Hw, app_nil_r. split_and!; [done| |done|done].
    rewrite targets_insert, Htg, Hcn, (targets_delete _ ch h0) by done. rewrite <- !app_assoc. by rewrite (Permutation_app_comm (targets _)).
  - intros k. rewrite Eh', Eh, En', En, lookup_insert_is_Some, Hd. assert (ch < m_next (a_mux a))%nat by (by apply Hd). 
    destruct (decide (ch = k)) as [->|]; tauto.
  - intros k. rewrite Eh', Eh, lookup_insert_None. intros [Hkn Hne]. rewrite Hgot by done. by apply Hn.
  - exact Hk'.
  - rewrite Eo', Eh', Eh. intros f [Hin|Hin]%Hnew Hcm; [by eapply data_ok_insert|].
    exists ch, h. by rewrite lookup_insert_eq.
Qed.

Lemma ainv_drain ls a sid a' :
  ainv scheme c0 ls a -> astep E scheme a (ADrain sid) = Some a' -> ainv scheme c0 (ls ++ [ADrain sid]) a'.
Proof.
  intros Hi. pose proof (i_minv _ _ Hi) as Hm. destruct Hi as [Hmux Ht Hd Hn Hk Hps]. cbn [astep].
  destruct (mstep scheme (a_mux a) (LDrain sid)) as [m|] eqn:Es; [|done]. intros [= <-].
  pose proof (mstep_out _ _ _ _ Es) as Hwr. pose proof Hwr as (fs & Eo & _). destruct (mstep_next _ _ _ _ Es) as (En & _). constructor; cbn [set_mux a_mux a_handlers].
  - apply (mux_ok_more a _ [LDrain sid]); [done|cbn [mrun]; by rewrite Es|done|done].
  - by apply (trace_ok_same a _ fs).
  - intros ch. rewrite En. apply Hd.
  - intros ch. rewrite from_target_snoc, app_nil_r. apply Hn.
  - intros ch h _ Hh. rewrite from_target_snoc, app_nil_r.
    assert (Hl : forall k, ~ nobody k -> LDrain sid <> LTake k /\ LDrain sid <> LDrop k) by done.
    exact (tasks_step _ _ _ _ _ _ _ Hm Es Hl Hk ch h id Hh).
  - by eapply data_ok_more.
Qed.

Lemma ainv_write ls a a' :
  ainv scheme c0 ls a -> astep E scheme a AWrite = Some a' -> ainv scheme c0 (ls ++ [AWrite]) a'.
Proof.
  intros [Hmux (tr & Htr & Hcn & Hwr & Hlen) Hd Hn Hk Hps]. cbn [astep]. unfold write_step. destruct (a_writer a); [|done].
  destruct (m_out (a_mux a) !! a_written a) as [f|] eqn:Ef; [|done]. cbn [mbind option_bind].
  assert (Hrest : forall c w b, c_in c = c_in (a_conn a) -> trace_ok c0 (AConn c (a_mux a) (a_handlers a) w b) ->
    ainv scheme c0 (ls ++ [AWrite]) (AConn c (a_mux a) (a_handlers a) w b)).
  { intros c w b Ec Ht. constructor; [|done|done| | |done].
    - by apply (mux_ok_more a _ []).
    - intros ch. rewrite from_target_snoc, app_nil_r. apply Hn.
    - intros ch h Hch Hh. rewrite from_target_snoc, app_nil_r. by apply Hk. }
  unfold write_all. destruct (env_write_ok E (c_trace (a_conn a))); simpl; intros [= <-]; (apply Hrest; [done|]).
  - exists (tr ++ [EvWrite (write_frame f)]). simpl. rewrite Htr, <- app_assoc, connects_app, written_app, Hwr. simpl.
    rewrite !app_nil_r. split_and!; [done|done| |].
    + rewrite (take_S_r _ _ _ Ef). unfold wire. rewrite bind_app. simpl. by rewrite app_nil_r.
    + by apply lookup_lt_Some in Ef.
  - by exists tr.
Qed.

(** A relay's move: a longer run. *)
Lemma relayed_step c got t r l r' d :
  relayed c got t r -> rstep (ch_sid c) r l = Some r' -> (forall x, l <> RClient x) ->
  d = (match l with RTarget x => x | _ => [] end) -> relayed c (got ++ d) t r'.
Proof.
  intros (msgs & s & rs & Ea & Hr & Hx & Hg) Hs Hl ->. exists msgs, s, (rs ++ [l]). split_and!; [done| | |].
  - by eapply rrun_snoc.
  - rewrite client_snoc. destruct l; [by destruct (Hl d)|..]; by rewrite app_nil_r.
  - by rewrite target_snoc, Hg.
Qed.

Lemma task_chan ls a ch h : ainv scheme c0 ls a -> a_handlers a !! ch = Some h ->
  exists c, m_chans (a_mux a) !! ch = Some c /\ hinv c (from_target ch ls) h /\ h_sent h `sublist_of` m_out (a_mux a).
Proof. intros Hi Hh. exact (i_tasks _ _ _ _ Hi ch h id Hh). Qed.

Lemma others ls a ch : ainv scheme c0 ls a -> tasks_ok (eq ch) (a_mux a) (a_handlers a) (fun k => from_target k ls).
Proof. intros Hi k h _ Hh. exact (i_tasks _ _ _ _ Hi k h id Hh). Qed.

Lemma ainv_connect ls a ch a' :
  ainv scheme c0 ls a -> astep E scheme a (AConnect ch) = Some a' -> ainv scheme c0 (ls ++ [AConnect ch]) a'.
Proof.
  intros Hi. cbn [astep]. unfold connect_step. destruct (a_handlers a !! ch) as [[|t s| |]|] eqn:Eh; try done.
  destruct (task_chan _ _ _ _ Hi Eh) as (c & Hc & [Hrx [Ha Hg]] & _).
  assert (Hgo : forall h, h_target h = Some t -> hinv c (from_target ch ls) h -> h_sent h = [] ->
    settle scheme ch h (a_emit (EvConnect t) a) = Some a' -> ainv scheme c0 (ls ++ [AConnect ch]) a').
  { intros h Ht Hh Hs Hset. eapply (ainv_task ls _ a (a_emit (EvConnect t) a) a' ch _ h c [] [EvConnect t]);
      try done; [by rewrite Ht|exact (others _ _ _ Hi)| | | | | |by left].
    - intros k _. by rewrite from_target_snoc, app_nil_r.
    - by apply Hrx.
    - by rewrite from_target_snoc, app_nil_r.
    - rewrite Hs. apply sublist_nil_l.
    - rewrite Hs. apply prefix_nil. }
  destruct (env_connect E (c_trace (a_conn a)) t); apply Hgo; try done.
  - split; [done|]. destruct Ha as (msgs & Hin & Ea). exists msgs, s, []. split_and!; [done|done|by rewrite app_nil_r|done].
  - split; [done|]. split; [by exists s|done].
  - split; [done|]. split; [by exists s|done].
Qed.

Lemma ainv_target ls a ch d a' :
  ainv scheme c0 ls a -> astep E scheme a (ATarget ch d) = Some a' -> ainv scheme c0 (ls ++ [ATarget ch d]) a'.
Proof.
  intros Hi. cbn [astep]. unfold target_step. destruct (a_handlers a !! ch) as [[| |t r|]|] eqn:Eh; try done.
  destruct (task_chan _ _ _ _ Hi Eh) as (c & Hc & [Hrx Hrel] & Hsub).
  destruct (rstep 0 r (RTarget d)) as [r'|] eqn:Er; [|done]. cbn [mbind option_bind]. intros Hs.
  eapply (ainv_task ls _ a a a' ch _ (HRelay t r') c [] []); try done; [by rewrite app_nil_r|exact (others _ _ _ Hi)| | | | | |by left].
  - intros k Hne. rewrite from_target_snoc. by rewrite decide_False, app_nil_r.
  - by apply Hrx.
  - split; [done|]. rewrite from_target_snoc, decide_True by done. by apply (relayed_step c _ t r (RTarget d)).
  - simpl in Er. by injection Er as <-.
  - simpl in Er. by injection Er as <-.
Qed.

Lemma ainv_move ls a ch m a' :
  ainv scheme c0 ls a -> astep E scheme a (AMove ch m) = Some a' -> ainv scheme c0 (ls ++ [AMove ch m]) a'.
Proof.
  intros Hi. cbn [astep]. unfold move_step. destruct (a_handlers a !! ch) as [[| |t r|]|] eqn:Eh; try done.
  destruct (task_chan _ _ _ _ Hi Eh) as (c & Hc & [Hrx Hrel] & Hsub). rewrite Hc. cbn [mbind option_bind].
  destruct (rstep (ch_sid c) r _) as [r'|] eqn:Er; [|done]. cbn [mbind option_bind].
  destruct (rstep_sent _ _ _ _ Er) as [fs Efs]. rewrite Efs, drop_app_length.
  destruct (mrun scheme (a_mux a) (LWrite <$> fs)) as [mux|] eqn:Em; [|done]. cbn [mbind option_bind]. intros Hs.
  destruct (tasks_run _ _ _ _ _ _ _ (i_minv _ _ Hi) Em (others _ _ ch Hi)) as (Hk & Ech & Eout).
  assert (Hl : forall x, relay_label (a_writer a) m <> RClient x) by (intros; destruct m; simpl; try done; by destruct (a_writer a)).
  assert (Hrel' : relayed c (from_target ch (ls ++ [AMove ch m])) t r').
  { rewrite from_target_snoc. eapply relayed_step; [done|done|done|]. destruct m; simpl; try done. by destruct (a_writer a). }
  set (h := if decide _ then _ else _) in Hs.
  assert (Hh : h_target h = Some t /\ h_relay h = Some r' /\ hinv c (from_target ch (ls ++ [AMove ch m])) h).
  { subst h. case_decide; (split_and!; [done|done|]); (split; [done|exact Hrel']). }
  destruct Hh as (Ht & Hr & Hh).
  assert (Hev : exists ev, a_conn (forwards t r m (set_mux mux a)) = Conn (c_in (a_conn a)) (c_trace (a_conn a) ++ ev) /\
    written ev = [] /\ connects ev = []).
  { unfold forwards. destruct m; [exists []|destruct (r_up r); [exists []|exists []|eexists [_]|exists []]|exists []|exists []];
      simpl; rewrite ?app_nil_r; by destruct (a_conn a). }
  destruct Hev as (ev & Ec & Hw & Hcn).
  assert (Hfw : a_mux (forwards t r m (set_mux mux a)) = mux /\ a_handlers (forwards t r m (set_mux mux a)) = a_handlers a /\
    a_written (forwards t r m (set_mux mux a)) = a_written a) by (unfold forwards; destruct m; try done; by destruct (r_up r)).
  destruct Hfw as (E1 & E2 & E3).
  eapply (ainv_task ls _ a _ a' ch _ h c (LWrite <$> fs) ev); rewrite ?E1, ?Ec; try done.
  - rewrite Ht, Hcn. done.
  - clear. induction fs; [done|]. simpl. done.
  - intros k _. by rewrite from_target_snoc, app_nil_r.
  - by rewrite Ech.
  - by apply Hrx.
  - unfold h_sent in *. rewrite Hr, Eout. simpl in *. rewrite Efs. by apply sublist_app.
  - unfold h_sent. rewrite Hr. simpl. rewrite Efs. by apply prefix_app_r.
  - unfold h_sent. rewrite Hr, Eout. simpl. rewrite Efs. intros f. rewrite !elem_of_app. tauto.
Qed.

(** A message for a task: from its channel, or the end of a channel that is closed. *)
Lemma recv_message ls a ch h c d m :
  ainv scheme c0 ls a -> a_handlers a !! ch = Some h -> alive h -> m_chans (a_mux a) !! ch = Some c ->
  chan_recv scheme ch c (a_mux a) = Some (d, m) ->
  exists c' new, mrun scheme (a_mux a) new = Some m /\ frames_of new = [] /\ m_chans m !! ch = Some c' /\
    ch_rx c' = true /\ ch_sid c' = ch_sid c /\ m_out m = m_out (a_mux a) /\
    tasks_ok (eq ch) m (a_handlers a) (fun k => from_target k ls) /\ (forall X, input_of c X -> input_of c' (X ++ [d])).
Proof.
  intros Hi Hh Ha Hc. destruct (task_chan _ _ _ _ Hi Hh) as (c1 & Hc1 & [Hrx _] & _).
  rewrite Hc in Hc1. injection Hc1 as <-. specialize (Hrx Ha). unfold chan_recv. destruct (ch_queue c) as [|d1 q] eqn:Eq.
  - case_decide; [done|]. intros [= <- <-]. exists c, []. split_and!; try done; [exact (others _ _ _ Hi)|].
    intros X. apply input_end.
  - destruct (mstep scheme (a_mux a) (LTake ch)) as [m1|] eqn:Es; [|done]. simpl. intros [= <- <-].
    exists (Chan (ch_sid c) q true (ch_given c)), [LTake ch].
    assert (Hk : tasks_ok (eq ch) m1 (a_handlers a) (fun k => from_target k ls)).
    { eapply tasks_step; [by eapply i_minv|exact Es| |exact (others _ _ _ Hi)]. intros k Hne. split; [|done]. by intros [= ->]. }
    simpl in Es. rewrite Hc in Es. simpl in Es. rewrite Eq, Hrx in Es. injection Es as <-. simpl in *.
    rewrite Hc. simpl. rewrite Eq, Hrx. split_and!; try done; [by rewrite lookup_insert_eq|].
    intros X Hx. by apply input_take.
Qed.

Lemma ainv_recv ls a ch a' :
  ainv scheme c0 ls a -> astep E scheme a (ARecv ch) = Some a' -> ainv scheme c0 (ls ++ [ARecv ch]) a'.
Proof.
  intros Hi. cbn [astep]. unfold recv_step. destruct (a_handlers a !! ch) as [h|] eqn:Eh; [|done].
  destruct (task_chan _ _ _ _ Hi Eh) as (c & Hc & [Hrx Hh] & Hsub). cbn [mbind option_bind]. rewrite Hc. cbn [mbind option_bind].
  destruct (wants h) eqn:Ew; [|done].
  assert (Hal : alive h) by (destruct h; try done). specialize (Hrx Hal).
  destruct (chan_recv scheme ch c (a_mux a)) as [[d m]|] eqn:Em; [|done]. cbn [mbind option_bind].
  destruct (recv_message _ _ _ _ _ _ _ Hi Eh Hal Hc Em) as (c' & new & Hr & Hfr & Hc' & Hrx' & Esid & Eo & Hk & Hx).
  assert (Hgo : forall h', h_target h' = h_target h -> hinv c' (from_target ch ls) h' -> h_sent h' = h_sent h ->
    settle scheme ch h' (set_mux m a) = Some a' -> ainv scheme c0 (ls ++ [ARecv ch]) a').
  { intros h' Ht Hh' Hs' Hs. eapply (ainv_task ls _ a (set_mux m a) a' ch h h' c' new []); try done.
    - by rewrite app_nil_r.
    - by rewrite Ht, app_nil_r.
    - intros k _. by rewrite from_target_snoc, app_nil_r.
    - by rewrite from_target_snoc, app_nil_r.
    - simpl. by rewrite Eo, Hs'.
    - by rewrite Hs'.
    - simpl. rewrite Eo. by left. }
  destruct h as [msgs|t s|t r|t r]; try done.
  - destruct Hh as [Hin Hg]. apply Hgo; unfold read_address;
      destruct (read_socks5_addr read_exact_from (MkStream (msgs ++ [d]) [])) as [[t|e|] s] eqn:Ea;
      try case_decide; try done; (split; [done|]).
    + split; [|done]. exists (msgs ++ [d]). by split; [apply Hx|].
    + by split; [apply Hx|].
  - destruct (rstep (ch_sid c) r (RClient d)) as [r'|] eqn:Er; [|done]. cbn [mbind option_bind]. intros Hs.
    apply (Hgo (HRelay t r')); [done| |by injection Er as <-|exact Hs]. split; [done|].
    destruct Hh as (msgs & s & rs & Ea & Hrun & Hin & Hg). exists msgs, s, (rs ++ [RClient d]). split_and!; [done| | |].
    + rewrite Esid. by eapply rrun_snoc.
    + rewrite client_snoc, app_assoc. by apply Hx.
    + by rewrite target_snoc, app_nil_r.
Qed.

Lemma ainv_step ls a l a' : ainv scheme c0 ls a -> astep E scheme a l = Some a' -> ainv scheme c0 (ls ++ [l]) a'.
Proof.
  destruct l; [apply ainv_read|apply ainv_drain|apply ainv_write|apply ainv_recv|apply ainv_connect|apply ainv_target|apply ainv_move].
Qed.

Lemma ainv_start : ainv scheme c0 [] (session_start c0).
Proof.
  constructor; simpl; try done.
  - exists [], (c_in c0). by split_and!.
  - exists []. rewrite app_nil_r. split_and!; [done|done|done|simpl; lia].
  - intros ch. rewrite lookup_empty. split; [by intros []|lia].
  - by intros f ?%elem_of_nil.
Qed.

Lemma arun_app a l1 l2 : arun E scheme a (l1 ++ l2) = arun E scheme a l1 ≫= fun a' => arun E scheme a' l2.
Proof. revert a. induction l1 as [|l l1 IH]; intros a; [done|]. simpl. destruct (astep E scheme a l); [apply IH|done]. Qed.

Lemma ainv_run ls a : arun E scheme (session_start c0) ls = Some a -> ainv scheme c0 ls a.
Proof.
  revert a. induction ls as [|l ls IH] using rev_ind; intros a; [intros [= <-]; apply ainv_start|].
  rewrite arun_app. destruct (arun E scheme (session_start c0) ls) as [a1|]; [|done]. simpl.
  destruct (astep E scheme a1 l) as [a2|] eqn:Es; [|done]. intros [= <-]. eapply ainv_step; [by apply IH|done].
Qed.
End steps.

(** ** What a connection does *)

(** The data frames of stream [sid] after it was opened, up to its end. *)
Definition stream_bytes (sid : Z) (fs : list frame) : list Z := concat (until_eof (delivered sid (LFrame <$> fs))).

Lemma until_eof_mono m x y :
  until_eof x `prefix_of` until_eof y -> until_eof (m ++ x) `prefix_of` until_eof (m ++ y).
Proof. intros Hp. induction m as [|[|b d] m IH]; simpl; [done|done|by apply prefix_cons]. Qed.

(** The end of the session, which closes a stream too, only cuts its data short. *)
Lemma delivered_frames sid ls :
  concat (until_eof (delivered sid ls)) `prefix_of` stream_bytes sid (frames_of ls).
Proof.
  unfold stream_bytes. apply concat_prefix. induction ls as [|l ls IH]; [done|].
  destruct l as [f| |s| | |]; simpl; try exact IH.
  - change (frames_of (LFrame f :: ls)) with (f :: frames_of ls).
    change (LFrame <$> f :: frames_of ls) with (LFrame f :: (LFrame <$> frames_of ls)). cbn [delivered message closes].
    apply until_eof_mono. by destruct (_ && _).
  - case_decide; simpl; [apply prefix_nil|]. rewrite bool_decide_false by done. exact IH.
Qed.

Lemma delivered_bytes sid fs : Forall (fun f => bytes_ok (f_data f)) fs -> bytes_ok (concat (delivered sid (LFrame <$> fs))).
Proof.
  induction 1 as [|f fs Hf _ IH]; [constructor|]. simpl. rewrite concat_app. apply Forall_app. split.
  - repeat case_decide; simpl; rewrite ?app_nil_r; (done || constructor).
  - destruct (_ && _); [constructor|exact IH].
Qed.

Lemma until_eof_sub (l : list (list Z)) : until_eof l `prefix_of` l.
Proof. induction l as [|[|b x] l IH]; simpl; [done|apply prefix_nil|by apply prefix_cons]. Qed.

(** A task's messages in terms of the client's frames. *)
Lemma input_of_bytes c X sid ls :
  input_of c X -> ch_given c `prefix_of` delivered sid ls ->
  concat (until_eof X) `prefix_of` stream_bytes sid (frames_of ls).
Proof.
  intros (taken & Hp & _ & _ & Hu) Hg. etrans; [|apply delivered_frames]. apply concat_prefix.
  etrans; [exact Hu|]. apply until_eof_prefix. by etrans.
Qed.

(** What a stream's task has done, given the stream's data [input] and what its target
    sent: nothing before a complete address; then a connection to this address
    only; to it a prefix of the data after the address; back, as frames of this
    stream, a prefix of what the target sent. *)
Definition task_served (sid : Z) (input got : list Z) (h : handler) : Prop :=
  match h_target h with
  | None => h_forwarded h = [] /\ h_sent h = []
  | Some t => exists host port data, host_ok host /\ port_ok port /\ t = target_text host port /\
      input = host_wire 1 3 4 host ++ be_bytes 2 port ++ data /\
      h_forwarded h `prefix_of` data /\ concat (f_data <$> h_sent h) `prefix_of` got /\
      Forall (fun f => f_sid f = sid /\ (f_cmd f = CMD_PSH \/ f_cmd f = CMD_FIN)) (h_sent h)
  end.

Lemma served_target c t s msgs more sid ls :
  bytes_ok (stream_bytes sid (frames_of ls)) -> ch_given c `prefix_of` delivered sid ls ->
  input_of c (msgs ++ more) -> read_socks5_addr read_exact_from (MkStream msgs []) = (Done t, s) ->
  exists host port rest, host_ok host /\ port_ok port /\ t = target_text host port /\
    stream_bytes sid (frames_of ls) = host_wire 1 3 4 host ++ be_bytes 2 port ++
      (sc_buf s ++ concat (until_eof (sc_rx s ++ more))) ++ rest.
Proof.
  intros Hb Hg Hin E. pose proof (input_of_bytes _ _ _ _ Hin Hg) as [rest Hp].
  assert (Hm : bytes_ok (concat (until_eof msgs))).
  { assert (Hpre : concat (until_eof msgs) `prefix_of` stream_bytes sid (frames_of ls)).
    { etrans; [|by exists rest]. apply concat_prefix, until_eof_prefix. by apply prefix_app_r. }
    destruct Hpre as [k Hk]. rewrite Hk in Hb. by apply Forall_app in Hb as [? _]. }
  destruct (read_address_spec _ _ _ Hm E) as (h & p & Hh & Hpt & Ht & Hmore). exists h, p, rest. split_and!; try done.
  by rewrite Hp, Hmore, <- !app_assoc.
Qed.

Lemma task_served_ok c got h sid ls :
  hinv c got h -> ch_sid c = sid -> ch_given c `prefix_of` delivered sid ls ->
  bytes_ok (stream_bytes sid (frames_of ls)) -> task_served sid (stream_bytes sid (frames_of ls)) got h.
Proof.
  intros [_ Hi] Hsid Hg Hb. unfold task_served.
  assert (Hrel : forall t r, relayed c got t r -> h_relay h = Some r -> h_target h = Some t -> task_served sid (stream_bytes sid (frames_of ls)) got h).
  { intros t r (msgs & s & rs & Ea & Hrun & Hin & Ht) Hr Htg. unfold task_served. rewrite Htg.
    destruct (served_target c t s msgs _ sid ls Hb Hg Hin Ea) as (host & port & rest & ? & ? & ? & Hw).
    rewrite Hsid in Hrun. destruct (relay_run _ _ _ _ Hrun) as (_ & [Hup _] & [(lost & Hdn & _) Hf]).
    exists host, port, (client_bytes s rs ++ rest). unfold h_forwarded, h_sent. rewrite Hr. simpl. split_and!; try done.
    - by apply prefix_app_r.
    - rewrite <- Ht, Hdn. by apply prefix_app_r. }
  assert (Hadr : forall t s, addressed c t s -> h_relay h = None -> h_target h = Some t -> task_served sid (stream_bytes sid (frames_of ls)) got h).
  { intros t s (msgs & Hin & Ea) Hr Htg. unfold task_served. rewrite Htg. rewrite <- (app_nil_r msgs) in Hin.
    destruct (served_target c t s msgs _ sid ls Hb Hg Hin Ea) as (host & port & rest & ? & ? & ? & Hw).
    eexists host, port, _. unfold h_forwarded, h_sent. rewrite Hr. split_and!; try done; apply prefix_nil. }
  destruct h as [msgs|t s|t r|[t|] [r|]]; try done.
  - by eapply Hrel.
  - by eapply Hrel.
  - destruct Hi as [[s Ha] _]. by eapply Hadr.
Qed.

(** Each task belongs to a SYN frame of the input and is served from what follows. *)
Lemma session_streams scheme c0 ls a :
  ainv scheme c0 ls a ->
  exists fs rest, c_in c0 = wire fs ++ rest /\ Forall frame_ok fs /\
    forall ch h, a_handlers a !! ch = Some h ->
      exists pre sid d post, fs = pre ++ Frame CMD_SYN sid d :: post /\ opened pre = ch /\
        task_served sid (stream_bytes sid post) (from_target ch ls) h.
Proof.
  intros [(mls & rest & Hm & Hw & _ & Hf) _ Hd _ Hk _].
  assert (Hfb : Forall (fun f => frame_ok f) (frames_of mls)) by (eapply Forall_impl; [exact Hf|]; by intros f []).
  exists (frames_of mls), rest. split_and!; [done|done|].
  intros ch h Hh. destruct (Hk ch h id Hh) as (c & Hch & Hi & Hsub).
  destruct (opened_at scheme mls _ ch Hm) as (l1 & sid & d & l2 & m1 & -> & H1 & Hn & Hs & He & H2); [apply Hd; by eexists|].
  exists (frames_of l1), sid, d, (frames_of l2). rewrite frames_of_app in Hf |- *.
  change (frames_of (LFrame (Frame CMD_SYN sid d) :: l2)) with (Frame CMD_SYN sid d :: frames_of l2) in Hf |- *.
  split_and!; [done|by rewrite <- (next_opened _ _ _ H1 He)|].
  destruct (given_prefix _ _ _ _ _ (minv_run _ _ _ _ minv0 H1) Hs H2) as (c' & Hc' & Hsid & Hg).
  rewrite Hn, Hch in Hc'. injection Hc' as <-. apply (task_served_ok c); [done|done|done|].
  apply Forall_app in Hf as [_ Hf]. apply Forall_cons in Hf as [_ Hf].
  assert (Hd2 : Forall (fun f => bytes_ok (f_data f)) (frames_of l2)) by (eapply Forall_impl; [exact Hf|]; by intros f []).
  destruct (concat_prefix _ _ (until_eof_sub (delivered sid (LFrame <$> frames_of l2)))) as [k Hk2].
  pose proof (delivered_bytes sid _ Hd2) as Hbd. rewrite Hk2 in Hbd. by apply Forall_app in Hbd as [? _].
Qed.

(** C11: an AnyTLS session as a whole.  Whatever the client sends and however the tasks
    of the session interleave, the client's bytes are a sequence of frames (and an
    incomplete rest); each stream's task belongs to one SYN frame, and is served from the
    data frames of its identifier after it: it connects to the address these start
    with and to nothing else, forwards a prefix of the data that follows and sends back,
    under the stream's identifier, a prefix of what its target sent.  All connections
    are those of the streams, one each; the client receives the encodings of frames
    handed to the writer task, in order, among them every stream's frames in order; and every data
    frame is one of a stream's task. *)
Theorem anytls_session E scheme c0 ls a :
  bytes_ok (c_in c0) -> arun E scheme (session_start c0) ls = Some a ->
  exists fs rest l, c_in c0 = wire fs ++ rest /\ Forall frame_ok fs /\
    c_trace (a_conn a) = c_trace c0 ++ l /\ connects l ≡ₚ targets (a_handlers a) /\
    (exists n, written l = wire (take n (m_out (a_mux a)))) /\
    data_ok (m_out (a_mux a)) (a_handlers a) /\
    forall ch h, a_handlers a !! ch = Some h ->
      h_sent h `sublist_of` m_out (a_mux a) /\
      exists pre sid d post, fs = pre ++ Frame CMD_SYN sid d :: post /\ opened pre = ch /\
        task_served sid (stream_bytes sid post) (from_target ch ls) h.
Proof.
  intros Hb Hr. pose proof (ainv_run E scheme c0 Hb ls a Hr) as Hi.
  destruct (session_streams _ _ _ _ Hi) as (fs & rest & Hw & Hf & Hs). destruct (i_trace _ _ _ _ Hi) as (l & Ht & Hc & Hwr & _).
  exists fs, rest, l. split_and!; [done|done|done|done|by eexists|apply (i_data _ _ _ _ Hi)|].
  intros ch h Hh. split; [|by apply Hs]. by destruct (task_chan _ _ _ _ _ _ Hi Hh) as (_ & _ & _ & Hsub).
Qed.

(** A schedule with impossible labels is a run without them. *)
Lemma scheduled_run E scheme a ls :
  exists ls', ls' `sublist_of` ls /\ arun E scheme a ls' = Some (scheduled E scheme a ls).
Proof.
  revert a. induction ls as [|l ls IH]; intros a; [by exists []|]. simpl.
  destruct (astep E scheme a l) as [a1|] eqn:Es; simpl.
  - destruct (IH a1) as (ls' & Hs & Hr). exists (l :: ls'). split; [by apply sublist_skip|]. simpl. by rewrite Es.
  - destruct (IH a) as (ls' & Hs & Hr). exists ls'. split; [by apply sublist_cons|done].
Qed.

(** A connection from its first byte: nothing before the credential; then only
    connections that streams of the session ask for. *)
Lemma session_conn_gate E scheme hash sched s o s' :
  bytes_ok (c_in s) -> session_conn E scheme hash sched s = (o, s') ->
  o <> Panic /\ exists l, c_trace s' = c_trace s ++ l /\
    (l = [] \/ exists pad fs rest, c_in s = credential hash pad ++ wire fs ++ rest /\ Forall frame_ok fs /\
       forall t, t ∈ connects l -> exists pre sid d post host port data,
         fs = pre ++ Frame CMD_SYN sid d :: post /\ host_ok host /\ port_ok port /\
         stream_bytes sid post = host_wire 1 3 4 host ++ be_bytes 2 port ++ data /\ t = target_text host port).
Proof.
  intros Hb. unfold session_conn, mbind, M_bind. destruct (authenticate hash s) as [o1 s1] eqn:Ea.
  destruct (run_conn _ _ _ _ _ (sound_authenticate hash) (quiet_authenticate hash) Hb Ea) as (Hp & Ht & Hd).
  assert (Hnil : exists l, c_trace s1 = c_trace s ++ l /\ l = []) by (exists []; by rewrite app_nil_r).
  destruct Hnil as (l0 & Hl0 & El0).
  destruct o1 as [b|e|]; [|intros [= <- <-]; split; [done|]; exists l0; auto|done].
  destruct (Hd b eq_refl) as (bs & Hbs & Hcr). destruct b; [|intros [= <- <-]; split; [done|]; exists l0; auto].
  destruct Hcr as [pad ->]. unfold modify. intros [= <- <-]. split; [done|].
  destruct (scheduled_run E scheme (session_start s1) sched) as (ls' & _ & Hr).
  assert (Hb1 : bytes_ok (c_in s1)) by (rewrite Hbs in Hb; by apply Forall_app in Hb as [_ ?]).
  pose proof (ainv_run E scheme s1 Hb1 _ _ Hr) as Hi. destruct (session_streams _ _ _ _ Hi) as (fs & rest & Hw & Hf & Hs).
  destruct (i_trace _ _ _ _ Hi) as (l & Hl & Hc & _ & _). exists l. split; [by rewrite Hl, Ht|]. right.
  exists pad, fs, rest. split_and!; [by rewrite Hbs, Hw|done|]. intros t Hin. rewrite Hc in Hin.
  unfold targets in Hin. apply list_elem_of_omap in Hin as ([ch h] & Hch%elem_of_map_to_list & Hh).
  destruct (Hs ch h Hch) as (pre & sid & d & post & -> & _ & Hserved). unfold task_served in Hserved. simpl in Hh. rewrite Hh in Hserved.
  destruct Hserved as (host & port & data & ? & ? & ? & ? & _). by exists pre, sid, d, post, host, port, data.
Qed.

(** ** Witnesses *)

Definition any_env : env := Env (fun _ => true) (fun _ _ => ConnOk) (fun _ _ => 0%nat) (fun _ _ => []).
Definition any_frames : list frame :=
  [Frame CMD_SETTINGS 0 (str "v=2"); Frame CMD_SYN 5 []; Frame CMD_PSH 5 [1; 127; 0]; Frame CMD_PSH 5 [0; 1; 0; 80; 9; 8]].
Definition any_conn : conn := Conn (wire any_frames) [].
Definition any_schedule : list alabel :=
  [ARead; ARead; ARecv 0; ARead; ARead; ARecv 0; ARecv 0; AConnect 0; AMove 0 MGrant; AMove 0 MUp; ATarget 0 [7];
   AMove 0 MDown; AMove 0 MGrant; AMove 0 MUp; AWrite; AWrite; AWrite; AWrite; ARead].

(** The first [ARecv] comes too early: it is left out. *)
Example any_session :
  let a := scheduled any_env demo_scheme (session_start any_conn) any_schedule in
  connects (c_trace (a_conn a)) = [str "127.0.0.1:80"] /\ h_forwarded <$> a_handlers a !! 0%nat = Some [9; 8] /\
  last (c_trace (a_conn a)) = Some (EvWrite (write_frame (Frame CMD_PSH 5 [7]))) /\ m_ended (a_mux a) = true.
Proof. vm_compute. split_and!; reflexivity. Qed.

Lemma anytls_session_witness :
  exists a l, arun any_env demo_scheme (session_start any_conn) (take 2 any_schedule ++ drop 3 any_schedule) = Some a /\
    c_trace (a_conn a) = l /\ connects l ≡ₚ targets (a_handlers a) /\ connects l = [str "127.0.0.1:80"].
Proof.
  destruct (arun any_env demo_scheme (session_start any_conn) (take 2 any_schedule ++ drop 3 any_schedule)) as [a|] eqn:Ea;
    [|vm_compute in Ea; discriminate Ea].
  assert (Hb : bytes_ok (c_in any_conn)) by (apply (bool_decide_eq_true (bytes_ok _)); vm_compute; reflexivity).
  destruct (anytls_session any_env demo_scheme any_conn _ a Hb Ea) as (fs & rest & l & _ & _ & Ht & Hc & _).
  exists a, l. split; [reflexivity|]. split; [exact Ht|]. split; [exact Hc|].
  change (c_trace any_conn ++ l) with l in Ht. rewrite <- Ht. vm_compute in Ea. injection Ea as <-. reflexivity.
Defined.
