(* ===== verification/Trojan.v ===== *)
(** * Trojan: request decoder and stream handler ([src/src/trojan/mod.rs]) *)
From S2P Require Import Prelude RustStd Net Target.

Section trojan.
(** SHA-224, from its crate. *)
Context (sha224 : list Z -> list Z).

Section decoder.
Context {S : Type} `{Source S}.

Definition CRLF : list Z := [13; 10].
Definition ends_with_crlf (line : list Z) : bool :=
  bool_decide ((2 <= length line)%nat /\ drop (length line - 2) line = CRLF).

(** The loop that reads the first line, its end included; a line of more than
    256 bytes ends it. *)
Fixpoint read_line (fuel : nat) (line : list Z) : M S (list Z) :=
  match fuel with
  | O => panic
  | Datatypes.S fuel =>
      b ← read_u8;
      let line := line ++ [b] in
      if ends_with_crlf line then mret line
      else if decide (256 < length line)%nat then bail "bad auth"
      else read_line fuel line
  end.
Definition LINE_FUEL : nat := 257.

Definition decode_trojan (password : list Z) : M S (list Z) :=
  line ← read_line LINE_FUEL [];
  let got := from_utf8_lossy (take (length line - 2) line) in
  let expected := hex_encode (sha224 password) in
  if decide (got <> expected) then bail "invalid password" else
  cmd ← read_u8;
  if decide (cmd <> 1) then bail "only tcp supported" else
  host ← read_typed_host (fun _ => bail "bad atyp");
  port ← read_u16;
  _ ← read_exact 2;
  mret (host ++ [58] ++ dec port).
End decoder.

(** [relay]: both copy loops run to their ends. *)
Definition relay (E : env) (target : list Z) : M conn unit := copy_bidirectional E target.

Definition process (E : env) (password : list Z) : M conn unit :=
  target ← decode_trojan password;
  r ← tcp_connect E target;
  match r with
  | ConnOk => relay E target
  | _ => fail EIo
  end.

(** ** The wire format *)

(** [crlf] is the two bytes after the port, which the server does not look
    at. *)
Definition trojan_wire (password : list Z) (h : host) (port : Z) (crlf : list Z) : list Z :=
  hex_encode (sha224 password) ++ CRLF ++ [1] ++ host_wire 1 3 4 h ++ be_bytes 2 port ++ crlf.

Lemma ends_with_crlf_snoc l a b : ends_with_crlf (l ++ [a; b]) = bool_decide ([a; b] = CRLF).
Proof.
  unfold ends_with_crlf. apply bool_decide_ext. rewrite length_app. simpl.
  replace (length l + 2 - 2)%nat with (length l) by lia. rewrite drop_app_length.
  split; [tauto|]. intros ->. split; [lia|done].
Qed.

(** A text without line feed, then the end of the line. *)
Lemma ends_with_crlf_lf l : ends_with_crlf l = true -> exists k, l = k ++ CRLF.
Proof.
  unfold ends_with_crlf. intros [_ E]%bool_decide_eq_true. exists (take (length l - 2) l).
  by rewrite <- E, take_drop.
Qed.

Section line_lemmas.
Context {S : Type} `{SourceLaws S}.

Lemma reads_line fuel acc text :
  10 ∉ acc ++ text -> (length (acc ++ text) < 256)%nat -> (length text + 2 <= fuel)%nat ->
  reads (read_line fuel acc) (text ++ CRLF) (acc ++ text ++ CRLF).
Proof.
  assert (Hno : forall l, 10 ∉ l -> ends_with_crlf l = false).
  { intros l Hl. destruct (ends_with_crlf l) eqn:E; [|done]. apply ends_with_crlf_lf in E as [k ->].
    destruct Hl. apply elem_of_app. right. unfold CRLF. set_solver. }
  revert acc text. induction fuel as [|fuel IH]; intros acc text Hlf Hlen Hf; [lia|]. cbn [read_line].
  destruct text as [|b text]; simpl in Hf.
  - rewrite app_nil_r in *. simpl. change CRLF with ([13] ++ [10]).
    eapply reads_bind; [apply reads_u8|]. rewrite Hno by (rewrite elem_of_app; set_solver).
    rewrite decide_False by (rewrite length_app; simpl; lia).
    destruct fuel as [|fuel]; [lia|]. cbn [read_line].
    eapply reads_bind_r; [apply reads_u8|]. rewrite <- app_assoc. simpl.
    rewrite ends_with_crlf_snoc, bool_decide_true by done. apply reads_ret.
  - replace (acc ++ b :: text) with ((acc ++ [b]) ++ text) in * by (by rewrite <- app_assoc).
    replace (acc ++ (b :: text) ++ CRLF) with ((acc ++ [b]) ++ text ++ CRLF) by (by rewrite <- app_assoc).
    change ((b :: text) ++ CRLF) with ([b] ++ text ++ CRLF).
    eapply reads_bind; [apply reads_u8|]. rewrite Hno by (rewrite elem_of_app in Hlf; tauto).
    rewrite decide_False by (rewrite length_app in Hlen; lia).
    apply IH; [done|done|lia].
Qed.

Lemma sound_line fuel acc :
  sound (read_line fuel acc) (fun bs l => l = acc ++ bs /\ exists k, l = k ++ CRLF).
Proof.
  revert acc. induction fuel as [|fuel IH]; intros acc; cbn [read_line]; [apply sound_panic|].
  eapply sound_bind; [apply sound_u8|]. intros bs b _ [-> _].
  destruct (ends_with_crlf (acc ++ [b])) eqn:E.
  - apply sound_ret. rewrite app_nil_r. split; [done|]. by apply ends_with_crlf_lf.
  - case_decide; [apply sound_fail|]. eapply sound_impl; [apply IH|]. intros bs2 l [-> Hk]. simpl in *.
    by rewrite <- app_assoc in *.
Qed.

(** The loop ends within its fuel. *)
Lemma quiet_line fuel acc : (256 < length acc + fuel)%nat -> (length acc <= 256)%nat -> quiet (read_line fuel acc).
Proof.
  revert acc. induction fuel as [|fuel IH]; intros acc Hf Ha; [lia|]. cbn [read_line].
  apply quiet_bind; [apply quiet_u8|]. intros _ b _ _. destruct (ends_with_crlf _); [apply quiet_ret|].
  case_decide as Hl; [apply quiet_fail|]. rewrite length_app in Hl. simpl in Hl. apply IH; rewrite length_app; simpl; lia.
Qed.

Lemma hex_no_lf bs : bytes_ok bs -> 10 ∉ hex_encode bs.
Proof.
  unfold hex_encode. intros Hok. rewrite list_elem_of_bind. intros (b & Hin & Hb). rewrite Forall_forall in Hok.
  specialize (Hok b Hb). unfold byte_ok in Hok.
  pose proof (hex_digit_ascii (b / 16)). pose proof (hex_digit_ascii (b mod 16)).
  rewrite !elem_of_cons in Hin. destruct Hin as [?|[?|[]%not_elem_of_nil]]; dlia.
Qed.

Context (sha_ok : forall p, length (sha224 p) = 28%nat /\ bytes_ok (sha224 p)).

Lemma reads_trojan password h port crlf :
  host_ok h -> port_ok port -> length crlf = 2%nat ->
  reads (decode_trojan password) (trojan_wire password h port crlf) (target_text h port).
Proof.
  intros Hh Hp Hc. destruct (sha_ok password) as [Hl Hok]. unfold decode_trojan, trojan_wire.
  rewrite (app_assoc _ CRLF). eapply reads_bind.
  { apply (reads_line LINE_FUEL []); simpl; [by apply hex_no_lf|..]; rewrite hex_encode_length, Hl; unfold LINE_FUEL; lia. }
  rewrite app_nil_l, length_app. replace (length _ + length CRLF - 2)%nat with (length (hex_encode (sha224 password)))
    by (simpl; lia).
  rewrite take_app_length, lossy_of_ascii by (by apply hex_encode_ascii). rewrite decide_False by auto.
  eapply reads_bind; [apply reads_u8|]. rewrite decide_False by auto.
  eapply reads_bind; [by apply reads_typed_host|]. eapply reads_bind; [by apply reads_u16|].
  eapply reads_bind_r; [by apply reads_exact|]. apply reads_ret.
Qed.

Lemma sound_typed_host_bail msg :
  sound (read_typed_host (fun _ => bail msg)) (fun bs t => exists h, host_ok h /\ t = host_text h /\ bs = host_wire 1 3 4 h).
Proof.
  unfold read_typed_host. eapply sound_bind; [apply sound_u8|]. intros b1 atyp _ [-> _].
  destruct (decide (atyp = 1 \/ atyp = 3 \/ atyp = 4)) as [Ht|Ht].
  - eapply sound_impl; [by apply sound_known_host|]. intros bs t (h & ? & ? & ?). by exists h.
  - unfold read_host. rewrite !decide_False by tauto. apply sound_fail.
Qed.

Lemma sound_trojan password :
  sound (decode_trojan password) (fun bs t => exists h port crlf, host_ok h /\ port_ok port /\ length crlf = 2%nat /\
    bs = trojan_wire password h port crlf /\ t = target_text h port).
Proof.
  destruct (sha_ok password) as [_ Hok]. unfold decode_trojan.
  eapply sound_bind; [apply sound_line|]. intros b1 line _ [-> [k Hk]]. simpl in *.
  case_decide as Hgot; [apply sound_fail|]. rewrite Hk, length_app in Hgot.
  replace (length k + length CRLF - 2)%nat with (length k) in Hgot by (simpl; lia).
  rewrite take_app_length in Hgot. apply from_utf8_lossy_ascii in Hgot; [|by apply hex_encode_ascii]. subst k b1.
  eapply sound_bind; [apply sound_u8|]. intros b2 cmd _ [-> _]. case_decide as Hc; [apply sound_fail|]. subst cmd.
  eapply sound_bind; [apply sound_typed_host_bail|]. intros b3 t _ (h & Hh & -> & ->).
  eapply sound_bind; [apply sound_u16|]. intros b4 port _ [-> Hp].
  eapply sound_bind; [apply sound_exact|]. intros b5 crlf _ [-> Hl]. apply sound_ret.
  exists h, port, crlf. unfold trojan_wire. rewrite app_nil_r, <- !app_assoc. done.
Qed.

Lemma quiet_trojan password : quiet (decode_trojan password).
Proof.
  unfold decode_trojan. apply quiet_bind; [apply quiet_line; unfold LINE_FUEL; simpl; lia|]. intros _ line _ _.
  unfold read_typed_host, read_host. quiet_solve.
Qed.
End line_lemmas.

(** ** Properties *)

Context (sha_ok : forall p, length (sha224 p) = 28%nat /\ bytes_ok (sha224 p)).

(** the Trojan decoder accepts exactly the wire format, on every byte source:
    the 56 hexadecimal digits of the password's hash, a line end, command 1,
    an address in the SOCKS5 form, a port and any two bytes; it returns the
    target text, consumes exactly that, and never panics or acts. *)
Theorem decode_trojan_exact {S} `{SourceLaws S} password :
  (forall h port crlf, host_ok h -> port_ok port -> length crlf = 2%nat ->
     reads (S := S) (decode_trojan password) (trojan_wire password h port crlf) (target_text h port)) /\
  sound (S := S) (decode_trojan password) (fun bs t => exists h port crlf, host_ok h /\ port_ok port /\ length crlf = 2%nat /\
     bs = trojan_wire password h port crlf /\ t = target_text h port) /\
  quiet (S := S) (decode_trojan password).
Proof. split_and!; [intros; by apply reads_trojan|by apply sound_trojan|apply quiet_trojan]. Qed.

(** a Trojan client that does not know the password causes no visible
    action.  Whatever it sends and however the network behaves, the handler
    acts only after a complete request that starts with the hash of the
    password: one connection attempt to its target and, if it succeeds, the
    relay of the bytes that follow the request; it sends nothing of its own
    and never panics. *)
Theorem trojan_process_actions E password s o s' :
  bytes_ok (c_in s) -> process E password s = (o, s') ->
  o <> Panic /\
  (c_trace s' = c_trace s \/
   exists h port crlf rest, host_ok h /\ port_ok port /\ length crlf = 2%nat /\
     c_in s = trojan_wire password h port crlf ++ rest /\
     let t := target_text h port in
     let tr := c_trace s ++ [EvConnect t] in
     match env_connect E (c_trace s) t with
     | ConnOk => c_trace s' = tr ++ [EvRelay t (take (env_up E tr t) rest) (env_remote E tr t)] /\ o = Done tt
     | _ => c_trace s' = tr
     end).
Proof.
  intros Hok. unfold process, mbind at 1, M_bind at 1. destruct (decode_trojan password s) as [d s1] eqn:Ed.
  destruct (run_conn _ _ _ _ _ (sound_trojan sha_ok password) (quiet_trojan password) Hok Ed) as (Hp & Ht & Hd).
  destruct d as [t|e|]; [|intros [= <- <-]; auto|done].
  destruct (Hd t eq_refl) as (bs & Hin & h & port & crlf & Hh & Hpo & Hc & -> & ->).
  unfold relay, tcp_connect, mbind, M_bind. rewrite Ht. intros E1. split; [destruct (env_connect _ _ _); by injection E1 as <- <-|].
  right. exists h, port, crlf, (c_in s1). split_and!; [done..|]. destruct (env_connect _ _ _); by run_inv E1.
Qed.
End trojan.

(** ** Witnesses *)

Definition toy_sha224 (p : list Z) : list Z := replicate 28 7.
Lemma toy_sha_ok p : length (toy_sha224 p) = 28%nat /\ bytes_ok (toy_sha224 p).
Proof. split; [done|]. apply (bool_decide_eq_true (bytes_ok _)). vm_compute. reflexivity. Qed.
Definition toy_trojan : list Z := trojan_wire toy_sha224 [] (HDomain (str "a.example")) 443 CRLF.
Lemma toy_trojan_host : host_ok (HDomain (str "a.example")).
Proof. apply (bool_decide_eq_true (host_ok _)). vm_compute. reflexivity. Qed.

Lemma decode_trojan_exact_witness :
  exists s', decode_trojan toy_sha224 [] (toy_trojan ++ [1; 2]) = (Done (str "a.example:443"), s') /\ s' = [1; 2].
Proof.
  assert (Hp : port_ok 443) by (unfold port_ok; lia).
  destruct (proj1 (@decode_trojan_exact toy_sha224 toy_sha_ok (list Z) slice_source slice_laws []) _ 443 CRLF toy_trojan_host Hp eq_refl
    (toy_trojan ++ [1; 2]) [1; 2] eq_refl) as (s' & E & P & _).
  exists s'. exact (conj E P).
Defined.

Lemma trojan_process_actions_witness :
  let E := Env (fun _ => true) (fun _ _ => ConnOk) (fun _ _ => 2%nat) (fun _ _ => [3]) in
  let s := Conn (toy_trojan ++ [1; 2]) [] in
  exists o s', process toy_sha224 E [] s = (o, s') /\ o <> Panic /\
    c_trace s' = [EvConnect (str "a.example:443"); EvRelay (str "a.example:443") [1; 2] [3]].
Proof.
  intros E s. destruct (process toy_sha224 E [] s) as [o s'] eqn:Er.
  assert (Hok : bytes_ok (c_in s)) by (apply (bool_decide_eq_true (bytes_ok _)); vm_compute; reflexivity).
  destruct (trojan_process_actions toy_sha224 toy_sha_ok E [] s o s' Hok Er) as [Hp _].
  exists o, s'. split; [reflexivity|]. split; [exact Hp|].
  vm_compute in Er. injection Er as _ <-. reflexivity.
Defined.
