(* ===== verification/Socks.v ===== *)
(** * SOCKS5: greeting, login, request and stream handler
    ([src/src/socks/mod.rs]) *)
From S2P Require Import Prelude RustStd Net Target.

Definition VER : Z := 0x05.
Definition METHOD_NO_AUTH : Z := 0x00.
Definition METHOD_PASSWORD : Z := 0x02.
Definition METHOD_NO_ACCEPTABLE : Z := 0xFF.
Definition CMD_CONNECT : Z := 0x01.
Definition ATYP_IPV4 : Z := 0x01.
Definition REP_SUCCESS : Z := 0x00.
Definition REP_GENERAL_FAILURE : Z := 0x01.
Definition REP_CMD_NOT_SUPPORTED : Z := 0x07.
Definition REP_ATYP_NOT_SUPPORTED : Z := 0x08.

Record SocksUser := MkUser { username : list Z; password : list Z }.

#[export] Instance SocksUser_eq_dec : EqDecision SocksUser.
Proof. solve_decision. Defined.

Section handler.
Context (E : env) (users : list SocksUser).

Definition send_reply (rep : Z) : M conn unit :=
  write_all E [VER; rep; 0x00; ATYP_IPV4; 0; 0; 0; 0; 0; 0].

(** Username and password (RFC 1929). *)
Definition login : M conn unit :=
  sub_ver ← read_u8;
  if decide (sub_ver <> 0x01) then bail "bad subneg version" else
  ulen ← read_u8;
  uname ← read_exact (Z.to_nat ulen);
  plen ← read_u8;
  passwd ← read_exact (Z.to_nat plen);
  let uname_str := from_utf8_lossy uname in
  let passwd_str := from_utf8_lossy passwd in
  if existsb (fun u => bool_decide (username u = uname_str) && bool_decide (password u = passwd_str)) users
  then write_all E [0x01; 0x00]
  else _ ← write_all E [0x01; 0x01]; bail "authentication failed".

(** The greeting, and the login it leads to. *)
Definition greeting : M conn unit :=
  ver ← read_u8;
  if decide (ver <> VER) then bail "bad SOCKS version" else
  nmethods ← read_u8;
  methods ← read_exact (Z.to_nat nmethods);
  let use_password := negb (bool_decide (users = [])) in
  if use_password && bool_decide (METHOD_PASSWORD ∈ methods) then
    _ ← write_all E [VER; METHOD_PASSWORD];
    login
  else if negb use_password && bool_decide (METHOD_NO_AUTH ∈ methods) then
    write_all E [VER; METHOD_NO_AUTH]
  else
    _ ← write_all E [VER; METHOD_NO_ACCEPTABLE];
    bail "no acceptable auth method".

(** The request: the command and the target. *)
Definition request : M conn (Z * list Z) :=
  ver2 ← read_u8;
  if decide (ver2 <> VER) then bail "bad SOCKS version in request" else
  cmd ← read_u8;
  _ ← read_u8;
  target_host ← read_typed_host (fun _ => _ ← send_reply REP_ATYP_NOT_SUPPORTED; bail "unsupported address type");
  port ← read_u16;
  mret (cmd, target_host ++ [58] ++ dec port).

(** Both copy loops run to their ends. *)
Definition relay (target : list Z) : M conn unit := copy_bidirectional E target.

Definition handle : M conn unit :=
  _ ← greeting;
  '(cmd, target) ← request;
  if decide (cmd <> CMD_CONNECT) then
    _ ← send_reply REP_CMD_NOT_SUPPORTED;
    bail "unsupported command"
  else
    r ← tcp_connect E target;
    match r with
    | ConnOk => _ ← send_reply REP_SUCCESS; relay target
    | _ => _ ← send_reply REP_GENERAL_FAILURE; bail "connect failed"
    end.

(** ** The wire format *)

Definition greeting_wire (methods : list Z) : list Z := [VER; Z.of_nat (length methods)] ++ methods.
Definition login_wire (u p : list Z) : list Z :=
  [0x01; Z.of_nat (length u)] ++ u ++ [Z.of_nat (length p)] ++ p.
Definition socks_request_wire (cmd rsv : Z) (h : host) (port : Z) : list Z :=
  [VER; cmd; rsv] ++ host_wire 1 3 4 h ++ be_bytes 2 port.

(** The client proves what the configuration asks for: nothing without users,
    else the name and the password of one of them. *)
Definition authorised (methods sub : list Z) : Prop :=
  if decide (users = []) then METHOD_NO_AUTH ∈ methods /\ sub = []
  else METHOD_PASSWORD ∈ methods /\ exists u p, sub = login_wire u p /\
         (length u <= 255)%nat /\ (length p <= 255)%nat /\
         MkUser (from_utf8_lossy u) (from_utf8_lossy p) ∈ users.

(** ** What each part does *)

Definition is_write (e : event) : Prop := match e with EvWrite _ => True | _ => False end.
Abbreviation writes := (Forall is_write).

(** A part that only writes and does not panic; [P] holds when it returns. *)
Definition part {A} (P : list Z -> A -> Prop) (bs : list Z) (l : list event) (o : outcome A) : Prop :=
  writes l /\ o <> Panic /\ forall a, o = Done a -> P bs a.

Lemma part_bind {A B} (m : M conn A) (f : A -> M conn B) P Q :
  does m (part P) -> (forall bs a, bytes_ok bs -> P bs a -> does (f a) (part (fun bs2 b => Q (bs ++ bs2) b))) ->
  does (m ≫= f) (part Q).
Proof.
  intros Hm Hf. eapply does_bind; [exact Hm|..].
  - intros bs l e (? & _ & _). split_and!; done.
  - by intros bs l (_ & ? & _).
  - intros bs l a Hok (Hw & _ & HP). eapply does_impl; [by apply Hf, HP|].
    intros bs2 l2 o (? & ? & ?). split_and!; [by apply Forall_app|done|done].
Qed.

Lemma part_u8 : does read_u8 (part (fun bs b => bs = [b] /\ byte_ok b)).
Proof. eapply does_impl; [apply does_u8|]. intros bs l o (-> & ? & ?). by split_and!. Qed.
Lemma part_exact n : does (read_exact n) (part (fun bs a => bs = a /\ length bs = n)).
Proof. eapply does_impl; [apply does_exact|]. intros bs l o (-> & ? & ?). by split_and!. Qed.
Lemma part_write d : does (write_all E d) (part (fun bs _ => bs = [])).
Proof.
  eapply does_impl; [apply does_write|]. intros bs l o (-> & [[-> ->]|[-> ->]]); split_and!; try done.
  by apply Forall_singleton.
Qed.
Lemma part_fail {A} e (P : list Z -> A -> Prop) : does (fail e) (part P).
Proof. eapply does_impl; [apply (does_lift (Fail e))|]. intros bs l o (-> & -> & ->). by split_and!. Qed.
Lemma part_ret {A} (a : A) (P : list Z -> A -> Prop) : P [] a -> does (mret a) (part P).
Proof. intros HP. eapply does_impl; [apply (does_lift (Done a))|]. intros bs l o (-> & -> & ->). split_and!; [done|done|]. by intros ? [= <-]. Qed.
Lemma part_u16 : does read_u16 (part (fun bs z => bs = be_bytes 2 z /\ 0 <= z < 65536)).
Proof.
  eapply does_impl; [apply (does_read _ (fun bs z => bs = be_bytes 2 z /\ 0 <= z < 65536))|];
    [apply sound_u16|apply quiet_u16|apply consumes_u16|]. intros bs l o (-> & ? & ?). by split_and!.
Qed.
Lemma part_impl {A} (m : M conn A) (P Q : list Z -> A -> Prop) :
  does m (part P) -> (forall bs a, P bs a -> Q bs a) -> does m (part Q).
Proof. intros Hm HPQ. eapply does_impl; [exact Hm|]. intros bs l o (? & ? & ?). split_and!; auto. Qed.

(** Write, then give up. *)
Lemma part_refuse {A} d msg (P : list Z -> A -> Prop) : does (write_all E d ≫= fun _ => bail msg) (part P).
Proof. eapply part_bind; [apply part_write|]. intros. apply part_fail. Qed.

Ltac part_step := first
  [ eapply part_bind; [solve [apply part_u8 | apply part_u16 | apply part_exact | apply part_write]
                      | intros ? ? ? ?; simpl in *; destruct_and?; subst]
  | apply part_fail ].

Lemma does_login : does login (part (fun bs _ => exists u p, bs = login_wire u p /\
  (length u <= 255)%nat /\ (length p <= 255)%nat /\ MkUser (from_utf8_lossy u) (from_utf8_lossy p) ∈ users)).
Proof.
  unfold login. part_step. case_decide as Hv; [apply part_fail|].
  eapply part_bind; [apply part_u8|]. intros b2 ulen _ [-> Hu].
  eapply part_bind; [apply part_exact|]. intros b3 u _ [-> Hlu].
  eapply part_bind; [apply part_u8|]. intros b4 plen _ [-> Hp].
  eapply part_bind; [apply part_exact|]. intros b5 p _ [-> Hlp].
  destruct (existsb _ users) eqn:Ex; [|apply part_refuse].
  eapply part_impl; [apply part_write|]. intros bs _ ->. unfold byte_ok in *. exists u, p.
  rewrite app_nil_r. unfold login_wire. rewrite Hlu, Hlp, !Z2Nat.id by lia. split_and!; [|lia|lia|].
  - by rewrite Hv.
  - apply existsb_exists in Ex as ([n w] & Hin & [Hn%bool_decide_eq_true Hw%bool_decide_eq_true]%andb_true_iff).
    simpl in *. rewrite <- Hn, <- Hw. by apply list_elem_of_In.
Qed.

Lemma does_greeting : does greeting (part (fun bs _ => exists methods sub, (length methods <= 255)%nat /\
  bs = greeting_wire methods ++ sub /\ authorised methods sub)).
Proof.
  unfold greeting. eapply part_bind; [apply part_u8|]. intros b1 v _ [-> _]. case_decide as Hv; [apply part_fail|].
  eapply part_bind; [apply part_u8|]. intros b2 n _ [-> Hn]. unfold byte_ok in Hn.
  eapply part_bind; [apply part_exact|]. intros b3 methods _ [-> Hl].
  assert (Hw : [v] ++ [n] ++ methods = greeting_wire methods) by (unfold greeting_wire; rewrite Hl, Z2Nat.id, Hv by lia; done).
  destruct (decide (users = [])) as [Hus|Hus].
  - rewrite bool_decide_true by done. simpl negb. cbn [andb]. destruct (bool_decide (METHOD_NO_AUTH ∈ methods)) eqn:Em; [|apply part_refuse].
    apply bool_decide_eq_true in Em. eapply part_impl; [apply part_write|]. intros bs _ ->.
    exists methods, []. rewrite <- Hw, !app_nil_r, <- ?app_assoc. unfold authorised. rewrite decide_True by done. split_and!; [lia|done|done|done].
  - rewrite bool_decide_false by done. simpl negb. cbn [andb]. destruct (bool_decide (METHOD_PASSWORD ∈ methods)) eqn:Em; [|apply part_refuse].
    apply bool_decide_eq_true in Em. eapply part_bind; [apply part_write|]. intros b4 _ _ ->.
    eapply part_impl; [apply does_login|]. intros bs ? Hlog. cbv beta in Hlog. exists methods, bs. rewrite <- Hw. unfold authorised.
    rewrite decide_False by done. split; [lia|]. split; [by rewrite <- !app_assoc|done].
Qed.

Lemma consumes_known_host unknown atyp : atyp = 1 \/ atyp = 3 \/ atyp = 4 -> consumes (read_host (S := conn) unknown atyp).
Proof.
  intros Ht. unfold read_host. repeat case_decide; [..|lia]; repeat (apply consumes_bind; [apply consumes_exact || apply consumes_u8|intros ?]);
    [exact (consumes_ret (Done _))|apply consumes_ret|exact (consumes_ret (Done _))].
Qed.

Lemma does_request : does request (part (fun bs r => exists rsv h port, host_ok h /\ port_ok port /\
  bs = socks_request_wire r.1 rsv h port /\ r.2 = target_text h port)).
Proof.
  unfold request. eapply part_bind; [apply part_u8|]. intros b1 v _ [-> _]. case_decide as Hv; [apply part_fail|].
  eapply part_bind; [apply part_u8|]. intros b2 cmd _ [-> _].
  eapply part_bind; [apply part_u8|]. intros b3 rsv _ [-> _].
  eapply (part_bind _ _ (fun bs t => exists h, host_ok h /\ t = host_text h /\ bs = host_wire 1 3 4 h)).
  - unfold read_typed_host. eapply part_bind; [apply part_u8|]. intros b4 atyp _ [-> _].
    destruct (decide (atyp = 1 \/ atyp = 3 \/ atyp = 4)) as [Ht|Ht].
    + eapply does_impl; [apply (does_read _ _ (sound_known_host _ _ Ht) (quiet_known_host _ _ Ht) (consumes_known_host _ _ Ht))|].
      intros bs l o (-> & ? & Hd). split_and!; [done|done|]. intros t ->. destruct (Hd t eq_refl) as (h & ? & ? & ?). by exists h.
    + unfold read_host. rewrite !decide_False by tauto. apply part_refuse.
  - intros b4 t _ (h & Hh & -> & ->). eapply part_bind; [apply part_u16|]. intros b5 port _ [-> Hp].
    apply part_ret. exists rsv, h, port. rewrite app_nil_r, Hv. unfold socks_request_wire. simpl. by split_and!.
Qed.

(** ** Properties *)

Definition reply (rep : Z) : list Z := [VER; rep; 0x00; ATYP_IPV4; 0; 0; 0; 0; 0; 0].

(** What the handler does with a client. *)
(** What the handler does: refusals, or a connection to the target of an authorised
    request and, if that succeeds, the relay. *)
Definition gated (bs : list Z) (l : list event) (o : outcome unit) : Prop :=
  o <> Panic /\ forall rest, (writes l \/
    exists methods sub rsv h port l1 l2 used, authorised methods sub /\ host_ok h /\ port_ok port /\
     bs = greeting_wire methods ++ sub ++ socks_request_wire CMD_CONNECT rsv h port ++ used /\
     let t := target_text h port in
     l = l1 ++ [EvConnect t] ++ l2 /\ writes l1 /\
     (writes l2 \/ exists up down, up `prefix_of` used ++ rest /\ l2 = [EvWrite (reply REP_SUCCESS); EvRelay t up down])).

Lemma gated_end methods sub rsv h port l1 bs l (o : outcome unit) :
  authorised methods sub -> host_ok h -> port_ok port -> writes l1 -> o <> Panic ->
  (forall rest, writes l \/ exists up down, up `prefix_of` bs ++ rest /\
     l = [EvWrite (reply REP_SUCCESS); EvRelay (target_text h port) up down]) ->
  gated ((greeting_wire methods ++ sub) ++ socks_request_wire CMD_CONNECT rsv h port ++ [] ++ bs)
    (l1 ++ [EvConnect (target_text h port)] ++ l) o.
Proof.
  intros Hauth Hh Hp Hw Ho Hl. split; [done|]. intros rest. right.
  exists methods, sub, rsv, h, port, l1, l, bs. cbv zeta. rewrite <- !app_assoc. by split_and!.
Qed.

Lemma does_handle : does handle gated.
Proof.
  unfold handle. eapply does_bind; [apply does_greeting|..].
  { intros bs l e (? & ? & _). split; auto. }
  { by intros bs l (_ & ? & _). }
  intros b1 l1 [] _ (Hw1 & _ & Hg). destruct (Hg tt eq_refl) as (methods & sub & Hm & -> & Hauth). clear Hg.
  eapply does_bind; [apply does_request|..].
  { intros bs l e (? & ? & _). split; [done|]. intros. left. by apply Forall_app. }
  { by intros bs l (_ & ? & _). }
  intros b2 l2 [cmd t] _ (Hw2 & _ & Hr). destruct (Hr _ eq_refl) as (rsv & h & port & Hh & Hp & Hb2 & Ht). clear Hr.
  cbn [fst snd] in Hb2, Ht. subst t b2.
  case_decide as Hc.
  { eapply does_impl; [apply (part_refuse _ _ (fun _ _ => True))|]. intros bs l o0 (? & ? & _). split; [done|].
    intros. left. by repeat (apply Forall_app; split). }
  rewrite Hc. eapply does_bind; [apply does_connect|..]; [by intros ? ? ? (_ & _ & ? & ?)|by intros ? ? (_ & _ & ? & ?)|].
  intros b3 l3 res _ (-> & -> & _).
  assert (Hend : forall bs l (o0 : outcome unit), o0 <> Panic ->
    (forall rest, writes l \/ exists up down, up `prefix_of` bs ++ rest /\
       l = [EvWrite (reply REP_SUCCESS); EvRelay (target_text h port) up down]) ->
    gated ((greeting_wire methods ++ sub) ++ socks_request_wire CMD_CONNECT rsv h port ++ [] ++ bs)
      (l1 ++ l2 ++ [EvConnect (target_text h port)] ++ l) o0).
  { intros bs l o0 Ho Hl. rewrite (app_assoc l1 l2). apply gated_end; auto. by apply Forall_app. }
  destruct res.
  - eapply does_bind; [apply does_write|..].
    + intros bs l e (-> & [[? _]|[_ ->]]); [done|]. apply Hend; [done|]. left. constructor.
    + by intros bs l (_ & [[? _]|[? _]]).
    + intros b4 l4 ? _ (-> & [[_ ->]|[? _]]); [|done]. eapply does_impl; [apply does_copy|].
      intros bs l o0 (-> & up & down & -> & Hup). apply Hend; [done|]. right. exists up, down. split; [|done].
      simpl. by apply prefix_app_r.
  - eapply does_impl; [apply (part_refuse _ _ (fun _ _ => True))|]. intros bs l o0 (? & ? & _). apply Hend; [done|]. by left.
  - eapply does_impl; [apply (part_refuse _ _ (fun _ _ => True))|]. intros bs l o0 (? & ? & _). apply Hend; [done|]. by left.
Qed.

Lemma socks_handle_gate s o s' :
  bytes_ok (c_in s) -> handle s = (o, s') ->
  o <> Panic /\ exists l, c_trace s' = c_trace s ++ l /\
  (writes l \/
   exists methods sub rsv h port rest l1 l2, authorised methods sub /\ host_ok h /\ port_ok port /\
     c_in s = greeting_wire methods ++ sub ++ socks_request_wire CMD_CONNECT rsv h port ++ rest /\
     let t := target_text h port in
     l = l1 ++ [EvConnect t] ++ l2 /\ writes l1 /\
     (writes l2 \/ exists up down, up `prefix_of` rest /\ l2 = [EvWrite (reply REP_SUCCESS); EvRelay t up down])).
Proof.
  intros Hok Er. destruct (does_handle s o s' Hok Er) as (bs & l & E1 & E2 & Hp & HR). split; [done|]. exists l. split; [done|].
  destruct (HR (c_in s')) as [?|(m & sub & rsv & h & port & l1 & l2 & used & ? & ? & ? & -> & ?)]; [by left|right].
  exists m, sub, rsv, h, port, (used ++ c_in s'), l1, l2. split_and!; try done. by rewrite E1, <- !app_assoc.
Qed.

(** the SOCKS5 server connects only for authorised clients.  Whatever the client
    sends and however the network behaves, the handler does not panic, and it
    does nothing but write replies unless the client's bytes are a greeting,
    the login the configuration asks for, and a complete connect request; then
    it makes one connection attempt, to the requested target, and only a
    success is followed by the success reply and a relay, of a prefix of the
    bytes after the request. *)
Theorem socks_connects_authorised s o s' :
  bytes_ok (c_in s) -> handle s = (o, s') ->
  o <> Panic /\ exists l, c_trace s' = c_trace s ++ l /\
  (writes l \/
   exists methods sub rsv h port rest l1 l2, authorised methods sub /\ host_ok h /\ port_ok port /\
     c_in s = greeting_wire methods ++ sub ++ socks_request_wire CMD_CONNECT rsv h port ++ rest /\
     let t := target_text h port in
     l = l1 ++ [EvConnect t] ++ l2 /\ writes l1 /\
     (writes l2 \/ exists up down, up `prefix_of` rest /\ l2 = [EvWrite (reply REP_SUCCESS); EvRelay t up down])).
Proof. apply socks_handle_gate. Qed.

Lemma reads_greeting_methods n methods :
  Z.to_nat n = length methods -> reads (S := conn) (read_exact (Z.to_nat n)) methods methods.
Proof. intros ->. by apply reads_exact. Qed.

Lemma run_write d s : env_write_ok E (c_trace s) = true -> write_all E d s = (Done tt, Conn (c_in s) (c_trace s ++ [EvWrite d])).
Proof. unfold write_all. by intros ->. Qed.

(** A decoder's run, then the rest of the handler. *)
Lemma run_read {A B} (m : M conn A) (f : A -> M conn B) bs a rest tr :
  reads m bs a -> (m ≫= f) (Conn (bs ++ rest) tr) = f a (Conn rest tr).
Proof. intros Hm. apply bind_step. by apply reads_conn. Qed.

Lemma run_login u p rest tr :
  (forall tr, env_write_ok E tr = true) -> (length u <= 255)%nat -> (length p <= 255)%nat ->
  MkUser (from_utf8_lossy u) (from_utf8_lossy p) ∈ users ->
  login (Conn (login_wire u p ++ rest) tr) = (Done tt, Conn rest (tr ++ [EvWrite [1; 0]])).
Proof.
  intros Hw Hu Hp Hin. unfold login, login_wire. rewrite <- !app_assoc.
  change ([1; Z.of_nat (length u)] ++ ?x) with ([1] ++ [Z.of_nat (length u)] ++ x).
  rewrite (run_read _ _ [1] _ _ _ (reads_u8 1)). rewrite decide_False by auto.
  rewrite (run_read _ _ _ _ _ _ (reads_u8 _)). rewrite Nat2Z.id, (run_read _ _ _ _ _ _ (reads_exact _ u eq_refl)).
  rewrite (run_read _ _ _ _ _ _ (reads_u8 _)). rewrite Nat2Z.id, (run_read _ _ _ _ _ _ (reads_exact _ p eq_refl)).
  rewrite (proj2 (existsb_exists _ users)); [by apply run_write|]. eexists. split; [by apply list_elem_of_In|].
  simpl. by rewrite !bool_decide_true by done.
Qed.

Lemma run_greeting methods sub rest tr :
  (forall tr, env_write_ok E tr = true) -> (length methods <= 255)%nat -> authorised methods sub ->
  greeting (Conn (greeting_wire methods ++ sub ++ rest) tr) =
    (Done tt, Conn rest (tr ++ (if decide (users = []) then [EvWrite [VER; METHOD_NO_AUTH]]
                                else [EvWrite [VER; METHOD_PASSWORD]; EvWrite [1; 0]]))).
Proof.
  intros Hw Hm Hauth. unfold greeting, greeting_wire. rewrite <- app_assoc.
  change ([VER; Z.of_nat (length methods)] ++ ?x) with ([VER] ++ [Z.of_nat (length methods)] ++ x).
  rewrite (run_read _ _ [VER] _ _ _ (reads_u8 VER)). rewrite decide_False by auto.
  rewrite (run_read _ _ _ _ _ _ (reads_u8 _)). rewrite Nat2Z.id, (run_read _ _ _ _ _ _ (reads_exact _ methods eq_refl)).
  unfold authorised in Hauth. destruct (decide (users = [])) as [Hus|Hus].
  - destruct Hauth as [Hin ->]. rewrite (bool_decide_true (users = [])), (bool_decide_true (METHOD_NO_AUTH ∈ methods)) by done.
    by apply run_write.
  - destruct Hauth as (Hin & u & p & -> & Hu & Hp & Hmem).
    rewrite (bool_decide_false (users = [])), (bool_decide_true (METHOD_PASSWORD ∈ methods)) by done. simpl negb. cbn [andb].
    cbv beta iota delta [negb andb]. unfold mbind, M_bind. rewrite run_write by done. cbn [c_in c_trace].
    rewrite run_login by done. by rewrite <- app_assoc.
Qed.

(** C28: the SOCKS5 server serves authorised clients.  When the writes to the client
    succeed, a client that sends a greeting with the method the configuration
    asks for, the login if there is one, and a connect request, gets the
    method, the login's success, and after the connection attempt to its
    target either the success reply and the relay of what follows the request
    or the failure reply, in this order and nothing else. *)
Theorem socks_serves methods sub rsv h port rest tr :
  (forall tr, env_write_ok E tr = true) -> (length methods <= 255)%nat -> authorised methods sub ->
  host_ok h -> port_ok port ->
  let t := target_text h port in
  let tr1 := tr ++ (if decide (users = []) then [EvWrite [VER; METHOD_NO_AUTH]]
                    else [EvWrite [VER; METHOD_PASSWORD]; EvWrite [1; 0]]) in
  let '(o, s') := handle (Conn (greeting_wire methods ++ sub ++ socks_request_wire CMD_CONNECT rsv h port ++ rest) tr) in
  match env_connect E tr1 t with
  | ConnOk =>
      let tr2 := tr1 ++ [EvConnect t; EvWrite (reply REP_SUCCESS)] in
      o = Done tt /\ c_trace s' = tr2 ++ [EvRelay t (take (env_up E tr2 t) rest) (env_remote E tr2 t)]
  | _ => c_trace s' = tr1 ++ [EvConnect t; EvWrite (reply REP_GENERAL_FAILURE)]
  end.
Proof.
  intros Hw Hm Hauth Hh Hp t tr1. unfold handle.
  rewrite (bind_step _ _ _ _ _ (run_greeting methods sub _ tr Hw Hm Hauth)). fold tr1.
  assert (Hreq : reads request (socks_request_wire CMD_CONNECT rsv h port) (CMD_CONNECT, t)).
  { unfold request, socks_request_wire. change [VER; CMD_CONNECT; rsv] with ([VER] ++ [CMD_CONNECT] ++ [rsv]). rewrite <- !app_assoc.
    eapply reads_bind; [apply reads_u8|]. rewrite decide_False by auto.
    eapply reads_bind; [apply reads_u8|]. eapply reads_bind; [apply reads_u8|].
    eapply reads_bind; [by apply reads_typed_host|]. eapply reads_bind_r; [by apply reads_u16|]. apply reads_ret. }
  rewrite (run_read _ _ _ _ _ _ Hreq). rewrite decide_False by auto.
  unfold tcp_connect, mbind, M_bind. simpl. destruct (env_connect E tr1 t).
  - unfold send_reply, write_all. rewrite Hw. simpl. by rewrite <- !app_assoc.
  - unfold send_reply, write_all. rewrite Hw. simpl. by rewrite <- !app_assoc.
  - unfold send_reply, write_all. rewrite Hw. simpl. by rewrite <- !app_assoc.
Qed.
End handler.

(** ** Witnesses *)

Definition demo_users : list SocksUser := [MkUser (str "u") (str "secret")].
Definition demo_socks_env : env := Env (fun _ => true) (fun _ _ => ConnOk) (fun _ _ => 2%nat) (fun _ _ => [3]).
Definition demo_greeting : list Z := greeting_wire [METHOD_NO_AUTH; METHOD_PASSWORD].
Definition demo_request : list Z := socks_request_wire CMD_CONNECT 0 (HDomain (str "a.example")) 443.
Lemma demo_socks_host : host_ok (HDomain (str "a.example")).
Proof. apply (bool_decide_eq_true (host_ok _)). vm_compute. reflexivity. Qed.

Lemma socks_connects_authorised_witness :
  let s := Conn (demo_greeting ++ login_wire (str "u") (str "guess") ++ demo_request) [] in
  exists o s', handle demo_socks_env demo_users s = (o, s') /\ o <> Panic /\
    c_trace s' = [EvWrite [VER; METHOD_PASSWORD]; EvWrite [1; 1]].
Proof.
  intros s. destruct (handle demo_socks_env demo_users s) as [o s'] eqn:Er.
  assert (Hok : bytes_ok (c_in s)) by (apply (bool_decide_eq_true (bytes_ok _)); vm_compute; reflexivity).
  destruct (socks_connects_authorised demo_socks_env demo_users s o s' Hok Er) as [Hp _].
  exists o, s'. split; [reflexivity|]. split; [exact Hp|]. vm_compute in Er. injection Er as _ <-. reflexivity.
Defined.

Lemma socks_serves_witness :
  exists o s', handle demo_socks_env demo_users
    (Conn (demo_greeting ++ login_wire (str "u") (str "secret") ++ demo_request ++ [1; 2]) []) = (o, s') /\
    o = Done tt /\ c_trace s' = [EvWrite [VER; METHOD_PASSWORD]; EvWrite [1; 0]; EvConnect (str "a.example:443");
      EvWrite (reply REP_SUCCESS); EvRelay (str "a.example:443") [1; 2] [3]].
Proof.
  assert (Ha : authorised demo_users [METHOD_NO_AUTH; METHOD_PASSWORD] (login_wire (str "u") (str "secret"))).
  { unfold authorised. rewrite decide_False by discriminate. split; [right; left|]. exists (str "u"), (str "secret").
    split; [reflexivity|]. split; [vm_compute; lia|]. split; [vm_compute; lia|]. left. }
  assert (Hp : port_ok 443) by (unfold port_ok; lia).
  assert (Hm : (length [METHOD_NO_AUTH; METHOD_PASSWORD] <= 255)%nat) by (simpl; lia).
  pose proof (socks_serves demo_socks_env demo_users _ _ 0 (HDomain (str "a.example")) 443 [1; 2] []
    (fun _ => eq_refl) Hm Ha demo_socks_host Hp) as H.
  destruct (handle demo_socks_env demo_users _) as [o s'] eqn:Er in H.
  exists o, s'. split; [exact Er|]. exact H.
Defined.
