(* ===== verification/Der.v ===== *)
(** * DER: replacing the signature of a certificate
    ([src/src/vless/tls/reality.rs], the functions [der_*] and
    [replace_signature_in_cert_der])

    A certificate is a sequence of three fields, the third a bit string; the
    functions walk its tags and lengths by position. *)
From S2P Require Import Prelude RustStd.

(** The loop over the bytes of a long length; [k] are still to come. *)
Fixpoint der_length_loop (data : list Z) (pos k : nat) (len : Z) : outcome Z :=
  match k with
  | O => Done len
  | S k =>
      b ← index data pos;
      der_length_loop data (S pos) k (Z.lor (Z.shiftl len 8) b)
  end.

(** The length at [pos], and how many bytes it takes. *)
Definition der_decode_length (data : list Z) (pos : nat) : outcome (nat * nat) :=
  if decide (length data <= pos)%nat then Fail (EBail "DER length out of bounds") else
  first ← index data pos;
  if decide (first < 0x80) then Done (Z.to_nat first, 1%nat) else
  let n := Z.to_nat (Z.land first 0x7f) in
  if decide (n = 0 \/ 4 < n \/ length data < pos + 1 + n)%nat then Fail (EBail "bad DER multi-byte length") else
  len ← der_length_loop data (pos + 1) n 0;
  Done (Z.to_nat len, (1 + n)%nat).

(** The bytes of the whole field at [pos], and of its contents. *)
Definition der_tlv_lens (data : list Z) (pos : nat) : outcome (nat * nat) :=
  if decide (length data <= pos + 1)%nat then Fail (EBail "TLV out of bounds") else
  '(content_len, len_field_bytes) ← der_decode_length data (pos + 1);
  Done ((1 + len_field_bytes + content_len)%nat, content_len).

Definition der_tlv_content_start (data : list Z) (pos : nat) : outcome nat :=
  '(_, len_field_bytes) ← der_decode_length data (pos + 1);
  Done (pos + 1 + len_field_bytes)%nat.

Definition der_encode_tlv (tag : Z) (content : list Z) : list Z :=
  let len := Z.of_nat (length content) in
  [tag] ++
  (if decide (len < 0x80) then [u8 len]
   else if decide (len < 0x100) then [0x81; u8 len]
   else if decide (len < 0x10000) then [0x82; u8 (Z.shiftr len 8); u8 (Z.land len 0xff)]
   else [0x83; u8 (Z.shiftr len 16); u8 (Z.shiftr len 8); u8 (Z.land len 0xff)]) ++
  content.

(** [Vec::splice] of a range; panics when the range is out of bounds. *)
Definition splice (v : list Z) (i j : nat) (new : list Z) : outcome (list Z) :=
  if decide (i <= j /\ j <= length v)%nat then Done (take i v ++ new ++ drop j v) else Panic.

Definition der_fix_outer_sequence_length (der : list Z) : outcome (list Z) :=
  d0 ← index der 0;
  if decide (d0 <> 0x30) then Fail (EBail "DER does not start with SEQUENCE") else
  old_content_start ← der_tlv_content_start der 0;
  let new_content_len := Z.of_nat (length der - old_content_start) in
  let new_len_field :=
    if decide (new_content_len < 0x80) then [u8 new_content_len]
    else if decide (new_content_len < 0x100) then [0x81; u8 new_content_len]
    else [0x82; u8 (Z.shiftr new_content_len 8); u8 (Z.land new_content_len 0xff)] in
  splice der 1 old_content_start new_len_field.

(** The loop over the fields; [k] are still to come, the last of them is the
    signature. *)
Fixpoint replace_field (der new_sig : list Z) (k pos : nat) : outcome (list Z) :=
  match k with
  | O => Fail (EBail "no signatureValue")
  | S k =>
      if decide (length der <= pos)%nat then Fail (EBail "DER incomplete") else
      '(total, _) ← der_tlv_lens der pos;
      if decide (k = 0)%nat then
        tag ← index der pos;
        if decide (tag <> 0x03) then Fail (EBail "signatureValue is not a BIT STRING") else
        let new_tlv := der_encode_tlv 0x03 ([0x00] ++ new_sig) in
        der ← splice der pos (pos + total) new_tlv;
        der_fix_outer_sequence_length der
      else replace_field der new_sig k (pos + total)
  end.

Definition replace_signature_in_cert_der (der new_sig : list Z) : outcome (list Z) :=
  match der with
  | [] => Fail (EBail "DER does not start with SEQUENCE")
  | d0 :: _ =>
      if decide (d0 <> 0x30) then Fail (EBail "DER does not start with SEQUENCE") else
      outer_content_start ← der_tlv_content_start der 0;
      replace_field der new_sig 3 outer_content_start
  end.

(** ** Fields, as a specification *)

(** A length field, short or long, not necessarily minimal. *)
Definition len_field (lf : list Z) (n : nat) : Prop :=
  (lf = [Z.of_nat n] /\ (n < 128)%nat) \/
  (exists bs, lf = (0x80 + Z.of_nat (length bs)) :: bs /\ (0 < length bs <= 4)%nat /\ bytes_ok bs /\
     be_val bs = Z.of_nat n).
Definition is_tlv (tag : Z) (bs content : list Z) : Prop :=
  exists lf, len_field lf (length content) /\ bs = tag :: lf ++ content.

Lemma len_field_pos lf n : len_field lf n -> (0 < length lf)%nat.
Proof. intros [[-> _]|(bs & -> & _)]; simpl; lia. Qed.

Lemma der_loop_spec bs : forall pre rest k acc,
  bytes_ok bs -> length bs = k ->
  der_length_loop (pre ++ bs ++ rest) (length pre) k acc = Done (foldl (fun a b => a * 256 + b) acc bs).
Proof.
  induction bs as [|b bs IH]; intros pre rest k acc Hok <-; [done|]. apply Forall_cons in Hok as [Hb Hok].
  cbn [length der_length_loop]. cbn [app]. rewrite index_app by done. cbn [mbind outcome_bind bind_outcome].
  rewrite lor_shift8 by exact Hb. rewrite app_mid. specialize (IH (pre ++ [b]) rest (length bs) (acc * 256 + b) Hok eq_refl).
  rewrite length_app, Nat.add_1_r in IH. exact IH.
Qed.

Lemma der_decode_spec pre lf n rest :
  len_field lf n -> der_decode_length (pre ++ lf ++ rest) (length pre) = Done (n, length lf).
Proof.
  intros Hlf. pose proof (len_field_pos _ _ Hlf) as Hpos. unfold der_decode_length.
  rewrite decide_False by (rewrite !length_app; lia). destruct Hlf as [[-> Hn]|(bs & -> & Hl & Hok & Hv)]; cbn [app].
  - rewrite index_app by done. cbn [mbind outcome_bind bind_outcome]. rewrite decide_True by lia. by rewrite Nat2Z.id.
  - rewrite index_app by done. cbn [mbind outcome_bind bind_outcome]. rewrite decide_False by lia.
    assert (E : Z.to_nat (Z.land (0x80 + Z.of_nat (length bs)) 0x7f) = length bs).
    { change 0x7f with (Z.ones 7). rewrite Z.land_ones by lia. change (2 ^ 7) with 128.
      replace (128 + Z.of_nat (length bs)) with (Z.of_nat (length bs) + 1 * 128) by lia.
      rewrite Z.mod_add, Z.mod_small by lia. by rewrite Nat2Z.id. }
    rewrite E. rewrite decide_False by (rewrite length_app; simpl; rewrite length_app; lia).
    rewrite app_mid. replace (length pre + 1)%nat with (length (pre ++ [0x80 + Z.of_nat (length bs)])) by (rewrite length_app; done).
    rewrite der_loop_spec by done. cbn [mbind outcome_bind bind_outcome]. fold (be_val bs). rewrite Hv, Nat2Z.id. done.
Qed.

Lemma tlv_lens_spec pre tag bs content rest :
  is_tlv tag bs content -> der_tlv_lens (pre ++ bs ++ rest) (length pre) = Done (length bs, length content).
Proof.
  intros (lf & Hlf & ->). pose proof (len_field_pos _ _ Hlf). unfold der_tlv_lens.
  rewrite decide_False by (rewrite !length_app; simpl; rewrite length_app; lia).
  cbn [app]. rewrite <- app_assoc, app_mid. replace (length pre + 1)%nat with (length (pre ++ [tag])) by (rewrite length_app; done).
  rewrite (der_decode_spec _ _ _ _ Hlf). cbn [mbind outcome_bind bind_outcome]. simpl. by rewrite length_app.
Qed.

Lemma tlv_lens_last pre tag bs content :
  is_tlv tag bs content -> der_tlv_lens (pre ++ bs) (length pre) = Done (length bs, length content).
Proof. intros H. rewrite <- (app_nil_r bs) at 1. by eapply tlv_lens_spec. Qed.

Lemma content_start_spec tag lf content rest :
  len_field lf (length content) -> der_tlv_content_start (tag :: lf ++ content ++ rest) 0 = Done (1 + length lf)%nat.
Proof.
  intros Hlf. unfold der_tlv_content_start. change (tag :: lf ++ content ++ rest) with ([tag] ++ lf ++ content ++ rest).
  change (0 + 1)%nat with (length [tag]). by rewrite (der_decode_spec _ _ _ _ Hlf).
Qed.

Lemma be3 n : 0 <= n < 2 ^ 24 -> [u8 (Z.shiftr n 16); u8 (Z.shiftr n 8); u8 (Z.land n 0xff)] = be_bytes 3 n.
Proof.
  intros Hn. unfold wrap. rewrite !Z.shiftr_div_pow2 by lia. change 0xff with (Z.ones 8). rewrite Z.land_ones by lia.
  rewrite Z.mod_mod by lia. simpl. rewrite Z.div_div by lia. done.
Qed.
Lemma be2 n : [u8 (Z.shiftr n 8); u8 (Z.land n 0xff)] = be_bytes 2 n.
Proof.
  unfold wrap. rewrite !Z.shiftr_div_pow2 by lia. change 0xff with (Z.ones 8). rewrite Z.land_ones by lia.
  by rewrite Z.mod_mod by lia.
Qed.

(** What the encoder writes is a field, below [2^24] bytes. *)
Lemma encode_is_tlv tag content :
  Z.of_nat (length content) < 2 ^ 24 -> is_tlv tag (der_encode_tlv tag content) content.
Proof.
  intros Hl. unfold is_tlv, der_encode_tlv. set (n := length content) in *.
  destruct (decide (Z.of_nat n < 0x80)); [|destruct (decide (Z.of_nat n < 0x100)); [|destruct (decide (Z.of_nat n < 0x10000))]];
    (eexists; split; [|reflexivity]).
  - left. unfold wrap. rewrite Z.mod_small by lia. split; [done|lia].
  - right. exists [u8 (Z.of_nat n)]. unfold wrap. rewrite Z.mod_small by lia. unfold be_val. simpl.
    split_and!; [done|lia|lia| |lia]. repeat constructor; lia.
  - right. rewrite be2. exists (be_bytes 2 (Z.of_nat n)). rewrite be_val_bytes by (change (256 ^ Z.of_nat 2) with 65536; lia).
    rewrite length_be_bytes. split_and!; [done|lia|lia|apply be_bytes_ok|done].
  - right. rewrite be3 by lia. exists (be_bytes 3 (Z.of_nat n)). rewrite be_val_bytes by (change (256 ^ Z.of_nat 3) with (2 ^ 24); lia).
    rewrite length_be_bytes. split_and!; [done|lia|lia|apply be_bytes_ok|done].
Qed.

Lemma is_tlv_length tag bs content : is_tlv tag bs content -> (0 < length bs)%nat.
Proof. intros (lf & _ & ->). simpl. lia. Qed.

(** The outer length is corrected after the contents have changed. *)
Lemma fix_outer lf m content :
  len_field lf m -> Z.of_nat (length content) < 0x10000 ->
  der_fix_outer_sequence_length (0x30 :: lf ++ content) = Done (der_encode_tlv 0x30 content).
Proof.
  intros Hlf Hl. unfold der_fix_outer_sequence_length. rewrite index_head. cbn [mbind outcome_bind bind_outcome].
  rewrite decide_False by auto. unfold der_tlv_content_start.
  change (0x30 :: lf ++ content) with ([0x30] ++ lf ++ content). change (0 + 1)%nat with (length [0x30]).
  rewrite (der_decode_spec _ _ _ _ Hlf). cbn [mbind outcome_bind bind_outcome].
  replace (length ([0x30%Z] ++ lf ++ content) - (length [0x30%Z] + length lf))%nat with (length content)
    by (simpl; rewrite length_app; lia).
  unfold splice. rewrite decide_True by (simpl; rewrite length_app; lia).
  replace (drop (length [0x30] + length lf) ([0x30] ++ lf ++ content)) with content
    by (simpl; by rewrite drop_app_length).
  unfold der_encode_tlv. simpl take. by repeat case_decide.
Qed.

Lemma replace_signature_ok outer t1 t2 t3 tag1 tag2 c1 c2 c3 sig :
  is_tlv tag1 t1 c1 -> is_tlv tag2 t2 c2 -> is_tlv 0x03 t3 c3 -> is_tlv 0x30 outer (t1 ++ t2 ++ t3) ->
  let new := der_encode_tlv 0x03 ([0x00] ++ sig) in
  Z.of_nat (length (t1 ++ t2 ++ new)) < 0x10000 ->
  replace_signature_in_cert_der outer sig = Done (der_encode_tlv 0x30 (t1 ++ t2 ++ new)) /\
  is_tlv 0x30 (der_encode_tlv 0x30 (t1 ++ t2 ++ new)) (t1 ++ t2 ++ new) /\
  is_tlv 0x03 new ([0x00] ++ sig).
Proof.
  intros H1 H2 H3 (lf & Hlf & ->) new Hl. split.
  2: { split; apply encode_is_tlv; [lia|]. rewrite !length_app in Hl. unfold new, der_encode_tlv in Hl.
       rewrite !length_app in Hl. rewrite length_app. simpl in *. lia. }
  pose proof (is_tlv_length _ _ _ H1). pose proof (is_tlv_length _ _ _ H2). pose proof (is_tlv_length _ _ _ H3).
  unfold replace_signature_in_cert_der. rewrite decide_False by auto.
  rewrite <- (app_nil_r (t1 ++ t2 ++ t3)) at 1. rewrite content_start_spec by done. cbn [mbind outcome_bind bind_outcome].
  set (pre := 0x30 :: lf). assert (Hpre : (1 + length lf)%nat = length pre) by done. rewrite Hpre.
  change (0x30 :: lf ++ t1 ++ t2 ++ t3) with (pre ++ t1 ++ t2 ++ t3).
  cbn [replace_field]. rewrite decide_False by (rewrite !length_app; lia).
  rewrite (tlv_lens_spec _ _ _ _ _ H1). cbn [mbind outcome_bind bind_outcome]. rewrite decide_False by lia.
  rewrite decide_False by (rewrite !length_app; lia).
  replace (length pre + length t1)%nat with (length (pre ++ t1)) by (by rewrite length_app).
  rewrite (app_assoc pre), (tlv_lens_spec _ _ _ _ _ H2). cbn [mbind outcome_bind bind_outcome]. rewrite decide_False by lia.
  rewrite decide_False by (rewrite !length_app; lia).
  replace (length (pre ++ t1) + length t2)%nat with (length ((pre ++ t1) ++ t2)) by (by rewrite length_app).
  rewrite (app_assoc (pre ++ t1)). rewrite (tlv_lens_last _ _ _ _ H3). cbn [mbind outcome_bind bind_outcome].
  rewrite decide_True by done. destruct H3 as (lf3 & Hlf3 & ->).
  rewrite index_app by done. cbn [mbind outcome_bind bind_outcome]. rewrite decide_False by auto.
  unfold splice at 1. rewrite decide_True by (rewrite !length_app; lia).
  rewrite take_app_length, drop_ge by (rewrite !length_app; lia). cbn [mbind outcome_bind bind_outcome].
  rewrite app_nil_r. fold new. unfold pre. rewrite <- !app_assoc. cbn [app]. by eapply fix_outer.
Qed.

(** C34: patching a certificate replaces its signature and nothing else.  For every
    DER certificate (a sequence of two fields and a bit string, with any valid
    lengths), [replace_signature_in_cert_der] returns the sequence of the same
    two fields and a bit string of the new signature, in the encoder's form,
    which reads back as such (for results below 64 KiB). *)
Theorem replace_signature_correct outer t1 t2 t3 tag1 tag2 c1 c2 c3 sig :
  is_tlv tag1 t1 c1 -> is_tlv tag2 t2 c2 -> is_tlv 0x03 t3 c3 -> is_tlv 0x30 outer (t1 ++ t2 ++ t3) ->
  let new := der_encode_tlv 0x03 ([0x00] ++ sig) in
  Z.of_nat (length (t1 ++ t2 ++ new)) < 0x10000 ->
  replace_signature_in_cert_der outer sig = Done (der_encode_tlv 0x30 (t1 ++ t2 ++ new)) /\
  is_tlv 0x30 (der_encode_tlv 0x30 (t1 ++ t2 ++ new)) (t1 ++ t2 ++ new) /\
  is_tlv 0x03 new ([0x00] ++ sig).
Proof. apply replace_signature_ok. Qed.

Lemma replace_signature_correct_witness :
  let t1 := der_encode_tlv 0x30 (replicate 130 1) in
  let t2 := der_encode_tlv 0x30 [6; 1; 9] in
  let cert := der_encode_tlv 0x30 (t1 ++ t2 ++ der_encode_tlv 0x03 [0; 5; 5]) in
  replace_signature_in_cert_der cert (replicate 64 7) =
    Done (der_encode_tlv 0x30 (t1 ++ t2 ++ der_encode_tlv 0x03 (0 :: replicate 64 7))).
Proof.
  intros t1 t2 cert.
  apply (replace_signature_correct cert t1 t2 (der_encode_tlv 0x03 [0; 5; 5]) 0x30 0x30 (replicate 130 1) [6; 1; 9] [0; 5; 5]
    (replicate 64 7)).
  - apply encode_is_tlv. vm_compute. reflexivity.
  - apply encode_is_tlv. vm_compute. reflexivity.
  - apply encode_is_tlv. vm_compute. reflexivity.
  - apply encode_is_tlv. vm_compute. reflexivity.
  - vm_compute. reflexivity.
Defined.
