(* ===== verification/Reality.v ===== *)
(** * Reality: recognising clients from their ClientHello
    ([src/src/vless/tls/reality.rs])

    The hello is read by position from the bytes peeked on the socket.  The
    primitives (X25519, HKDF, HMAC, the ciphers, base64, hex, the certificate
    and TLS crates) are parameters. *)
From S2P Require Import Prelude RustStd Net Aead Der.

Inductive RealityCipher := Aes256Gcm | ChaCha20Poly1305.

Class RealityCrypto := {
  x25519 : list Z -> list Z -> list Z;                          (** private key, public key *)
  hkdf_sha256 : list Z -> list Z -> list Z -> nat -> option (list Z);  (** salt, key material, info, length *)
  hmac_sha512 : list Z -> list Z -> list Z;                     (** key, message *)
  url_safe_no_pad_decode : list Z -> option (list Z);
  standard_decode : list Z -> option (list Z);
  hex_decode : list Z -> option (list Z);
  reality_aead :: Aead RealityCipher;
}.
Class RealityLaws `{RealityCrypto} : Prop := {
  hkdf_some s k i n : (n <= 255 * 32)%nat -> exists o, hkdf_sha256 s k i n = Some o /\ length o = n;
  reality_aead_laws :: AeadLaws RealityCipher;
  reality_key_accepted (c : RealityCipher) k : length k = 32%nat -> aead_key c k = true;
}.

Record RealityConfig := MkReality {
  dest : list Z;
  server_name : list Z;
  private_key : list Z;
  short_ids : list (list Z);
}.

Definition RECORD_HDR : nat := 5.
Definition HANDSHAKE_HDR : nat := 4.
Definition LEGACY_VER_LEN : nat := 2.
Definition RANDOM_OFFSET : nat := RECORD_HDR + HANDSHAKE_HDR + LEGACY_VER_LEN.
Definition RANDOM_LEN : nat := 32.
Definition SID_LEN_OFFSET : nat := RANDOM_OFFSET + RANDOM_LEN.
Definition SID_OFFSET : nat := SID_LEN_OFFSET + 1.

(** [u16::from_be_bytes([v[i], v[i + 1]])]. *)
Definition u16_at (v : list Z) (i : nat) : outcome Z :=
  a ← index v i; b ← index v (i + 1); Done (be_val [a; b]).

(** ** The choice of the cipher *)

Definition suite_choice (suite : Z) : option bool :=
  if decide (suite ∈ [0x1301; 0x1302; 0x009c; 0x009d; 0xc02b; 0xc02c; 0xc02f; 0xc030]) then Some true
  else if decide (suite ∈ [0x1303; 0xcca8; 0xcca9]) then Some false
  else None.

(** The loop over the suites, up to [stop]. *)
Fixpoint suites_loop (record : list Z) (fuel i stop : nat) : outcome bool :=
  match fuel with
  | O => Panic
  | S fuel =>
      if decide (i + 1 < stop)%nat then
        suite ← u16_at record i;
        match suite_choice suite with
        | Some b => Done b
        | None => suites_loop record fuel (i + 2) stop
        end
      else Done true
  end.

Definition cipher_suite_prefers_aes (record : list Z) : outcome bool :=
  let pos := (SID_OFFSET + 32)%nat in
  if decide (length record < pos + 2)%nat then Done true else
  cs ← u16_at record pos;
  let cs_len := Z.to_nat cs in
  let cs_start := (pos + 2)%nat in
  if decide (length record < cs_start + cs_len \/ cs_len < 2)%nat then Done true else
  suites_loop record (S (length record)) cs_start (cs_start + cs_len).

(** ** The client's key *)

(** The loop over the entries of a key share, up to [stop]; [mlkem] is the key
    of the last hybrid entry so far. *)
Fixpoint shares_loop (data : list Z) (fuel pos stop : nat) (mlkem : option (list Z)) : outcome (list Z) :=
  match fuel with
  | O => Panic
  | S fuel =>
      if decide (pos + 4 <= stop)%nat then
        group ← u16_at data pos;
        ke ← u16_at data (pos + 2);
        let ke_len := Z.to_nat ke in
        let pos := (pos + 4)%nat in
        if decide (stop < pos + ke_len)%nat then Fail (EBail "KeyShare entry out of bounds") else
        if decide (group = 0x001d /\ ke_len = 32%nat) then slice data pos (pos + 32)
        else
          mlkem ← (if decide (group = 0x11ec /\ (1088 + 32 <= ke_len)%nat) then
                     let x25519_offset := (ke_len - 32)%nat in
                     k ← slice data (pos + x25519_offset) (pos + x25519_offset + 32);
                     Done (Some k)
                   else Done mlkem);
          shares_loop data fuel (pos + ke_len) stop mlkem
      else match mlkem with
           | Some key => Done key
           | None => Fail (EBail "no x25519 in KeyShare")
           end
  end.

Definition parse_x25519_key_share (data : list Z) : outcome (list Z) :=
  if decide (length data < 2)%nat then Fail (EBail "KeyShare data too short") else
  sl ← u16_at data 0;
  let stop := Nat.min (2 + Z.to_nat sl) (length data) in
  shares_loop data (S (length data)) 2 stop None.

(** The loop over the extensions, up to [ext_end]. *)
Fixpoint exts_loop (record : list Z) (fuel pos ext_end : nat) : outcome (list Z) :=
  match fuel with
  | O => Panic
  | S fuel =>
      if decide (pos + 4 <= ext_end)%nat then
        ext_type ← u16_at record pos;
        el ← u16_at record (pos + 2);
        let ext_len := Z.to_nat el in
        let pos := (pos + 4)%nat in
        if decide (ext_end < pos + ext_len)%nat then Fail (EBail "extension out of bounds") else
        if decide (ext_type = 0x0033) then
          d ← slice record pos (pos + ext_len);
          parse_x25519_key_share d
        else exts_loop record fuel (pos + ext_len) ext_end
      else Fail (EBail "no KeyShare extension")
  end.

Definition extract_x25519_from_key_share (record : list Z) : outcome (list Z) :=
  let pos := (SID_OFFSET + 32)%nat in
  if decide (length record < pos + 2)%nat then Fail (EBail "record ends before cipher_suites") else
  cs ← u16_at record pos;
  let pos := (pos + (2 + Z.to_nat cs))%nat in
  if decide (length record < pos + 1)%nat then Fail (EBail "record ends before compression_methods") else
  cm ← index record pos;
  let pos := (pos + (1 + Z.to_nat cm))%nat in
  if decide (length record < pos + 2)%nat then Fail (EBail "record ends before extensions_length") else
  et ← u16_at record pos;
  let pos := (pos + 2)%nat in
  let ext_end := (pos + Z.to_nat et)%nat in
  if decide (length record < ext_end)%nat then Fail (EBail "extensions out of bounds") else
  exts_loop record (S (length record)) pos ext_end.

Section reality.
Context `{RealityCrypto}.

Definition x25519_dh (server_private client_public : list Z) : list Z := x25519 server_private client_public.

Definition base64_url_decode (s : list Z) : outcome (list Z) :=
  let s := trim s in
  match url_safe_no_pad_decode s with
  | Some v => Done v
  | None => ok_or (EBail "base64") (standard_decode s)
  end.

(** The loop over the short identifiers. *)
Fixpoint match_short_ids (sids : list (list Z)) (plaintext auth_key : list Z) : outcome (list Z) :=
  match sids with
  | [] => Fail (EBail "short_id mismatch")
  | sid_hex :: sids =>
      sid_bytes ← ok_or (EBail "short_id") (hex_decode sid_hex);
      if decide (8 < length sid_bytes)%nat then Fail (EBail "short_id longer than 8 bytes") else
      let n := length sid_bytes in
      if decide (n = 0)%nat then Done auth_key else
      if decide (8 + n <= length plaintext /\ take n (drop 8 plaintext) = sid_bytes)%nat then Done auth_key
      else match_short_ids sids plaintext auth_key
  end.

(** The associated data: the hello without the record header, its session id
    set to zero. *)
Definition hello_aad (record : list Z) : list Z :=
  let aad := drop RECORD_HDR record in
  let sid := (SID_OFFSET - RECORD_HDR)%nat in
  take sid aad ++ replicate 32 0 ++ drop (sid + 32) aad.

Definition open_session_id (use_aes : bool) (auth_key nonce aad session_id : list Z) : outcome (list Z) :=
  let c := if use_aes then Aes256Gcm else ChaCha20Poly1305 in
  if aead_key c auth_key then ok_or (EBail "not a Reality client") (aead_open_ad c auth_key nonce aad session_id)
  else Fail (EBail "key length").

Definition verify_reality_client (record : list Z) (cfg : RealityConfig) : outcome (list Z) :=
  if decide (length record < SID_OFFSET + 32 + 4)%nat then Fail (EBail "record too short") else
  r0 ← index record 0;
  if decide (r0 <> 0x16) then Fail (EBail "not a TLS handshake record") else
  r5 ← index record RECORD_HDR;
  if decide (r5 <> 0x01) then Fail (EBail "not a ClientHello") else
  sid_len ← index record SID_LEN_OFFSET;
  if decide (sid_len <> 32) then Fail (EBail "session_id_len != 32") else
  random ← slice record RANDOM_OFFSET (RANDOM_OFFSET + RANDOM_LEN);
  session_id ← slice record SID_OFFSET (SID_OFFSET + 32);
  ecdhe_pub ← extract_x25519_from_key_share record;
  priv_bytes ← base64_url_decode (private_key cfg);
  if decide (length priv_bytes <> 32%nat) then Fail (EBail "private_key must be 32 bytes") else
  let raw_auth_key := x25519_dh priv_bytes ecdhe_pub in
  auth_key ← ok_or (EBail "HKDF expand") (hkdf_sha256 (take 20 random) raw_auth_key (str "REALITY") 32);
  let nonce_bytes := drop 20 random in
  use_aes ← cipher_suite_prefers_aes record;
  plaintext ← open_session_id use_aes auth_key nonce_bytes (hello_aad record) session_id;
  match_short_ids (short_ids cfg) plaintext auth_key.

(** ** The certificate of a connection *)

(** A generated key pair and the certificate crate's signature with it. *)
Record CertWorld := MkCert {
  public_key_raw : list Z;
  self_signed : list Z -> outcome (list Z);      (** by the server name: the DER *)
}.

(** [build_per_connection_config] up to the certificate it serves. *)
Definition build_per_connection_config (cw : CertWorld) (cfg : RealityConfig) (auth_key : list Z) : outcome (list Z) :=
  let spki := public_key_raw cw in
  if decide (length spki < 32)%nat then Fail (EBail "SPKI too short") else
  pub_key_32 ← slice spki (length spki - 32) (length spki);
  let reality_sig := hmac_sha512 auth_key pub_key_32 in
  der_bytes ← self_signed cw (server_name cfg);
  replace_signature_in_cert_der der_bytes reality_sig.

(** ** A connection *)

(** What happens on an accepted connection: [n] bytes are there at the peek. *)
Definition PEEK_LEN : nat := Z.to_nat 2048.
Definition peek_client_hello (n : nat) (s : conn) : list Z := take (Nat.min n PEEK_LEN) (c_in s).

Definition forward_to_dest (E : env) (cfg : RealityConfig) : M conn unit :=
  r ← tcp_connect E (dest cfg);
  match r with
  | ConnOk => copy_bidirectional E (dest cfg)
  | _ => fail EIo
  end.

(** The certificate the TLS handshake goes on with; what it reads is the
    crate's part. *)
Definition accept (E : env) (cw : CertWorld) (cfg : RealityConfig) (n : nat) : M conn (list Z) :=
  s ← get_st;
  match verify_reality_client (peek_client_hello n s) cfg with
  | Done auth_key => lift (build_per_connection_config cw cfg auth_key)
  | Fail _ => _ ← forward_to_dest E cfg; bail "reality: non-Reality client forwarded to dest"
  | Panic => panic
  end.

(** [build], the checks at start-up. *)
Fixpoint check_short_ids (sids : list (list Z)) : outcome unit :=
  match sids with
  | [] => Done tt
  | sid_hex :: sids =>
      sid ← ok_or (EBail "short_id") (hex_decode sid_hex);
      if decide (8 < length sid)%nat then Fail (EBail "short_id longer than 8 bytes") else check_short_ids sids
  end.
Definition build (cfg : RealityConfig) : outcome unit :=
  priv_bytes ← base64_url_decode (private_key cfg);
  if decide (length priv_bytes <> 32%nat) then Fail (EBail "private_key must be 32 bytes") else
  check_short_ids (short_ids cfg).
End reality.

(** ** Hellos, as a specification *)

Definition u16_ok (z : Z) : Prop := 0 <= z < 65536.
Definition u16s_wire (l : list Z) : list Z := concat (be_bytes 2 <$> l).
(** A type and a value with a length of two bytes: an extension, or an entry of
    a key share. *)
Definition entry_wire (e : Z * list Z) : list Z := be_bytes 2 e.1 ++ be_bytes 2 (Z.of_nat (length e.2)) ++ e.2.
Definition entries_wire (l : list (Z * list Z)) : list Z := concat (entry_wire <$> l).
Definition entry_ok (e : Z * list Z) : Prop := u16_ok e.1 /\ u16_ok (Z.of_nat (length e.2)).
Definition sized_wire (w : list Z) : list Z := be_bytes 2 (Z.of_nat (length w)) ++ w.

Record Hello := MkHello {
  h_record : list Z;               (** the record header *)
  h_head : list Z;                 (** the handshake header and the version *)
  h_random : list Z;
  h_suites : list Z;
  h_comp : list Z;
  h_exts : list (Z * list Z);
}.

Definition hello_tail (h : Hello) : list Z :=
  sized_wire (u16s_wire (h_suites h)) ++ [Z.of_nat (length (h_comp h))] ++ h_comp h ++ sized_wire (entries_wire (h_exts h)).
Definition hello_body (h : Hello) (sid : list Z) : list Z := h_head h ++ h_random h ++ [32] ++ sid ++ hello_tail h.
Definition hello_wire (h : Hello) (sid : list Z) : list Z := h_record h ++ hello_body h sid.

Definition hello_ok (h : Hello) : Prop :=
  (length (h_record h) = RECORD_HDR /\ head (h_record h) = Some 0x16) /\
  (length (h_head h) = (HANDSHAKE_HDR + LEGACY_VER_LEN)%nat /\ head (h_head h) = Some 0x01) /\
  length (h_random h) = RANDOM_LEN /\
  Forall u16_ok (h_suites h) /\ u16_ok (Z.of_nat (length (u16s_wire (h_suites h)))) /\
  Forall entry_ok (h_exts h) /\ u16_ok (Z.of_nat (length (entries_wire (h_exts h)))).

(** The first suite that is known decides. *)
Fixpoint first_choice (suites : list Z) : option bool :=
  match suites with
  | [] => None
  | s :: suites => match suite_choice s with Some b => Some b | None => first_choice suites end
  end.
(** The first key share extension. *)
Fixpoint key_share_ext (exts : list (Z * list Z)) : option (list Z) :=
  match exts with
  | [] => None
  | (t, d) :: exts => if decide (t = 0x0033) then Some d else key_share_ext exts
  end.
(** The first X25519 entry, else the end of the last hybrid one. *)
Fixpoint pick_share (shares : list (Z * list Z)) (mlkem : option (list Z)) : option (list Z) :=
  match shares with
  | [] => mlkem
  | (g, k) :: shares =>
      if decide (g = 0x001d /\ length k = 32%nat) then Some k
      else pick_share shares
             (if decide (g = 0x11ec /\ (1088 + 32 <= length k)%nat) then Some (drop (length k - 32) k) else mlkem)
  end.

Lemma u16_at_wire pre z rest i :
  u16_ok z -> i = length pre -> u16_at (pre ++ be_bytes 2 z ++ rest) i = Done z.
Proof.
  intros Hz ->. unfold u16_at. rewrite u16_be_bytes. cbn [app].
  rewrite (index_app pre _ _ (length pre) eq_refl). cbn [mbind outcome_bind bind_outcome].
  rewrite app_mid, (index_app (pre ++ _) _ _ (length pre + 1)) by (by rewrite length_app).
  cbn [mbind outcome_bind bind_outcome].
  rewrite <- u16_be_bytes. f_equal. rewrite be_val_bytes; [done|exact Hz].
Qed.

Lemma length_u16s l : length (u16s_wire l) = (2 * length l)%nat.
Proof. unfold u16s_wire. induction l as [|z l IH]; [done|]. rewrite fmap_cons, concat_cons, length_app, IH, length_be_bytes. simpl. lia. Qed.

Lemma suites_loop_wire l : forall pre rest fuel stop,
  Forall u16_ok l -> (length l < fuel)%nat -> stop = (length pre + 2 * length l)%nat ->
  suites_loop (pre ++ u16s_wire l ++ rest) fuel (length pre) stop = Done (default true (first_choice l)).
Proof.
  induction l as [|z l IH]; intros pre rest fuel stop Hok Hf ->; (destruct fuel as [|fuel]; [simpl in Hf; lia|]); cbn [suites_loop].
  - by rewrite decide_False by (simpl; lia).
  - apply Forall_cons in Hok as [Hz Hok]. simpl in Hf. rewrite decide_True by (simpl; lia). unfold u16s_wire. rewrite fmap_cons, concat_cons, <- app_assoc.
    rewrite u16_at_wire by done. cbn [mbind outcome_bind bind_outcome first_choice]. destruct (suite_choice z); [done|].
    replace (length pre + 2)%nat with (length (pre ++ be_bytes 2 z)) by (by rewrite length_app, length_be_bytes).
    rewrite app_assoc. apply IH; [done|lia|]. rewrite length_app, length_be_bytes. simpl. lia.
Qed.

Lemma length_entry e : length (entry_wire e) = (4 + length e.2)%nat.
Proof. unfold entry_wire. rewrite !length_app, !length_be_bytes. lia. Qed.
Lemma length_entries l : (4 * length l <= length (entries_wire l))%nat.
Proof. unfold entries_wire. induction l as [|e l IH]; [simpl; lia|]. rewrite fmap_cons, concat_cons, length_app, length_entry. simpl. lia. Qed.

(** The head of an entry. *)
Lemma entry_head pre e rest :
  entry_ok e ->
  u16_at (pre ++ entry_wire e ++ rest) (length pre) = Done e.1 /\
  u16_at (pre ++ entry_wire e ++ rest) (length pre + 2) = Done (Z.of_nat (length e.2)) /\
  slice (pre ++ entry_wire e ++ rest) (length pre + 4) (length pre + 4 + length e.2) = Done e.2.
Proof.
  intros [Ht Hl]. unfold entry_wire. rewrite <- !app_assoc. split_and!.
  - by apply u16_at_wire.
  - rewrite app_assoc. apply u16_at_wire; [done|]. by rewrite length_app, length_be_bytes.
  - rewrite !app_assoc, <- (app_assoc _ e.2). apply slice_app; rewrite !length_app, !length_be_bytes; lia.
Qed.

Lemma exts_loop_wire l : forall pre rest fuel stop,
  Forall entry_ok l -> (length l < fuel)%nat -> stop = (length pre + length (entries_wire l))%nat ->
  exts_loop (pre ++ entries_wire l ++ rest) fuel (length pre) stop =
    match key_share_ext l with Some d => parse_x25519_key_share d | None => Fail (EBail "no KeyShare extension") end.
Proof.
  induction l as [|[t d] l IH]; intros pre rest fuel stop Hok Hf ->; (destruct fuel as [|fuel]; [simpl in Hf; lia|]); cbn [exts_loop].
  - by rewrite decide_False by (simpl; lia).
  - apply Forall_cons in Hok as [He Hok]. simpl in Hf. unfold entries_wire. rewrite fmap_cons, concat_cons, <- app_assoc.
    destruct (entry_head pre (t, d) (concat (entry_wire <$> l) ++ rest) He) as (E1 & E2 & E3).
    cbn [fst snd] in *. rewrite length_app, length_entry. cbn [snd]. rewrite decide_True by lia.
    rewrite E1. cbn [mbind outcome_bind bind_outcome]. rewrite E2. cbn [mbind outcome_bind bind_outcome]. rewrite Nat2Z.id.
    rewrite decide_False by lia. cbn [key_share_ext]. destruct (decide (t = 0x0033)); [by rewrite E3|].
    replace (length pre + 4 + length d)%nat with (length (pre ++ entry_wire (t, d))) by (rewrite length_app, length_entry; simpl; lia).
    rewrite app_assoc. apply IH; [done|lia|]. rewrite length_app, length_entry. unfold entries_wire. simpl. lia.
Qed.

Lemma shares_loop_wire l : forall pre rest fuel stop m,
  Forall entry_ok l -> (length l < fuel)%nat -> stop = (length pre + length (entries_wire l))%nat ->
  shares_loop (pre ++ entries_wire l ++ rest) fuel (length pre) stop m =
    ok_or (EBail "no x25519 in KeyShare") (pick_share l m).
Proof.
  induction l as [|[g k] l IH]; intros pre rest fuel stop m Hok Hf ->; (destruct fuel as [|fuel]; [simpl in Hf; lia|]); cbn [shares_loop].
  - rewrite decide_False by (simpl; lia). by destruct m.
  - apply Forall_cons in Hok as [He Hok]. simpl in Hf. unfold entries_wire. rewrite fmap_cons, concat_cons, <- app_assoc.
    destruct (entry_head pre (g, k) (concat (entry_wire <$> l) ++ rest) He) as (E1 & E2 & E3).
    cbn [fst snd] in *. rewrite length_app, length_entry. cbn [snd]. rewrite decide_True by lia.
    rewrite E1. cbn [mbind outcome_bind bind_outcome]. rewrite E2. cbn [mbind outcome_bind bind_outcome]. rewrite Nat2Z.id.
    rewrite decide_False by lia. cbn [pick_share]. destruct (decide (g = 0x001d /\ length k = 32%nat)) as [[_ Hk]|_].
    { rewrite Hk in E3. by rewrite E3. }
    set (m' := if decide (g = 0x11ec /\ (1088 + 32 <= length k)%nat) then Some (drop (length k - 32) k) else m).
    assert (Em : (if decide (g = 0x11ec /\ (1088 + 32 <= length k)%nat) then
        k0 ← slice (pre ++ entry_wire (g, k) ++ concat (entry_wire <$> l) ++ rest) (length pre + 4 + (length k - 32))
               (length pre + 4 + (length k - 32) + 32); Done (Some k0) else Done m) = Done m').
    { unfold m'. case_decide as Hd; [|done]. destruct Hd as [_ Hd]. unfold entry_wire. cbn [fst snd].
      set (A := be_bytes 2 g). set (B := be_bytes 2 (Z.of_nat (length k))). set (n := (length k - 32)%nat).
      replace (pre ++ (A ++ B ++ k) ++ concat (entry_wire <$> l) ++ rest)
        with ((pre ++ A ++ B ++ take n k) ++ drop n k ++ concat (entry_wire <$> l) ++ rest)
        by (rewrite <- !app_assoc, (app_assoc (take n k)), take_drop; done).
      rewrite slice_app; [done| |]; unfold A, B, n; rewrite !length_app, !length_be_bytes, ?length_take, ?length_drop; lia. }
    rewrite Em. cbn [mbind outcome_bind bind_outcome].
    replace (length pre + 4 + length k)%nat with (length (pre ++ entry_wire (g, k))) by (rewrite length_app, length_entry; simpl; lia).
    rewrite app_assoc. apply IH; [done|lia|]. rewrite length_app, length_entry. unfold entries_wire. simpl. lia.
Qed.

Lemma parse_key_share_wire shares :
  Forall entry_ok shares -> u16_ok (Z.of_nat (length (entries_wire shares))) ->
  parse_x25519_key_share (sized_wire (entries_wire shares)) = ok_or (EBail "no x25519 in KeyShare") (pick_share shares None).
Proof.
  intros Hok Hl. unfold parse_x25519_key_share, sized_wire. rewrite decide_False by (rewrite length_app, length_be_bytes; lia).
  rewrite <- (app_nil_l (be_bytes 2 _ ++ _)) at 1. rewrite u16_at_wire by done. cbn [mbind outcome_bind bind_outcome].
  rewrite Nat2Z.id, length_app, length_be_bytes, Nat.min_id.
  rewrite <- (app_nil_r (entries_wire shares)) at 2. change 2%nat with (length (be_bytes 2 (Z.of_nat (length (entries_wire shares))))) at 3.
  apply shares_loop_wire; [done| |by rewrite length_be_bytes]. pose proof (length_entries shares). lia.
Qed.

(** ** A hello's fields at their positions *)
Section hello.
Context (h : Hello) (sid : list Z) (Hok : hello_ok h) (Hsid : length sid = 32%nat) (Hcomp : (length (h_comp h) < 256)%nat).

Let pre : list Z := h_record h ++ h_head h ++ h_random h ++ [32] ++ sid.

Lemma pre_length : length pre = (SID_OFFSET + 32)%nat.
Proof. destruct Hok as ((E1 & _) & (E2 & _) & E3 & _). unfold pre. rewrite !length_app, E1, E2, E3, Hsid. done. Qed.
Lemma wire_pre : hello_wire h sid = pre ++ hello_tail h.
Proof. unfold hello_wire, hello_body, pre. by rewrite <- !app_assoc. Qed.

Lemma prefers_wire : cipher_suite_prefers_aes (hello_wire h sid) = Done (default true (first_choice (h_suites h))).
Proof.
  destruct Hok as (_ & _ & _ & Hs & Hsl & _). pose proof pre_length as Hp.
  unfold cipher_suite_prefers_aes. rewrite wire_pre. unfold hello_tail. set (tl := [_] ++ _ ++ _).
  unfold sized_wire. rewrite <- Hp, <- !app_assoc. rewrite decide_False by (rewrite !length_app, length_be_bytes; lia).
  rewrite u16_at_wire by done. cbn [mbind outcome_bind bind_outcome]. rewrite Nat2Z.id.
  destruct (decide (h_suites h = [])) as [->|Hne].
  { rewrite decide_True by (simpl; lia). done. }
  assert (0 < length (h_suites h))%nat by (destruct (h_suites h); simpl; [done|lia]).
  rewrite decide_False by (rewrite !length_app, !length_be_bytes, length_u16s; lia).
  rewrite app_assoc. replace (length pre + 2)%nat with (length (pre ++ be_bytes 2 (Z.of_nat (length (u16s_wire (h_suites h))))))
    by (rewrite length_app, length_be_bytes; lia).
  apply suites_loop_wire; [done| |]; rewrite ?length_app, ?length_u16s; lia.
Qed.

Lemma extract_wire :
  extract_x25519_from_key_share (hello_wire h sid) =
    match key_share_ext (h_exts h) with Some d => parse_x25519_key_share d | None => Fail (EBail "no KeyShare extension") end.
Proof.
  destruct Hok as (_ & _ & _ & Hs & Hsl & He & Hel). pose proof pre_length as Hp.
  unfold extract_x25519_from_key_share. rewrite wire_pre. unfold hello_tail, sized_wire. rewrite <- Hp.
  set (w := u16s_wire (h_suites h)) in *. set (x := entries_wire (h_exts h)) in *. set (c := h_comp h) in *.
  rewrite <- !app_assoc. rewrite decide_False by (rewrite !length_app, length_be_bytes; lia).
  rewrite u16_at_wire by done. cbn [mbind outcome_bind bind_outcome]. rewrite Nat2Z.id.
  rewrite decide_False by (rewrite !length_app, !length_be_bytes; simpl; lia).
  rewrite (app_assoc pre), (app_assoc (pre ++ _)).
  change ([Z.of_nat (length c)] ++ c ++ be_bytes 2 (Z.of_nat (length x)) ++ x) with (Z.of_nat (length c) :: c ++ be_bytes 2 (Z.of_nat (length x)) ++ x).
  rewrite (index_app _ _ _ (length pre + (2 + length w))) by (rewrite !length_app, length_be_bytes; lia).
  cbn [mbind outcome_bind bind_outcome]. rewrite Nat2Z.id, app_mid.
  set (p1 := ((pre ++ be_bytes 2 (Z.of_nat (length w))) ++ w) ++ [Z.of_nat (length c)]).
  assert (Hp1 : length p1 = (length pre + (2 + length w) + 1)%nat) by (unfold p1; rewrite !length_app, length_be_bytes; simpl; lia).
  rewrite (app_assoc p1). set (p2 := p1 ++ c).
  assert (Hp2 : (length pre + (2 + length w) + (1 + length c))%nat = length p2) by (unfold p2; rewrite length_app; lia).
  rewrite Hp2. rewrite decide_False by (rewrite !length_app, length_be_bytes; lia).
  rewrite u16_at_wire by done. cbn [mbind outcome_bind bind_outcome]. rewrite Nat2Z.id.
  rewrite decide_False by (rewrite !length_app, length_be_bytes; lia).
  rewrite app_assoc. rewrite <- (app_nil_r ((p2 ++ _) ++ x)), <- (app_assoc _ x).
  replace (length p2 + 2)%nat with (length (p2 ++ be_bytes 2 (Z.of_nat (length x)))) by (by rewrite length_app, length_be_bytes).
  apply exts_loop_wire; [done| |done]. pose proof (length_entries (h_exts h)). fold x in H. rewrite !length_app. lia.
Qed.

Lemma aad_wire : hello_aad (hello_wire h sid) = hello_body h (replicate 32 0).
Proof.
  destruct Hok as ((E1 & _) & (E2 & _) & E3 & _). unfold hello_aad, hello_wire.
  rewrite drop_app_length' by done. unfold hello_body.
  set (p := h_head h ++ h_random h ++ [32]).
  assert (Hp : length p = (SID_OFFSET - RECORD_HDR)%nat) by (unfold p; rewrite !length_app, E2, E3; done).
  replace (h_head h ++ h_random h ++ [32] ++ sid ++ hello_tail h) with (p ++ sid ++ hello_tail h) by (unfold p; by rewrite <- !app_assoc).
  rewrite take_app_length' by done. replace (h_head h ++ h_random h ++ [32] ++ replicate 32 0 ++ hello_tail h)
    with (p ++ replicate 32 0 ++ hello_tail h) by (unfold p; by rewrite <- !app_assoc).
  rewrite app_assoc. rewrite (app_assoc p). rewrite drop_app_length' by (rewrite length_app, Hsid; lia). by rewrite <- app_assoc.
Qed.

Lemma fields_wire :
  let r := hello_wire h sid in
  index r 0 = Done 0x16 /\ index r RECORD_HDR = Done 0x01 /\ index r SID_LEN_OFFSET = Done 32 /\
  slice r RANDOM_OFFSET (RANDOM_OFFSET + RANDOM_LEN) = Done (h_random h) /\
  slice r SID_OFFSET (SID_OFFSET + 32) = Done sid /\ (SID_OFFSET + 32 + 4 <= length r)%nat.
Proof.
  destruct Hok as ((E1 & F1) & (E2 & F2) & E3 & _). unfold hello_wire, hello_body. split_and!.
  - destruct (h_record h); [done|]. simpl in F1. injection F1 as ->. done.
  - destruct (h_head h) as [|b r]; [done|]. simpl in F2. injection F2 as ->. by apply index_app.
  - rewrite !app_assoc, <- (app_assoc _ sid), <- (app_assoc _ [32]). apply index_app. rewrite !length_app, E1, E2, E3. done.
  - rewrite app_assoc. apply slice_app; rewrite !length_app, E1, E2; [done|]. by rewrite E3.
  - rewrite !app_assoc, <- (app_assoc _ sid). apply slice_app; rewrite !length_app, E1, E2, E3; [done|]. by rewrite Hsid.
  - unfold hello_tail, sized_wire. rewrite !length_app, E1, E2, E3, Hsid, !length_be_bytes. unfold SID_OFFSET, SID_LEN_OFFSET, RANDOM_OFFSET, RANDOM_LEN, RECORD_HDR, HANDSHAKE_HDR, LEGACY_VER_LEN. simpl. lia.
Qed.
End hello.

(** ** The parser does not panic *)

Definition safe {A} (o : outcome A) : Prop := o <> Panic.
Lemma safe_bind {A B} (o : outcome A) (f : A -> outcome B) : safe o -> (forall a, o = Done a -> safe (f a)) -> safe (o ≫= f).
Proof. intros Ho Hf. destruct o as [a|e|]; [by apply Hf|done|done]. Qed.
Lemma safe_done {A} (a : A) : safe (Done a).
Proof. done. Qed.
Lemma safe_index {A} (l : list A) i : (i < length l)%nat -> safe (index l i).
Proof. intros H. destruct (index_lt l i H) as (x & -> & _). done. Qed.
Lemma safe_u16_at v i : (i + 2 <= length v)%nat -> safe (u16_at v i).
Proof. intros. unfold u16_at. apply safe_bind; [apply safe_index; lia|]. intros. apply safe_bind; [apply safe_index; lia|]. done. Qed.
Lemma safe_slice {A} (l : list A) i j : (i <= j <= length l)%nat -> safe (slice l i j).
Proof. intros. by rewrite slice_ok. Qed.

Lemma safe_suites record fuel i stop :
  (stop <= length record)%nat -> (length record < i + fuel)%nat -> (i <= stop)%nat -> safe (suites_loop record fuel i stop).
Proof.
  intros Hs. revert i. induction fuel as [|fuel IH]; intros i Hf Hi; [lia|]. cbn [suites_loop]. case_decide; [|done].
  apply safe_bind; [apply safe_u16_at; lia|]. intros z _. destruct (suite_choice z); [done|]. apply IH; lia.
Qed.
Lemma safe_prefers record : safe (cipher_suite_prefers_aes record).
Proof.
  unfold cipher_suite_prefers_aes. case_decide; [done|]. apply safe_bind; [apply safe_u16_at; lia|]. intros z _.
  case_decide; [done|]. apply safe_suites; lia.
Qed.

Lemma safe_shares data fuel pos stop m :
  (stop <= length data)%nat -> (length data < pos + fuel)%nat -> (pos <= stop)%nat -> safe (shares_loop data fuel pos stop m).
Proof.
  intros Hs. revert pos m. induction fuel as [|fuel IH]; intros pos m Hf Hp; [lia|]. cbn [shares_loop]. case_decide; [|by destruct m].
  apply safe_bind; [apply safe_u16_at; lia|]. intros g _. apply safe_bind; [apply safe_u16_at; lia|]. intros ke _.
  case_decide; [done|]. case_decide as Hc; [destruct Hc as [_ Hc]; apply safe_slice; lia|].
  apply safe_bind.
  - case_decide as Hm; [|done]. apply safe_bind; [apply safe_slice; lia|done].
  - intros m' _. apply IH; lia.
Qed.
Lemma safe_key_share data : safe (parse_x25519_key_share data).
Proof.
  unfold parse_x25519_key_share. case_decide; [done|]. apply safe_bind; [apply safe_u16_at; lia|]. intros z _.
  apply safe_shares; lia.
Qed.
Lemma safe_exts record fuel pos stop :
  (stop <= length record)%nat -> (length record < pos + fuel)%nat -> (pos <= stop)%nat -> safe (exts_loop record fuel pos stop).
Proof.
  intros Hs. revert pos. induction fuel as [|fuel IH]; intros pos Hf Hp; [lia|]. cbn [exts_loop]. case_decide; [|done].
  apply safe_bind; [apply safe_u16_at; lia|]. intros t _. apply safe_bind; [apply safe_u16_at; lia|]. intros el _.
  case_decide; [done|]. case_decide.
  - apply safe_bind; [apply safe_slice; lia|]. intros d _. apply safe_key_share.
  - apply IH; lia.
Qed.
Lemma safe_extract record : safe (extract_x25519_from_key_share record).
Proof.
  unfold extract_x25519_from_key_share. case_decide; [done|]. apply safe_bind; [apply safe_u16_at; lia|]. intros cs _.
  case_decide; [done|]. apply safe_bind; [apply safe_index; lia|]. intros cm _. case_decide; [done|].
  apply safe_bind; [apply safe_u16_at; lia|]. intros et _. case_decide; [done|]. apply safe_exts; lia.
Qed.

Section facts.
Context `{RealityLaws}.

Lemma safe_ok_or {A} e (o : option A) : safe (ok_or e o).
Proof. by destruct o. Qed.
Lemma safe_base64 s : safe (base64_url_decode s).
Proof. unfold base64_url_decode. destruct (url_safe_no_pad_decode _); [done|apply safe_ok_or]. Qed.
Lemma safe_short_ids sids p a : safe (match_short_ids sids p a).
Proof.
  induction sids as [|s sids IH]; [done|]. cbn [match_short_ids]. apply safe_bind; [apply safe_ok_or|]. intros b _.
  repeat (case_decide; [done|]). exact IH.
Qed.
Lemma safe_verify record cfg : safe (verify_reality_client record cfg).
Proof.
  unfold verify_reality_client. case_decide as Hl; [done|].
  assert (Hl' : (80 <= length record)%nat) by (unfold SID_OFFSET, SID_LEN_OFFSET, RANDOM_OFFSET, RANDOM_LEN, RECORD_HDR, HANDSHAKE_HDR, LEGACY_VER_LEN in Hl; lia).
  apply safe_bind; [apply safe_index; lia|]. intros r0 _. case_decide; [done|].
  apply safe_bind; [apply safe_index; unfold RECORD_HDR; lia|]. intros r5 _. case_decide; [done|].
  apply safe_bind; [apply safe_index; change SID_LEN_OFFSET with 43%nat; lia|]. intros sl _. case_decide; [done|].
  apply safe_bind; [apply safe_slice; change (RANDOM_OFFSET + RANDOM_LEN)%nat with 43%nat; change RANDOM_OFFSET with 11%nat; lia|]. intros rnd _.
  apply safe_bind; [apply safe_slice; change SID_OFFSET with 44%nat; lia|]. intros sid _.
  apply safe_bind; [apply safe_extract|]. intros pub _. apply safe_bind; [apply safe_base64|]. intros priv _. case_decide; [done|].
  apply safe_bind; [apply safe_ok_or|]. intros a _. apply safe_bind; [apply safe_prefers|]. intros aes _.
  apply safe_bind; [|intros; apply safe_short_ids]. unfold open_session_id. destruct (aead_key _ _); [apply safe_ok_or|done].
Qed.

(** What a short identifier of the configuration means for a plaintext. *)
Definition short_id_of (sids : list (list Z)) (plain : list Z) : Prop :=
  exists s b, s ∈ sids /\ hex_decode s = Some b /\ take (length b) (drop 8 plain) = b.

Lemma match_short_ids_spec sids plain a a' :
  check_short_ids sids = Done tt -> length plain = 16%nat ->
  match_short_ids sids plain a = Done a' <-> a' = a /\ short_id_of sids plain.
Proof.
  intros Hc Hp. induction sids as [|s sids IH]; cbn [match_short_ids].
  { split; [done|]. by intros [_ (s & b & ?%not_elem_of_nil & _)]. }
  cbn [check_short_ids] in Hc. destruct (hex_decode s) as [b|] eqn:Eb; [|done]. cbn [ok_or mbind outcome_bind bind_outcome] in *.
  destruct (decide (8 < length b)%nat) as [?|Hb]; [done|]. specialize (IH Hc).
  assert (Hhere : take (length b) (drop 8 plain) = b -> short_id_of (s :: sids) plain).
  { intros Ht. exists s, b. split; [left|done]. }
  destruct (decide (length b = 0%nat)) as [Hz|Hz].
  { split; [intros [= <-]|by intros [-> _]]. split; [done|]. apply Hhere. rewrite Hz. symmetry. by apply nil_length_inv. }
  destruct (decide (8 + length b <= length plain /\ take (length b) (drop 8 plain) = b)%nat) as [[_ Ht]|Hn].
  { split; [intros [= <-]|by intros [-> _]]. auto. }
  rewrite IH. split.
  - intros [-> (s' & b' & ? & ? & ?)]. split; [done|]. exists s', b'. split; [by right|done].
  - intros [-> (s' & b' & Hin & Hd & Ht)]. split; [done|]. exists s', b'. apply elem_of_cons in Hin as [->|Hin]; [|done].
    rewrite Eb in Hd. injection Hd as <-. destruct Hn. split; [lia|done].
Qed.

(** The key that a client with the public key [pub] shares with the server. *)
Definition auth_key_of (priv : list Z) (h : Hello) (pub : list Z) : option (list Z) :=
  hkdf_sha256 (take 20 (h_random h)) (x25519 priv pub) (str "REALITY") 32.
Definition hello_cipher (h : Hello) : RealityCipher :=
  if default true (first_choice (h_suites h)) then Aes256Gcm else ChaCha20Poly1305.

(** The hello and the configuration of the exactness theorem. *)
Definition client_hello (h : Hello) (sid : list Z) (shares : list (Z * list Z)) (pub : list Z) : Prop :=
  hello_ok h /\ length sid = 32%nat /\ (length (h_comp h) < 256)%nat /\
  Forall entry_ok shares /\ u16_ok (Z.of_nat (length (entries_wire shares))) /\
  key_share_ext (h_exts h) = Some (sized_wire (entries_wire shares)) /\ pick_share shares None = Some pub.

Lemma verify_run h sid shares pub cfg priv :
  client_hello h sid shares pub -> base64_url_decode (private_key cfg) = Done priv -> length priv = 32%nat ->
  verify_reality_client (hello_wire h sid) cfg =
    (a ← ok_or (EBail "HKDF expand") (auth_key_of priv h pub);
     plain ← open_session_id (default true (first_choice (h_suites h))) a (drop 20 (h_random h)) (hello_body h (replicate 32 0)) sid;
     match_short_ids (short_ids cfg) plain a).
Proof.
  intros (Hok & Hsid & Hcomp & Hsh & Hshl & Hext & Hpick) Hpriv Hp32.
  destruct (fields_wire h sid Hok Hsid Hcomp) as (F0 & F5 & F43 & Fr & Fs & Fl).
  unfold verify_reality_client.
  rewrite decide_False by lia.
  rewrite F0. cbn [mbind outcome_bind bind_outcome]. rewrite (decide_False (P := 0x16 <> 0x16)) by auto.
  rewrite F5. cbn [mbind outcome_bind bind_outcome]. rewrite (decide_False (P := 1 <> 1)) by auto.
  rewrite F43. cbn [mbind outcome_bind bind_outcome]. rewrite (decide_False (P := 32 <> 32)) by auto.
  rewrite Fr. cbn [mbind outcome_bind bind_outcome]. rewrite Fs. cbn [mbind outcome_bind bind_outcome].
  rewrite extract_wire, Hext, parse_key_share_wire, Hpick by done. cbn [ok_or mbind outcome_bind bind_outcome].
  rewrite Hpriv. cbn [mbind outcome_bind bind_outcome]. rewrite (decide_False (P := length priv <> 32%nat)) by auto.
  rewrite prefers_wire, aad_wire by done. done.
Qed.

Lemma verify_wire h sid shares pub cfg priv a :
  client_hello h sid shares pub -> build cfg = Done tt -> base64_url_decode (private_key cfg) = Done priv ->
  verify_reality_client (hello_wire h sid) cfg = Done a <->
    auth_key_of priv h pub = Some a /\
    exists plain, aead_seal_ad (hello_cipher h) a (drop 20 (h_random h)) (hello_body h (replicate 32 0)) plain = Some sid /\
      short_id_of (short_ids cfg) plain.
Proof.
  intros Hch Hb Hpriv. unfold build in Hb. rewrite Hpriv in Hb. cbn [mbind outcome_bind bind_outcome] in Hb.
  case_decide as Hp32; [done|]. rewrite (verify_run h sid shares pub cfg priv) by done. destruct Hch as (_ & Hsid & _).
  unfold auth_key_of. destruct (hkdf_some (take 20 (h_random h)) (x25519 priv pub) (str "REALITY") 32) as (k & Hk & Hkl); [lia|].
  rewrite Hk. cbn [ok_or mbind outcome_bind bind_outcome]. unfold open_session_id. fold (hello_cipher h).
  rewrite reality_key_accepted by done. set (n := drop 20 (h_random h)). set (ad := hello_body h (replicate 32 0)).
  split.
  - destruct (aead_open_ad (hello_cipher h) k n ad sid) as [plain|] eqn:Eo; [|done]. cbn [ok_or mbind outcome_bind bind_outcome].
    pose proof (open_ad_length _ _ _ _ _ _ Eo) as Hpl. rewrite Hsid in Hpl. intros Hm.
    apply match_short_ids_spec in Hm as [-> Hs]; [|done|unfold TAG_LEN in Hpl; lia]. split; [done|].
    exists plain. split; [by apply seal_ad_open|done].
  - intros ([= <-] & plain & Hseal & Hs). rewrite (open_ad_seal _ _ _ _ _ _ Hseal). cbn [ok_or mbind outcome_bind bind_outcome].
    pose proof (seal_ad_length _ _ _ _ _ _ Hseal) as Hpl. rewrite Hsid in Hpl.
    apply match_short_ids_spec; [done|unfold TAG_LEN in Hpl; lia|done].
Qed.

(** ** Properties *)

(** C7: Reality recognises exactly its clients.  For every well-formed ClientHello
    with a 32-byte session id and a key share, and a configuration that passed
    the checks at start-up, the server accepts with the key [a] if and only if
    [a] is the key derived from the client's X25519 share, and the session id
    is a plaintext that carries a configured short identifier, sealed under
    [a] with the hello (its session id zeroed) as associated data. *)
Theorem reality_verify_exact h sid shares pub cfg priv a :
  client_hello h sid shares pub -> build cfg = Done tt -> base64_url_decode (private_key cfg) = Done priv ->
  verify_reality_client (hello_wire h sid) cfg = Done a <->
    auth_key_of priv h pub = Some a /\
    exists plain, aead_seal_ad (hello_cipher h) a (drop 20 (h_random h)) (hello_body h (replicate 32 0)) plain = Some sid /\
      short_id_of (short_ids cfg) plain.
Proof. apply verify_wire. Qed.

(** What [accept] does with a client, recognised or not. *)
Lemma accept_outcomes E cw cfg n s o s' :
  accept E cw cfg n s = (o, s') ->
  (exists a, verify_reality_client (peek_client_hello n s) cfg = Done a /\ s' = s /\
     o = build_per_connection_config cw cfg a) \/
  ((forall a, verify_reality_client (peek_client_hello n s) cfg <> Done a) /\ (exists e, o = Fail e) /\
   let tr := c_trace s ++ [EvConnect (dest cfg)] in
   match env_connect E (c_trace s) (dest cfg) with
   | ConnOk => c_trace s' = tr ++ [EvRelay (dest cfg) (take (env_up E tr (dest cfg)) (c_in s)) (env_remote E tr (dest cfg))]
   | _ => c_trace s' = tr
   end).
Proof.
  unfold accept, get_st. unfold mbind at 1, M_bind at 1.
  pose proof (safe_verify (peek_client_hello n s) cfg) as Hsafe.
  destruct (verify_reality_client _ cfg) as [a|e|]; [| |done].
  - intros [= <- <-]. left. by exists a.
  - intros Er. right. split; [done|]. unfold forward_to_dest, tcp_connect, mbind, M_bind in Er.
    destruct (env_connect E (c_trace s) (dest cfg)); run_inv Er; eauto.
Qed.

(** a prober of a Reality server meets only the decoy.  Whatever is peeked,
    the handler does not panic while it verifies; a recognised client's
    connection goes on untouched to the handshake; every other client is
    connected to [dest] and, if that succeeds, relayed to it from its first
    byte, with nothing else sent to it. *)
Theorem reality_accept_actions E cw cfg n s o s' :
  accept E cw cfg n s = (o, s') ->
  (exists a, verify_reality_client (peek_client_hello n s) cfg = Done a /\ s' = s /\
     o = build_per_connection_config cw cfg a) \/
  ((forall a, verify_reality_client (peek_client_hello n s) cfg <> Done a) /\ (exists e, o = Fail e) /\
   let tr := c_trace s ++ [EvConnect (dest cfg)] in
   match env_connect E (c_trace s) (dest cfg) with
   | ConnOk => c_trace s' = tr ++ [EvRelay (dest cfg) (take (env_up E tr (dest cfg)) (c_in s)) (env_remote E tr (dest cfg))]
   | _ => c_trace s' = tr
   end).
Proof. apply accept_outcomes. Qed.

(** the certificate of a Reality connection proves the shared key.  If the
    certificate crate returns a DER certificate for its key pair, what the
    server presents is that certificate with its signature replaced by the
    HMAC of the last 32 bytes of the public key under the connection's key,
    which is what a client checks; the other two fields are untouched. *)
Theorem reality_certificate cw cfg a cert t1 t2 t3 tag1 tag2 c1 c2 c3 :
  self_signed cw (server_name cfg) = Done cert -> (32 <= length (public_key_raw cw))%nat ->
  is_tlv tag1 t1 c1 -> is_tlv tag2 t2 c2 -> is_tlv 0x03 t3 c3 -> is_tlv 0x30 cert (t1 ++ t2 ++ t3) ->
  let sig := hmac_sha512 a (drop (length (public_key_raw cw) - 32) (public_key_raw cw)) in
  let new := der_encode_tlv 0x03 ([0x00] ++ sig) in
  Z.of_nat (length (t1 ++ t2 ++ new)) < 0x10000 ->
  build_per_connection_config cw cfg a = Done (der_encode_tlv 0x30 (t1 ++ t2 ++ new)) /\
  is_tlv 0x30 (der_encode_tlv 0x30 (t1 ++ t2 ++ new)) (t1 ++ t2 ++ new) /\ is_tlv 0x03 new ([0x00] ++ sig).
Proof.
  intros Hc Hl H1 H2 H3 Hcert sig new Hn. destruct (replace_signature_ok cert t1 t2 t3 tag1 tag2 c1 c2 c3 sig H1 H2 H3 Hcert Hn) as (E & ? & ?).
  split_and!; [|done|done]. unfold build_per_connection_config. rewrite decide_False by lia.
  rewrite slice_ok by lia. cbn [mbind outcome_bind bind_outcome]. rewrite take_ge by (rewrite length_drop; lia).
  rewrite Hc. cbn [mbind outcome_bind bind_outcome]. exact E.
Qed.

(** A genuine client whose hello arrives in pieces is taken for a prober: with
    fewer than 80 bytes at the peek, every client is forwarded. *)
Lemma short_peek_forwarded E cw cfg n s :
  (n < 80)%nat -> exists e s', accept E cw cfg n s = (Fail e, s').
Proof.
  intros Hn. unfold accept, get_st. unfold mbind at 1, M_bind at 1.
  assert (Hv : verify_reality_client (peek_client_hello n s) cfg = Fail (EBail "record too short")).
  { unfold verify_reality_client. rewrite decide_True; [done|]. unfold peek_client_hello. rewrite length_take. change (SID_OFFSET + 32 + 4)%nat with 80%nat. lia. }
  rewrite Hv. unfold forward_to_dest, tcp_connect, mbind, M_bind. destruct (env_connect E (c_trace s) (dest cfg)); eauto.
Qed.
End facts.

(** ** Witnesses *)

#[local] Instance toy_reality : RealityCrypto := {|
  x25519 := fun a b => take 32 (b ++ a);
  hkdf_sha256 := fun _ k _ n => if decide (n <= 255 * 32)%nat then Some (take n (k ++ replicate n 5)) else None;
  hmac_sha512 := fun k m => replicate 64 7;
  url_safe_no_pad_decode := fun s => Some s;
  standard_decode := fun _ => None;
  hex_decode := fun s => Some s;
  reality_aead := toy_aead (fun _ => 32%nat);
|}.
Lemma toy_reality_laws : RealityLaws.
Proof.
  split.
  - intros s k i n Hn. unfold hkdf_sha256, toy_reality. rewrite decide_True by done. eexists. split; [done|].
    rewrite length_take, length_app, length_replicate. lia.
  - apply toy_aead_laws.
  - intros c k Hk. simpl. by rewrite Hk.
Qed.

Definition toy_cfg : RealityConfig := MkReality (str "decoy.example:443") (str "decoy.example") (replicate 32 3) [[0xab; 0xcd]].
Definition toy_shares : list (Z * list Z) := [(0x0017, [1; 2]); (0x001d, replicate 32 4)].
Definition toy_hello : Hello := MkHello [0x16; 3; 1; 0; 0] [0x01; 0; 0; 0; 3; 3] (replicate 32 8) [0x0a0a; 0x1303; 0x1301] [0]
  [(0, [1]); (0x0033, sized_wire (entries_wire toy_shares))].
Definition toy_auth : list Z := replicate 32 4.
Definition toy_plain : list Z := replicate 8 0 ++ [0xab; 0xcd] ++ replicate 6 0.
Definition toy_sid : list Z :=
  default [] (aead_seal_ad ChaCha20Poly1305 toy_auth (replicate 12 8) (hello_body toy_hello (replicate 32 0)) toy_plain).

#[local] Instance u16_ok_dec z : Decision (u16_ok z).
Proof. unfold u16_ok. apply _. Defined.
#[local] Instance entry_ok_dec e : Decision (entry_ok e).
Proof. unfold entry_ok. apply _. Defined.
#[local] Instance hello_ok_dec h : Decision (hello_ok h).
Proof. unfold hello_ok. apply _. Defined.
#[local] Instance client_hello_dec h sid shares pub : Decision (client_hello h sid shares pub).
Proof. unfold client_hello. apply _. Defined.
Lemma toy_client_hello : client_hello toy_hello toy_sid toy_shares (replicate 32 4).
Proof. apply (bool_decide_eq_true (client_hello _ _ _ _)). vm_compute. reflexivity. Qed.

Lemma reality_verify_exact_witness :
  verify_reality_client (hello_wire toy_hello toy_sid) toy_cfg = Done toy_auth.
Proof.
  apply (@reality_verify_exact toy_reality toy_reality_laws toy_hello toy_sid toy_shares (replicate 32 4) toy_cfg (replicate 32 3) toy_auth
    toy_client_hello eq_refl eq_refl).
  split; [reflexivity|]. exists toy_plain. split; [reflexivity|].
  exists [0xab; 0xcd], [0xab; 0xcd]. split; [left|]. split; reflexivity.
Defined.

Lemma reality_accept_actions_witness :
  let E := Env (fun _ => true) (fun _ _ => ConnOk) (fun _ _ => 100%nat) (fun _ _ => [3]) in
  exists o s', accept E (MkCert [] (fun _ => Panic)) toy_cfg 3 (Conn [71; 69; 84] []) = (o, s') /\ (exists e, o = Fail e) /\
    c_trace s' = [EvConnect (str "decoy.example:443"); EvRelay (str "decoy.example:443") [71; 69; 84] [3]].
Proof.
  intros E. destruct (accept E (MkCert [] (fun _ => Panic)) toy_cfg 3 (Conn [71; 69; 84] [])) as [o s'] eqn:Er.
  destruct (reality_accept_actions E _ toy_cfg 3 _ o s' Er) as [(a & Hv & _)|(_ & Hf & Ht)]; [discriminate Hv|].
  exists o, s'. split; [reflexivity|]. split; [exact Hf|exact Ht].
Defined.

Definition toy_t1 : list Z := der_encode_tlv 0x30 [2; 1; 1].
Definition toy_t2 : list Z := der_encode_tlv 0x30 [6; 1; 9].
Definition toy_t3 : list Z := der_encode_tlv 0x03 [0; 5; 5].
Lemma reality_certificate_witness :
  let cert := der_encode_tlv 0x30 (toy_t1 ++ toy_t2 ++ toy_t3) in
  build_per_connection_config (MkCert (replicate 44 2) (fun _ => Done cert)) toy_cfg toy_auth =
    Done (der_encode_tlv 0x30 (toy_t1 ++ toy_t2 ++ der_encode_tlv 0x03 (0 :: replicate 64 7))).
Proof.
  intros cert.
  refine (proj1 (reality_certificate (MkCert (replicate 44 2) (fun _ => Done cert)) toy_cfg toy_auth cert toy_t1 toy_t2 toy_t3
    0x30 0x30 [2; 1; 1] [6; 1; 9] [0; 5; 5] eq_refl _ _ _ _ _ _)).
  - simpl. lia.
  - apply encode_is_tlv. vm_compute. reflexivity.
  - apply encode_is_tlv. vm_compute. reflexivity.
  - apply encode_is_tlv. vm_compute. reflexivity.
  - apply encode_is_tlv. vm_compute. reflexivity.
  - vm_compute. reflexivity.
Defined.
