(* ===== verification/Websocket.v ===== *)
(** * The WebSocket transport ([src/src/common/transport/websocket.rs])

    A byte stream over WebSocket messages, and the check of the upgrade request.
    The WebSocket library delivers messages ([ws_poll]: what successive calls of
    [poll_next] return) and takes messages to send. *)
From S2P Require Import Prelude RustStd Net.

(** ** The upgrade *)

(** What the callback looks at: the header [Host] if it is there and readable
    as text, and the path. *)
Record ws_request := WsRequest { req_host : option (list Z); req_path : list Z }.

(** The callback of [do_upgrade]: a status to refuse with, or the go-ahead. *)
Definition check_upgrade (expected_path : list Z) (expected_host : option (list Z)) (req : ws_request)
    : unit + Z :=
  let host_ok :=
    match expected_host with
    | Some expected => bool_decide (default [] (req_host req) = expected)
    | None => true
    end in
  if negb host_ok then inr 400
  else if decide (req_path req <> expected_path) then inr 404
  else inl tt.

(** ** The stream *)

Inductive Message :=
| Binary (v : list Z)
| Text (s : list Z)
| Ping (v : list Z)
| Pong (v : list Z)
| Frame (v : list Z)
| Close.

(** One answer of [poll_next]; after the last one the stream has ended. *)
Inductive ws_poll := WsPending | WsMessage (m : Message) | WsError.

Record WsStream := MkWs { inner : list ws_poll; read_buf : list Z }.

Definition WsStream_new (ws : list ws_poll) : WsStream := MkWs ws [].

Inductive poll_io := IoPending | IoReady (bs : list Z) | IoError (e : error).

(** The loop over messages, for a buffer with room for [n] bytes. *)
Fixpoint poll_messages (n : nat) (ws : list ws_poll) : poll_io * WsStream :=
  match ws with
  | [] => (IoReady [], MkWs [] [])
  | WsPending :: ws => (IoPending, MkWs ws [])
  | WsError :: ws => (IoError EIo, MkWs ws [])
  | WsMessage (Binary data) :: ws | WsMessage (Text data) :: ws =>
      if decide (data = []) then poll_messages n ws
      else (IoReady (take n data), MkWs ws (drop n data))
  | WsMessage (Ping _) :: ws | WsMessage (Pong _) :: ws | WsMessage (Frame _) :: ws => poll_messages n ws
  | WsMessage Close :: ws => (IoReady [], MkWs ws [])
  end.

Definition poll_read (n : nat) (t : WsStream) : poll_io * WsStream :=
  if decide (read_buf t <> []) then
    (IoReady (take n (read_buf t)), MkWs (inner t) (drop n (read_buf t)))
  else poll_messages n (inner t).

(** The sink: whether it is ready and takes a message, and what it took. *)
Inductive sink_ready := SinkPending | SinkError | SinkReady (accepts : bool).

Definition poll_write (r : sink_ready) (buf : list Z) (sent : list Message) : option (outcome nat) * list Message :=
  match r with
  | SinkPending => (None, sent)
  | SinkError => (Some (Fail EIo), sent)
  | SinkReady accepts =>
      if accepts then (Some (Done (length buf)), sent ++ [Binary buf])
      else (Some (Fail EIo), sent)
  end.

(** ** Reference: the bytes the messages carry, and how they end *)

Inductive ws_end := EndClosed | EndError.

Fixpoint payload (ws : list ws_poll) : list Z * ws_end :=
  match ws with
  | [] => ([], EndClosed)
  | WsError :: _ => ([], EndError)
  | WsMessage Close :: _ => ([], EndClosed)
  | WsMessage (Binary d) :: ws | WsMessage (Text d) :: ws => let '(p, e) := payload ws in (d ++ p, e)
  | _ :: ws => payload ws
  end.

(** What is left to read. *)
Definition left (t : WsStream) : list Z := read_buf t ++ (payload (inner t)).1.
Definition ends (t : WsStream) : ws_end := (payload (inner t)).2.

Lemma poll_messages_spec n ws : (0 < n)%nat ->
  let '(r, t) := poll_messages n ws in
  match r with
  | IoPending => left t = (payload ws).1 /\ ends t = (payload ws).2
  | IoReady [] => payload ws = ([], EndClosed)
  | IoReady (b :: bs) => (payload ws).1 = (b :: bs) ++ left t /\ ends t = (payload ws).2 /\ (length (b :: bs) <= n)%nat
  | IoError e => e = EIo /\ payload ws = ([], EndError)
  end.
Proof.
  intros Hn. induction ws as [|[|m|] ws IH]; simpl; [done|done| |done].
  assert (Hdata : forall data, let '(r, t) := if decide (data = []) then poll_messages n ws
      else (IoReady (take n data), MkWs ws (drop n data)) in
    match r with
    | IoPending => left t = (let '(p, e) := payload ws in (data ++ p, e)).1 /\ ends t = (let '(p, e) := payload ws in (data ++ p, e)).2
    | IoReady [] => (let '(p, e) := payload ws in (data ++ p, e)) = ([], EndClosed)
    | IoReady (b :: bs) => (let '(p, e) := payload ws in (data ++ p, e)).1 = (b :: bs) ++ left t /\
        ends t = (let '(p, e) := payload ws in (data ++ p, e)).2 /\ (length (b :: bs) <= n)%nat
    | IoError e' => e' = EIo /\ (let '(p, e) := payload ws in (data ++ p, e)) = ([], EndError)
    end).
  { intros data. case_decide as Hd; [subst data; destruct (payload ws); exact IH|].
    destruct data as [|b data]; [done|]. destruct n as [|n]; [lia|]. cbn [take drop].
    unfold left, ends. cbn [inner read_buf]. destruct (payload ws) as [p e]. simpl. split_and!; [|done|rewrite length_take; lia].
    f_equal. by rewrite app_assoc, take_drop. }
  destruct m; try exact IH; try exact (Hdata _); done.
Qed.

Lemma poll_read_spec n t : (0 < n)%nat ->
  let '(r, t') := poll_read n t in
  match r with
  | IoPending => left t' = left t /\ ends t' = ends t
  | IoReady [] => left t = [] /\ ends t = EndClosed
  | IoReady (b :: bs) => left t = (b :: bs) ++ left t' /\ ends t' = ends t /\ (length (b :: bs) <= n)%nat
  | IoError e => e = EIo /\ left t = [] /\ ends t = EndError
  end.
Proof.
  intros Hn. destruct t as [ws rb]. unfold poll_read. cbn [read_buf inner]. case_decide as Hr.
  - destruct rb as [|b rb]; [done|]. destruct n as [|n]; [lia|]. cbn [take drop]. unfold left, ends. simpl.
    split_and!; [|done|rewrite length_take; lia]. by rewrite app_assoc, take_drop.
  - assert (rb = []) as -> by (by destruct rb). pose proof (poll_messages_spec n ws Hn) as Hp.
    destruct (poll_messages n ws) as [r t']. unfold left at 2 4, ends at 2. simpl.
    destruct r as [|[|b bs]|e]; [done| |done|].
    + unfold left, ends. simpl. by rewrite Hp.
    + destruct Hp as [-> Hp]. unfold left, ends. simpl. by rewrite Hp.
Qed.

(** Reading with buffers of the given sizes until the end or an error. *)
Fixpoint ws_reads (ns : list nat) (t : WsStream) : list Z * option ws_end :=
  match ns with
  | [] => ([], None)
  | n :: ns =>
      match poll_read n t with
      | (IoPending, t) => ws_reads ns t
      | (IoReady [], _) => ([], Some EndClosed)
      | (IoReady bs, t) => let '(r, e) := ws_reads ns t in (bs ++ r, e)
      | (IoError _, _) => ([], Some EndError)
      end
  end.

(** Writing buffers while the sink answers as given: the bytes reported as
    written, and the messages sent. *)
Fixpoint ws_writes (ws : list (sink_ready * list Z)) (sent : list Message) : list Z * list Message :=
  match ws with
  | [] => ([], sent)
  | (r, buf) :: ws =>
      match poll_write r buf sent with
      | (Some (Done n), sent) => let '(w, sent) := ws_writes ws sent in (take n buf ++ w, sent)
      | (_, sent) => ws_writes ws sent
      end
  end.

(** A poll that is not the last one uses up a message or some bytes. *)
Definition todo (t : WsStream) : nat := length (inner t) + length (left t).

Lemma poll_messages_shorter n ws r t : poll_messages n ws = (r, t) -> ws <> [] -> (length (inner t) < length ws)%nat.
Proof.
  revert r t. induction ws as [|m ws IH]; intros r t; [done|]. intros E _. simpl in E |- *.
  assert (Hrest : forall r t, poll_messages n ws = (r, t) -> (length (inner t) < S (length ws))%nat).
  { intros r' t' E'. destruct ws as [|m' ws]; [injection E' as _ <-; simpl; lia|].
    pose proof (IH r' t' E' ltac:(done)). lia. }
  destruct m as [|[v|v|v|v|v|]|]; try (injection E as _ <-; simpl; lia); try (by eapply Hrest);
    case_decide; try (by eapply Hrest); injection E as _ <-; simpl; lia.
Qed.

Lemma poll_read_todo n t r t' : (0 < n)%nat -> poll_read n t = (r, t') ->
  match r with IoPending | IoReady (_ :: _) => (todo t' < todo t)%nat | _ => True end.
Proof.
  intros Hn E. pose proof (poll_read_spec n t Hn) as Hs. rewrite E in Hs.
  assert (Hi : (length (inner t') <= length (inner t))%nat /\
    (r = IoPending -> length (inner t') < length (inner t))%nat).
  { unfold poll_read in E. case_decide; [injection E as <- <-; by split|].
    destruct (inner t) as [|m ws] eqn:Ei; [injection E as <- <-; by split|].
    pose proof (poll_messages_shorter _ _ _ _ E ltac:(done)). split; [lia|intros; lia]. }
  unfold todo. destruct r as [|[|b bs]|]; [| done | |done].
  - destruct Hs as [-> _]. destruct Hi as [_ Hi]. specialize (Hi eq_refl). lia.
  - destruct Hs as (-> & _ & _). rewrite length_app. simpl. lia.
Qed.

Lemma ws_reads_spec ns t : Forall (fun n => 0 < n)%nat ns ->
  let '(bs, e) := ws_reads ns t in
  match e with
  | Some e => bs = left t /\ e = ends t
  | None => exists rest, left t = bs ++ rest
  end /\ ((todo t < length ns)%nat -> e <> None).
Proof.
  revert t. induction ns as [|n ns IH]; intros t Hns; simpl; [split; [by exists (left t)|lia]|].
  apply Forall_cons in Hns as [Hn Hns]. pose proof (poll_read_spec n t Hn) as Hs.
  destruct (poll_read n t) as [r t'] eqn:E. pose proof (poll_read_todo n t r t' Hn E) as Ht.
  specialize (IH t' Hns). destruct r as [|[|b bs]|e].
  - destruct Hs as [Hl He]. rewrite Hl, He in IH. destruct (ws_reads ns t') as [bs e].
    destruct IH as [IH1 IH2]. split; [done|]. intros. apply IH2. lia.
  - destruct Hs as [-> ->]. done.
  - destruct Hs as (Hl & He & _). destruct (ws_reads ns t') as [r e]. destruct IH as [IH1 IH2].
    split; [|intros; apply IH2; lia]. rewrite Hl. destruct e as [e|].
    + destruct IH1 as [-> ->]. by rewrite He.
    + destruct IH1 as [rest ->]. exists rest. by rewrite app_assoc.
  - by destruct Hs as (_ & -> & ->).
Qed.

Lemma ws_writes_spec ws sent p : payload (WsMessage <$> sent) = (p, EndClosed) ->
  Forall (fun m => m <> Close) sent ->
  let '(w, sent') := ws_writes ws sent in
  payload (WsMessage <$> sent') = (p ++ w, EndClosed) /\ Forall (fun m => m <> Close) sent'.
Proof.
  revert sent p. induction ws as [|[r buf] ws IH]; intros sent p Hp Hc; simpl; [by rewrite app_nil_r|].
  destruct r as [| |[]]; simpl; try by apply IH.
  assert (Hp' : payload (WsMessage <$> (sent ++ [Binary buf])) = (p ++ buf, EndClosed)).
  { clear IH. revert p Hp. induction sent as [|m sent IHs]; intros p Hp.
    { injection Hp as <-. simpl. by rewrite app_nil_r. }
    apply Forall_cons in Hc as [Hm Hc]. revert Hp. rewrite <- app_comm_cons, !fmap_cons.
    destruct m; try done; cbn [payload]; try (by apply IHs);
      destruct (payload (WsMessage <$> sent)) as [q e] eqn:Eq; intros Hp; injection Hp as <- ->;
      rewrite (IHs Hc q eq_refl); by rewrite app_assoc. }
  specialize (IH (sent ++ [Binary buf]) (p ++ buf) Hp'). destruct (ws_writes ws (sent ++ [Binary buf])) as [w sent'].
  rewrite <- app_assoc in IH. rewrite take_ge by done. apply IH. apply Forall_app. split; [done|]. by repeat constructor.
Qed.

(** ** Properties *)

(** C29: a WebSocket carries a byte stream.  For every sequence of messages and
    interruptions the library may deliver, and any buffer sizes: what is read is
    the bytes of the data messages, in order, without gaps; the end of the
    stream is reported exactly when all bytes before the close have been read
    (never for an empty or a control message), an error exactly after the bytes
    before it, and one of the two after finitely many polls.  And what one side
    writes, whenever its sink is ready, is exactly what the other side reads. *)
Theorem websocket_carries_bytes ws ns writes :
  Forall (fun n => 0 < n)%nat ns ->
  (let '(bs, e) := ws_reads ns (WsStream_new ws) in
   match e with
   | Some e => (bs, e) = payload ws
   | None => exists rest, (payload ws).1 = bs ++ rest
   end /\ ((length ws + length (payload ws).1 < length ns)%nat -> e <> None)) /\
  (let '(w, sent) := ws_writes writes [] in
   let '(bs, e) := ws_reads ns (WsStream_new (WsMessage <$> sent)) in
   match e with
   | Some e => bs = w /\ e = EndClosed
   | None => exists rest, w = bs ++ rest
   end).
Proof.
  intros Hns. split.
  - pose proof (ws_reads_spec ns (WsStream_new ws) Hns) as Hr. unfold todo, left, ends in Hr. simpl in Hr.
    destruct (ws_reads ns (WsStream_new ws)) as [bs e]. destruct Hr as [Hr1 Hr2]. split; [|done].
    destruct e; [|done]. destruct Hr1 as [-> ->]. by destruct (payload ws).
  - pose proof (ws_writes_spec writes [] [] eq_refl ltac:(constructor)) as Hw.
    destruct (ws_writes writes []) as [w sent]. destruct Hw as [Hw _].
    pose proof (ws_reads_spec ns (WsStream_new (WsMessage <$> sent)) Hns) as Hr. unfold left, ends in Hr. simpl in Hr.
    rewrite Hw in Hr. destruct (ws_reads ns _) as [bs e]. by destruct Hr as [Hr _].
Qed.

Definition demo_messages : list ws_poll :=
  [WsMessage (Binary [1; 2; 3]); WsMessage (Ping [9]); WsPending; WsMessage (Text []); WsMessage (Text [4]);
   WsMessage Close].

Lemma websocket_carries_bytes_witness :
  ws_reads [2; 2; 2; 2; 2; 2]%nat (WsStream_new demo_messages) = ([1; 2; 3; 4], Some EndClosed) /\
  ([1; 2; 3; 4], EndClosed) = payload demo_messages.
Proof.
  split; [reflexivity|].
  exact (proj1 (proj1 (websocket_carries_bytes demo_messages [2; 2; 2; 2; 2; 2]%nat
    [(SinkReady true, [5; 6]); (SinkPending, [8]); (SinkReady true, [7])] ltac:(repeat constructor)))).
Defined.
