(* ===== verification/Listeners.v ===== *)
(** * From an accepted connection to the protocol
    ([handle_conn] of [src/src/vless/listener.rs] and
    [src/src/shadowsocks/server.rs], [handle] of [src/src/trojan/mod.rs] and
    [src/src/vmess/mod.rs])

    A connection is opened through the layers its server is configured with
    (TLS, Reality, WebSocket) and handed to the protocol's handler.  The
    handshakes belong to libraries: [tls_open] gives the plaintext of a
    connection whose handshake succeeds, [ws_open] the upgrade request and the
    messages after it.  A layered connection is a [conn] whose input is what the
    layers deliver; an error of the transport ends it.  The trace of a connection
    is what the protocol's handler does, not the bytes of the handshakes. *)
From S2P Require Import Prelude RustStd TlsSetup Net Target Aead Vless Shadowsocks Vmess Trojan Reality Websocket.

Record TransportConfig := Transport {
  transport_type : list Z;
  ws_path : list Z;
  ws_host : Datatypes.option (list Z);
  xhttp_path : list Z;
  xhttp_host : Datatypes.option (list Z);
}.

(** Standard TLS, whose configuration only the acceptor is made of; Reality. *)
Inductive VlessTlsConfig := VlessTls (standard : StandardTlsConfig) | VlessReality (cfg : RealityConfig).

(** ** The libraries' handshakes *)
Class Layers := {
  tls_open : list Z -> Datatypes.option (list Z);
  (** the same with a certificate of Reality *)
  reality_open : list Z -> list Z -> Datatypes.option (list Z);
  ws_open : list Z -> Datatypes.option (ws_request * list ws_poll);
}.

(** They deliver bytes. *)
Definition message_ok (m : ws_poll) : Prop :=
  match m with WsMessage (Binary d) | WsMessage (Text d) => bytes_ok d | _ => True end.
Class LayersLaws `{Layers} : Prop := {
  tls_bytes raw p : bytes_ok raw -> tls_open raw = Some p -> bytes_ok p;
  reality_bytes cert raw p : bytes_ok raw -> reality_open cert raw = Some p -> bytes_ok p;
  ws_bytes raw req msgs : bytes_ok raw -> ws_open raw = Some (req, msgs) -> Forall message_ok msgs;
}.

Section listeners.
Context `{Layers}.

(** [acceptor.accept(stream)]. *)
Definition tls_accept : M conn unit := fun s =>
  match tls_open (c_in s) with
  | Some p => (Done tt, Conn p (c_trace s))
  | None => (Fail EIo, s)
  end.

(** [accept_plain] and [accept_tls]: the upgrade, and a [WsStream] over it. *)
Definition ws_accept (expected_path : list Z) (expected_host : Datatypes.option (list Z)) : M conn unit := fun s =>
  match ws_open (c_in s) with
  | Some (req, msgs) =>
      match check_upgrade expected_path expected_host req with
      | inl _ => (Done tt, Conn (left (WsStream_new msgs)) (c_trace s))
      | inr _ => (Fail EIo, s)
      end
  | None => (Fail EIo, s)
  end.

(** The [match] the Trojan, VMess and Shadowsocks handlers share; [tls]:
    whether there is an acceptor. *)
Definition open_io (unknown : error) (tr : TransportConfig) (tls : bool) : M conn unit :=
  if decide (transport_type tr = str "tcp") then
    if tls then tls_accept else mret tt
  else if decide (transport_type tr = str "ws") then
    if tls then
      _ ← tls_accept;
      ws_accept (ws_path tr) (ws_host tr)
    else ws_accept (ws_path tr) (ws_host tr)
  else fail unknown.

Definition trojan_handle (sha224 : list Z -> list Z) (E : env) (tr : TransportConfig) (tls : bool)
    (password : list Z) : M conn unit :=
  _ ← open_io (EBail "trojan: unknown transport") tr tls;
  Trojan.process sha224 E password.

Definition vmess_handle `{Vmess.Crypto} (E : env) (tr : TransportConfig) (tls : bool) (cmd_key : list Z)
    (wd : Vmess.world) : M conn unit :=
  _ ← open_io (EBail "unknown transport") tr tls;
  Vmess.process E cmd_key wd.

Definition shadowsocks_handle_conn `{Aead ShadowsocksCipher} (E : env) (derive_key : list Z -> list Z)
    (tr : TransportConfig) (tls : bool) (cipher : ShadowsocksCipher) (master_key : list Z)
    (wd : Shadowsocks.world) : M conn unit :=
  _ ← open_io (EBail "shadowsocks: unknown transport") tr tls;
  Shadowsocks.process E derive_key cipher master_key wd.

(** [vless_reality::accept], with the handshake at its end; [n]: how much the
    peek returns. *)
Definition reality_accept `{RealityCrypto} (E : env) (cw : CertWorld) (cfg : RealityConfig) (n : nat) : M conn unit :=
  cert ← Reality.accept E cw cfg n;
  s ← get_st;
  match reality_open cert (c_in s) with
  | Some p => put_st (Conn p (c_trace s))
  | None => fail EIo
  end.

(** VLESS: [acceptor] is there exactly if the configuration has standard TLS
    (or Reality, which does not use it). *)
Definition vless_handle_conn `{RealityCrypto} (E : env) (cw : CertWorld) (n : nat) (tr : TransportConfig)
    (tls : Datatypes.option VlessTlsConfig) (acceptor : bool) (uuid_bytes : list Z) : M conn unit :=
  let tls_layer :=
    match tls with
    | None => mret tt
    | Some (VlessTls _) => if acceptor then tls_accept else bail "[vless] TLS acceptor missing"
    | Some (VlessReality cfg) => reality_accept E cw cfg n
    end in
  if decide (transport_type tr = str "tcp") then
    _ ← tls_layer;
    process_vless_stream E uuid_bytes
  else if decide (transport_type tr = str "ws") then
    _ ← tls_layer;
    _ ← ws_accept (ws_path tr) (ws_host tr);
    process_vless_stream E uuid_bytes
  else bail "vless: unknown transport type".

(** ** What the layers deliver *)

(** The payload [p] of a plain or decrypted stream [q]. *)
Definition upgraded (tr : TransportConfig) (q p : list Z) : Prop :=
  transport_type tr = str "tcp" /\ p = q \/
  transport_type tr = str "ws" /\ exists req msgs, ws_open q = Some (req, msgs) /\
    req_path req = ws_path tr /\
    (forall h, ws_host tr = Some h -> default [] (req_host req) = h) /\
    p = (payload msgs).1.

Definition carried (tr : TransportConfig) (tls : bool) (raw p : list Z) : Prop :=
  exists q, (if tls then tls_open raw = Some q else q = raw) /\ upgraded tr q p.

Lemma check_upgrade_ok path host req u : check_upgrade path host req = inl u ->
  req_path req = path /\ forall h, host = Some h -> default [] (req_host req) = h.
Proof.
  unfold check_upgrade. destruct host as [h|].
  - case_bool_decide; simpl; [|done]. case_decide; [done|]. intros _. split; [done|]. by intros ? [= <-].
  - simpl. case_decide; [done|]. intros _. by split.
Qed.

Lemma payload_bytes msgs : Forall message_ok msgs -> bytes_ok (payload msgs).1.
Proof.
  induction 1 as [|m msgs Hm _ IH]; simpl; [constructor|].
  destruct m as [|[]|]; simpl; try done; try constructor;
    destruct (payload msgs); simpl in *; by apply bytes_ok_app.
Qed.

Section lawful.
Context `{!LayersLaws}.

Lemma ws_accept_spec tr s o s' : transport_type tr = str "ws" -> bytes_ok (c_in s) ->
  ws_accept (ws_path tr) (ws_host tr) s = (o, s') ->
  c_trace s' = c_trace s /\ o <> Panic /\
  (o = Done tt -> upgraded tr (c_in s) (c_in s') /\ bytes_ok (c_in s')).
Proof.
  intros Ht Hb. unfold ws_accept. destruct (ws_open (c_in s)) as [[req msgs]|] eqn:Ew; [|by intros [= <- <-]].
  destruct (check_upgrade _ _ req) as [u|] eqn:Ec; intros [= <- <-]; [|done].
  apply check_upgrade_ok in Ec as [Hp Hh]. split_and!; [done|done|]. intros _. split.
  - right. split; [done|]. by exists req, msgs.
  - apply payload_bytes. by eapply ws_bytes.
Qed.

Lemma tls_accept_spec s o s' : bytes_ok (c_in s) -> tls_accept s = (o, s') ->
  c_trace s' = c_trace s /\ o <> Panic /\
  (o = Done tt -> tls_open (c_in s) = Some (c_in s') /\ bytes_ok (c_in s')).
Proof.
  intros Hb. unfold tls_accept. destruct (tls_open (c_in s)) as [p|] eqn:Et; intros [= <- <-]; [|done].
  split_and!; [done|done|]. intros _. split; [done|by eapply tls_bytes].
Qed.

Lemma open_io_spec unknown tr tls s o s' : bytes_ok (c_in s) -> open_io unknown tr tls s = (o, s') ->
  c_trace s' = c_trace s /\ o <> Panic /\
  (o = Done tt -> carried tr tls (c_in s) (c_in s') /\ bytes_ok (c_in s')).
Proof.
  intros Hb. unfold open_io. case_decide as Ht.
  { destruct tls; intros E.
    - destruct (tls_accept_spec s o s' Hb E) as (T & P & D). split_and!; [done|done|]. intros Ho.
      destruct (D Ho). split; [|done]. exists (c_in s'). split; [done|by left].
    - injection E as <- <-. split_and!; [done|done|]. intros _. split; [|done]. exists (c_in s). split; [done|by left]. }
  case_decide as Hw; [|by intros [= <- <-]].
  destruct tls; intros E.
  - destruct (tls_accept s) as [o1 s1] eqn:E1. destruct (tls_accept_spec s o1 s1 Hb E1) as (T1 & P1 & D1).
    unfold mbind, M_bind in E. rewrite E1 in E. destruct o1 as [[]| |]; [|injection E as <- <-; done|done].
    destruct (D1 eq_refl) as [Et Hb1]. destruct (ws_accept_spec tr s1 o s' Hw Hb1 E) as (T & P & D).
    split_and!; [congruence|done|]. intros Ho. destruct (D Ho). split; [|done]. by exists (c_in s1).
  - destruct (ws_accept_spec tr s o s' Hw Hb E) as (T & P & D).
    split_and!; [congruence|done|]. intros Ho. destruct (D Ho). split; [|done]. by exists (c_in s).
Qed.

(** Layers first, then a handler. *)
Lemma layered {A} (m : M conn unit) (f : M conn A) s o s' (C : list Z -> Prop) :
  (forall o1 s1, m s = (o1, s1) -> c_trace s1 = c_trace s /\ o1 <> Panic /\ (o1 = Done tt -> C (c_in s1) /\ bytes_ok (c_in s1))) ->
  (_ ← m; f) s = (o, s') ->
  (c_trace s' = c_trace s /\ o <> Panic) \/
  exists s1, c_trace s1 = c_trace s /\ C (c_in s1) /\ bytes_ok (c_in s1) /\ f s1 = (o, s').
Proof.
  intros Hm. unfold mbind, M_bind. destruct (m s) as [o1 s1]. destruct (Hm o1 s1 eq_refl) as (T & P & D).
  destruct o1 as [[]|e|]; [|intros [= <- <-]; by left|done].
  destruct (D eq_refl). intros E. right. by exists s1.
Qed.

End lawful.
End listeners.

(** ** Properties *)

Section properties.
Context `{Layers} `{!LayersLaws}.

(** C6: a Trojan server, over whatever transport it is configured with, does
    nothing visible unless the stream the transport carries starts with a
    complete request under the password's hash; then it makes one connection
    attempt to the request's target and, if it succeeds, relays the bytes that
    follow the request.  No input makes it panic. *)
Theorem trojan_listener_actions sha224 E tr tls password s o s' :
  (forall p, length (sha224 p) = 28%nat /\ bytes_ok (sha224 p)) ->
  bytes_ok (c_in s) -> trojan_handle sha224 E tr tls password s = (o, s') ->
  o <> Panic /\
  (c_trace s' = c_trace s \/
   exists p h port crlf rest, carried tr tls (c_in s) p /\ host_ok h /\ port_ok port /\
     length crlf = 2%nat /\ p = trojan_wire sha224 password h port crlf ++ rest /\
     let t := target_text h port in
     let tr1 := c_trace s ++ [EvConnect t] in
     match env_connect E (c_trace s) t with
     | ConnOk => c_trace s' = tr1 ++ [EvRelay t (take (env_up E tr1 t) rest) (env_remote E tr1 t)] /\ o = Done tt
     | _ => c_trace s' = tr1
     end).
Proof.
  intros Hsha Hb E1. destruct (layered _ _ _ _ _ (carried tr tls (c_in s)) (fun o1 s1 => open_io_spec _ tr tls s o1 s1 Hb) E1)
    as [[T P]|(s1 & T & C & Hb1 & E2)]; [by split; [|left]|].
  destruct (trojan_process_actions sha224 Hsha E password s1 o s' Hb1 E2) as [P [T'|Hr]]; (split; [done|]).
  - left. congruence.
  - right. destruct Hr as (h & port & crlf & rest & Hh & Hp & Hl & Hin & Hr). rewrite T in Hr.
    by exists (c_in s1), h, port, crlf, rest.
Qed.

(** C2: a Shadowsocks server, over whatever transport it is configured with,
    does nothing visible unless the stream the transport carries starts with a
    salt and a header chunk that is sealed under the key derived from the master
    key and that salt, and the header is a request in the time window; then
    it makes exactly one connection attempt, to the header's target.  No input
    makes it panic. *)
Theorem shadowsocks_listener_actions `{AeadLaws ShadowsocksCipher} derive_key E tr tls cipher mk wd s o s' :
  (forall ikm, length (derive_key ikm) = 32%nat) ->
  bytes_ok (c_in s) -> shadowsocks_handle_conn E derive_key tr tls cipher mk wd s = (o, s') ->
  o <> Panic /\
  (c_trace s' = c_trace s \/
   exists p salt k header w rest n' target l,
     carried tr tls (c_in s) p /\ length salt = salt_len cipher /\
     derive_session_subkey derive_key mk salt (salt_len cipher) = Done k /\
     p = salt ++ w ++ rest /\ sealed cipher k (replicate 12 0) [header] w n' /\
     parse_request_header (Shadowsocks.w_now wd) header STREAM_TYPE_REQUEST = Done target /\
     c_trace s' = c_trace s ++ EvConnect target :: l /\ connects l = []).
Proof.
  intros Hd Hb E1. destruct (layered _ _ _ _ _ (carried tr tls (c_in s)) (fun o1 s1 => open_io_spec _ tr tls s o1 s1 Hb) E1)
    as [[T P]|(s1 & T & C & Hb1 & E2)]; [by split; [|left]|].
  destruct (process_actions derive_key Hd E cipher mk wd s1 o s' Hb1 E2) as [P [T'|Hr]]; (split; [done|]).
  - left. congruence.
  - right. destruct Hr as (salt & k & header & w & rest & n' & target & l & Hr). rewrite T in Hr.
    exists (c_in s1), salt, k, header, w, rest, n', target, l. by destruct Hr as (?&?&?&?&?&?&?).
Qed.

(** C3: a VMess server, over whatever transport it is configured with, writes
    nothing and connects nowhere before the stream the transport carries has
    given a complete request header sealed under the user's command key, with an
    authentication block in the time window.  Then either the plain header is
    refused (with an error, or with the panic of a truncated address), or there
    is exactly one connection attempt, to its target. *)
Theorem vmess_listener_actions `{Vmess.CryptoLaws} E tr tls cmd_key wd s o s' :
  bytes_ok (c_in s) -> 0 <= Vmess.w_now wd < 2 ^ 62 -> vmess_handle E tr tls cmd_key wd s = (o, s') ->
  (c_trace s' = c_trace s /\ o <> Panic) \/
  exists p auth_id nonce header w rest,
    carried tr tls (c_in s) p /\ p = w ++ rest /\ request_wire cmd_key auth_id nonce header w /\
    validate_auth_id (Vmess.w_now wd) auth_id cmd_key = Done tt /\
    ((c_trace s' = c_trace s /\ o = Panic /\ parse_plain_header header = Panic) \/
     exists req l, parse_plain_header header = Done req /\ o <> Panic /\
       c_trace s' = c_trace s ++ EvConnect (Vmess.target req) :: l /\ connects l = []).
Proof.
  intros Hb Hw E1. destruct (layered _ _ _ _ _ (carried tr tls (c_in s)) (fun o1 s1 => open_io_spec _ tr tls s o1 s1 Hb) E1)
    as [[T P]|(s1 & T & C & Hb1 & E2)]; [by left|].
  destruct (vmess_process_actions E cmd_key wd s1 o s' Hb1 Hw E2) as [[T' P]|Hr]; [left; by rewrite T', T|].
  right. destruct Hr as (a & n & h & w & rest & Hin & Hreq & Hv & Hr). rewrite T in Hr.
  by exists (c_in s1), a, n, h, w, rest.
Qed.

(** The plaintext [q] behind VLESS's TLS layer, if the client passes it. *)
Definition vless_opened `{RealityCrypto} (cw : CertWorld) (n : nat) (tls : Datatypes.option VlessTlsConfig)
    (s : conn) (q : list Z) : Prop :=
  match tls with
  | None => q = c_in s
  | Some (VlessTls _) => tls_open (c_in s) = Some q
  | Some (VlessReality cfg) => exists auth_key cert,
      verify_reality_client (peek_client_hello n s) cfg = Done auth_key /\
      build_per_connection_config cw cfg auth_key = Done cert /\ reality_open cert (c_in s) = Some q
  end.

(** The trace of a client Reality does not recognise: the decoy and nothing else. *)
Definition decoyed (E : env) (dest : list Z) (s s' : conn) : Prop :=
  let tr := c_trace s ++ [EvConnect dest] in
  match env_connect E (c_trace s) dest with
  | ConnOk => c_trace s' = tr ++ [EvRelay dest (take (env_up E tr dest) (c_in s)) (env_remote E tr dest)]
  | _ => c_trace s' = tr
  end.

Lemma tls_layer_spec `{RealityCrypto} E cw n tls acceptor s o s' :
  bytes_ok (c_in s) ->
  match tls with
  | None => mret tt
  | Some (VlessTls _) => if acceptor : bool then tls_accept else bail "[vless] TLS acceptor missing"
  | Some (VlessReality cfg) => reality_accept E cw cfg n
  end s = (o, s') ->
  (c_trace s' = c_trace s /\ (o = Done tt -> vless_opened cw n tls s (c_in s') /\ bytes_ok (c_in s'))) \/
  (o <> Done tt /\ exists cfg, tls = Some (VlessReality cfg) /\
   (forall a, verify_reality_client (peek_client_hello n s) cfg <> Done a) /\ decoyed E (Reality.dest cfg) s s').
Proof.
  intros Hb. destruct tls as [[std|cfg]|].
  - destruct acceptor; [|intros [= <- <-]; by left]. intros E1.
    destruct (tls_accept_spec s o s' Hb E1) as (T & _ & D). left. by split.
  - unfold reality_accept, mbind, M_bind. destruct (Reality.accept E cw cfg n s) as [c s1] eqn:Ea.
    destruct (accept_outcomes E cw cfg n s c s1 Ea) as [(a & Hv & -> & ->)|(Hn & [e ->] & Hd)].
    + intros E1. left. destruct (build_per_connection_config cw cfg a) as [cert| |] eqn:Ec; [|by injection E1 as <- <-..].
      unfold get_st in E1. destruct (reality_open cert (c_in s)) as [p|] eqn:Eo; injection E1 as <- <-; [|done].
      simpl. split; [done|]. intros _. split; [by exists a, cert|]. by eapply reality_bytes.
    + intros [= <- <-]. right. split; [done|]. by exists cfg.
  - intros [= <- <-]. left. split; [done|]. by intros _.
Qed.

(** What [handle_conn] does with a VLESS client. *)
Lemma vless_handle_gate `{RealityCrypto} E cw n tr tls acceptor uuid s o s' :
  bytes_ok (c_in s) -> vless_handle_conn E cw n tr tls acceptor uuid s = (o, s') ->
  c_trace s' = c_trace s \/
  (exists cfg, tls = Some (VlessReality cfg) /\
     (forall a, verify_reality_client (peek_client_hello n s) cfg <> Done a) /\ decoyed E (Reality.dest cfg) s s') \/
  (exists q p addons h port rest l,
     vless_opened cw n tls s q /\ upgraded tr q p /\
     Vless.wire_ok uuid addons CMD_TCP h port /\ p = Vless.wire uuid addons CMD_TCP h port ++ rest /\
     c_trace s' = c_trace s ++ EvConnect (target_text h port) :: l /\ connects l = []).
Proof.
  intros Hb. unfold vless_handle_conn. cbv zeta.
  assert (Hproc : forall q s1, vless_opened cw n tls s q -> upgraded tr q (c_in s1) -> bytes_ok (c_in s1) ->
    c_trace s1 = c_trace s -> process_vless_stream E uuid s1 = (o, s') ->
    c_trace s' = c_trace s \/ exists q p addons h port rest l,
     vless_opened cw n tls s q /\ upgraded tr q p /\
     Vless.wire_ok uuid addons CMD_TCP h port /\ p = Vless.wire uuid addons CMD_TCP h port ++ rest /\
     c_trace s' = c_trace s ++ EvConnect (target_text h port) :: l /\ connects l = []).
  { intros q s1 Hq Hu Hb1 T E1. rewrite <- T.
    destruct (process_vless_stream_actions E uuid s1 o s' Hb1 E1) as [?|(addons & h & port & rest & Hw & Hin & Hr)]; [by left|].
    right. exists q, (c_in s1), addons, h, port, rest. cbv zeta in Hr.
    destruct (env_connect E (c_trace s1) (target_text h port)); [destruct (env_write_ok E _); [destruct Hr as [Hr _]|]|..];
      rewrite Hr, <- ?app_assoc; eexists; (split_and!; [done|done|done|done|reflexivity|reflexivity]). }
  match goal with |- context [_ ← ?m; process_vless_stream E uuid] => set (layer := m) end.
  intros E1. unfold mbind, M_bind in E1.
  assert (Hl : exists o1 s1, layer s = (o1, s1)) by (destruct (layer s); eauto). destruct Hl as (o1 & s1 & El).
  pose proof (tls_layer_spec E cw n tls acceptor s o1 s1 Hb El) as Hspec.
  case_decide as Ht; [|case_decide as Hw; [|by injection E1 as <- <-; left]]; cbv beta in E1; rewrite El in E1.
  - destruct Hspec as [[T D]|(Hne & cfg & Hd)].
    + destruct o1 as [[]| |]; [|injection E1 as <- <-; by left..].
      destruct (D eq_refl) as [Hq Hb1]. destruct (Hproc (c_in s1) s1 Hq ltac:(by left) Hb1 T E1); auto.
    + right. left. exists cfg. destruct o1 as [[]| |]; [done|injection E1 as <- <-; exact Hd..].
  - destruct Hspec as [[T D]|(Hne & cfg & Hd)].
    + destruct o1 as [[]| |]; [|injection E1 as <- <-; by left..].
      destruct (D eq_refl) as [Hq Hb1]. destruct (ws_accept (ws_path tr) (ws_host tr) s1) as [o2 s2] eqn:Ew.
      destruct (ws_accept_spec tr s1 o2 s2 Hw Hb1 Ew) as (T2 & _ & D2).
      destruct o2 as [[]| |]; [|injection E1 as <- <-; left; congruence..].
      destruct (D2 eq_refl) as [Hu Hb2]. destruct (Hproc (c_in s1) s2 Hq Hu Hb2 ltac:(congruence) E1); auto.
    + right. left. exists cfg. destruct o1 as [[]| |]; [done|injection E1 as <- <-; exact Hd..].
Qed.

(** C5: a VLESS server, over whatever transport and TLS it is configured with.
    With Reality, a client that is not recognised meets the decoy and nothing
    else.  Otherwise nothing visible happens unless the stream the transport
    carries starts with a complete TCP request for the configured UUID; then there is
    exactly one connection attempt, to the requested target. *)
Theorem vless_listener_actions `{RealityCrypto} E cw n tr tls acceptor uuid s o s' :
  bytes_ok (c_in s) -> vless_handle_conn E cw n tr tls acceptor uuid s = (o, s') ->
  c_trace s' = c_trace s \/
  (exists cfg, tls = Some (VlessReality cfg) /\
     (forall a, verify_reality_client (peek_client_hello n s) cfg <> Done a) /\ decoyed E (Reality.dest cfg) s s') \/
  (exists q p addons h port rest l,
     vless_opened cw n tls s q /\ upgraded tr q p /\
     Vless.wire_ok uuid addons CMD_TCP h port /\ p = Vless.wire uuid addons CMD_TCP h port ++ rest /\
     c_trace s' = c_trace s ++ EvConnect (target_text h port) :: l /\ connects l = []).
Proof. apply vless_handle_gate. Qed.

End properties.

(** ** Concrete layers: TLS takes away a first byte 22, an upgrade a first byte 71 *)

Definition strip (b : Z) (raw : list Z) : Datatypes.option (list Z) :=
  match raw with c :: p => if decide (c = b) then Some p else None | [] => None end.

#[export] Instance toy_layers : Layers := {
  tls_open := strip 22;
  reality_open _ := strip 22;
  ws_open raw :=
    match strip 71 raw with
    | Some p => Some (WsRequest (Some (str "h")) (str "/ws"), [WsMessage (Ping []); WsMessage (Binary p)])
    | None => None
    end;
}.

Lemma strip_bytes b raw p : bytes_ok raw -> strip b raw = Some p -> bytes_ok p.
Proof.
  destruct raw as [|c raw]; simpl; [done|]. case_decide; [|done]. intros Hb [= <-].
  by apply Forall_cons in Hb as [_ ?].
Qed.

#[export] Instance toy_layers_laws : LayersLaws.
Proof.
  constructor; simpl.
  - intros raw p. apply strip_bytes.
  - intros _ raw p. apply strip_bytes.
  - intros raw req msgs Hb. destruct (strip 71 raw) as [p|] eqn:E; [|done]. intros [= _ <-].
    pose proof (strip_bytes _ _ _ Hb E). by repeat constructor.
Qed.

Definition ws_transport : TransportConfig := Transport (str "ws") (str "/ws") (Some (str "h")) (str "/") None.
Definition wss (p : list Z) : conn := Conn (22 :: 71 :: p) [].

Lemma wss_bytes p : bytes_ok p -> bytes_ok (c_in (wss p)).
Proof. intros Hp. constructor; [unfold byte_ok; lia|]. constructor; [unfold byte_ok; lia|done]. Qed.

Lemma trojan_listener_actions_witness :
  let E := Env (fun _ => true) (fun _ _ => ConnOk) (fun _ _ => 2%nat) (fun _ _ => [3]) in
  exists o s', trojan_handle toy_sha224 E ws_transport true [] (wss (toy_trojan ++ [1; 2])) = (o, s') /\ o <> Panic /\
    c_trace s' = [EvConnect (str "a.example:443"); EvRelay (str "a.example:443") [1; 2] [3]].
Proof.
  intros E. destruct (trojan_handle toy_sha224 E ws_transport true [] (wss (toy_trojan ++ [1; 2]))) as [o s'] eqn:Er.
  assert (Hok : bytes_ok (c_in (wss (toy_trojan ++ [1; 2])))) by (apply (bool_decide_eq_true (bytes_ok _)); vm_compute; reflexivity).
  destruct (trojan_listener_actions toy_sha224 E ws_transport true [] _ o s' toy_sha_ok Hok Er) as [Hp _].
  exists o, s'. split; [reflexivity|]. split; [exact Hp|].
  vm_compute in Er. injection Er as _ <-. reflexivity.
Defined.

Lemma shadowsocks_listener_actions_witness :
  (shadowsocks_handle_conn (H0 := Shadowsocks.toy) Shadowsocks.toy_env toy_derive ws_transport true Blake3Aes128Gcm
     (replicate 16 1) Shadowsocks.toy_world (wss (c_in Shadowsocks.toy_conn))).1 <> Panic.
Proof.
  destruct (shadowsocks_handle_conn (H0 := Shadowsocks.toy) Shadowsocks.toy_env toy_derive ws_transport true Blake3Aes128Gcm
     (replicate 16 1) Shadowsocks.toy_world (wss (c_in Shadowsocks.toy_conn))) as [o s'] eqn:E.
  apply (@shadowsocks_listener_actions toy_layers toy_layers_laws Shadowsocks.toy Shadowsocks.toy_laws toy_derive
    _ _ _ _ _ _ _ _ _ (fun ikm => length_be_bytes 32 _) (wss_bytes _ toy_conn_bytes) E).
Defined.

Lemma vmess_listener_actions_witness :
  (length (connects (c_trace (vmess_handle (H0 := Vmess.toy_crypto) Vmess.toy_env ws_transport true toy_cmd_key
    Vmess.toy_world (wss (c_in Vmess.toy_conn))).2)) <= 1)%nat.
Proof.
  destruct (vmess_handle (H0 := Vmess.toy_crypto) Vmess.toy_env ws_transport true toy_cmd_key
    Vmess.toy_world (wss (c_in Vmess.toy_conn))) as [o s'] eqn:E.
  destruct (@vmess_listener_actions toy_layers toy_layers_laws Vmess.toy_crypto Vmess.toy_crypto_laws
    Vmess.toy_env ws_transport true toy_cmd_key Vmess.toy_world (wss (c_in Vmess.toy_conn)) o s')
    as [[T _]|(p & a & n & h & w & r & _ & _ & _ & _ & [(T & _)|(req & l & _ & _ & T & C)])].
  - apply (bool_decide_eq_true (bytes_ok _)). vm_compute. reflexivity.
  - simpl. lia.
  - exact E.
  - simpl in *. rewrite T. simpl. lia.
  - simpl in *. rewrite T. simpl. lia.
  - simpl in *. rewrite T. simpl. rewrite C. simpl. lia.
Defined.

Lemma vless_listener_actions_witness :
  let run := @vless_handle_conn toy_layers toy_reality demo_env (MkCert [] (fun _ => Panic)) 3 ws_transport in
  (run (Some (VlessTls (StandardTls None None None))) true demo_uuid (wss (c_in demo_conn))).1 = Done tt /\
  exists cfg, Some (VlessReality Reality.toy_cfg) = Some (VlessReality cfg) /\
    decoyed demo_env (Reality.dest cfg) (wss [1]) (run (Some (VlessReality Reality.toy_cfg)) false demo_uuid (wss [1])).2.
Proof.
  intros run. split; [reflexivity|].
  destruct (run (Some (VlessReality Reality.toy_cfg)) false demo_uuid (wss [1])) as [o s'] eqn:E.
  destruct (@vless_listener_actions toy_layers toy_layers_laws toy_reality demo_env (MkCert [] (fun _ => Panic)) 3
    ws_transport (Some (VlessReality Reality.toy_cfg)) false demo_uuid (wss [1]) o s')
    as [T|[(cfg & Et & _ & Hd)|(q & p & a & h & port & r & l & (k & c & Hv & _) & _)]].
  - apply wss_bytes. repeat constructor; unfold byte_ok; lia.
  - exact E.
  - exfalso. revert T. vm_compute in E. injection E as _ <-. discriminate.
  - exists cfg. exact (conj Et Hd).
  - exfalso. vm_compute in Hv. discriminate Hv.
Defined.
