(* ===== verification/Masquerade.v ===== *)
(** * Hysteria 2's masquerade ([masquerade] and [masquerade_proxy] of
    [src/src/hysteria2/server.rs])

    What a client that is not authenticated sees: a 404 page, or the answer of
    the configured web site.  Requests and responses are lists of headers in
    the order of the header map; URI parsing and the HTTP client are libraries. *)
From S2P Require Import Prelude RustStd.

Abbreviation header := (list Z * list Z)%type.

(** A request as the client sends it; its body is still unread on the stream. *)
Record http_request := HttpRequest {
  rq_method : list Z;
  rq_path_and_query : option (list Z);
  rq_headers : list header;
  rq_body : list Z;
}.

Record MasqResponse := Masq { m_status : Z; m_headers : list header; m_body : list Z }.

(** The request to the web site: method, URL, headers, body. *)
Record out_request := OutRequest { o_method : list Z; o_url : list Z; o_headers : list header; o_body : list Z }.

(** The web site's answer; [None] for a body that could not be read. *)
Record in_response := InResponse { i_status : Z; i_headers : list header; i_body : option (list Z) }.

(** What the code asks of a parsed URI. *)
Record uri := Uri { uri_host : option (list Z); uri_port : option Z }.

Definition HOST := str "host".
Definition CONTENT_TYPE := str "content-type".
Definition CONTENT_LENGTH := str "content-length".
Definition TRANSFER_ENCODING := str "transfer-encoding".
Definition LOCATION := str "location".

Definition values (name : list Z) (hs : list header) : list (list Z) :=
  omap (fun h => if decide (h.1 = name) then Some h.2 else None) hs.

Definition error_page (status : Z) (body : list Z) : MasqResponse :=
  Masq status
    [(str "server", str "nginx/1.24.0"); (CONTENT_TYPE, str "text/html; charset=utf-8");
     (CONTENT_LENGTH, dec (Z.of_nat (length body)))] body.

Definition masquerade_404 : MasqResponse :=
  error_page 404 (str "<html><body><h1>404 Not Found</h1></body></html>").
Definition masquerade_502 : MasqResponse :=
  error_page 502 (str "<html><body><h1>502 Bad Gateway</h1></body></html>").

Record MasqueradeProxy := Proxy { url : list Z; rewrite_host : bool }.
Record MasqueradeConfig := Masquerade { mtype : list Z; proxy : option MasqueradeProxy }.

Section masquerade.
Context (parse_uri : list Z -> option uri).
(** [builder.body]: whether the library takes the request; and its answer. *)
Context (build_ok : out_request -> bool) (fetch : out_request -> option in_response).

Definition target_url (req : http_request) (base : list Z) : list Z :=
  trim_end_matches (fun c => bool_decide (c = 47)) base ++ default (str "/") (rq_path_and_query req).

(** The headers sent to the web site. *)
Definition forwarded_headers (req : http_request) (target : uri) (rewrite : bool) : list header :=
  filter (fun h => ~ (h.1 = HOST /\ rewrite = true)) (rq_headers req) ++
  if rewrite then
    match uri_host target with
    | Some host =>
        [(HOST, match uri_port target with Some port => host ++ [58] ++ dec port | None => host end)]
    | None => []
    end
  else [].

Definition is_redirection (status : Z) : bool := bool_decide (300 <= status < 400).

(** The response made of the web site's answer. *)
Definition relay_response (r : in_response) : MasqResponse :=
  if is_redirection (i_status r) then
    Masq (i_status r)
      match values LOCATION (i_headers r) with loc :: _ => [(LOCATION, loc)] | [] => [] end []
  else
    match i_body r with
    | None => masquerade_502
    | Some body =>
        Masq (i_status r)
          (filter (fun h => ~ (h.1 = TRANSFER_ENCODING \/ h.1 = CONTENT_LENGTH)) (i_headers r) ++
           (if decide (values CONTENT_TYPE (i_headers r) = []) then [(CONTENT_TYPE, str "application/octet-stream")]
            else []) ++
           [(CONTENT_LENGTH, dec (Z.of_nat (length body)))])
          body
    end.

(** The response, and the request made for it; the body of that request is [Empty]. *)
Definition masquerade_proxy (req : http_request) (target_base : list Z) (rewrite : bool)
    : MasqResponse * option out_request :=
  let target := target_url req target_base in
  match parse_uri target with
  | None => (masquerade_404, None)
  | Some u =>
      let out := OutRequest (rq_method req) target (forwarded_headers req u rewrite) [] in
      if build_ok out then
        (match fetch out with None => masquerade_502 | Some r => relay_response r end, Some out)
      else (masquerade_404, None)
  end.

(** The response is sent in two steps; an empty body is not sent, which would
    be an empty DATA frame.  A step that fails does not stop the next ones. *)
Inductive h3_action :=
  | SendResponse (status : Z) (headers : list header)
  | SendData (body : list Z)
  | Finish.

Definition masquerade (cfg : MasqueradeConfig) (req : http_request) : list h3_action * option out_request :=
  let '(resp, out) :=
    if decide (mtype cfg = str "proxy") then
      match proxy cfg with
      | Some p => masquerade_proxy req (url p) (rewrite_host p)
      | None => (masquerade_404, None)
      end
    else (masquerade_404, None) in
  ([SendResponse (m_status resp) (m_headers resp)] ++
   (if decide (m_body resp = []) then [] else [SendData (m_body resp)]) ++ [Finish], out).

(** ** Properties *)

Lemma values_app name h1 h2 : values name (h1 ++ h2) = values name h1 ++ values name h2.
Proof. unfold values. by rewrite omap_app. Qed.

Lemma values_cons name h hs :
  values name (h :: hs) = (if decide (h.1 = name) then [h.2] else []) ++ values name hs.
Proof. unfold values. simpl. by case_decide. Qed.

(** Filtering headers keeps the values of the names that stay, in order. *)
Lemma values_filter_all name (Q : header -> Prop) `{forall h, Decision (Q h)} hs :
  (forall h, h.1 = name -> Q h) -> values name (filter Q hs) = values name hs.
Proof.
  intros HQ. induction hs as [|h hs IH]; [done|]. rewrite filter_cons, values_cons, <- IH.
  destruct (decide (Q h)) as [Hq|Hq]; [by rewrite values_cons|]. by rewrite decide_False by auto.
Qed.

Lemma values_filter_none name (Q : header -> Prop) `{forall h, Decision (Q h)} hs :
  (forall h, h.1 = name -> ~ Q h) -> values name (filter Q hs) = [].
Proof.
  intros HQ. induction hs as [|h hs IH]; [done|]. rewrite filter_cons.
  destruct (decide (Q h)) as [Hq|Hq]; [|done]. rewrite values_cons, IH, decide_False by (intros E; by apply (HQ h)). done.
Qed.

Lemma values_one name n v : values name [(n, v)] = if decide (n = name) then [v] else [].
Proof. unfold values. simpl. by case_decide. Qed.

Lemma relay_response_values r body name :
  is_redirection (i_status r) = false -> i_body r = Some body ->
  values name (m_headers (relay_response r)) =
    if decide (name = CONTENT_LENGTH) then [dec (Z.of_nat (length body))]
    else if decide (name = TRANSFER_ENCODING) then []
    else if decide (name = CONTENT_TYPE /\ values CONTENT_TYPE (i_headers r) = []) then [str "application/octet-stream"]
    else values name (i_headers r).
Proof.
  intros Hr Hb. unfold relay_response. rewrite Hr, Hb. cbn [m_headers].
  rewrite !values_app, values_one.
  set (ct := decide (values CONTENT_TYPE (i_headers r) = [])).
  assert (Hct : values name (if ct then [(CONTENT_TYPE, str "application/octet-stream")] else []) =
    if ct then if decide (CONTENT_TYPE = name) then [str "application/octet-stream"] else [] else [])
    by (destruct ct; [apply values_one|done]).
  rewrite Hct. destruct (decide (name = CONTENT_LENGTH)) as [->|E1].
  { rewrite values_filter_none by naive_solver.
    rewrite (decide_False (P := CONTENT_TYPE = CONTENT_LENGTH)), (decide_True (P := CONTENT_LENGTH = CONTENT_LENGTH)) by done.
    by destruct ct. }
  rewrite (decide_False (P := CONTENT_LENGTH = name)), app_nil_r by done.
  destruct (decide (name = TRANSFER_ENCODING)) as [->|E2].
  { rewrite values_filter_none, (decide_False (P := CONTENT_TYPE = TRANSFER_ENCODING)) by naive_solver.
    by destruct ct. }
  rewrite values_filter_all by naive_solver. subst ct. destruct (decide (CONTENT_TYPE = name)) as [<-|E3].
  - destruct (decide (values CONTENT_TYPE (i_headers r) = [])) as [E4|E4].
    + rewrite E4, decide_True by done. done.
    + rewrite decide_False by tauto. by rewrite app_nil_r.
  - rewrite (decide_False (P := name = CONTENT_TYPE /\ _)) by naive_solver.
    case_decide; by rewrite app_nil_r.
Qed.

(** What is sent for a page of the server's own. *)
Definition page (m : MasqResponse) : list h3_action := [SendResponse (m_status m) (m_headers m); SendData (m_body m); Finish].

(** The answer of the web site, as the client gets it: the status and the body, and every
    header's values in their order, except that there is one [Content-Length], the length of
    the body, no [Transfer-Encoding], and a [Content-Type] if there was none. *)
Definition passed_on (r : in_response) (body : list Z) (acts : list h3_action) : Prop :=
  exists hs,
    acts = [SendResponse (i_status r) hs] ++ (if decide (body = []) then [] else [SendData body]) ++ [Finish] /\
    values CONTENT_LENGTH hs = [dec (Z.of_nat (length body))] /\
    values TRANSFER_ENCODING hs = [] /\
    values CONTENT_TYPE hs =
      (if decide (values CONTENT_TYPE (i_headers r) = []) then [str "application/octet-stream"]
       else values CONTENT_TYPE (i_headers r)) /\
    forall name, name <> CONTENT_LENGTH -> name <> TRANSFER_ENCODING -> name <> CONTENT_TYPE ->
      values name hs = values name (i_headers r).

Lemma relay_response_passes r body : is_redirection (i_status r) = false -> i_body r = Some body ->
  passed_on r body ([SendResponse (m_status (relay_response r)) (m_headers (relay_response r))] ++
    (if decide (m_body (relay_response r) = []) then [] else [SendData (m_body (relay_response r))]) ++ [Finish]).
Proof.
  intros Hr Hb. exists (m_headers (relay_response r)).
  assert (Hs : m_status (relay_response r) = i_status r /\ m_body (relay_response r) = body)
    by (unfold relay_response; by rewrite Hr, Hb).
  destruct Hs as [Hs1 Hs2]. rewrite Hs1, Hs2, !(relay_response_values r body) by done.
  rewrite (decide_True (P := CONTENT_LENGTH = CONTENT_LENGTH)) by done.
  rewrite (decide_False (P := TRANSFER_ENCODING = CONTENT_LENGTH)) by done.
  rewrite (decide_True (P := TRANSFER_ENCODING = TRANSFER_ENCODING)) by done.
  rewrite (decide_False (P := CONTENT_TYPE = CONTENT_LENGTH)) by done.
  rewrite (decide_False (P := CONTENT_TYPE = TRANSFER_ENCODING)) by done.
  split_and!; try done.
  { apply decide_ext. tauto. }
  intros name H1 H2 H3. rewrite (relay_response_values r body) by done. by rewrite !decide_False by tauto.
Qed.

(** C30: what a request that is masqueraded comes to.  With a proxy configured, one request
    is made of the client's: its method, its path and query under the configured
    base, and its headers ([Content-Length] included), with exactly one [Host] of the web
    site instead of the client's if that is asked for; but never its body: the request that is
    made has none.  Of the answer, the status, the body and the headers' values are passed on
    ([passed_on]); of a redirection, that is any status from 300 to 399, only the status
    and its first [Location].  A site that does not answer, or whose body breaks off, is a 502
    page; a URL or request that cannot be made is the 404 page, and nothing is fetched; and so it is
    for every request where no proxy is configured. *)
Theorem masquerade_faithful cfg req :
  (forall p, mtype cfg = str "proxy" -> proxy cfg = Some p ->
     (parse_uri (target_url req (url p)) = None -> masquerade cfg req = (page masquerade_404, None)) /\
     forall u, parse_uri (target_url req (url p)) = Some u ->
     exists out, o_method out = rq_method req /\ o_url out = target_url req (url p) /\ o_body out = [] /\
       (forall name, name <> HOST -> values name (o_headers out) = values name (rq_headers req)) /\
       values HOST (o_headers out) =
         (if rewrite_host p then
            match uri_host u with
            | Some h => [match uri_port u with Some port => h ++ [58] ++ dec port | None => h end]
            | None => []
            end
          else values HOST (rq_headers req)) /\
       (build_ok out = false -> masquerade cfg req = (page masquerade_404, None)) /\
       (build_ok out = true -> (masquerade cfg req).2 = Some out /\
          match fetch out with
          | None => (masquerade cfg req).1 = page masquerade_502
          | Some r =>
              if is_redirection (i_status r) then
                (masquerade cfg req).1 =
                  [SendResponse (i_status r) ((fun loc => (LOCATION, loc)) <$> take 1 (values LOCATION (i_headers r))); Finish]
              else
                match i_body r with
                | None => (masquerade cfg req).1 = page masquerade_502
                | Some body => passed_on r body (masquerade cfg req).1
                end
          end)) /\
  (mtype cfg <> str "proxy" \/ proxy cfg = None -> masquerade cfg req = (page masquerade_404, None)).
Proof.
  split.
  - intros p Ht Hp. unfold masquerade. rewrite decide_True, Hp by done. unfold masquerade_proxy.
    split; [by intros ->|]. intros u Hu. rewrite Hu.
    set (out := OutRequest (rq_method req) (target_url req (url p)) (forwarded_headers req u (rewrite_host p)) []).
    exists out. split; [done|]. split; [done|]. split; [done|]. split; [|split; [|split]].
    + intros name Hne. simpl. unfold forwarded_headers. rewrite values_app, values_filter_all by naive_solver.
      destruct (rewrite_host p); [|by rewrite app_nil_r].
      destruct (uri_host u); [rewrite values_one, decide_False by done|]; by rewrite app_nil_r.
    + simpl. unfold forwarded_headers. rewrite values_app. destruct (rewrite_host p).
      * rewrite values_filter_none by naive_solver. simpl. destruct (uri_host u); [by rewrite values_one, decide_True|done].
      * rewrite values_filter_all by naive_solver. by rewrite app_nil_r.
    + by intros ->.
    + intros ->. destruct (fetch out) as [r|]; [|done]. cbn [fst snd]. split; [done|].
      destruct (is_redirection (i_status r)) eqn:Hr.
      * unfold relay_response. rewrite Hr. simpl. by destruct (values LOCATION (i_headers r)).
      * destruct (i_body r) as [body|] eqn:Hb; [by apply relay_response_passes|]. unfold relay_response. by rewrite Hr, Hb.
  - intros Hno. unfold masquerade. case_decide as Ht; [|done]. by destruct Hno as [Hn | ->].
Qed.

End masquerade.

(** A site behind a path, which rewrites the host and answers with a chunked body. *)
Definition site_uri (u : list Z) : option uri := Some (Uri (Some (str "site")) (Some 8080)).
Definition site_fetch (o : out_request) : option in_response :=
  Some (InResponse 200 [(TRANSFER_ENCODING, str "chunked"); (str "etag", str "x")] (Some (str "hi"))).
Definition site_cfg := Masquerade (str "proxy") (Some (Proxy (str "http://site:8080/") true)).
Definition site_req := HttpRequest (str "POST") (Some (str "/a?b"))
  [(HOST, str "vpn"); (str "accept", str "*"); (CONTENT_LENGTH, str "3")] (str "abc").
Definition site_masquerade := masquerade site_uri (fun _ => true) site_fetch site_cfg site_req.

Lemma masquerade_faithful_witness :
  (exists out, site_masquerade.2 = Some out /\ o_method out = str "POST" /\ o_url out = str "http://site:8080/a?b" /\
     values HOST (o_headers out) = [str "site:8080"] /\ values CONTENT_LENGTH (o_headers out) = [str "3"] /\ o_body out = []) /\
  exists hs,
    site_masquerade.1 = [SendResponse 200 hs; SendData (str "hi"); Finish] /\
    values CONTENT_LENGTH hs = [str "2"] /\ values (str "etag") hs = [str "x"].
Proof.
  destruct (masquerade_faithful site_uri (fun _ => true) site_fetch site_cfg site_req) as [H _].
  destruct (H _ eq_refl eq_refl) as [_ Hu].
  destruct (Hu (Uri (Some (str "site")) (Some 8080)) eq_refl) as (out & Hm & Ho & Hb & Hv & Hh & _ & Hr).
  destruct (Hr eq_refl) as [Eo Ha]. split.
  - exists out. split; [exact Eo|]. split; [exact Hm|]. split; [exact Ho|]. split; [exact Hh|].
    split; [apply Hv; discriminate|exact Hb].
  - cbn in Ha. destruct Ha as (hs & E & L & _ & _ & K).
    exists hs. split; [exact E|]. split; [exact L|]. apply K; discriminate.
Defined.
