(* ===== verification/WgIface.v ===== *)
(** * WireGuard: the virtual interface ([src/src/wireguard/iface.rs])

    The device is two queues of packets.  smoltcp drives it through the
    [Device] trait: [poll_tree] is a finite interaction with that trait, and
    [run_poll] plays it against the device of the code.  smoltcp itself is the
    class [Smoltcp], with the documented behaviour the actor relies on in
    [SmoltcpLaws]. *)
From S2P Require Import Prelude RustStd NetAddr.

(** ** Addresses: [std::net], and smoltcp's own forms of them *)

Record SocketAddr := SockAddr { ip : IpAddr; port : Z }.

(** smoltcp keeps the sixteen octets of an IPv6 address. *)
Inductive IpAddress := Ipv4 (octets : list Z) | Ipv6 (octets : list Z).
Record IpEndpoint := Endpoint { ep_addr : IpAddress; ep_port : Z }.

#[export] Instance SocketAddr_eq_dec : EqDecision SocketAddr.
Proof. solve_decision. Defined.
#[export] Instance IpAddress_eq_dec : EqDecision IpAddress.
Proof. solve_decision. Defined.
#[export] Instance IpEndpoint_eq_dec : EqDecision IpEndpoint.
Proof. solve_decision. Defined.

#[export] Instance IpAddr_countable : Countable IpAddr.
Proof.
  apply (inj_countable'
    (fun a => match a with V4 o => inl o | V6 s => inr s end)
    (fun s => match s with inl o => V4 o | inr s => V6 s end)).
  by intros [].
Defined.
#[export] Instance SocketAddr_countable : Countable SocketAddr.
Proof.
  apply (inj_countable' (fun a => (ip a, port a)) (fun p => SockAddr p.1 p.2)).
  by intros [].
Defined.

(** ** Histories: every event of a trace is justified by those before it *)

Definition history_ok {E} (J : list E -> E -> Prop) (tr : list E) : Prop :=
  forall pre e post, tr = pre ++ e :: post -> J pre e.

Lemma history_ok_nil {E} (J : list E -> E -> Prop) : history_ok J [].
Proof. intros pre e post Eq. by destruct pre. Qed.

Lemma history_ok_snoc {E} (J : list E -> E -> Prop) tr e :
  history_ok J tr -> J tr e -> history_ok J (tr ++ [e]).
Proof.
  intros Ht He pre e' post Eq. destruct post as [|e2 post _] using rev_ind.
  - apply app_inj_tail in Eq as [-> ->]. done.
  - rewrite app_comm_cons, app_assoc in Eq. apply app_inj_tail in Eq as [-> _]. by eapply Ht.
Qed.

Lemma history_ok_app {E} (J : list E -> E -> Prop) tr es :
  history_ok J tr -> (forall e tr', e ∈ es -> tr ⊆ tr' -> J tr' e) -> history_ok J (tr ++ es).
Proof.
  revert tr. induction es as [|e es IH]; intros tr Ht Hj; [by rewrite app_nil_r|].
  rewrite app_mid. apply IH; [apply history_ok_snoc; [done|apply Hj; [by left|done]]|].
  intros e' tr' He Hsub. apply Hj; [by right|]. intros x Hx. apply Hsub. apply elem_of_app. by left.
Qed.

(** ** The device *)

Record VirtualDevice := Device { d_rx : list (list Z); d_tx : list (list Z) }.

Definition VirtualDevice_new : VirtualDevice := Device [] [].

Definition inject (pkt : list Z) (d : VirtualDevice) : VirtualDevice :=
  Device (d_rx d ++ [pkt]) (d_tx d).

(** [Device::receive]: the packet of the [VirtRx] token, whose [consume] hands
    it over as it is. *)
Definition receive (d : VirtualDevice) : option (list Z) * VirtualDevice :=
  match d_rx d with
  | [] => (None, d)
  | pkt :: rx => (Some pkt, Device rx (d_tx d))
  end.

(** [VirtTx::consume]: a zeroed buffer of the given length, filled in place and
    queued. *)
Definition tx_consume (len : nat) (f : list Z -> list Z) (d : VirtualDevice) : VirtualDevice :=
  let buf := f (replicate len 0) in
  Device (d_rx d) (d_tx d ++ [buf]).

(** ** smoltcp *)

(** What one [Interface::poll] does with the device. *)
Inductive poll_tree (N : Type) :=
| PollDone (n : N)
| PollReceive (k : option (list Z) -> poll_tree N)
| PollTransmit (len : nat) (f : list Z -> list Z) (k : poll_tree N).
Arguments PollDone {N} _.
Arguments PollReceive {N} _.
Arguments PollTransmit {N} _ _ _.

Inductive sock_kind := Tcp | Udp.
#[export] Instance sock_kind_eq_dec : EqDecision sock_kind.
Proof. solve_decision. Defined.

(** The interface and its socket set as one state [N].  [kind_of n h] is the
    kind of the socket behind the handle [h]: [get], [get_mut] and [remove]
    panic where there is none, and [get] where it is of another kind.
    [tcp_recv_slice len] reads into a buffer of [len] bytes. *)
Class Smoltcp (N : Type) := {
  kind_of : N -> nat -> option sock_kind;
  listen_ok : IpEndpoint -> bool;
  bind_ok : IpEndpoint -> bool;
  add_tcp : IpEndpoint -> N -> nat * N;
  add_udp : IpEndpoint -> N -> nat * N;
  remove : nat -> N -> N;
  tcp_established : N -> nat -> bool;
  tcp_may_recv : N -> nat -> bool;
  tcp_queue : N -> nat -> list Z;
  tcp_recv_slice : nat -> nat -> N -> option (list Z) * N;
  tcp_may_send : N -> nat -> bool;
  tcp_send_slice : list Z -> nat -> N -> option nat * N;
  udp_queue : N -> nat -> list (list Z);
  udp_recv : nat -> N -> option (list Z) * N;
  udp_send_slice : list Z -> IpEndpoint -> nat -> N -> bool * N;
  poll : Z -> N -> poll_tree N;   (** at a time *)
}.

(** The result of a poll against an input queue: the state, what is left of the
    queue, and the packets sent. *)
Fixpoint poll_result {N} (t : poll_tree N) (rx : list (list Z)) : N * list (list Z) * list (list Z) :=
  match t with
  | PollDone n => (n, rx, [])
  | PollReceive k => poll_result (k (head rx)) (tail rx)
  | PollTransmit len f k =>
      let '(n, rx, out) := poll_result k rx in (n, rx, f (replicate len 0) :: out)
  end.

Definition polled {N} `{Smoltcp N} (ts : Z) (n : N) (rx : list (list Z)) : N :=
  (poll_result (poll ts n) rx).1.1.

(** Documented behaviour of [SocketSet] and the sockets: [add] returns a handle
    that was free; only [add] and [remove] change which handles are taken; a
    receive takes data from the front of its own socket's queue only. *)
Class SmoltcpLaws (N : Type) `{Smoltcp N} : Prop := {
  add_tcp_kind ep n h n' : add_tcp ep n = (h, n') ->
    kind_of n h = None /\ forall h', kind_of n' h' = if decide (h' = h) then Some Tcp else kind_of n h';
  add_udp_kind ep n h n' : add_udp ep n = (h, n') ->
    kind_of n h = None /\ forall h', kind_of n' h' = if decide (h' = h) then Some Udp else kind_of n h';
  remove_kind h n h' : kind_of (remove h n) h' = if decide (h' = h) then None else kind_of n h';
  recv_slice_kind len h n h' : kind_of (tcp_recv_slice len h n).2 h' = kind_of n h';
  send_slice_kind d h n h' : kind_of (tcp_send_slice d h n).2 h' = kind_of n h';
  udp_recv_kind h n h' : kind_of (udp_recv h n).2 h' = kind_of n h';
  udp_send_kind d ep h n h' : kind_of (udp_send_slice d ep h n).2 h' = kind_of n h';
  poll_kind ts n rx h' : kind_of (polled ts n rx) h' = kind_of n h';
  recv_slice_data len h n : tcp_may_recv n h = true -> tcp_queue n h <> [] ->
    (tcp_recv_slice len h n).1 = Some (take len (tcp_queue n h));
  recv_slice_queue len h n h' : tcp_may_recv n h = true ->
    tcp_queue (tcp_recv_slice len h n).2 h' =
      (if decide (h' = h) then drop len (tcp_queue n h) else tcp_queue n h') /\
    (h' <> h -> tcp_may_recv (tcp_recv_slice len h n).2 h' = tcp_may_recv n h');
  recv_slice_udp len h n h' : udp_queue (tcp_recv_slice len h n).2 h' = udp_queue n h';
  udp_recv_tcp h n h' : tcp_queue (udp_recv h n).2 h' = tcp_queue n h';
  udp_recv_data h n : (udp_recv h n).1 = head (udp_queue n h);
  udp_recv_queue h n h' :
    udp_queue (udp_recv h n).2 h' = if decide (h' = h) then tail (udp_queue n h) else udp_queue n h';
}.

(** ** The interface *)

Record VirtualIface (N : Type) := Iface { device : VirtualDevice; net : N }.
Arguments Iface {N} _ _.
Arguments device {N} _.
Arguments net {N} _.

Fixpoint run_poll {N} (t : poll_tree N) (d : VirtualDevice) : VirtualIface N :=
  match t with
  | PollDone n => Iface d n
  | PollReceive k => let '(pkt, d) := receive d in run_poll (k pkt) d
  | PollTransmit len f k => run_poll k (tx_consume len f d)
  end.

Section iface.
Context {N : Type} `{Smoltcp N}.

(** [ts] is [SmolInstant::now()]. *)
Definition poll_inner (ts : Z) (i : VirtualIface N) : VirtualIface N :=
  run_poll (poll ts (net i)) (device i).

(** [device.tx.drain(..).collect()]. *)
Definition drain_tx (i : VirtualIface N) : list (list Z) * VirtualIface N :=
  (d_tx (device i), Iface (Device (d_rx (device i)) []) (net i)).

Definition inject_and_poll (ts : Z) (pkt : list Z) (i : VirtualIface N)
    : list (list Z) * VirtualIface N :=
  drain_tx (poll_inner ts (Iface (inject pkt (device i)) (net i))).

Definition poll_and_collect_tx (ts : Z) (i : VirtualIface N) : list (list Z) * VirtualIface N :=
  drain_tx (poll_inner ts i).

(** ** Properties *)

Lemma run_poll_result (t : poll_tree N) rx tx :
  run_poll t (Device rx tx) =
    Iface (Device (poll_result t rx).1.2 (tx ++ (poll_result t rx).2)) (poll_result t rx).1.1.
Proof.
  revert rx tx. induction t as [n|k IH|len f k IH]; intros rx tx; simpl.
  - by rewrite app_nil_r.
  - destruct rx as [|p rx]; apply IH.
  - unfold tx_consume. rewrite IH. simpl. destruct (poll_result k rx) as [[n rx'] out]. simpl.
    by rewrite <- app_assoc.
Qed.

(** With an empty transmit queue, as every call leaves it: the packets smoltcp
    sends are returned, all and in order, and none is left behind. *)
Lemma inject_and_poll_result ts pkt rx n :
  inject_and_poll ts pkt (Iface (Device rx []) n) =
    ((poll_result (poll ts n) (rx ++ [pkt])).2,
     Iface (Device (poll_result (poll ts n) (rx ++ [pkt])).1.2 []) (polled ts n (rx ++ [pkt]))).
Proof. unfold inject_and_poll, poll_inner, inject, drain_tx. simpl. by rewrite run_poll_result. Qed.

Lemma poll_and_collect_result ts rx n :
  poll_and_collect_tx ts (Iface (Device rx []) n) =
    ((poll_result (poll ts n) rx).2, Iface (Device (poll_result (poll ts n) rx).1.2 []) (polled ts n rx)).
Proof. unfold poll_and_collect_tx, poll_inner, drain_tx. simpl. by rewrite run_poll_result. Qed.

End iface.
