(* ===== verification/WgStack.v ===== *)
(** * WireGuard: a peer's network stack ([src/src/wireguard/stack.rs])

    [actor_step] is one message of [run_actor]: it keeps a table of TCP and one
    of UDP flows, each with a smoltcp socket, and passes data between these
    sockets and the tasks that relay to the real targets.  The tasks are
    [tcp_relay] and [udp_relay]; what the actor hands to them, and the packets
    it sends to be encrypted, are its trace.  A [HashMap] is iterated in an order
    of its own, [order].

    A message is one step here, up to its end.  In it the actor waits wherever the channel it
    sends to is full: 256 pieces for a TCP flow's relay, 128 datagrams for a UDP flow's,
    1024 packets for the encryption.  So an event of the trace says that the data has been
    given to the channel; a relay that has ended drops what is in it, and an actor whose
    relay does not read stops in the middle of a message ([WgServer] has what that does
    to the server). *)
From S2P Require Import Prelude RustStd Net NetAddr WgIface.

(** ** Flow keys *)

Record FlowKey := Flow { proto : Z; src : SocketAddr; dst : SocketAddr }.

#[export] Instance FlowKey_eq_dec : EqDecision FlowKey.
Proof. solve_decision. Defined.
#[export] Instance FlowKey_countable : Countable FlowKey.
Proof.
  apply (inj_countable' (fun k => (proto k, src k, dst k)) (fun p => Flow p.1.1 p.1.2 p.2)).
  by intros [].
Defined.

(** [pkt.get(i..j)]. *)
Definition get_range (l : list Z) (i j : nat) : option (list Z) :=
  if decide (i <= j <= length l)%nat then Some (take (j - i) (drop i l)) else None.

Definition from_be2 (l : list Z) (i : nat) : outcome Z :=
  hi ← index l i;
  lo ← index l (S i);
  mret (be_val [hi; lo]).

(** [Ipv4Addr::new(l[i], l[i+1], l[i+2], l[i+3])]. *)
Definition ipv4_at (l : list Z) (i : nat) : outcome IpAddr :=
  a ← index l i;
  b ← index l (i + 1);
  c ← index l (i + 2);
  d ← index l (i + 3);
  mret (V4 [a; b; c; d]).

Fixpoint segments_at (b : list Z) (i n : nat) : outcome (list Z) :=
  match n with
  | O => mret []
  | S n =>
      a ← from_be2 b (i * 2);
      r ← segments_at b (S i) n;
      mret (a :: r)
  end.

Definition ipv6_from_slice (b : list Z) : outcome IpAddr :=
  a ← segments_at b 0 8;
  mret (V6 a).

Definition flow_ports (proto : Z) (src_ip dst_ip : IpAddr) (t : list Z) : outcome (option FlowKey) :=
  sp ← from_be2 t 0;
  dp ← from_be2 t 2;
  mret (Some (Flow proto (SockAddr src_ip sp) (SockAddr dst_ip dp))).

Definition parse_ipv4_flow (pkt : list Z) : outcome (option FlowKey) :=
  if decide (length pkt < 20)%nat then mret None else
  b0 ← index pkt 0;
  let ihl := (Z.to_nat (Z.land b0 0x0f) * 4)%nat in
  proto ← index pkt 9;
  if decide (proto <> 6 /\ proto <> 17) then mret None else
  src_ip ← ipv4_at pkt 12;
  dst_ip ← ipv4_at pkt 16;
  match get_range pkt ihl (ihl + 4) with
  | None => mret None
  | Some t => flow_ports proto src_ip dst_ip t
  end.

Definition parse_ipv6_flow (pkt : list Z) : outcome (option FlowKey) :=
  if decide (length pkt < 44)%nat then mret None else
  proto ← index pkt 6;
  if decide (proto <> 6 /\ proto <> 17) then mret None else
  s ← slice pkt 8 24;
  src_ip ← ipv6_from_slice s;
  d ← slice pkt 24 40;
  dst_ip ← ipv6_from_slice d;
  match get_range pkt 40 44 with
  | None => mret None
  | Some t => flow_ports proto src_ip dst_ip t
  end.

Definition parse_flow_key (pkt : list Z) : outcome (option FlowKey) :=
  match head pkt with
  | None => mret None
  | Some b =>
      let v := Z.shiftr b 4 in
      if decide (v = 4) then parse_ipv4_flow pkt
      else if decide (v = 6) then parse_ipv6_flow pkt
      else mret None
  end.

Definition ip_to_smoltcp (a : IpAddr) : IpAddress :=
  match a with
  | V4 octets => Ipv4 octets
  | V6 segments => Ipv6 (concat (be_bytes 2 <$> segments))
  end.

Definition sock_to_smoltcp (a : SocketAddr) : IpEndpoint := Endpoint (ip_to_smoltcp (ip a)) (port a).

(** ** The actor's state *)

Inductive Msg :=
| Inbound (pkt : list Z)
| TcpData (handle : nat) (data : list Z)
| UdpReply (handle : nat) (data : list Z)
| Tick.

(** Channels to relay tasks are numbered in the order of their creation. *)
Record TcpFlow := MkTcp { t_handle : nat; t_outbound : nat; relay_started : bool; t_active : Z }.
Record UdpFlow := MkUdp { u_handle : nat; u_outbound : nat; u_active : Z }.

Inductive wevent :=
| EvEncrypt (pkt : list Z)                                 (** [encrypt_tx.send] *)
| EvTcpRelay (ch : nat) (handle : nat) (target : SocketAddr)  (** [spawn_tcp_relay] *)
| EvTcpOut (ch : nat) (data : list Z)                      (** [outbound_tx.send] of a TCP flow *)
| EvUdpRelay (ch : nat) (handle : nat)                     (** [spawn_udp_relay] *)
| EvUdpOut (ch : nat) (target : SocketAddr) (data : list Z).

Record actor (N : Type) := Actor {
  iface : VirtualIface N;
  tcp_flows : gmap FlowKey TcpFlow;
  udp_flows : gmap FlowKey UdpFlow;
  next_ch : nat;
  trace : list wevent;
}.
Arguments Actor {N} _ _ _ _ _.
Arguments iface {N} _.
Arguments tcp_flows {N} _.
Arguments udp_flows {N} _.
Arguments next_ch {N} _.
Arguments trace {N} _.

Definition actor_new {N} (n : N) : actor N := Actor (Iface VirtualDevice_new n) ∅ ∅ 0 [].

Definition TCP_IDLE : Z := 300.
Definition UDP_IDLE : Z := 60.

(** [for x in xs { f(x) }]. *)
Fixpoint for_each {S A} (f : A -> M S unit) (xs : list A) : M S unit :=
  match xs with
  | [] => mret tt
  | x :: xs => _ ← f x; for_each f xs
  end.

Section actor.
Context {N : Type} `{Smoltcp N}.
(** The order in which a map with these entries is iterated. *)
Context (order : forall V : Type, list (FlowKey * V) -> list (FlowKey * V)).

Definition iter {V} (m : gmap FlowKey V) : list (FlowKey * V) := order V (map_to_list m).

Definition set_iface (i : VirtualIface N) (s : actor N) : actor N :=
  Actor i (tcp_flows s) (udp_flows s) (next_ch s) (trace s).
Definition set_tcp (m : gmap FlowKey TcpFlow) (s : actor N) : actor N :=
  Actor (iface s) m (udp_flows s) (next_ch s) (trace s).
Definition set_udp (m : gmap FlowKey UdpFlow) (s : actor N) : actor N :=
  Actor (iface s) (tcp_flows s) m (next_ch s) (trace s).
Definition emit (e : wevent) : M (actor N) unit :=
  modify (fun s => Actor (iface s) (tcp_flows s) (udp_flows s) (next_ch s) (trace s ++ [e])).
(** [mpsc::channel]. *)
Definition channel : M (actor N) nat := fun s =>
  (Done (next_ch s), Actor (iface s) (tcp_flows s) (udp_flows s) (S (next_ch s)) (trace s)).

Definition on_iface {A} (f : VirtualIface N -> A * VirtualIface N) : M (actor N) A := fun s =>
  let '(a, i) := f (iface s) in (Done a, set_iface i s).
Definition on_sockets {A} (f : N -> A * N) : M (actor N) A :=
  on_iface (fun i => let '(a, n) := f (net i) in (a, Iface (device i) n)).
(** [iface.sockets.get_mut::<K>(handle)]. *)
Definition get_mut (K : sock_kind) (h : nat) : M (actor N) unit := fun s =>
  if decide (kind_of (net (iface s)) h = Some K) then (Done tt, s) else (Panic, s).

Definition flush_encrypt (pkts : list (list Z)) : M (actor N) unit :=
  for_each (fun pkt => emit (EvEncrypt pkt)) pkts.

(** ** Creating sockets *)

Definition ensure_tcp (now : Z) (key : FlowKey) : M (actor N) unit :=
  s ← get_st;
  if decide (is_Some (tcp_flows s !! key)) then mret tt else
  let ep := sock_to_smoltcp (dst key) in
  if negb (listen_ok ep) then mret tt else
  handle ← on_sockets (add_tcp ep);
  outbound_tx ← channel;
  modify (fun s => set_tcp (<[key := MkTcp handle outbound_tx false now]> (tcp_flows s)) s).

Definition ensure_udp (now : Z) (key : FlowKey) : M (actor N) unit :=
  s ← get_st;
  if decide (is_Some (udp_flows s !! key)) then mret tt else
  let ep := sock_to_smoltcp (dst key) in
  if negb (bind_ok ep) then mret tt else
  handle ← on_sockets (add_udp ep);
  outbound_tx ← channel;
  _ ← emit (EvUdpRelay outbound_tx handle);
  modify (fun s => set_udp (<[key := MkUdp handle outbound_tx now]> (udp_flows s)) s).

(** ** Starting TCP relays *)

(** The flows to start; [get] panics where the handle is not a TCP socket. *)
Fixpoint to_start (n : N) (flows : list (FlowKey * TcpFlow)) : outcome (list (FlowKey * nat * SocketAddr)) :=
  match flows with
  | [] => mret []
  | (k, f) :: flows =>
      if relay_started f then to_start n flows else
      if decide (kind_of n (t_handle f) = Some Tcp) then
        r ← to_start n flows;
        mret (if tcp_established n (t_handle f) then (k, t_handle f, dst k) :: r else r)
      else Panic
  end.

Definition start_relay (x : FlowKey * nat * SocketAddr) : M (actor N) unit :=
  let '(key, handle, dst) := x in
  outbound_tx ← channel;
  _ ← modify (fun s =>
    match tcp_flows s !! key with
    | Some f => set_tcp (<[key := MkTcp (t_handle f) outbound_tx true (t_active f)]> (tcp_flows s)) s
    | None => s
    end);
  emit (EvTcpRelay outbound_tx handle dst).

Definition start_tcp_relays : M (actor N) unit :=
  s ← get_st;
  xs ← lift (to_start (net (iface s)) (iter (tcp_flows s)));
  for_each start_relay xs.

(** ** Emptying receive buffers *)

(** [EvTcpOut] is the end of [outbound_tx.send(buf).await], which waits while the channel is
    full and whose error, when the relay has ended, is ignored. *)
Definition drain_tcp_flow (now : Z) (kf : FlowKey * TcpFlow) : M (actor N) unit :=
  let '(k, f) := kf in
  if negb (relay_started f) then mret tt else
  _ ← get_mut Tcp (t_handle f);
  s ← get_st;
  let n := net (iface s) in
  let recv_queue := length (tcp_queue n (t_handle f)) in
  if negb (tcp_may_recv n (t_handle f)) || bool_decide (recv_queue = 0%nat) then mret tt else
  r ← on_sockets (tcp_recv_slice recv_queue (t_handle f));
  match r with
  | None => mret tt
  | Some [] => mret tt
  | Some buf =>
      _ ← emit (EvTcpOut (t_outbound f) buf);
      modify (fun s => set_tcp (<[k := MkTcp (t_handle f) (t_outbound f) true now]> (tcp_flows s)) s)
  end.

Definition drain_tcp_recv (now : Z) : M (actor N) unit :=
  s ← get_st;
  for_each (drain_tcp_flow now) (iter (tcp_flows s)).

(** [while sock.can_recv()]: a datagram leaves the queue in every round.  [EvUdpOut] is the end
    of a [send(..).await], as for TCP. *)
Fixpoint drain_udp_loop (fuel : nat) (now : Z) (k : FlowKey) (f : UdpFlow) : M (actor N) unit :=
  match fuel with
  | O => panic
  | S fuel =>
      s ← get_st;
      if decide (udp_queue (net (iface s)) (u_handle f) = []) then mret tt else
      r ← on_sockets (udp_recv (u_handle f));
      match r with
      | None => mret tt
      | Some data =>
          _ ← emit (EvUdpOut (u_outbound f) (dst k) data);
          _ ← modify (fun s => set_udp (<[k := MkUdp (u_handle f) (u_outbound f) now]> (udp_flows s)) s);
          drain_udp_loop fuel now k f
      end
  end.

Definition drain_udp_flow (now : Z) (kf : FlowKey * UdpFlow) : M (actor N) unit :=
  let '(k, f) := kf in
  _ ← get_mut Udp (u_handle f);
  s ← get_st;
  drain_udp_loop (S (length (udp_queue (net (iface s)) (u_handle f)))) now k f.

Definition drain_udp_recv (now : Z) : M (actor N) unit :=
  s ← get_st;
  for_each (drain_udp_flow now) (iter (udp_flows s)).

(** ** Filling send buffers *)

Definition feed_tcp_send (handle : nat) (data : list Z) : M (actor N) unit :=
  _ ← get_mut Tcp handle;
  s ← get_st;
  if tcp_may_send (net (iface s)) handle then
    _ ← on_sockets (tcp_send_slice data handle); mret tt
  else mret tt.

Definition feed_udp_send (handle : nat) (peer_ep : SocketAddr) (data : list Z) : M (actor N) unit :=
  _ ← get_mut Udp handle;
  _ ← on_sockets (udp_send_slice data (sock_to_smoltcp peer_ep) handle);
  mret tt.

(** ** Eviction *)

(** [SocketSet::remove] panics on a free handle. *)
Definition remove_socket (h : nat) : M (actor N) unit := fun s =>
  match kind_of (net (iface s)) h with
  | Some _ => on_sockets (fun n => (tt, remove h n)) s
  | None => (Panic, s)
  end.

Definition evict_tcp (now : Z) (kf : FlowKey * TcpFlow) : M (actor N) unit :=
  let '(k, f) := kf in
  if decide (now - t_active f < TCP_IDLE) then mret tt else
  _ ← remove_socket (t_handle f);
  modify (fun s => set_tcp (delete k (tcp_flows s)) s).

Definition evict_udp (now : Z) (kf : FlowKey * UdpFlow) : M (actor N) unit :=
  let '(k, f) := kf in
  if decide (now - u_active f < UDP_IDLE) then mret tt else
  _ ← remove_socket (u_handle f);
  modify (fun s => set_udp (delete k (udp_flows s)) s).

Definition evict_flows (now : Z) : M (actor N) unit :=
  s ← get_st;
  _ ← for_each (evict_tcp now) (iter (tcp_flows s));
  s ← get_st;
  for_each (evict_udp now) (iter (udp_flows s)).

(** ** The loop *)

(** [udp_flows.iter().find(..)]: the source of the flow with this handle. *)
Definition find_peer_ep (handle : nat) (flows : gmap FlowKey UdpFlow) : option SocketAddr :=
  head (omap (fun kf => if decide (u_handle kf.2 = handle) then Some (src kf.1) else None) (iter flows)).

Definition poll_and_flush (now : Z) : M (actor N) unit :=
  out ← on_iface (poll_and_collect_tx now);
  flush_encrypt out.

Definition actor_step (now : Z) (m : Msg) : M (actor N) unit :=
  match m with
  | Inbound pkt =>
      key ← lift (parse_flow_key pkt);
      _ ← match key with
          | Some key =>
              if decide (proto key = 6) then ensure_tcp now key
              else if decide (proto key = 17) then ensure_udp now key
              else mret tt
          | None => mret tt
          end;
      out ← on_iface (inject_and_poll now pkt);
      _ ← flush_encrypt out;
      _ ← start_tcp_relays;
      _ ← drain_tcp_recv now;
      drain_udp_recv now
  | TcpData handle data =>
      _ ← feed_tcp_send handle data;
      poll_and_flush now
  | UdpReply handle data =>
      s ← get_st;
      _ ← match find_peer_ep handle (udp_flows s) with
          | Some peer_ep => feed_udp_send handle peer_ep data
          | None => mret tt
          end;
      poll_and_flush now
  | Tick =>
      _ ← poll_and_flush now;
      _ ← drain_tcp_recv now;
      _ ← drain_udp_recv now;
      _ ← start_tcp_relays;
      evict_flows now
  end.

(** The actor over a sequence of messages and the times it takes them at. *)
Definition run_actor (ms : list (Z * Msg)) : M (actor N) unit :=
  for_each (fun tm => actor_step tm.1 tm.2) ms.

End actor.

(** ** The relay tasks *)

(** [spawn_tcp_relay]: what the target sends becomes messages to the actor, and
    what the actor sends is written to the target while its writes succeed. *)
Definition tcp_relay (handle : nat) (connected : bool) (reads outbound : list (list Z))
    (write_ok : list Z -> bool) : list Msg * list (list Z) :=
  if connected then
    (TcpData handle <$> until_eof reads,
     (fix bwd (out : list (list Z)) :=
        match out with
        | data :: out => if write_ok data then data :: bwd out else []
        | [] => []
        end) outbound)
  else ([], []).

(** What the system does for one datagram: bind a socket if there is none of
    its family, send, and wait a second for a reply. *)
Record udp_world := UdpWorld { bind_socket : bool; send_to : bool; reply : option (list Z) }.

Inductive uaction :=
| UBind (v6 : bool)
| USend (v6 : bool) (payload : list Z) (target : SocketAddr)
| UReply (m : Msg).

Record udp_socks := UdpSocks { sock4 : bool; sock6 : bool }.

Definition is_ipv4 (a : SocketAddr) : bool := match ip a with V4 _ => true | V6 _ => false end.

Definition udp_relay_step (handle : nat) (w : udp_world) (st : udp_socks) (dst : SocketAddr)
    (payload : list Z) : list uaction * udp_socks :=
  let v6 := negb (is_ipv4 dst) in
  let bound := if v6 then sock6 st else sock4 st in
  if negb bound && negb (bind_socket w) then ([], st) else
  let st := if v6 then UdpSocks (sock4 st) true else UdpSocks true (sock6 st) in
  let acts := (if bound then [] else [UBind v6]) in
  if negb (send_to w) then (acts, st) else
  (acts ++ USend v6 payload dst ::
     match reply w with Some data => [UReply (UdpReply handle data)] | None => [] end, st).

Fixpoint udp_relay (handle : nat) (st : udp_socks) (outbound : list (udp_world * SocketAddr * list Z))
    : list uaction :=
  match outbound with
  | [] => []
  | (w, dst, payload) :: outbound =>
      let '(acts, st) := udp_relay_step handle w st dst payload in
      acts ++ udp_relay handle st outbound
  end.

(** ** Flow keys: properties *)

(** The packets a flow key is read from: the addresses at their fixed places,
    the ports at the start of what follows the header. *)
Definition ipv4_flow (pkt : list Z) (k : FlowKey) : Prop :=
  exists b0 a c so d_o tail rest sp dp,
    pkt = b0 :: a ++ proto k :: c ++ so ++ d_o ++ tail /\
    b0 / 16 = 4 /\ length a = 8%nat /\ length c = 2%nat /\ length so = 4%nat /\ length d_o = 4%nat /\
    (proto k = 6 \/ proto k = 17) /\
    drop (Z.to_nat (b0 mod 16) * 4) pkt = be_bytes 2 sp ++ be_bytes 2 dp ++ rest /\
    0 <= sp < 65536 /\ 0 <= dp < 65536 /\
    src k = SockAddr (V4 so) sp /\ dst k = SockAddr (V4 d_o) dp.

Definition ipv6_flow (pkt : list Z) (k : FlowKey) : Prop :=
  exists b0 a c so d_o sp dp rest,
    pkt = b0 :: a ++ proto k :: c ++ so ++ d_o ++ be_bytes 2 sp ++ be_bytes 2 dp ++ rest /\
    b0 / 16 = 6 /\ length a = 5%nat /\ length c = 1%nat /\ length so = 16%nat /\ length d_o = 16%nat /\
    (proto k = 6 \/ proto k = 17) /\ 0 <= sp < 65536 /\ 0 <= dp < 65536 /\
    src k = SockAddr (V6 (segments_of so)) sp /\ dst k = SockAddr (V6 (segments_of d_o)) dp.

Lemma from_be2_at l a b r i : drop i l = a :: b :: r -> from_be2 l i = Done (be_val [a; b]).
Proof.
  intros Hd. unfold from_be2.
  assert (Ha : l !! i = Some a) by (rewrite <- (Nat.add_0_r i), <- lookup_drop, Hd; done).
  assert (Hb : l !! (S i) = Some b) by (rewrite <- Nat.add_1_r, <- lookup_drop, Hd; done).
  unfold index. by rewrite Ha, Hb.
Qed.

Lemma drop_two (l : list Z) i : (i + 2 <= length l)%nat -> exists a b, drop i l = a :: b :: drop (i + 2) l.
Proof.
  intros Hl. rewrite <- drop_drop. assert (Hd : (2 <= length (drop i l))%nat) by (rewrite length_drop; lia).
  destruct (drop i l) as [|a [|b r]]; simpl in Hd; try lia. by exists a, b.
Qed.

Lemma ipv4_at_ok l i : (i + 4 <= length l)%nat -> ipv4_at l i = Done (V4 (take 4 (drop i l))).
Proof.
  intros Hl. destruct (drop_two l i) as (a & b & E1); [lia|].
  destruct (drop_two l (i + 2)) as (c & d & E2); [lia|]. rewrite E2 in E1.
  assert (Hx : forall j x, drop i l !! j = Some x -> index l (i + j) = Done x).
  { intros j x. rewrite lookup_drop. unfold index. by intros ->. }
  unfold ipv4_at. rewrite <- (Nat.add_0_r i) at 1.
  rewrite (Hx 0%nat a), (Hx 1%nat b), (Hx 2%nat c), (Hx 3%nat d) by (by rewrite E1). simpl.
  by rewrite E1.
Qed.

Lemma segments_at_ok b n i :
  (i * 2 + n * 2 <= length b)%nat ->
  segments_at b i n = Done (segments_of (take (n * 2) (drop (i * 2) b))).
Proof.
  revert i. induction n as [|n IH]; intros i Hl; simpl; [done|].
  destruct (drop_two b (i * 2)) as (x & y & E); [lia|]. erewrite from_be2_at by exact E. simpl.
  rewrite IH by lia. simpl. rewrite E. simpl.
  replace (i * 2 + 2)%nat with (S i * 2)%nat by lia. simpl. done.
Qed.

Lemma ipv6_from_slice_ok b : length b = 16%nat -> ipv6_from_slice b = Done (V6 (segments_of b)).
Proof.
  intros Hl. unfold ipv6_from_slice. rewrite segments_at_ok by lia.
  by rewrite Nat.mul_0_l, drop_0, take_ge by lia.
Qed.

Lemma flow_ports_ok p s d t :
  length t = 4%nat ->
  flow_ports p s d t =
    Done (Some (Flow p (SockAddr s (be_val (take 2 t))) (SockAddr d (be_val (drop 2 t))))).
Proof. intros Hl. by destruct t as [|a [|b [|c [|e [|]]]]]. Qed.

Lemma get_range_spec l i n t :
  get_range l i (i + n) = Some t <-> (i + n <= length l)%nat /\ t = take n (drop i l).
Proof.
  unfold get_range. replace (i + n - i)%nat with n by lia.
  case_decide; split; [intros [= <-]; split; [lia|done]|by intros [_ ->]|done|lia].
Qed.

Lemma nibble b : 0 <= b < 256 -> Z.shiftr b 4 = b / 16 /\ Z.land b 0x0f = b mod 16.
Proof.
  intros Hb. split; [by rewrite Z.shiftr_div_pow2 by lia|].
  change 0x0f with (Z.ones 4). by rewrite Z.land_ones by lia.
Qed.

Lemma split_at {A} n (l : list A) : (n <= length l)%nat -> exists l1 l2, l = l1 ++ l2 /\ length l1 = n.
Proof. intros Hl. exists (take n l), (drop n l). by rewrite take_drop, length_take_le by lia. Qed.

Lemma ports_split (t : list Z) :
  bytes_ok t -> length t = 4%nat ->
  exists sp dp, t = be_bytes 2 sp ++ be_bytes 2 dp /\ 0 <= sp < 65536 /\ 0 <= dp < 65536 /\
    be_val (take 2 t) = sp /\ be_val (drop 2 t) = dp.
Proof.
  intros Hb Hl. exists (be_val (take 2 t)), (be_val (drop 2 t)).
  assert (H1 : length (take 2 t) = 2%nat) by (rewrite length_take; lia).
  assert (H2 : length (drop 2 t) = 2%nat) by (rewrite length_drop; lia).
  pose proof (be_val_bound (take 2 t) (bytes_ok_take _ _ Hb)) as B1. rewrite H1 in B1.
  pose proof (be_val_bound (drop 2 t) (bytes_ok_drop _ _ Hb)) as B2. rewrite H2 in B2.
  rewrite !be_bytes_val by auto with bytes. rewrite take_drop. done.
Qed.

Lemma ports_val sp dp :
  0 <= sp < 65536 -> 0 <= dp < 65536 ->
  let t := be_bytes 2 sp ++ be_bytes 2 dp in
  length t = 4%nat /\ be_val (take 2 t) = sp /\ be_val (drop 2 t) = dp.
Proof.
  intros Hs Hd t. unfold t. rewrite take_app_length', drop_app_length' by (by rewrite length_be_bytes).
  rewrite length_app, !length_be_bytes, !be_val_bytes by (simpl; lia). done.
Qed.

Ltac splits l n :=
  let l1 := fresh "l1" in let l2 := fresh "l2" in let E := fresh "E" in let L := fresh "L" in
  destruct (split_at n l) as (l1 & l2 & E & L);
    [repeat match goal with H : context [length (_ ++ _)] |- _ => rewrite length_app in H end; simpl in *; lia|];
  subst l.

(** The fixed part of an IPv4 header. *)
Definition ipv4_shape (pkt : list Z) (b0 : Z) (a : list Z) (p : Z) (c so d_o tail : list Z) : Prop :=
  pkt = b0 :: a ++ p :: c ++ so ++ d_o ++ tail /\
  length a = 8%nat /\ length c = 2%nat /\ length so = 4%nat /\ length d_o = 4%nat.

Lemma ipv4_shape_exists b0 r : (20 <= length (b0 :: r))%nat -> exists a p c so d_o tail, ipv4_shape (b0 :: r) b0 a p c so d_o tail.
Proof.
  intros Hlen. simpl in Hlen. splits r 8%nat. rewrite length_app in Hlen.
  destruct l2 as [|p l2]; simpl in Hlen; [lia|]. splits l2 2%nat. rewrite length_app in Hlen.
  splits l3 4%nat. rewrite length_app in Hlen. splits l4 4%nat. by exists l1, p, l0, l2, l3, l5.
Qed.

Lemma ipv4_shape_reads pkt b0 a p c so d_o tail : ipv4_shape pkt b0 a p c so d_o tail ->
  index pkt 0 = Done b0 /\ index pkt 9 = Done p /\ take 4 (drop 12 pkt) = so /\ take 4 (drop 16 pkt) = d_o.
Proof.
  intros (-> & La & Lc & Ls & Ld). split; [done|]. split; [by apply (index_app (b0 :: a) p); simpl; lia|].
  replace (b0 :: a ++ p :: c ++ so ++ d_o ++ tail)
    with ((b0 :: a ++ p :: c) ++ so ++ d_o ++ tail) by (simpl; by rewrite <- app_assoc).
  split; [rewrite drop_app_length' by (simpl; rewrite length_app; simpl; lia); by rewrite take_app_length'|].
  rewrite app_assoc, drop_app_length' by (rewrite length_app; simpl; rewrite length_app; simpl; lia).
  by rewrite take_app_length'.
Qed.

(** What a flow of the packet must be. *)
Lemma ipv4_flow_inv pkt b0 a p c so d_o tail k :
  ipv4_shape pkt b0 a p c so d_o tail -> ipv4_flow pkt k -> proto k = p /\
  exists sp dp rest, drop (Z.to_nat (b0 mod 16) * 4) pkt = be_bytes 2 sp ++ be_bytes 2 dp ++ rest /\
    0 <= sp < 65536 /\ 0 <= dp < 65536 /\ (proto k = 6 \/ proto k = 17) /\
    src k = SockAddr (V4 so) sp /\ dst k = SockAddr (V4 d_o) dp.
Proof.
  intros (E & La & Lc & Ls & Ld)
    (b & a' & c' & so' & do' & tail' & rest & sp & dp & E' & _ & La' & Lc' & Ls' & Ld' & Hp & Hd & Hsp & Hdp & Es & Edst).
  rewrite E in E'. injection E' as Eb E'. apply app_inj_1 in E' as [-> E']; [|lia].
  injection E' as Ep E'. apply app_inj_1 in E' as [-> E']; [|lia].
  apply app_inj_1 in E' as [-> E']; [|lia]. apply app_inj_1 in E' as [-> ->]; [|lia].
  subst b. split; [done|]. exists sp, dp, rest. done.
Qed.

Lemma ipv4_flow_length pkt k : ipv4_flow pkt k -> (20 <= length pkt)%nat.
Proof.
  intros (b & a & c & so & d_o & tail & rest & sp & dp & -> & _ & La & Lc & Ls & Ld & _).
  simpl. rewrite !length_app. simpl. rewrite !length_app. lia.
Qed.

Lemma parse_ipv4_exact pkt b0 r :
  pkt = b0 :: r -> bytes_ok pkt -> b0 / 16 = 4 ->
  exists o, parse_ipv4_flow pkt = Done o /\ (forall k, o = Some k <-> ipv4_flow pkt k).
Proof.
  intros Epkt Hb Hv. unfold parse_ipv4_flow.
  assert (Hnone : (forall k, ~ ipv4_flow pkt k) ->
    exists o, mret None = Done o /\ (forall k, o = Some k <-> ipv4_flow pkt k)).
  { intros Hno. exists None. split; [done|]. intros k. split; [done|]. by intros ?%Hno. }
  case_decide as Hlen; [apply Hnone; intros k ?%ipv4_flow_length; lia|].
  destruct (ipv4_shape_exists b0 r) as (a & p & c & so & d_o & tail & Hsh); [rewrite Epkt in Hlen; lia|].
  rewrite <- Epkt in Hsh. pose proof (fun k => ipv4_flow_inv _ _ _ _ _ _ _ _ k Hsh) as Huniq.
  destruct (ipv4_shape_reads _ _ _ _ _ _ _ _ Hsh) as (E0 & E9 & Hso & Hdo).
  assert (Hb0 : 0 <= b0 < 256) by (rewrite Epkt in Hb; by inversion Hb).
  destruct (nibble b0 Hb0) as [_ Eland]. rewrite E0, E9. simpl. rewrite Eland.
  case_decide as Hp.
  { apply Hnone. intros k Hk. destruct (Huniq k Hk) as [Ek (? & ? & ? & _ & _ & _ & ? & _)]. rewrite Ek in *. lia. }
  rewrite !ipv4_at_ok by lia. simpl. rewrite Hso, Hdo.
  set (ihl := (Z.to_nat (b0 mod 16) * 4)%nat) in *.
  destruct (get_range pkt ihl (ihl + 4)) as [t|] eqn:Eg.
  - apply get_range_spec in Eg as [Hl ->].
    assert (Ht : length (take 4 (drop ihl pkt)) = 4%nat) by (rewrite length_take, length_drop; lia).
    destruct (ports_split (take 4 (drop ihl pkt))) as (sp & dp & Et & Hsp & Hdp & E1 & E2); [auto with bytes|done|].
    rewrite flow_ports_ok by done. rewrite E1, E2. eexists. split; [done|]. intros k. split.
    + intros [= <-]. destruct Hsh as (E & La & Lc & Ls & Ld).
      exists b0, a, c, so, d_o, tail, (drop (ihl + 4) pkt), sp, dp. split_and!; try done; try (cbn [proto]; lia).
      rewrite (app_assoc (be_bytes 2 sp)), <- Et, <- drop_drop. by rewrite take_drop.
    + intros Hk. destruct (Huniq k Hk) as [Ek (sp' & dp' & rest & Hd & Hsp' & Hdp' & _ & Es & Ed)].
      destruct (ports_val sp' dp' Hsp' Hdp') as (Lt & V1 & V2).
      rewrite Hd, app_assoc, take_app_length' in E1, E2 by done. rewrite V1 in E1. rewrite V2 in E2.
      destruct k as [pk sk dk]. simpl in *. by subst.
  - apply Hnone. intros k Hk. destruct (Huniq k Hk) as [_ (sp & dp & rest & Hd & _)].
    assert (Hl : (ihl + 4 <= length pkt)%nat).
    { apply (f_equal length) in Hd. rewrite length_drop, !length_app, !length_be_bytes in Hd. lia. }
    destruct (get_range_spec pkt ihl 4 (take 4 (drop ihl pkt))) as [_ Hg]. rewrite Hg in Eg by done. done.
Qed.

(** The fixed header of IPv6, and the first four bytes after it. *)
Definition ipv6_shape (pkt : list Z) (b0 : Z) (a : list Z) (p : Z) (c so d_o t rest : list Z) : Prop :=
  pkt = b0 :: a ++ p :: c ++ so ++ d_o ++ t ++ rest /\
  length a = 5%nat /\ length c = 1%nat /\ length so = 16%nat /\ length d_o = 16%nat /\ length t = 4%nat.

Lemma ipv6_shape_exists b0 r : (44 <= length (b0 :: r))%nat -> exists a p c so d_o t rest, ipv6_shape (b0 :: r) b0 a p c so d_o t rest.
Proof.
  intros Hlen. simpl in Hlen. splits r 5%nat. rewrite length_app in Hlen.
  destruct l2 as [|p l2]; simpl in Hlen; [lia|]. splits l2 1%nat. rewrite length_app in Hlen.
  splits l3 16%nat. rewrite length_app in Hlen. splits l4 16%nat. rewrite length_app in Hlen.
  splits l5 4%nat. by exists l1, p, l0, l2, l3, l4, l6.
Qed.

Lemma ipv6_shape_reads pkt b0 a p c so d_o t rest : ipv6_shape pkt b0 a p c so d_o t rest ->
  index pkt 6 = Done p /\ slice pkt 8 24 = Done so /\ slice pkt 24 40 = Done d_o /\ get_range pkt 40 44 = Some t.
Proof.
  intros (-> & La & Lc & Ls & Ld & Lt). split_and!.
  - by apply (index_app (b0 :: a) p); simpl; lia.
  - replace (b0 :: a ++ p :: c ++ so ++ d_o ++ t ++ rest)
      with ((b0 :: a ++ p :: c) ++ so ++ d_o ++ t ++ rest) by (simpl; by rewrite <- app_assoc).
    apply slice_app; simpl; rewrite ?length_app; simpl; lia.
  - replace (b0 :: a ++ p :: c ++ so ++ d_o ++ t ++ rest)
      with ((b0 :: a ++ p :: c ++ so) ++ d_o ++ t ++ rest) by (simpl; rewrite <- !app_assoc; simpl; by rewrite <- app_assoc).
    apply slice_app; simpl; rewrite ?length_app; simpl; rewrite ?length_app; lia.
  - apply (get_range_spec _ 40 4 t). split; [simpl; rewrite !length_app; simpl; rewrite !length_app; lia|].
    replace (b0 :: a ++ p :: c ++ so ++ d_o ++ t ++ rest)
      with ((b0 :: a ++ p :: c ++ so ++ d_o) ++ t ++ rest)
      by (simpl; rewrite <- !app_assoc; simpl; by rewrite <- !app_assoc).
    rewrite drop_app_length' by (simpl; rewrite ?length_app; simpl; rewrite ?length_app; lia).
    by rewrite take_app_length'.
Qed.

Lemma ipv6_shape_bytes pkt b0 a p c so d_o t rest : ipv6_shape pkt b0 a p c so d_o t rest -> bytes_ok pkt -> bytes_ok t.
Proof. intros (-> & _) Hb. rewrite Forall_cons, Forall_app, Forall_cons, !Forall_app in Hb. tauto. Qed.

Lemma ipv6_flow_inv pkt b0 a p c so d_o t rest k :
  ipv6_shape pkt b0 a p c so d_o t rest -> ipv6_flow pkt k -> proto k = p /\ (proto k = 6 \/ proto k = 17) /\
  exists sp dp, t = be_bytes 2 sp ++ be_bytes 2 dp /\ 0 <= sp < 65536 /\ 0 <= dp < 65536 /\
    src k = SockAddr (V6 (segments_of so)) sp /\ dst k = SockAddr (V6 (segments_of d_o)) dp.
Proof.
  intros (E & La & Lc & Ls & Ld & Lt)
    (b & a' & c' & so' & do' & sp & dp & rest' & E' & _ & La' & Lc' & Ls' & Ld' & Hp & Hsp & Hdp & Es & Edst).
  rewrite (app_assoc (be_bytes 2 sp)) in E'. destruct (ports_val sp dp Hsp Hdp) as [Lt' _].
  remember (be_bytes 2 sp ++ be_bytes 2 dp) as t' eqn:Et'.
  rewrite E in E'. injection E' as Eb E'. apply app_inj_1 in E' as [-> E']; [|lia].
  injection E' as Ep E'. apply app_inj_1 in E' as [-> E']; [|lia].
  apply app_inj_1 in E' as [-> E']; [|lia]. apply app_inj_1 in E' as [-> E']; [|lia].
  apply app_inj_1 in E' as [-> _]; [|lia].
  split; [done|]. split; [done|]. by exists sp, dp.
Qed.

Lemma ipv6_flow_length pkt k : ipv6_flow pkt k -> (44 <= length pkt)%nat.
Proof.
  intros (b & a & c & so & d_o & sp & dp & rest & -> & _ & La & Lc & Ls & Ld & _).
  rewrite length_cons, length_app, length_cons, !length_app, !length_be_bytes. lia.
Qed.

Lemma parse_ipv6_exact pkt b0 r :
  pkt = b0 :: r -> bytes_ok pkt -> b0 / 16 = 6 ->
  exists o, parse_ipv6_flow pkt = Done o /\ (forall k, o = Some k <-> ipv6_flow pkt k).
Proof.
  intros Epkt Hb Hv. unfold parse_ipv6_flow.
  assert (Hnone : (forall k, ~ ipv6_flow pkt k) ->
    exists o, mret None = Done o /\ (forall k, o = Some k <-> ipv6_flow pkt k)).
  { intros Hno. exists None. split; [done|]. intros k. split; [done|]. by intros ?%Hno. }
  case_decide as Hlen; [apply Hnone; intros k ?%ipv6_flow_length; lia|].
  destruct (ipv6_shape_exists b0 r) as (a & p & c & so & d_o & t & rest & Hsh); [rewrite Epkt in Hlen; lia|].
  rewrite <- Epkt in Hsh. pose proof (fun k => ipv6_flow_inv _ _ _ _ _ _ _ _ _ k Hsh) as Huniq.
  destruct (ipv6_shape_reads _ _ _ _ _ _ _ _ _ Hsh) as (E6 & Es1 & Es2 & Eg).
  pose proof (ipv6_shape_bytes _ _ _ _ _ _ _ _ _ Hsh Hb) as Hbt.
  destruct Hsh as (E & La & Lc & Ls & Ld & Lt).
  rewrite E6, Es1, Es2, Eg. simpl mbind. rewrite !ipv6_from_slice_ok by done. cbn [mbind outcome_bind bind_outcome].
  case_decide as Hp.
  { apply Hnone. intros k Hk. destruct (Huniq k Hk) as [Ek [Hp' _]]. rewrite Ek in Hp'. lia. }
  destruct (ports_split t) as (sp & dp & Et & Hsp & Hdp & E1 & E2); [done|done|].
  rewrite flow_ports_ok by done. rewrite E1, E2. eexists. split; [done|]. intros k. split.
  - intros [= <-]. exists b0, a, c, so, d_o, sp, dp, rest. split_and!; try done; try (cbn [proto]; lia).
    cbn [proto]. by rewrite (app_assoc (be_bytes 2 sp)), <- Et.
  - intros Hk. destruct (Huniq k Hk) as [Ek (_ & sp' & dp' & Et' & Hsp' & Hdp' & Es & Ed)].
    destruct (ports_val sp' dp' Hsp' Hdp') as (_ & V1 & V2).
    rewrite Et' in E1, E2. rewrite V1 in E1. rewrite V2 in E2.
    destruct k as [pk sk dk]. simpl in *. by subst.
Qed.

(** What [parse_flow_key] computes, without its panics. *)
Definition flow_of (pkt : list Z) (k : FlowKey) : Prop := ipv4_flow pkt k \/ ipv6_flow pkt k.

Lemma parse_flow_key_spec pkt :
  bytes_ok pkt -> exists o, parse_flow_key pkt = Done o /\ (forall k, o = Some k <-> flow_of pkt k).
Proof.
  intros Hb. unfold parse_flow_key, flow_of. destruct pkt as [|b0 r] eqn:Epkt; cbv beta iota zeta delta [hd_error].
  { exists None. split; [done|]. intros k. split; [done|].
    intros [H|H]; [destruct H as (?&?&?&?&?&?&?&?&?&?&_)|destruct H as (?&?&?&?&?&?&?&?&?&_)]; done. }
  rewrite <- Epkt in Hb. assert (Hb0 : 0 <= b0 < 256) by (rewrite Epkt in Hb; by inversion Hb).
  destruct (nibble b0 Hb0) as [-> _].
  assert (Hv : forall k, (ipv4_flow (b0 :: r) k -> b0 / 16 = 4) /\ (ipv6_flow (b0 :: r) k -> b0 / 16 = 6)).
  { intros k. split; [intros (?&?&?&?&?&?&?&?&?&E&V&_)|intros (?&?&?&?&?&?&?&?&E&V&_)];
      injection E as -> _; done. }
  case_decide as H4.
  { destruct (parse_ipv4_exact pkt b0 r Epkt Hb H4) as (o & Eo & Ho). rewrite Epkt in Eo, Ho.
    exists o. split; [done|]. intros k. rewrite Ho. split; [by left|]. intros [?|Hk]; [done|].
    apply Hv in Hk. lia. }
  case_decide as H6.
  { destruct (parse_ipv6_exact pkt b0 r Epkt Hb H6) as (o & Eo & Ho). rewrite Epkt in Eo, Ho.
    exists o. split; [done|]. intros k. rewrite Ho. split; [by right|]. intros [Hk|?]; [|done].
    apply Hv in Hk. lia. }
  exists None. split; [done|]. intros k. split; [done|]. intros [Hk|Hk]; apply Hv in Hk; lia.
Qed.

Lemma flow_of_proto pkt k : flow_of pkt k -> proto k = 6 \/ proto k = 17.
Proof. intros [H|H]; [destruct H as (?&?&?&?&?&?&?&?&?&?&?&?&?&?&?&?&_)|destruct H as (?&?&?&?&?&?&?&?&?&?&?&?&?&?&?&_)]; done. Qed.

(** ** The actor's invariant *)

(** The channels opened so far. *)
Definition opened (tr : list wevent) : list nat :=
  omap (fun e => match e with EvTcpRelay ch _ _ | EvUdpRelay ch _ => Some ch | _ => None end) tr.

(** When an event may follow a trace: a relay gets a new channel and connects to
    the destination of a flow in [P]; data only goes to a relay that runs, and a
    datagram to the destination of a flow in [P]. *)
Definition justified (P : FlowKey -> Prop) (tr : list wevent) (e : wevent) : Prop :=
  match e with
  | EvEncrypt _ => True
  | EvTcpRelay ch _ target => ch ∉ opened tr /\ exists k, P k /\ proto k = 6 /\ dst k = target
  | EvTcpOut ch _ => exists h target, EvTcpRelay ch h target ∈ tr
  | EvUdpRelay ch _ => ch ∉ opened tr
  | EvUdpOut ch target _ =>
      (exists h, EvUdpRelay ch h ∈ tr) /\ exists k, P k /\ proto k = 17 /\ dst k = target
  end.

Definition trace_ok (P : FlowKey -> Prop) (tr : list wevent) : Prop := history_ok (justified P) tr.

(** A packet for the peer; no connection, no datagram, no relay. *)
Definition encrypts (e : wevent) : Prop := match e with EvEncrypt _ => True | _ => False end.

Lemma opened_snoc tr e ch : ch ∈ opened (tr ++ [e]) <-> ch ∈ opened tr \/ ch ∈ opened [e].
Proof. unfold opened. by rewrite omap_app, elem_of_app. Qed.

Lemma relay_opened tr ch h target : EvTcpRelay ch h target ∈ tr -> ch ∈ opened tr.
Proof. intros He. apply list_elem_of_omap. eauto. Qed.

(** A computation that, run from a state with [I], returns, with [Q]. *)
Definition runs {N A} (I : actor N -> Prop) (m : M (actor N) A) (Q : A -> actor N -> Prop) : Prop :=
  forall s, I s -> exists a s', m s = (Done a, s') /\ Q a s'.

Lemma runs_bind {N A B} (I : actor N -> Prop) (m : M (actor N) A) (f : A -> M (actor N) B)
    (R : A -> actor N -> Prop) (Q : B -> actor N -> Prop) :
  runs I m R -> (forall a, runs (R a) (f a) Q) -> runs I (m ≫= f) Q.
Proof.
  intros Hm Hf s Hs. destruct (Hm s Hs) as (a & s1 & E & H1). destruct (Hf a s1 H1) as (b & s2 & E2 & H2).
  exists b, s2. by rewrite (bind_step _ _ _ _ _ E).
Qed.

(** A loop whose invariant speaks of the elements that are left. *)
Lemma runs_for_each {N X} (J : list X -> actor N -> Prop) f xs :
  (forall x xs, runs (J (x :: xs)) (f x) (fun _ => J xs)) -> runs (J xs) (for_each f xs) (fun _ => J []).
Proof.
  intros Hf. induction xs as [|x xs IH]; simpl; [intros s Hs; by exists tt, s|].
  eapply runs_bind; [apply Hf|]. intros []. exact IH.
Qed.

Lemma runs_for_each_inv {N X} (I : actor N -> Prop) (f : X -> M (actor N) unit) xs :
  (forall x, x ∈ xs -> runs I (f x) (fun _ => I)) -> runs I (for_each f xs) (fun _ => I).
Proof.
  induction xs as [|x xs IH]; intros Hf; simpl; [intros s Hs; by exists tt, s|].
  eapply runs_bind; [apply Hf; by left|]. intros []. apply IH. intros y Hy. apply Hf. by right.
Qed.

Section invariant.
Context {N : Type} `{Smoltcp N} `{!SmoltcpLaws N}.
Context (order : forall V : Type, list (FlowKey * V) -> list (FlowKey * V)).
Hypothesis order_perm : forall V l, order V l ≡ₚ l.
Context (P : FlowKey -> Prop).

Record inv (s : actor N) : Prop := {
  inv_tx : d_tx (device (iface s)) = [];
  inv_tcp k f : tcp_flows s !! k = Some f ->
    kind_of (net (iface s)) (t_handle f) = Some Tcp /\ P k /\ proto k = 6 /\
    (relay_started f = true -> EvTcpRelay (t_outbound f) (t_handle f) (dst k) ∈ trace s);
  inv_udp k f : udp_flows s !! k = Some f ->
    kind_of (net (iface s)) (u_handle f) = Some Udp /\ P k /\ proto k = 17 /\
    EvUdpRelay (u_outbound f) (u_handle f) ∈ trace s;
  inv_tcp_inj k1 k2 f1 f2 : tcp_flows s !! k1 = Some f1 -> tcp_flows s !! k2 = Some f2 ->
    t_handle f1 = t_handle f2 -> k1 = k2;
  inv_udp_inj k1 k2 f1 f2 : udp_flows s !! k1 = Some f1 -> udp_flows s !! k2 = Some f2 ->
    u_handle f1 = u_handle f2 -> k1 = k2;
  inv_ch ch : ch ∈ opened (trace s) -> (ch < next_ch s)%nat;
  inv_trace : trace_ok P (trace s);
}.

Lemma inv_new n : inv (actor_new n).
Proof.
  constructor; simpl; try done; try (intros * E; rewrite lookup_empty in E; done).
  - intros ch Hc. by apply elem_of_nil in Hc.
  - apply history_ok_nil.
Qed.

Lemma iter_elem {V} (m : gmap FlowKey V) k f : (k, f) ∈ iter order m <-> m !! k = Some f.
Proof. unfold iter. by rewrite order_perm, elem_of_map_to_list. Qed.

Lemma iter_nodup {V} (m : gmap FlowKey V) : NoDup (iter order m).*1.
Proof. unfold iter. rewrite order_perm. apply NoDup_fst_map_to_list. Qed.

(** *** Steps that keep the invariant *)

Lemma inv_net s i : inv s -> (forall h, kind_of (net i) h = kind_of (net (iface s)) h) ->
  d_tx (device i) = [] -> inv (set_iface i s).
Proof. intros [] Hk Hd. constructor; simpl; try done; intros *; rewrite Hk; eauto. Qed.

Definition log (e : wevent) (s : actor N) : actor N :=
  Actor (iface s) (tcp_flows s) (udp_flows s) (next_ch s) (trace s ++ [e]).

Lemma inv_log s e : inv s -> justified P (trace s) e ->
  (forall ch, ch ∈ opened [e] -> (ch < next_ch s)%nat) -> inv (log e s).
Proof.
  intros [] Hj Ho. constructor; simpl; try done.
  - intros k f Hk. destruct (inv_tcp0 k f Hk) as (? & ? & ? & Hr). split_and!; try done.
    intros Hs. apply elem_of_app. auto.
  - intros k f Hk. destruct (inv_udp0 k f Hk) as (? & ? & ? & Hr). split_and!; try done.
    apply elem_of_app. auto.
  - intros ch [?|?]%opened_snoc; auto.
  - by apply history_ok_snoc.
Qed.

Lemma inv_tcp_update s k f f' : inv s -> tcp_flows s !! k = Some f -> t_handle f' = t_handle f ->
  (relay_started f' = true -> EvTcpRelay (t_outbound f') (t_handle f') (dst k) ∈ trace s) ->
  inv (set_tcp (<[k := f']> (tcp_flows s)) s).
Proof.
  intros [] Hk Hh Hr. destruct (inv_tcp0 k f Hk) as (? & ? & ? & _).
  constructor; simpl; try done.
  - intros k' g. rewrite lookup_insert_Some. intros [[<- <-]|[_ Hg]]; [|by apply inv_tcp0].
    by split_and!; [rewrite Hh|..].
  - intros k1 k2 f1 f2. rewrite !lookup_insert_Some.
    intros [[<- <-]|[? E1]] [[<- <-]|[? E2]]; rewrite ?Hh; try done; eauto.
Qed.

Lemma inv_udp_update s k f f' : inv s -> udp_flows s !! k = Some f -> u_handle f' = u_handle f ->
  u_outbound f' = u_outbound f -> inv (set_udp (<[k := f']> (udp_flows s)) s).
Proof.
  intros [] Hk Hh Hr. destruct (inv_udp0 k f Hk) as (? & ? & ? & ?).
  constructor; simpl; try done.
  - intros k' g. rewrite lookup_insert_Some.
    intros [[<- <-]|[_ Hg]]; [by rewrite Hh, Hr; split_and!|by apply inv_udp0].
  - intros k1 k2 f1 f2. rewrite !lookup_insert_Some.
    intros [[<- <-]|[? E1]] [[<- <-]|[? E2]]; rewrite ?Hh; try done; eauto.
Qed.

(** Read the state. *)
Ltac mget :=
  match goal with |- context [(get_st ≫= ?f) ?s] => change ((get_st ≫= f) s) with (f s s); cbv beta zeta end.

Lemma on_sockets_eq {A} (f : N -> A * N) (s : actor N) a n :
  f (net (iface s)) = (a, n) -> on_sockets f s = (Done a, set_iface (Iface (device (iface s)) n) s).
Proof. intros E. unfold on_sockets, on_iface. by rewrite E. Qed.

Lemma ensure_tcp_runs now k : P k -> proto k = 6 -> runs inv (ensure_tcp now k) (fun _ => inv).
Proof.
  intros HP Hp s Hs. unfold ensure_tcp. mget.
  case_decide as Hin; [by exists tt, s|]. destruct (listen_ok _); [|by exists tt, s]. cbv beta iota delta [negb].
  destruct (add_tcp (sock_to_smoltcp (dst k)) (net (iface s))) as [h n'] eqn:Ea.
  destruct (add_tcp_kind _ _ _ _ Ea) as [Hf Hk].
  eexists tt, _. split; [apply bind_Done; eexists _, _; split; [by apply on_sockets_eq|reflexivity]|].
  destruct Hs. constructor; simpl; try done.
  - intros k' f. rewrite lookup_insert_Some. intros [[<- <-]|[_ Hg]]; simpl.
    { rewrite Hk, decide_True by done. done. }
    destruct (inv_tcp0 _ _ Hg) as (Hkd & Hrest). split; [|done]. rewrite Hk. case_decide; congruence.
  - intros k' f Hg. destruct (inv_udp0 _ _ Hg) as (Hkd & Hrest). split; [|done]. rewrite Hk. case_decide; congruence.
  - intros k1 k2 f1 f2. rewrite !lookup_insert_Some. intros [[<- <-]|[? E1]] [[<- <-]|[? E2]]; simpl; try done; eauto.
    + intros Eh. destruct (inv_tcp0 _ _ E2) as [? _]. congruence.
    + intros Eh. destruct (inv_tcp0 _ _ E1) as [? _]. congruence.
  - intros ch Hc. apply inv_ch0 in Hc. lia.
Qed.

Lemma ensure_udp_runs now k : P k -> proto k = 17 -> runs inv (ensure_udp now k) (fun _ => inv).
Proof.
  intros HP Hp s Hs. unfold ensure_udp. mget.
  case_decide as Hin; [by exists tt, s|]. destruct (bind_ok _); [|by exists tt, s]. cbv beta iota delta [negb].
  destruct (add_udp (sock_to_smoltcp (dst k)) (net (iface s))) as [h n'] eqn:Ea.
  destruct (add_udp_kind _ _ _ _ Ea) as [Hf Hk].
  eexists tt, _. split; [apply bind_Done; eexists _, _; split; [by apply on_sockets_eq|reflexivity]|].
  destruct Hs. constructor; simpl; try done.
  - intros k' f Hg. destruct (inv_tcp0 _ _ Hg) as (Hkd & ? & ? & Hr). split_and!; try done.
    { rewrite Hk. case_decide; congruence. } intros Hst. apply elem_of_app. auto.
  - intros k' f. rewrite lookup_insert_Some. intros [[<- <-]|[_ Hg]]; simpl.
    { rewrite Hk, decide_True by done. split_and!; try done. apply elem_of_app. right. by left. }
    destruct (inv_udp0 _ _ Hg) as (Hkd & ? & ? & Hr). split_and!; try done; [|apply elem_of_app; auto].
    rewrite Hk. case_decide; congruence.
  - intros k1 k2 f1 f2. rewrite !lookup_insert_Some. intros [[<- <-]|[? E1]] [[<- <-]|[? E2]]; simpl; try done; eauto.
    + intros Eh. destruct (inv_udp0 _ _ E2) as [? _]. congruence.
    + intros Eh. destruct (inv_udp0 _ _ E1) as [? _]. congruence.
  - intros ch [Hc|Hc]%opened_snoc; [apply inv_ch0 in Hc; lia|].
    apply list_elem_of_singleton in Hc. lia.
  - apply history_ok_snoc; [done|]. simpl. intros Hc. apply inv_ch0 in Hc. lia.
Qed.

(** *** Starting relays *)

(** What is left to start: different flows, with their handles. *)
Definition startable (xs : list (FlowKey * nat * SocketAddr)) (s : actor N) : Prop :=
  inv s /\ NoDup xs.*1.*1 /\
  forall k h d, (k, h, d) ∈ xs -> d = dst k /\ exists f, tcp_flows s !! k = Some f /\ t_handle f = h.

Lemma to_start_ok n (flows : list (FlowKey * TcpFlow)) :
  (forall k f, (k, f) ∈ flows -> kind_of n (t_handle f) = Some Tcp) -> NoDup flows.*1 ->
  exists xs, to_start n flows = Done xs /\ NoDup xs.*1.*1 /\
    forall k h d, (k, h, d) ∈ xs -> d = dst k /\ exists f, (k, f) ∈ flows /\ t_handle f = h.
Proof.
  induction flows as [|[k f] flows IH]; intros Hk Hn; simpl.
  { exists []. split_and!; [done|constructor|]. intros * Hx. by apply elem_of_nil in Hx. }
  apply NoDup_cons in Hn as [Hn1 Hn2].
  destruct IH as (xs & E & Hnd & Hxs); [intros; apply (Hk k0); by right|done|].
  destruct (relay_started f).
  { exists xs. split_and!; [done..|]. intros k' h d Hx. destruct (Hxs _ _ _ Hx) as (-> & g & Hg & <-).
    split; [done|]. exists g. split; [by right|done]. }
  rewrite decide_True by (apply (Hk k); by left). rewrite E. simpl.
  destruct (tcp_established n (t_handle f)); eexists; (split; [done|]).
  - split.
    + simpl. constructor; [|done]. intros ([k' h] & Ek & ([[k2 h2] d2] & Ex & Hx)%list_elem_of_fmap)%list_elem_of_fmap.
      injection Ex as -> ->. destruct (Hxs _ _ _ Hx) as (_ & g & Hg & _).
      apply Hn1. apply list_elem_of_fmap. by exists (k2, g).
    + intros k' h d [E'|Hx]%elem_of_cons; [injection E' as -> -> ->; split; [done|]; exists f; split; [by left|done]|].
      destruct (Hxs _ _ _ Hx) as (-> & g & Hg & <-). split; [done|]. exists g. split; [by right|done].
  - split; [done|]. intros k' h d Hx. destruct (Hxs _ _ _ Hx) as (-> & g & Hg & <-).
    split; [done|]. exists g. split; [by right|done].
Qed.

Lemma start_relay_runs x xs : runs (startable (x :: xs)) (start_relay x) (fun _ => startable xs).
Proof.
  intros s (Hs & Hn & Hx). destruct x as [[k h] d].
  destruct (Hx k h d ltac:(by left)) as (-> & f & Hf & <-). apply NoDup_cons in Hn as [Hn1 Hn2].
  eexists tt, _. split; [reflexivity|]. simpl. rewrite Hf. split_and!; [|done|].
  - set (s1 := Actor (iface s) (tcp_flows s) (udp_flows s) (S (next_ch s)) (trace s)).
    assert (Hl : inv (log (EvTcpRelay (next_ch s) (t_handle f) (dst k)) s1)).
    { destruct (inv_tcp s Hs k f Hf) as (_ & HP & Hp & _).
      apply inv_log.
      - destruct Hs. constructor; simpl; try done. intros ch Hc. apply inv_ch0 in Hc. lia.
      - simpl. split; [|by exists k]. intros Hc. apply (inv_ch s Hs) in Hc. lia.
      - intros ch Hc. apply list_elem_of_singleton in Hc. simpl. lia. }
    apply (inv_tcp_update _ k f (MkTcp (t_handle f) (next_ch s) true (t_active f)) Hl Hf); [done|].
    intros _. simpl. apply elem_of_app. right. by left.
  - intros k' h d Hin. destruct (Hx k' h d ltac:(by right)) as (-> & g & Hg & <-). split; [done|].
    assert (k' <> k).
    { intros ->. apply Hn1. apply list_elem_of_fmap. exists (k, t_handle g). split; [done|].
      apply list_elem_of_fmap. by exists (k, t_handle g, dst k). }
    exists g. simpl. by rewrite lookup_insert_ne by done.
Qed.

Lemma start_tcp_relays_runs : runs inv (start_tcp_relays order) (fun _ => inv).
Proof.
  intros s Hs. unfold start_tcp_relays.
  destruct (to_start_ok (net (iface s)) (iter order (tcp_flows s))) as (xs & E & Hn & Hx).
  { intros k f Hkf%iter_elem. by destruct (inv_tcp s Hs k f Hkf). }
  { apply iter_nodup. }
  destruct (runs_for_each startable start_relay xs start_relay_runs s) as (a & s' & E' & Hs' & _).
  { split_and!; [done..|]. intros k h d Hin. destruct (Hx k h d Hin) as (-> & f & Hf%iter_elem & <-). eauto. }
  exists a, s'. split; [|done]. apply bind_Done. exists s, s. split; [done|].
  apply bind_Done. exists xs, s. by rewrite E.
Qed.

(** *** Emptying buffers *)

Definition tcp_same (f f' : TcpFlow) : Prop :=
  t_handle f' = t_handle f /\ t_outbound f' = t_outbound f /\ relay_started f' = relay_started f.
Definition udp_same (f f' : UdpFlow) : Prop := u_handle f' = u_handle f /\ u_outbound f' = u_outbound f.

(** The flows a loop has still to visit are in the map, up to their activity. *)
Definition tcp_left (xs : list (FlowKey * TcpFlow)) (s : actor N) : Prop :=
  inv s /\ NoDup xs.*1 /\ forall k f, (k, f) ∈ xs -> exists f', tcp_flows s !! k = Some f' /\ tcp_same f f'.
Definition udp_left (xs : list (FlowKey * UdpFlow)) (s : actor N) : Prop :=
  inv s /\ NoDup xs.*1 /\ forall k f, (k, f) ∈ xs -> exists f', udp_flows s !! k = Some f' /\ udp_same f f'.

Lemma tcp_left_tail kf xs s : tcp_left (kf :: xs) s -> tcp_left xs s.
Proof. intros (? & [_ ?]%NoDup_cons & Hx). split_and!; [done..|]. intros k f ?. apply Hx. by right. Qed.
Lemma udp_left_tail kf xs s : udp_left (kf :: xs) s -> udp_left xs s.
Proof. intros (? & [_ ?]%NoDup_cons & Hx). split_and!; [done..|]. intros k f ?. apply Hx. by right. Qed.

(** Changing the flow at the head of the list keeps the others where they are. *)
Lemma tcp_left_update k f xs s s' :
  tcp_left ((k, f) :: xs) s -> inv s' -> (forall k', k' <> k -> tcp_flows s' !! k' = tcp_flows s !! k') ->
  tcp_left xs s'.
Proof.
  intros (_ & [Hn ?]%NoDup_cons & Hx) Hs' Hm. split_and!; [done..|]. intros k' f' Hin.
  rewrite Hm; [apply Hx; by right|]. intros ->. apply Hn. apply list_elem_of_fmap. by exists (k, f').
Qed.
Lemma udp_left_update k f xs s s' :
  udp_left ((k, f) :: xs) s -> inv s' -> (forall k', k' <> k -> udp_flows s' !! k' = udp_flows s !! k') ->
  udp_left xs s'.
Proof.
  intros (_ & [Hn ?]%NoDup_cons & Hx) Hs' Hm. split_and!; [done..|]. intros k' f' Hin.
  rewrite Hm; [apply Hx; by right|]. intros ->. apply Hn. apply list_elem_of_fmap. by exists (k, f').
Qed.

Lemma tcp_left_iter s : inv s -> tcp_left (iter order (tcp_flows s)) s.
Proof. intros Hs. split_and!; [done|apply iter_nodup|]. intros k f Hf%iter_elem. by exists f. Qed.
Lemma udp_left_iter s : inv s -> udp_left (iter order (udp_flows s)) s.
Proof. intros Hs. split_and!; [done|apply iter_nodup|]. intros k f Hf%iter_elem. by exists f. Qed.

Lemma get_mut_eq K h s : kind_of (net (iface s)) h = Some K -> get_mut K h s = (Done tt, s).
Proof. intros Hk. unfold get_mut. by rewrite decide_True. Qed.

Definition set_net (n : N) (s : actor N) : actor N := set_iface (Iface (device (iface s)) n) s.

Lemma inv_set_net s n :
  inv s -> (forall h, kind_of n h = kind_of (net (iface s)) h) -> inv (set_net n s).
Proof. intros Hs Hk. apply inv_net; [done|done|]. apply Hs. Qed.

(** One TCP flow: what its socket has received is sent on its channel. *)
Lemma drain_tcp_flow_eq now k f s f' :
  inv s -> tcp_flows s !! k = Some f' -> tcp_same f f' ->
  drain_tcp_flow now (k, f) s =
    (Done tt,
     let n := net (iface s) in
     let h := t_handle f in
     if relay_started f && tcp_may_recv n h && bool_decide (tcp_queue n h <> []) then
       set_tcp (<[k := MkTcp h (t_outbound f) true now]> (tcp_flows s))
         (log (EvTcpOut (t_outbound f) (tcp_queue n h))
            (set_net (tcp_recv_slice (length (tcp_queue n h)) h n).2 s))
     else s).
Proof.
  intros Hs Hf (Eh & Eo & Er). destruct (inv_tcp s Hs k f' Hf) as (Hk & _). rewrite Eh in Hk.
  unfold drain_tcp_flow. destruct (relay_started f); [|done]. cbv beta iota delta [negb].
  rewrite (bind_step _ _ _ _ _ (get_mut_eq _ _ _ Hk)). mget. simpl andb.
  destruct (tcp_may_recv (net (iface s)) (t_handle f)) eqn:Em; [|done]. simpl.
  case_bool_decide as Hq; case_bool_decide as Hq'; try done.
  { by apply nil_length_inv in Hq. }
  2: { by rewrite Hq' in Hq. }
  pose proof (recv_slice_data (length (tcp_queue (net (iface s)) (t_handle f))) _ _ Em Hq') as Ed.
  rewrite take_ge in Ed by done.
  destruct (tcp_recv_slice _ (t_handle f) (net (iface s))) as [o n'] eqn:Ec. simpl in Ed. subst o.
  rewrite (bind_step _ _ _ _ _ (on_sockets_eq _ _ _ _ Ec)).
  destruct (tcp_queue (net (iface s)) (t_handle f)); done.
Qed.

Lemma drain_tcp_flow_runs now x xs : runs (tcp_left (x :: xs)) (drain_tcp_flow now x) (fun _ => tcp_left xs).
Proof.
  destruct x as [k f]. intros s Hl. pose proof Hl as (Hs & _ & Hx).
  destruct (Hx k f ltac:(by left)) as (f' & Hf & Hsame).
  eexists tt, _. split; [by eapply drain_tcp_flow_eq|]. cbv zeta.
  destruct (relay_started f) eqn:Est; simpl andb; [|by eapply tcp_left_tail].
  destruct (_ && _); [|by eapply tcp_left_tail].
  eapply tcp_left_update; [done| |].
  - destruct Hsame as (Eh & Eo & Er). destruct (inv_tcp s Hs k f' Hf) as (_ & _ & _ & Hr).
    rewrite Er, Est in Hr. specialize (Hr eq_refl). rewrite Eo, Eh in Hr.
    match goal with |- inv (set_tcp _ ?s1) => apply (inv_tcp_update s1 k f') end;
      [|done|done|intros _; simpl; apply elem_of_app; by left].
    apply inv_log; [apply inv_set_net; [done|intros; apply recv_slice_kind]|by eexists _, _|].
    intros ch Hc. by apply elem_of_nil in Hc.
  - intros k' Hk'. simpl. by rewrite lookup_insert_ne.
Qed.

Lemma drain_tcp_recv_runs now : runs inv (drain_tcp_recv order now) (fun _ => inv).
Proof.
  intros s Hs. destruct (runs_for_each tcp_left _ _ (drain_tcp_flow_runs now) s (tcp_left_iter s Hs))
    as (a & s' & E & Hs' & _).
  exists a, s'. split; [|done]. apply bind_Done. by exists s, s.
Qed.

(** One UDP flow: every datagram its socket holds is sent on its channel, with
    the flow's destination, and the queue is empty afterwards. *)
Definition udp_drained (k : FlowKey) (f : UdpFlow) (s s' : actor N) : Prop :=
  inv s' /\
  (forall k', k' <> k -> udp_flows s' !! k' = udp_flows s !! k') /\
  (exists f', udp_flows s' !! k = Some f' /\ udp_same f f') /\
  trace s' = trace s ++ (EvUdpOut (u_outbound f) (dst k) <$> udp_queue (net (iface s)) (u_handle f)) /\
  (forall h, udp_queue (net (iface s')) h =
     if decide (h = u_handle f) then [] else udp_queue (net (iface s)) h).

Lemma inv_udp_out s k f f' data : inv s -> udp_flows s !! k = Some f' -> udp_same f f' ->
  inv (log (EvUdpOut (u_outbound f) (dst k) data) s).
Proof.
  intros Hs Hf (Eh & Eo). destruct (inv_udp s Hs k f' Hf) as (_ & HP & Hp & Hr). rewrite Eo, Eh in Hr.
  apply inv_log; [done| |intros ch Hc; by apply elem_of_nil in Hc].
  simpl. split; [by eexists|by exists k].
Qed.

Lemma drain_udp_loop_runs now k f f' q s :
  inv s -> udp_flows s !! k = Some f' -> udp_same f f' -> udp_queue (net (iface s)) (u_handle f) = q ->
  exists s', drain_udp_loop (S (length q)) now k f s = (Done tt, s') /\ udp_drained k f s s'.
Proof.
  revert s f'. induction q as [|d q IH]; intros s f' Hs Hf Hsame Hq; cbn [drain_udp_loop length]; mget.
  { rewrite decide_True by done. exists s. split; [done|]. split_and!; [done|done|by exists f'| |].
    - by rewrite Hq, app_nil_r.
    - intros h. case_decide; [by subst|done]. }
  rewrite decide_False by (by rewrite Hq).
  pose proof (udp_recv_data (u_handle f) (net (iface s))) as Ed. rewrite Hq in Ed.
  pose proof (udp_recv_queue (u_handle f) (net (iface s))) as Eq.
  pose proof (udp_recv_kind (u_handle f) (net (iface s))) as Ek.
  destruct (udp_recv (u_handle f) (net (iface s))) as [o n'] eqn:Er. simpl in Ed, Eq, Ek. subst o.
  rewrite (bind_step _ _ _ _ _ (on_sockets_eq _ _ _ _ Er)). cbv beta iota.
  set (s1 := set_net n' s).
  set (f1 := MkUdp (u_handle f) (u_outbound f) now).
  set (s2 := set_udp (<[k := f1]> (udp_flows s)) (log (EvUdpOut (u_outbound f) (dst k) d) s1)).
  assert (Hs2 : inv s2).
  { apply (inv_udp_update (log (EvUdpOut (u_outbound f) (dst k) d) s1) k f'); [|done|by destruct Hsame..].
    eapply inv_udp_out; [by apply inv_set_net|done|done]. }
  destruct (IH s2 f1) as (s' & E & Hs' & Hm & Hf' & Ht & Hqs); [done|apply lookup_insert_eq|done| |].
  { simpl. by rewrite Eq, decide_True, Hq by done. }
  exists s'. split; [exact E|]. split_and!; [done| |done| |].
  - intros k' Hk'. rewrite Hm by done. simpl. by rewrite lookup_insert_ne.
  - rewrite Ht, Hq. simpl. rewrite Eq, decide_True, Hq by done. simpl. by rewrite <- app_assoc.
  - intros h. rewrite Hqs. simpl. rewrite Eq. by case_decide.
Qed.

Lemma drain_udp_flow_eq now k f s f' :
  inv s -> udp_flows s !! k = Some f' -> udp_same f f' ->
  exists s', drain_udp_flow now (k, f) s = (Done tt, s') /\ udp_drained k f s s'.
Proof.
  intros Hs Hf Hsame. destruct (inv_udp s Hs k f' Hf) as (Hk & _). destruct Hsame as [Eh Eo].
  unfold drain_udp_flow. rewrite Eh in Hk. rewrite (bind_step _ _ _ _ _ (get_mut_eq _ _ _ Hk)). mget.
  by eapply drain_udp_loop_runs.
Qed.

Lemma drain_udp_flow_runs now x xs : runs (udp_left (x :: xs)) (drain_udp_flow now x) (fun _ => udp_left xs).
Proof.
  destruct x as [k f]. intros s Hl. pose proof Hl as (Hs & _ & Hx).
  destruct (Hx k f ltac:(by left)) as (f' & Hf & Hsame).
  destruct (drain_udp_flow_eq now k f s f' Hs Hf Hsame) as (s' & E & Hs' & Hm & _).
  exists tt, s'. split; [done|]. by eapply udp_left_update.
Qed.

Lemma drain_udp_recv_runs now : runs inv (drain_udp_recv order now) (fun _ => inv).
Proof.
  intros s Hs. destruct (runs_for_each udp_left _ _ (drain_udp_flow_runs now) s (udp_left_iter s Hs))
    as (a & s' & E & Hs' & _).
  exists a, s'. split; [|done]. apply bind_Done. by exists s, s.
Qed.

(** *** Eviction, polling and the whole step *)

Lemma remove_socket_eq h K s : kind_of (net (iface s)) h = Some K ->
  remove_socket h s = (Done tt, set_net (remove h (net (iface s))) s).
Proof. intros Hk. unfold remove_socket. by rewrite Hk. Qed.

Lemma evict_tcp_runs now x xs : runs (tcp_left (x :: xs)) (evict_tcp now x) (fun _ => tcp_left xs).
Proof.
  destruct x as [k f]. intros s Hl. pose proof Hl as (Hs & _ & Hx).
  destruct (Hx k f ltac:(by left)) as (f' & Hf & Eh & _).
  unfold evict_tcp. case_decide; [exists tt, s; split; [done|by eapply tcp_left_tail]|].
  destruct (inv_tcp s Hs k f' Hf) as (Hk & _). rewrite Eh in Hk.
  eexists tt, _. split; [apply bind_Done; eexists _, _; split; [by eapply remove_socket_eq|reflexivity]|].
  eapply tcp_left_update; [done| |].
  - destruct Hs. constructor; simpl; try done.
    + intros k1 g. rewrite lookup_delete_Some. intros [Hne Hg]. destruct (inv_tcp0 k1 g Hg) as (Hkd & ?).
      split; [|done]. rewrite remove_kind, decide_False; [done|]. intros E. rewrite <- Eh in E.
      by apply Hne, (inv_tcp_inj0 k k1 f' g).
    + intros k1 g Hg. destruct (inv_udp0 k1 g Hg) as (Hkd & ?). split; [|done].
      rewrite remove_kind, decide_False; [done|]. intros E. congruence.
    + intros k1 k2 f1 f2. rewrite !lookup_delete_Some. intros [_ ?] [_ ?]. eauto.
  - intros k' Hk'. simpl. by rewrite lookup_delete_ne.
Qed.

Lemma evict_udp_runs now x xs : runs (udp_left (x :: xs)) (evict_udp now x) (fun _ => udp_left xs).
Proof.
  destruct x as [k f]. intros s Hl. pose proof Hl as (Hs & _ & Hx).
  destruct (Hx k f ltac:(by left)) as (f' & Hf & Eh & _).
  unfold evict_udp. case_decide; [exists tt, s; split; [done|by eapply udp_left_tail]|].
  destruct (inv_udp s Hs k f' Hf) as (Hk & _). rewrite Eh in Hk.
  eexists tt, _. split; [apply bind_Done; eexists _, _; split; [by eapply remove_socket_eq|reflexivity]|].
  eapply udp_left_update; [done| |].
  - destruct Hs. constructor; simpl; try done.
    + intros k1 g Hg. destruct (inv_tcp0 k1 g Hg) as (Hkd & ?). split; [|done].
      rewrite remove_kind, decide_False; [done|]. intros E. congruence.
    + intros k1 g. rewrite lookup_delete_Some. intros [Hne Hg]. destruct (inv_udp0 k1 g Hg) as (Hkd & ?).
      split; [|done]. rewrite remove_kind, decide_False; [done|]. intros E. rewrite <- Eh in E.
      by apply Hne, (inv_udp_inj0 k k1 f' g).
    + intros k1 k2 f1 f2. rewrite !lookup_delete_Some. intros [_ ?] [_ ?]. eauto.
  - intros k' Hk'. simpl. by rewrite lookup_delete_ne.
Qed.

Lemma runs_get {A} (I : actor N -> Prop) (f : actor N -> M (actor N) A) Q :
  (forall s0, I s0 -> runs (fun s => s = s0) (f s0) Q) -> runs I (get_st ≫= f) Q.
Proof. intros Hf s Hs. mget. by apply (Hf s Hs). Qed.

Lemma runs_weaken {A} (I J : actor N -> Prop) (m : M (actor N) A) Q R :
  runs I m Q -> (forall s, J s -> I s) -> (forall a s, Q a s -> R a s) -> runs J m R.
Proof. intros Hm HJ HR s Hs. destruct (Hm s (HJ s Hs)) as (a & s' & ? & ?). exists a, s'. auto. Qed.

Lemma evict_flows_runs now : runs inv (evict_flows order now) (fun _ => inv).
Proof.
  apply runs_get. intros s0 Hs0.
  eapply runs_bind with (R := fun _ => inv); [eapply runs_weaken; [apply runs_for_each; apply evict_tcp_runs| |]|].
  - intros s ->. by apply tcp_left_iter.
  - intros [] s Hs. exact (proj1 Hs).
  - intros []. apply runs_get. intros s1 Hs1.
    eapply runs_weaken; [apply runs_for_each; apply evict_udp_runs| |].
    + intros s ->. by apply udp_left_iter.
    + intros [] s Hs. exact (proj1 Hs).
Qed.

Lemma flush_runs pkts : runs inv (flush_encrypt pkts) (fun _ => inv).
Proof.
  apply runs_for_each_inv. intros pkt _ s Hs. eexists tt, _. split; [reflexivity|].
  apply (inv_log s (EvEncrypt pkt) Hs); [done|]. intros ch Hc. by apply elem_of_nil in Hc.
Qed.

(** Polling, from a state whose transmit queue is empty. *)
Lemma on_iface_runs (f : VirtualIface N -> list (list Z) * VirtualIface N) :
  (forall rx n, let i := (f (Iface (Device rx []) n)).2 in
     d_tx (device i) = [] /\ forall h, kind_of (net i) h = kind_of n h) ->
  runs inv (on_iface f) (fun _ => inv).
Proof.
  intros Hf s Hs. unfold on_iface. destruct (iface s) as [[rx tx] n] eqn:Ei.
  assert (tx = []) as ->. { pose proof (inv_tx s Hs) as Ht. by rewrite Ei in Ht. }
  destruct (Hf rx n) as [Hd Hk]. destruct (f _) as [out i]. exists out, (set_iface i s). split; [done|].
  apply inv_net; [done| |done]. intros h. by rewrite Hk, Ei.
Qed.

Lemma inject_runs now pkt : runs inv (on_iface (inject_and_poll now pkt)) (fun _ => inv).
Proof.
  apply on_iface_runs. intros rx n. rewrite inject_and_poll_result. simpl. split; [done|].
  intros h. apply poll_kind.
Qed.

Lemma poll_and_flush_runs now : runs inv (poll_and_flush now) (fun _ => inv).
Proof.
  eapply runs_bind; [|intros out; apply flush_runs].
  apply on_iface_runs. intros rx n. rewrite poll_and_collect_result. simpl. split; [done|].
  intros h. apply poll_kind.
Qed.

Lemma sockets_runs {A} (f : N -> A * N) :
  (forall n h, kind_of (f n).2 h = kind_of n h) -> runs inv (on_sockets f) (fun _ => inv).
Proof.
  intros Hf s Hs. destruct (f (net (iface s))) as [a n] eqn:E. exists a, (set_net n s).
  split; [by apply on_sockets_eq|]. apply inv_set_net; [done|]. intros h. rewrite <- (Hf (net (iface s)) h). by rewrite E.
Qed.

Lemma runs_lift {A B} (I : actor N -> Prop) (o : outcome A) (a : A) (f : A -> M (actor N) B) Q :
  o = Done a -> runs I (f a) Q -> runs I (lift o ≫= f) Q.
Proof. intros -> Hf. exact Hf. Qed.

Lemma runs_ret {A} (I : actor N -> Prop) (a : A) : runs I (mret a) (fun _ => I).
Proof. intros s Hs. by exists a, s. Qed.

Lemma feed_udp_runs h ep data s : inv s -> kind_of (net (iface s)) h = Some Udp ->
  exists s', feed_udp_send h ep data s = (Done tt, s') /\ inv s'.
Proof.
  intros Hs Hk. unfold feed_udp_send. rewrite (bind_step _ _ _ _ _ (get_mut_eq _ _ _ Hk)).
  destruct (sockets_runs (udp_send_slice data (sock_to_smoltcp ep) h)
    ltac:(intros; apply udp_send_kind) s Hs) as (a & s' & E & Hs').
  exists s'. rewrite (bind_step _ _ _ _ _ E). done.
Qed.

Lemma feed_tcp_runs h data s : inv s -> kind_of (net (iface s)) h = Some Tcp ->
  exists s', feed_tcp_send h data s = (Done tt, s') /\ inv s'.
Proof.
  intros Hs Hk. unfold feed_tcp_send. rewrite (bind_step _ _ _ _ _ (get_mut_eq _ _ _ Hk)). mget.
  destruct (tcp_may_send _ h); [|by exists s].
  destruct (sockets_runs (tcp_send_slice data h) ltac:(intros; apply send_slice_kind) s Hs) as (a & s' & E & Hs').
  exists s'. rewrite (bind_step _ _ _ _ _ E). done.
Qed.

Lemma find_peer_ep_some h (flows : gmap FlowKey UdpFlow) ep :
  find_peer_ep order h flows = Some ep -> exists k f, flows !! k = Some f /\ u_handle f = h /\ src k = ep.
Proof.
  unfold find_peer_ep. intros E. apply head_Some_elem_of in E. apply list_elem_of_omap in E as ([k f] & Hin & E).
  simpl in E. case_decide; [|done]. injection E as <-. apply iter_elem in Hin. by exists k, f.
Qed.

(** What a packet may ask for. *)
Definition admissible (m : Msg) : Prop :=
  match m with
  | Inbound pkt => bytes_ok pkt /\ forall k, flow_of pkt k -> P k
  | _ => True
  end.

(** The message cannot be delivered: its handle is not a TCP socket any more. *)
Definition stale (m : Msg) (s : actor N) : Prop :=
  match m with TcpData h _ => kind_of (net (iface s)) h <> Some Tcp | _ => False end.

Lemma actor_step_runs now m s : inv s -> admissible m -> ~ stale m s ->
  exists s', actor_step order now m s = (Done tt, s') /\ inv s'.
Proof.
  intros Hs Hm Hst. destruct m as [pkt|h data|h data|].
  - destruct Hm as [Hb HP]. destruct (parse_flow_key_spec pkt Hb) as (o & Eo & Ho).
    assert (Hr : runs inv (actor_step order now (Inbound pkt)) (fun _ => inv)).
    { eapply runs_lift; [exact Eo|]. eapply runs_bind with (R := fun _ => inv).
      { destruct o as [k|]; [|apply runs_ret]. pose proof (proj1 (Ho k) eq_refl) as Hk.
        pose proof (HP k Hk) as HPk. case_decide; [by apply ensure_tcp_runs|].
        case_decide; [by apply ensure_udp_runs|apply runs_ret]. }
      intros []. eapply runs_bind; [apply inject_runs|]. intros out.
      eapply runs_bind; [apply flush_runs|]. intros [].
      eapply runs_bind; [apply start_tcp_relays_runs|]. intros [].
      eapply runs_bind; [apply drain_tcp_recv_runs|]. intros []. apply drain_udp_recv_runs. }
    destruct (Hr s Hs) as ([] & s' & E & Hs'). eauto.
  - simpl in Hst. destruct (decide (kind_of (net (iface s)) h = Some Tcp)) as [Hk|]; [|done].
    destruct (feed_tcp_runs h data s Hs Hk) as (s1 & E1 & Hs1).
    destruct (poll_and_flush_runs now s1 Hs1) as ([] & s' & E & Hs').
    exists s'. simpl. by rewrite (bind_step _ _ _ _ _ E1).
  - simpl actor_step. mget. destruct (find_peer_ep order h (udp_flows s)) as [ep|] eqn:Ef.
    + destruct (find_peer_ep_some _ _ _ Ef) as (k & f & Hf & <- & _).
      destruct (inv_udp s Hs k f Hf) as [Hk _].
      destruct (feed_udp_runs _ ep data s Hs Hk) as (s1 & E1 & Hs1).
      destruct (poll_and_flush_runs now s1 Hs1) as ([] & s' & E & Hs').
      exists s'. by rewrite (bind_step _ _ _ _ _ E1).
    + destruct (poll_and_flush_runs now s Hs) as ([] & s' & E & Hs'). by exists s'.
  - assert (Hr : runs inv (actor_step order now Tick) (fun _ => inv)).
    { eapply runs_bind; [apply poll_and_flush_runs|]. intros [].
      eapply runs_bind; [apply drain_tcp_recv_runs|]. intros [].
      eapply runs_bind; [apply drain_udp_recv_runs|]. intros [].
      eapply runs_bind; [apply start_tcp_relays_runs|]. intros []. apply evict_flows_runs. }
    destruct (Hr s Hs) as ([] & s' & E & Hs'). eauto.
Qed.

(** *** Runs of the actor *)

Lemma actor_step_stale now m s : stale m s -> actor_step order now m s = (Panic, s).
Proof.
  destruct m; try done. intros Hk. unfold stale in Hk. simpl. unfold feed_tcp_send, mbind, M_bind, get_mut.
  by rewrite decide_False.
Qed.

Lemma bind_panic {S A B} (m : M S A) (f : A -> M S B) s s1 :
  m s = (Panic, s1) -> (m ≫= f) s = (Panic, s1).
Proof. intros E. unfold mbind, M_bind. by rewrite E. Qed.

Lemma run_actor_inv ms s o s' :
  inv s -> Forall (fun tm => admissible tm.2) ms -> run_actor order ms s = (o, s') ->
  inv s' /\ (o = Done tt \/ o = Panic /\ exists t h data, (t, TcpData h data) ∈ ms /\
    kind_of (net (iface s')) h <> Some Tcp).
Proof.
  revert s. induction ms as [|[t m] ms IH]; intros s Hs Hms; [intros [= <- <-]; auto|].
  change (run_actor order ((t, m) :: ms) s) with ((actor_step order t m ≫= fun _ => run_actor order ms) s).
  apply Forall_cons in Hms as [Hm Hms].
  assert (Hd : Decision (stale m s)) by (destruct m; simpl; apply _). destruct (decide (stale m s)) as [Hst|Hst].
  - rewrite (bind_panic _ _ _ _ (actor_step_stale t m s Hst)). intros [= <- <-].
    split; [done|]. right. split; [done|]. destruct m as [|h data| |]; try done.
    exists t, h, data. split; [by left|done].
  - destruct (actor_step_runs t m s Hs Hm Hst) as (s1 & E1 & Hs1).
    rewrite (bind_step _ _ _ _ _ E1). intros E. destruct (IH s1 Hs1 Hms E) as [Hs' Ho].
    split; [done|]. destruct Ho as [?|(? & t' & h & data & ? & ?)]; [by left|].
    right. split; [done|]. exists t', h, data. split; [by right|done].
Qed.

(** *** What reaches the relays *)

(** The bytes sent on a TCP flow's channel, and the datagrams on a UDP flow's. *)
Definition tcp_sent (ch : nat) (tr : list wevent) : list Z :=
  concat (omap (fun e => match e with EvTcpOut c d => if decide (c = ch) then Some d else None | _ => None end) tr).
Definition udp_sent (ch : nat) (tr : list wevent) : list (SocketAddr * list Z) :=
  omap (fun e => match e with EvUdpOut c a d => if decide (c = ch) then Some (a, d) else None | _ => None end) tr.

Lemma tcp_sent_app ch t1 t2 : tcp_sent ch (t1 ++ t2) = tcp_sent ch t1 ++ tcp_sent ch t2.
Proof. unfold tcp_sent. by rewrite omap_app, concat_app. Qed.
Lemma udp_sent_app ch t1 t2 : udp_sent ch (t1 ++ t2) = udp_sent ch t1 ++ udp_sent ch t2.
Proof. unfold udp_sent. by rewrite omap_app. Qed.

Lemma tcp_sent_one ch c d : tcp_sent ch [EvTcpOut c d] = if decide (c = ch) then d else [].
Proof. unfold tcp_sent. simpl. case_decide; simpl; [by rewrite app_nil_r|done]. Qed.

Lemma udp_sent_map ch c a ds :
  udp_sent ch (EvUdpOut c a <$> ds) = if decide (c = ch) then (a,.) <$> ds else [].
Proof.
  induction ds as [|d ds IH]; [by case_decide|].
  change (EvUdpOut c a <$> d :: ds) with ([EvUdpOut c a d] ++ (EvUdpOut c a <$> ds)).
  rewrite udp_sent_app, IH. unfold udp_sent. simpl. by case_decide.
Qed.

(** A channel belongs to one relay. *)
Lemma trace_ok_unique tr e1 e2 ch : trace_ok P tr -> e1 ∈ tr -> e2 ∈ tr ->
  opened [e1] = [ch] -> opened [e2] = [ch] -> e1 = e2.
Proof.
  intros Ht H1 H2 O1 O2. apply list_elem_of_split in H1 as (a & b & ->).
  assert (Hj : forall pre e post, a ++ e1 :: b = pre ++ e :: post -> opened [e] = [ch] -> ch ∉ opened pre).
  { intros pre e post E O. specialize (Ht pre e post E). destruct e; simpl in O; try done; injection O as ->; [by destruct Ht|exact Ht]. }
  apply elem_of_app in H2 as [H2|[->|H2]%elem_of_cons]; [|done|].
  - exfalso. apply (Hj a e1 b eq_refl O1). apply list_elem_of_split in H2 as (c & d & ->).
    unfold opened in *. rewrite omap_app. apply elem_of_app. right. simpl in *. destruct e2; simpl in *; simplify_eq; by left.
  - exfalso. apply list_elem_of_split in H2 as (c & d & ->).
    apply (Hj (a ++ e1 :: c) e2 d); [by rewrite <- app_assoc|done|].
    unfold opened in *. rewrite omap_app. apply elem_of_app. right. simpl in *. destruct e1; simpl in *; simplify_eq; by left.
Qed.

Lemma tcp_channels s k1 k2 f1 f2 : inv s -> tcp_flows s !! k1 = Some f1 -> tcp_flows s !! k2 = Some f2 ->
  relay_started f1 = true -> relay_started f2 = true -> t_outbound f1 = t_outbound f2 -> k1 = k2.
Proof.
  intros Hs H1 H2 R1 R2 Ec. destruct (inv_tcp s Hs _ _ H1) as (_ & _ & _ & E1).
  destruct (inv_tcp s Hs _ _ H2) as (_ & _ & _ & E2). specialize (E1 R1). specialize (E2 R2). rewrite Ec in E1.
  pose proof (trace_ok_unique _ _ _ (t_outbound f2) (inv_trace s Hs) E1 E2 eq_refl eq_refl) as [= E _].
  by eapply (inv_tcp_inj s Hs).
Qed.

Lemma udp_channels s k1 k2 f1 f2 : inv s -> udp_flows s !! k1 = Some f1 -> udp_flows s !! k2 = Some f2 ->
  u_outbound f1 = u_outbound f2 -> k1 = k2.
Proof.
  intros Hs H1 H2 Ec. destruct (inv_udp s Hs _ _ H1) as (_ & _ & _ & E1).
  destruct (inv_udp s Hs _ _ H2) as (_ & _ & _ & E2). rewrite Ec in E1.
  pose proof (trace_ok_unique _ _ _ (u_outbound f2) (inv_trace s Hs) E1 E2 eq_refl eq_refl) as [= E].
  by eapply (inv_udp_inj s Hs).
Qed.

(** The TCP loop, from [s0], with the flows [xs] left: the others' data is sent. *)
Definition tcp_progress (s0 : actor N) (xs : list (FlowKey * TcpFlow)) (s : actor N) : Prop :=
  tcp_left xs s /\ (forall k f, (k, f) ∈ xs -> tcp_flows s0 !! k = Some f) /\
  udp_flows s = udp_flows s0 /\
  (forall h, udp_queue (net (iface s)) h = udp_queue (net (iface s0)) h) /\
  (forall ch, udp_sent ch (trace s) = udp_sent ch (trace s0)) /\
  forall k f, tcp_flows s0 !! k = Some f -> relay_started f = true ->
    tcp_may_recv (net (iface s0)) (t_handle f) = true ->
    if decide (k ∈ xs.*1) then
      tcp_sent (t_outbound f) (trace s) = tcp_sent (t_outbound f) (trace s0) /\
      tcp_queue (net (iface s)) (t_handle f) = tcp_queue (net (iface s0)) (t_handle f) /\
      tcp_may_recv (net (iface s)) (t_handle f) = true
    else
      tcp_sent (t_outbound f) (trace s) =
        tcp_sent (t_outbound f) (trace s0) ++ tcp_queue (net (iface s0)) (t_handle f) /\
      tcp_queue (net (iface s)) (t_handle f) = [].

Lemma tcp_progress_step s0 now x xs : inv s0 ->
  runs (tcp_progress s0 (x :: xs)) (drain_tcp_flow now x) (fun _ => tcp_progress s0 xs).
Proof.
  intros Hs0 s (Hl & Hx0 & Hu & Huq & Hus & Hp). destruct x as [k1 f1].
  assert (Hk1 : tcp_flows s0 !! k1 = Some f1) by (apply Hx0; by left).
  pose proof Hl as (Hs & [Hn1 _]%NoDup_cons & Hx). destruct (Hx k1 f1 ltac:(by left)) as (f' & Hf & Hsame).
  destruct (drain_tcp_flow_runs now (k1, f1) xs s Hl) as ([] & s' & E & Hl').
  exists tt, s'. split; [done|]. rewrite (drain_tcp_flow_eq now k1 f1 s f' Hs Hf Hsame) in E.
  injection E as E. split; [done|]. split; [intros; apply Hx0; by right|].
  assert (Hother : forall k, k <> k1 -> (k ∈ (k1 :: xs.*1) <-> k ∈ xs.*1)).
  { intros k Hne. rewrite elem_of_cons. naive_solver. }
  set (n := net (iface s)) in *. set (h := t_handle f1) in *.
  destruct (relay_started f1 && tcp_may_recv n h && bool_decide (tcp_queue n h <> [])) eqn:Ec; subst s'.
  - apply andb_true_iff in Ec as [[Est Em]%andb_true_iff Eq%bool_decide_eq_true]. simpl.
    assert (Hq := fun h' => recv_slice_queue (length (tcp_queue n h)) h n h' Em).
    split_and!; [done| | |].
    { intros h'. rewrite recv_slice_udp. apply Huq. }
    { intros ch. rewrite udp_sent_app, Hus. unfold udp_sent at 2. simpl. by rewrite app_nil_r. }
    intros k f Hk Hst Hm. specialize (Hp k f Hk Hst Hm). rewrite tcp_sent_app, tcp_sent_one.
    destruct (decide (k = k1)) as [->|Hne].
    + replace f with f1 in * by congruence. rewrite (decide_False (P := k1 ∈ xs.*1)) by done.
      rewrite decide_True in Hp by (by left). destruct Hp as (Hp1 & Hp2 & _). fold n h in Hp2 |- *.
      rewrite decide_True by done. rewrite Hp1, (proj1 (Hq h)), decide_True, drop_ge, Hp2 by done. done.
    + assert (Hh : t_handle f <> h). { intros E. apply Hne. by eapply (inv_tcp_inj s0 Hs0). }
      rewrite (decide_False (P := t_outbound f1 = t_outbound f)), app_nil_r
        by (intros E; apply Hne; by eapply (tcp_channels s0)).
      destruct (Hq (t_handle f)) as [-> Hmr]. rewrite (decide_False (P := t_handle f = h)), Hmr by done.
      simpl in Hp. rewrite (decide_ext _ _ _ _ (Hother k Hne)) in Hp. done.
  - split_and!; [done..|]. intros k f Hk Hst Hm. specialize (Hp k f Hk Hst Hm).
    destruct (decide (k = k1)) as [->|Hne].
    + replace f with f1 in * by congruence. rewrite decide_True in Hp by (by left).
      destruct Hp as (Hp1 & Hp2 & Hp3). fold n h in Hp2, Hp3 |- *. rewrite decide_False by done.
      rewrite Hst, Hp3 in Ec. simpl in Ec. apply bool_decide_eq_false, dec_stable in Ec.
      rewrite <- Hp2, Ec, app_nil_r. done.
    + simpl in Hp. rewrite (decide_ext _ _ _ _ (Hother k Hne)) in Hp. done.
Qed.

(** The UDP loop, in the same form. *)
Definition udp_progress (s0 : actor N) (xs : list (FlowKey * UdpFlow)) (s : actor N) : Prop :=
  udp_left xs s /\ (forall k f, (k, f) ∈ xs -> udp_flows s0 !! k = Some f) /\
  (forall ch, tcp_sent ch (trace s) = tcp_sent ch (trace s0)) /\
  (forall k f, udp_flows s0 !! k = Some f ->
    if decide (k ∈ xs.*1) then
      udp_sent (u_outbound f) (trace s) = udp_sent (u_outbound f) (trace s0) /\
      udp_queue (net (iface s)) (u_handle f) = udp_queue (net (iface s0)) (u_handle f)
    else
      udp_sent (u_outbound f) (trace s) = udp_sent (u_outbound f) (trace s0) ++
        ((dst k,.) <$> udp_queue (net (iface s0)) (u_handle f)) /\
      udp_queue (net (iface s)) (u_handle f) = []).

Lemma tcp_sent_udp ch c a ds : tcp_sent ch (EvUdpOut c a <$> ds) = [].
Proof. unfold tcp_sent. induction ds as [|d ds IH]; [done|]. simpl. exact IH. Qed.

Lemma udp_progress_step s0 now x xs : inv s0 ->
  runs (udp_progress s0 (x :: xs)) (drain_udp_flow now x) (fun _ => udp_progress s0 xs).
Proof.
  intros Hs0 s (Hl & Hx0 & Ht & Hp). destruct x as [k1 f1].
  assert (Hk1 : udp_flows s0 !! k1 = Some f1) by (apply Hx0; by left).
  pose proof Hl as (Hs & [Hn1 _]%NoDup_cons & Hx). destruct (Hx k1 f1 ltac:(by left)) as (f' & Hf & Hsame).
  destruct (drain_udp_flow_eq now k1 f1 s f' Hs Hf Hsame) as (s' & E & Hs' & Hm & _ & Etr & Eq).
  exists tt, s'. split; [done|]. split; [by eapply udp_left_update|].
  split; [intros; apply Hx0; by right|]. split.
  { intros ch. by rewrite Etr, tcp_sent_app, tcp_sent_udp, app_nil_r. }
  intros k f Hk. specialize (Hp k f Hk). rewrite Etr, udp_sent_app, udp_sent_map, Eq.
  destruct (decide (k = k1)) as [->|Hne].
  - replace f with f1 in * by congruence. rewrite (decide_False (P := k1 ∈ xs.*1)) by done.
    rewrite decide_True in Hp by (by left). destruct Hp as (Hp1 & Hp2).
    by rewrite !decide_True, Hp1, Hp2 by done.
  - assert (Hh : u_handle f <> u_handle f1). { intros E'. apply Hne. by eapply (inv_udp_inj s0 Hs0). }
    rewrite (decide_False (P := u_outbound f1 = u_outbound f)), app_nil_r
      by (intros E'; apply Hne; by eapply (udp_channels s0)).
    rewrite (decide_False (P := u_handle f = u_handle f1)) by done. simpl in Hp.
    assert (Hother : k ∈ (k1 :: xs.*1) <-> k ∈ xs.*1) by (rewrite elem_of_cons; naive_solver).
    rewrite (decide_ext _ _ _ _ Hother) in Hp. done.
Qed.

(** The two loops one after the other, as after an inbound packet and at a tick. *)
Lemma drains_ok now s : inv s ->
  exists s', (drain_tcp_recv order now ≫= fun _ => drain_udp_recv order now) s = (Done tt, s') /\
    (forall k f, tcp_flows s !! k = Some f -> relay_started f = true ->
       tcp_may_recv (net (iface s)) (t_handle f) = true ->
       tcp_sent (t_outbound f) (trace s') =
         tcp_sent (t_outbound f) (trace s) ++ tcp_queue (net (iface s)) (t_handle f)) /\
    (forall k f, udp_flows s !! k = Some f ->
       udp_sent (u_outbound f) (trace s') = udp_sent (u_outbound f) (trace s) ++
         ((dst k,.) <$> udp_queue (net (iface s)) (u_handle f)) /\
       udp_queue (net (iface s')) (u_handle f) = []).
Proof.
  intros Hs.
  destruct (runs_for_each (tcp_progress s) _ (iter order (tcp_flows s))
    (fun x xs => tcp_progress_step s now x xs Hs) s) as ([] & s1 & E1 & Hp1).
  { split_and!; try done; [by apply tcp_left_iter|by intros ? ? ?%iter_elem|].
    intros k f Hk _ Hm. rewrite decide_True; [done|]. apply list_elem_of_fmap. exists (k, f).
    by rewrite iter_elem. }
  destruct Hp1 as ((Hs1 & _) & _ & Hu & Huq & Hus & Hp1).
  destruct (runs_for_each (udp_progress s1) _ (iter order (udp_flows s1))
    (fun x xs => udp_progress_step s1 now x xs Hs1) s1) as ([] & s2 & E2 & Hp2).
  { split_and!; try done; [by apply udp_left_iter|by intros ? ? ?%iter_elem|].
    intros k f Hk. rewrite decide_True; [done|]. apply list_elem_of_fmap. exists (k, f).
    by rewrite iter_elem. }
  destruct Hp2 as (_ & _ & Ht & Hp2). exists s2. split_and!.
  - unfold drain_tcp_recv, drain_udp_recv. apply bind_Done. exists tt, s1. split; apply bind_Done; eexists _, _; by split.
  - intros k f Hk Hst Hm. specialize (Hp1 k f Hk Hst Hm). rewrite decide_False in Hp1 by apply not_elem_of_nil.
    rewrite Ht. apply Hp1.
  - intros k f Hk. rewrite <- Hu in Hk. specialize (Hp2 k f Hk). rewrite decide_False in Hp2 by apply not_elem_of_nil.
    by rewrite Hus, Huq in Hp2.
Qed.

(** *** Evicted flows *)

Lemma evict_tcp_eq now k f s f' : inv s -> tcp_flows s !! k = Some f' -> tcp_same f f' ->
  evict_tcp now (k, f) s =
    (Done tt, if decide (now - t_active f < TCP_IDLE) then s
              else set_tcp (delete k (tcp_flows s)) (set_net (remove (t_handle f) (net (iface s))) s)).
Proof.
  intros Hs Hf (Eh & _). unfold evict_tcp. case_decide; [done|].
  destruct (inv_tcp s Hs k f' Hf) as (Hk & _). rewrite Eh in Hk.
  by rewrite (bind_step _ _ _ _ _ (remove_socket_eq _ _ _ Hk)).
Qed.

(** A flow that was idle for long enough has no socket after the eviction. *)
Lemma evict_removes now s k f : inv s -> tcp_flows s !! k = Some f -> TCP_IDLE <= now - t_active f ->
  exists s', evict_flows order now s = (Done tt, s') /\ kind_of (net (iface s')) (t_handle f) = None.
Proof.
  intros Hs Hk Hidle.
  pose (J := fun xs s1 => tcp_left xs s1 /\ (forall k f, (k, f) ∈ xs -> tcp_flows s !! k = Some f) /\
    (k ∈ xs.*1 \/ kind_of (net (iface s1)) (t_handle f) = None)).
  destruct (runs_for_each J (evict_tcp now) (iter order (tcp_flows s))) with (s := s) as ([] & s1 & E1 & (Hs1 & _) & _ & Hn1).
  { intros [k1 f1] xs s1 (Hl & Hx0 & Hor). pose proof Hl as (Hs1 & [Hn1 _]%NoDup_cons & Hx).
    destruct (Hx k1 f1 ltac:(by left)) as (f' & Hf & Hsame).
    destruct (evict_tcp_runs now (k1, f1) xs s1 Hl) as ([] & s' & E & Hl').
    exists tt, s'. split; [done|]. split; [done|]. split; [intros; apply Hx0; by right|].
    rewrite (evict_tcp_eq now k1 f1 s1 f' Hs1 Hf Hsame) in E. injection E as E. subst s'.
    assert (Hk1 := Hx0 k1 f1 ltac:(by left)). destruct (decide (k = k1)) as [<-|Hne].
    - right. replace f1 with f in * by congruence. rewrite decide_False by lia. simpl.
      by rewrite remove_kind, decide_True.
    - destruct Hor as [Hin|Hnone].
      + left. simpl in Hin. apply elem_of_cons in Hin as [|]; done.
      + right. case_decide; [done|]. simpl. rewrite remove_kind. by case_decide. }
  { split_and!; [by apply tcp_left_iter|by intros ? ? ?%iter_elem|]. left.
    apply list_elem_of_fmap. exists (k, f). by rewrite iter_elem. }
  destruct Hn1 as [Hin|Hnone]; [by apply elem_of_nil in Hin|].
  pose (J' := fun xs s1 => udp_left xs s1 /\ kind_of (net (iface s1)) (t_handle f) = None).
  destruct (runs_for_each J' (evict_udp now) (iter order (udp_flows s1))) with (s := s1) as ([] & s2 & E2 & _ & Hn2).
  { intros [k1 f1] xs s2 (Hl & Hnn). pose proof Hl as (Hs2 & _ & Hx).
    destruct (evict_udp_runs now (k1, f1) xs s2 Hl) as ([] & s' & E & Hl').
    exists tt, s'. split; [done|]. split; [done|]. revert E. unfold evict_udp. case_decide; [by intros [= <-]|].
    destruct (Hx k1 f1 ltac:(by left)) as (f' & Hf & Eh & _).
    destruct (inv_udp s2 Hs2 k1 f' Hf) as (Hkd & _). rewrite Eh in Hkd.
    rewrite (bind_step _ _ _ _ _ (remove_socket_eq _ _ _ Hkd)). intros [= <-]. simpl.
    rewrite remove_kind. by case_decide. }
  { split; [by apply udp_left_iter|done]. }
  exists s2. split; [|done]. unfold evict_flows. mget. rewrite (bind_step _ _ _ _ _ E1). mget. done.
Qed.

(** The relay of an evicted flow still runs: what its target sends next brings
    the actor down. *)
Lemma evicted_relay_panics now t s k f data : inv s -> tcp_flows s !! k = Some f ->
  TCP_IDLE <= now - t_active f ->
  exists s', evict_flows order now s = (Done tt, s') /\
    actor_step order t (TcpData (t_handle f) data) s' = (Panic, s').
Proof.
  intros Hs Hk Hi. destruct (evict_removes now s k f Hs Hk Hi) as (s' & E & Hn).
  exists s'. split; [done|]. apply actor_step_stale. simpl. by rewrite Hn.
Qed.

End invariant.

(** ** The UDP relay task *)

(** The datagrams whose send can succeed: the socket of their family is bound,
    or can be. *)
Fixpoint sendable (st : udp_socks) (out : list (udp_world * SocketAddr * list Z)) : list (bool * list Z * SocketAddr) :=
  match out with
  | [] => []
  | (w, dst, payload) :: out =>
      let v6 := negb (is_ipv4 dst) in
      let bound := (if v6 then sock6 st else sock4 st) || bind_socket w in
      let st := if bound then (if v6 then UdpSocks (sock4 st) true else UdpSocks true (sock6 st)) else st in
      if bound && send_to w then (v6, payload, dst) :: sendable st out else sendable st out
  end.

Definition sent_by (acts : list uaction) : list (bool * list Z * SocketAddr) :=
  omap (fun a => match a with USend v p d => Some (v, p, d) | _ => None end) acts.
Definition binds_of (v6 : bool) (acts : list uaction) : nat :=
  length (List.filter (fun a => match a with UBind v => Bool.eqb v v6 | _ => false end) acts).

(** The task sends every datagram it can, once, in order and to its own
    destination, and binds at most one socket of each family. *)
Lemma udp_relay_exact handle st out :
  sent_by (udp_relay handle st out) = sendable st out /\
  forall v6, (binds_of v6 (udp_relay handle st out) + (if if v6 then sock6 st else sock4 st then 1 else 0) <= 1)%nat.
Proof.
  revert st. induction out as [|[[w d] p] out IH]; intros st; simpl.
  { split; [done|]. intros []; destruct (sock4 st), (sock6 st); simpl; lia. }
  assert (Happ : forall a b, sent_by (a ++ b) = sent_by a ++ sent_by b /\
    forall v, binds_of v (a ++ b) = (binds_of v a + binds_of v b)%nat).
  { intros a b. unfold sent_by, binds_of. split; [apply omap_app|]. intros v. by rewrite List.filter_app, length_app. }
  unfold udp_relay_step. destruct st as [s4 s6]. cbn [sock4 sock6].
  destruct (is_ipv4 d), s4, s6, (bind_socket w), (send_to w); simpl;
    match goal with |- context [udp_relay handle ?st out] => destruct (IH st) as [Hs Hb] end;
    rewrite ?(proj1 (Happ _ _)), ?Hs; (split; [destruct (reply w); simpl; by rewrite ?Hs|]);
    intros v; specialize (Hb v); simpl in Hb |- *;
    destruct (reply w), v; unfold binds_of in *; simpl in *; lia.
Qed.

(** ** Properties *)

(** the flow of a packet.  The parser never panics, and it finds a flow in
    exactly the IPv4 and IPv6 packets that carry TCP or UDP directly after their
    header and are long enough for its ports: with the packet's protocol,
    addresses and ports. *)
Theorem parse_flow_key_exact pkt :
  bytes_ok pkt ->
  (exists o, parse_flow_key pkt = Done o) /\
  (forall k, parse_flow_key pkt = Done (Some k) <-> ipv4_flow pkt k \/ ipv6_flow pkt k).
Proof.
  intros Hb. destruct (parse_flow_key_spec pkt Hb) as (o & E & Ho). split; [eauto|].
  intros k. rewrite E. split; [intros [= ->]; by apply Ho|]. intros Hk. f_equal. by apply Ho.
Qed.

Section theorems.
Context {N : Type} `{Smoltcp N} `{!SmoltcpLaws N}.
Context (order : forall V : Type, list (FlowKey * V) -> list (FlowKey * V)).
Hypothesis order_perm : forall V l, order V l ≡ₚ l.

(** A stack that no packet has reached: on its ticks it goes on and does nothing but pass on
    what smoltcp has to say. *)
Definition quiet (s : actor N) : Prop := tcp_flows s = ∅ /\ udp_flows s = ∅.

Lemma iter_empty {V} : iter order (∅ : gmap FlowKey V) = [].
Proof. unfold iter. rewrite map_to_list_empty. apply Permutation_nil_r, order_perm. Qed.

Lemma flush_encrypt_run pkts (s : actor N) : flush_encrypt pkts s =
  (Done tt, Actor (iface s) (tcp_flows s) (udp_flows s) (next_ch s) (trace s ++ (EvEncrypt <$> pkts))).
Proof.
  revert s. induction pkts as [|pkt pkts IH]; intros s; [destruct s; cbn; by rewrite app_nil_r|].
  change (flush_encrypt (pkt :: pkts) s) with ((emit (EvEncrypt pkt) ≫= fun _ => flush_encrypt pkts) s).
  erewrite bind_step by reflexivity. rewrite IH. cbn. by rewrite <- app_assoc.
Qed.

Lemma quiet_tick t s : quiet s -> exists s' es, actor_step order t Tick s = (Done tt, s') /\ quiet s' /\
  trace s' = trace s ++ es /\ Forall encrypts es.
Proof.
  intros [Et Eu]. destruct (poll_and_collect_tx t (iface s)) as [out i] eqn:Ep.
  exists (Actor i ∅ ∅ (next_ch s) (trace s ++ (EvEncrypt <$> out))), (EvEncrypt <$> out).
  split; [|split; [by split|split; [done|by apply Forall_fmap, Forall_true]]].
  assert (E : poll_and_flush t s = (Done tt, Actor i ∅ ∅ (next_ch s) (trace s ++ (EvEncrypt <$> out)))).
  { unfold poll_and_flush. rewrite (bind_step _ _ s out (set_iface i s)) by (unfold on_iface; by rewrite Ep).
    rewrite flush_encrypt_run. cbn. by rewrite Et, Eu. }
  unfold actor_step. rewrite (bind_step _ _ _ _ _ E). set (s1 := Actor _ _ _ _ _).
  assert (Eg : get_st s1 = (Done s1, s1)) by done.
  assert (It : iter order (tcp_flows s1) = []) by apply iter_empty.
  assert (Iu : iter order (udp_flows s1) = []) by apply iter_empty.
  assert (E1 : drain_tcp_recv order t s1 = (Done tt, s1)) by (unfold drain_tcp_recv; by rewrite (bind_step _ _ _ _ _ Eg), It).
  assert (E2 : drain_udp_recv order t s1 = (Done tt, s1)) by (unfold drain_udp_recv; by rewrite (bind_step _ _ _ _ _ Eg), Iu).
  assert (E3 : start_tcp_relays order s1 = (Done tt, s1)) by (unfold start_tcp_relays; by rewrite (bind_step _ _ _ _ _ Eg), It).
  rewrite (bind_step _ _ _ _ _ E1), (bind_step _ _ _ _ _ E2), (bind_step _ _ _ _ _ E3).
  unfold evict_flows. rewrite (bind_step _ _ _ _ _ Eg), It.
  assert (Ee : for_each (evict_tcp t) [] s1 = (Done tt, s1)) by done.
  rewrite (bind_step _ _ _ _ _ Ee), (bind_step _ _ _ _ _ Eg). by rewrite Iu.
Qed.

Lemma quiet_ticks ts s : quiet s ->
  exists s' es, run_actor order ((fun t => (t, Tick)) <$> ts) s = (Done tt, s') /\ quiet s' /\
    trace s' = trace s ++ es /\ Forall encrypts es.
Proof.
  revert s. induction ts as [|t ts IH]; intros s Hs; [exists s, []; split_and!; try done; [apply Hs..|by rewrite app_nil_r]|].
  destruct (quiet_tick t s Hs) as (s1 & es1 & E1 & Hs1 & Et1 & He1).
  destruct (IH s1 Hs1) as (s2 & es2 & E2 & Hs2 & Et2 & He2). exists s2, (es1 ++ es2).
  split; [|split; [done|split; [by rewrite Et2, Et1, app_assoc|by apply Forall_app]]].
  rewrite fmap_cons. unfold run_actor in *. cbn [for_each]. by rewrite (bind_step _ _ _ _ _ E1).
Qed.

(** C38: the peer's network stack connects only where the peer's packets ask it
    to.  Let every inbound packet's flow be in [P].  Then, for any messages in
    any order, every relay has a channel of its own and connects to the
    destination of a TCP flow in [P]; stream data goes only to a relay that was
    started before; and every datagram goes, through a relay that runs, to the
    destination of a UDP flow in [P].  The actor never panics, except on stream
    data for a handle that is not a TCP socket (any more). *)
Theorem stack_only_relays (P : FlowKey -> Prop) (n0 : N) ms o s :
  (forall t pkt, (t, Inbound pkt) ∈ ms -> bytes_ok pkt /\ forall k, ipv4_flow pkt k \/ ipv6_flow pkt k -> P k) ->
  run_actor order ms (actor_new n0) = (o, s) ->
  trace_ok P (trace s) /\
  (o = Done tt \/
   o = Panic /\ exists t h data, (t, TcpData h data) ∈ ms /\ kind_of (net (iface s)) h <> Some Tcp).
Proof.
  intros Hin Hrun. destruct (run_actor_inv order order_perm P ms (actor_new n0) o s) as [Hs Ho].
  - apply inv_new.
  - apply Forall_forall. intros [t [pkt|h d|h d|]] Hm; simpl; try done. by apply (Hin t).
  - done.
  - split; [apply Hs|done].
Qed.

(** C39: what a peer sends is handed to its relays.  In every state the actor can be
    in, emptying the receive buffers (which takes as long as there is no room in the channels
    to the relays) does not fail, and sends all a started TCP flow's
    socket holds on that flow's channel, in one piece and nowhere else, and every datagram a UDP flow's socket holds, in order and with that flow's
    destination, on that flow's channel, leaving the UDP sockets empty. *)
Theorem received_data_relayed (n0 : N) ms s now :
  (forall t pkt, (t, Inbound pkt) ∈ ms -> bytes_ok pkt) ->
  run_actor order ms (actor_new n0) = (Done tt, s) ->
  exists s', (drain_tcp_recv order now ≫= fun _ => drain_udp_recv order now) s = (Done tt, s') /\
    (forall k f, tcp_flows s !! k = Some f -> relay_started f = true ->
       tcp_may_recv (net (iface s)) (t_handle f) = true ->
       tcp_sent (t_outbound f) (trace s') =
         tcp_sent (t_outbound f) (trace s) ++ tcp_queue (net (iface s)) (t_handle f)) /\
    (forall k f, udp_flows s !! k = Some f ->
       udp_sent (u_outbound f) (trace s') = udp_sent (u_outbound f) (trace s) ++
         ((dst k,.) <$> udp_queue (net (iface s)) (u_handle f)) /\
       udp_queue (net (iface s')) (u_handle f) = []).
Proof.
  intros Hin Hrun. apply (drains_ok order order_perm (fun _ => True)).
  destruct (run_actor_inv order order_perm (fun _ => True) ms (actor_new n0) (Done tt) s) as [Hs _]; [| |done|done].
  - apply inv_new.
  - apply Forall_forall. intros [t [pkt|h d|h d|]] Hm; simpl; try done. split; [by eapply Hin|done].
Qed.

End theorems.

(** ** A small stack, for the concrete instances

    Sockets with their queues; a poll takes one packet, answers it with itself,
    and hands what follows its first 24 bytes to every socket; without a packet,
    it hands over one byte. *)
Abbreviation toy := (gmap nat (sock_kind * list Z * list (list Z))).

Definition toy_add (k : sock_kind) (n : toy) : nat * toy :=
  let h := fresh (dom n) in (h, <[h := (k, [], [])]> n).
Definition toy_deliver (p : list Z) (x : sock_kind * list Z * list (list Z)) : sock_kind * list Z * list (list Z) :=
  match x with
  | (Tcp, q, u) => (Tcp, q ++ drop 24 p, u)
  | (Udp, q, u) => (Udp, q, u ++ [drop 24 p])
  end.
Definition toy_tcp (n : toy) (h : nat) : list Z := match n !! h with Some (_, q, _) => q | None => [] end.
Definition toy_udp (n : toy) (h : nat) : list (list Z) := match n !! h with Some (_, _, u) => u | None => [] end.

#[export] Instance toy_stack : Smoltcp toy := {
  kind_of n h := (fun x => x.1.1) <$> n !! h;
  listen_ok ep := bool_decide (ep_port ep <> 0);
  bind_ok ep := bool_decide (ep_port ep <> 0);
  add_tcp _ := toy_add Tcp;
  add_udp _ := toy_add Udp;
  remove h n := delete h n;
  tcp_established _ _ := true;
  tcp_may_recv _ _ := true;
  tcp_queue := toy_tcp;
  tcp_recv_slice len h n :=
    (Some (take len (toy_tcp n h)), alter (fun x => (x.1.1, drop len x.1.2, x.2)) h n);
  tcp_may_send _ _ := true;
  tcp_send_slice d _ n := (Some (length d), n);
  udp_queue := toy_udp;
  udp_recv h n := (head (toy_udp n h), alter (fun x => (x.1, tail x.2)) h n);
  udp_send_slice _ _ _ n := (true, n);
  poll _ n := PollReceive (fun p =>
    match p with
    | Some p => PollTransmit (length p) (fun _ => p) (PollDone (toy_deliver p <$> n))
    | None => PollDone (toy_deliver (replicate 24 0 ++ [5]) <$> n)
    end);
}.

Lemma toy_add_kind k (n : toy) h n' : toy_add k n = (h, n') ->
  kind_of n h = None /\ forall h', kind_of n' h' = if decide (h' = h) then Some k else kind_of n h'.
Proof.
  unfold toy_add. intros [= <- <-]. pose proof (is_fresh (dom n)) as Hf. apply not_elem_of_dom in Hf.
  simpl. split; [by rewrite Hf|]. intros h'. case_decide as E; [by rewrite E, lookup_insert_eq|].
  by rewrite lookup_insert_ne.
Qed.

Lemma toy_alter {A} (f : sock_kind * list Z * list (list Z) -> _) (g : _ -> A) (n : toy) h h' :
  g <$> alter f h n !! h' = if decide (h' = h) then (fun x => g (f x)) <$> n !! h else g <$> n !! h'.
Proof.
  case_decide as E; [subst; rewrite lookup_alter_eq; by rewrite <- option_fmap_compose|].
  by rewrite lookup_alter_ne.
Qed.

#[export] Instance toy_laws : SmoltcpLaws toy.
Proof.
  assert (Ht : forall n h, toy_tcp n h = default [] ((fun x => x.1.2) <$> n !! h)).
  { intros n h. unfold toy_tcp. by destruct (n !! h) as [[[]]|]. }
  assert (Hu : forall n h, toy_udp n h = default [] ((fun x => x.2) <$> n !! h)).
  { intros n h. unfold toy_udp. by destruct (n !! h) as [[[]]|]. }
  constructor; simpl.
  - intros _. apply toy_add_kind.
  - intros _. apply toy_add_kind.
  - intros h n h'. case_decide; [subst; by rewrite lookup_delete_eq|by rewrite lookup_delete_ne].
  - intros len h n h'. rewrite toy_alter. by case_decide; subst.
  - done.
  - intros h n h'. rewrite toy_alter. by case_decide; subst.
  - done.
  - intros ts n rx h'. unfold polled. simpl. destruct rx as [|p rx]; simpl;
      rewrite lookup_fmap; by destruct (n !! h') as [[[[] ?] ?]|].
  - done.
  - intros len h n h' _. split; [|done]. rewrite Ht, toy_alter. case_decide; rewrite Ht; [|done].
    destruct (n !! h); simpl; [done|by rewrite drop_nil].
  - intros len h n h'. rewrite !Hu, toy_alter. by case_decide; subst.
  - intros h n h'. rewrite !Ht, toy_alter. by case_decide; subst.
  - done.
  - intros h n h'. rewrite Hu, toy_alter. case_decide; rewrite Hu; [|done]. by destruct (n !! h).
Qed.

(** A UDP packet from 10.0.0.2:1000 to 1.1.1.1:53 and a TCP packet to port 80,
    each with a byte of data. *)
Definition demo_pkt (proto : Z) (port : Z) : list Z :=
  [0x45; 0; 0; 25; 0; 0; 0; 0; 64] ++ [proto] ++ [0; 0] ++ [10; 0; 0; 2] ++ [1; 1; 1; 1] ++
  be_bytes 2 1000 ++ be_bytes 2 port ++ [7].
Definition demo_flow (proto : Z) (port : Z) : FlowKey :=
  Flow proto (SockAddr (V4 [10; 0; 0; 2]) 1000) (SockAddr (V4 [1; 1; 1; 1]) port).
Definition demo_msgs : list (Z * Msg) :=
  [(0, Inbound (demo_pkt 17 53)); (1, Inbound (demo_pkt 6 80)); (2, TcpData 1 [9])].
Definition demo_order (V : Type) (l : list (FlowKey * V)) := l.
Definition demo_end : outcome unit * actor toy := run_actor demo_order demo_msgs (actor_new (∅ : toy)).

Lemma demo_flow_of p d : (p = 6 \/ p = 17) -> 0 <= d < 65536 -> ipv4_flow (demo_pkt p d) (demo_flow p d).
Proof.
  intros Hp Hd. exists 0x45, [0; 0; 25; 0; 0; 0; 0; 64], [0; 0], [10; 0; 0; 2], [1; 1; 1; 1],
    (be_bytes 2 1000 ++ be_bytes 2 d ++ [7]), [7], 1000, d.
  split_and!; try done; lia.
Qed.

Lemma demo_bytes p d : (p = 6 \/ p = 17) -> bytes_ok (demo_pkt p d).
Proof.
  intros Hp. unfold demo_pkt. rewrite !Forall_app. split_and!; try apply be_bytes_ok;
    repeat constructor; unfold byte_ok; lia.
Qed.

Lemma demo_inbound t pkt : (t, Inbound pkt) ∈ demo_msgs ->
  bytes_ok pkt /\ forall k, ipv4_flow pkt k \/ ipv6_flow pkt k -> k = demo_flow 17 53 \/ k = demo_flow 6 80.
Proof.
  intros Hin. assert (Hp : pkt = demo_pkt 17 53 \/ pkt = demo_pkt 6 80).
  { unfold demo_msgs in Hin. rewrite !elem_of_cons in Hin.
    destruct Hin as [[= _ ->]|[[= _ ->]|[?|?%elem_of_nil]]]; auto; done. }
  assert (Hu : forall p d, (p = 6 \/ p = 17) -> 0 <= d < 65536 -> forall k,
    ipv4_flow (demo_pkt p d) k \/ ipv6_flow (demo_pkt p d) k -> k = demo_flow p d).
  { intros p d Hp' Hd k Hk. destruct (parse_flow_key_spec (demo_pkt p d) (demo_bytes p d Hp')) as (o & _ & Ho).
    pose proof (proj2 (Ho k) Hk) as E1. pose proof (proj2 (Ho _) (or_introl (demo_flow_of p d Hp' Hd))) as E2.
    congruence. }
  destruct Hp as [-> | ->]; (split; [apply demo_bytes; lia|]); intros k Hk.
  - left. apply Hu; [lia..|done].
  - right. apply Hu; [lia..|done].
Qed.

Lemma stack_only_relays_witness :
  demo_end.1 = Done tt /\ trace_ok (fun k => k = demo_flow 17 53 \/ k = demo_flow 6 80) (trace demo_end.2).
Proof.
  split; [vm_compute; reflexivity|].
  apply (stack_only_relays demo_order (fun V l => Permutation_refl l)
    (fun k => k = demo_flow 17 53 \/ k = demo_flow 6 80) (∅ : toy) demo_msgs demo_end.1 demo_end.2).
  - exact demo_inbound.
  - unfold demo_end. by destruct (run_actor _ _ _).
Defined.

Lemma received_data_relayed_witness :
  exists s', (drain_tcp_recv demo_order 3 ≫= fun _ => drain_udp_recv demo_order 3) demo_end.2 = (Done tt, s') /\
    tcp_sent 2 (trace s') = tcp_sent 2 (trace demo_end.2) ++ [5] /\
    udp_sent 0 (trace s') = udp_sent 0 (trace demo_end.2) ++ [(SockAddr (V4 [1; 1; 1; 1]) 53, [5])].
Proof.
  destruct (received_data_relayed demo_order (fun V l => Permutation_refl l) (∅ : toy) demo_msgs demo_end.2 3)
    as (s' & E & Ht & Hu).
  - intros t pkt Hin. by apply (demo_inbound t).
  - vm_compute. reflexivity.
  - exists s'. split; [exact E|]. split.
    + exact (Ht (demo_flow 6 80) (MkTcp 1 2 true 1) eq_refl eq_refl eq_refl).
    + exact (proj1 (Hu (demo_flow 17 53) (MkUdp 0 0 1) eq_refl)).
Defined.

Lemma parse_flow_key_exact_witness :
  parse_flow_key (demo_pkt 17 53) = Done (Some (demo_flow 17 53)).
Proof.
  apply (proj2 (parse_flow_key_exact (demo_pkt 17 53) ltac:(apply (bool_decide_eq_true (bytes_ok _)); vm_compute; reflexivity))).
  left. apply demo_flow_of; lia.
Defined.

