(* ===== verification/WgServer.v ===== *)
(** * WireGuard: peers and the server's tasks
    ([src/src/wireguard/peer.rs], [src/src/wireguard/server.rs])

    The main receive loop, the encryption tasks and the timer task share the
    peers behind locks.  [wstep] is what one of them does between taking and
    releasing a lock, so that every interleaving is a sequence of labels.  The
    tunnels (boringtun) are the class [Tunn]; what goes to the network and to a
    peer's stack is the trace.  The channel to a stack is bounded, and the loop waits
    while it is full; a lock that is free again and a socket that takes a datagram are not
    waited for in steps of their own. *)
From S2P Require Import Prelude RustStd Net NetAddr WgIface WgStack.

(** ** boringtun *)

Inductive TunnResult :=
| TDone
| TErr
| WriteToNetwork (pkt : list Z)
| WriteToTunnelV4 (pkt : list Z)
| WriteToTunnelV6 (pkt : list Z).

Class Tunn (T : Type) := {
  tunn_new : list Z -> list Z -> Datatypes.option (list Z) -> Datatypes.option Z -> Z -> T;
  decapsulate : IpAddr -> list Z -> T -> TunnResult * T;
  encapsulate : list Z -> T -> TunnResult * T;
  update_timers : T -> TunnResult * T;
}.

(** The timers of a tunnel have only so many packets to send at a time. *)
Class TunnLaws (T : Type) `{Tunn T} := {
  due : T -> nat;
  due_less t pkt t' : update_timers t = (WriteToNetwork pkt, t') -> (due t' < due t)%nat;
}.

(** ** Packets and keys *)

(** [packet_src_ip]: the unspecified address where there is none. *)
Definition packet_src_ip (pkt : list Z) : outcome IpAddr :=
  match head pkt with
  | None => mret (V4 [0; 0; 0; 0])
  | Some b =>
      let v := Z.shiftr b 4 in
      if decide (v = 4 /\ (20 <= length pkt)%nat) then ipv4_at pkt 12
      else if decide (v = 6 /\ (40 <= length pkt)%nat) then
        s ← slice pkt 8 24;
        ipv6_from_slice s
      else mret (V4 [0; 0; 0; 0])
  end.

(** [<[u8; 32]>::try_from]. *)
Definition try_32 (bs : list Z) : outcome (list Z) :=
  if decide (length bs = 32%nat) then mret bs else Fail EParse.

Record WireGuardPeerConfig := PeerConfig {
  public_key : list Z;
  pre_shared_key : option (list Z);
  cfg_allowed_ips : list (list Z);
  keepalive_interval : option Z;
  dns : list (list Z);
}.

Section server.
(** Tunnels, networks ([IpNetwork]) and base64 are crates. *)
Context {T : Type} `{Tunn T} {Network : Type}.
Context (contains : Network -> IpAddr -> bool) (parse_network : list Z -> option Network).
Context (b64_decode : list Z -> option (list Z)).

Record Peer := MkPeer {
  tunnel : T;
  endpoint : option SocketAddr;
  allowed_ips : list Network;
  last_seen : Z;
}.

Definition Peer_new (tunnel : T) (allowed_ips : list Network) (now : Z) : Peer :=
  MkPeer tunnel None allowed_ips now.

Definition allows (nets : list Network) (addr : IpAddr) : bool :=
  existsb (fun net => contains net addr) nets.

Definition decode_key (b64 : list Z) : outcome (list Z) := ok_or EParse (b64_decode (trim b64)).

Fixpoint parse_networks (cidrs : list (list Z)) : outcome (list Network) :=
  match cidrs with
  | [] => mret []
  | cidr :: cidrs =>
      net ← ok_or EParse (parse_network cidr);
      nets ← parse_networks cidrs;
      mret (net :: nets)
  end.

Definition build_psk (c : WireGuardPeerConfig) : outcome (option (list Z)) :=
  match pre_shared_key c with
  | Some s => b ← decode_key s; b ← try_32 b; mret (Some b)
  | None => mret None
  end.

(** One entry of the configuration: the peer's key in hexadecimal, and the peer. *)
Definition build_peer (private_key : list Z) (now idx : Z) (c : WireGuardPeerConfig) : outcome (list Z * Peer) :=
  pub_bytes ← decode_key (public_key c);
  pub_key ← try_32 pub_bytes;
  psk ← build_psk c;
  let tunnel := tunn_new private_key pub_key psk (keepalive_interval c) idx in
  allowed_ips ← parse_networks (cfg_allowed_ips c);
  mret (hex_encode pub_bytes, Peer_new tunnel allowed_ips now).

(** The loop over the peers.  Every peer that is read gets a stack of its own
    ([spawn_stack]), which runs from then on: the keys of these stacks, and the table
    of the peers, or the error of the first entry that cannot be read. *)
Fixpoint build_peers (private_key : list Z) (now idx : Z) (cs : list WireGuardPeerConfig)
    (peer_map : gmap (list Z) Peer) : list (list Z) * outcome (gmap (list Z) Peer) :=
  match cs with
  | [] => ([], Done peer_map)
  | c :: cs =>
      match build_peer private_key now idx c with
      | Done (pub_hex, peer) =>
          let '(spawned, o) := build_peers private_key now (idx + 1) cs (<[pub_hex := peer]> peer_map) in
          (pub_hex :: spawned, o)
      | Fail e => ([], Fail e)
      | Panic => ([], Panic)
      end
  end.

(** ** The tasks *)

(** Where the main loop is: waiting for a datagram; about to decapsulate one; about to
    run the peer's timers; about to check and deliver an inner packet. *)
Inductive main_pc :=
| PRecv
| PDecap (hex raw : list Z) (src : SocketAddr)
| PTimers (hex : list Z) (src : SocketAddr) (ip_owned : option (list Z))
| PDeliver (hex ip_pkt : list Z).

Inductive saction :=
| ARecv (raw : list Z) (src : SocketAddr)                            (** a datagram came in *)
| ADecap (hex raw : list Z) (src : SocketAddr) (r : TunnResult)      (** and what the peer's tunnel said *)
| ASend (pkt : list Z) (target : SocketAddr)                         (** [socket.send_to] *)
| ADeliver (hex ip_pkt : list Z)                                     (** [stack_tx.send] *)
| ATake (hex ip_pkt : list Z).                                       (** the stack takes a packet from its channel *)

Record server := Server {
  peers : gmap (list Z) Peer;
  pc : main_pc;
  enc : gmap (list Z) (list Z * SocketAddr);   (** the encryption tasks that have read an endpoint *)
  timer : option (list Z * SocketAddr);        (** the timer task, if it has read one *)
  strace : list saction;
  chans : gmap (list Z) (list (list Z));       (** the channels to the stacks that run: what is not yet taken *)
}.

Definition server0 (ps : gmap (list Z) Peer) : server := Server ps PRecv ∅ None [] ((fun _ => []) <$> ps).

(** [mpsc::channel(512)] of [spawn_stack]. *)
Definition STACK_CHANNEL : nat := 512.

Inductive label :=
| LRecv (raw : list Z) (src : SocketAddr) (now : Z)
| LDecap
| LTimers
| LDeliver
| LEncRead (hex ip_pkt : list Z)      (** a packet of the peer's stack *)
| LEncSend (hex : list Z)
| LTimerRead (hex : list Z)
| LTimerRun
| LStackTake (hex : list Z)           (** the peer's stack is ready for a packet *)
| LStackGone (hex : list Z).          (** the peer's stack has ended *)

(** The order in which the peers are iterated. *)
Context (order : list (list Z * Peer) -> list (list Z * Peer)).

Definition find_peer (ps : gmap (list Z) Peer) (src : SocketAddr) : option (list Z * Peer) :=
  let all := order (map_to_list ps) in
  match List.find (fun hp => bool_decide (endpoint hp.2 = Some src)) all with
  | Some hp => Some hp
  | None => head all
  end.

(** [loop { match tun.update_timers(buf) { .. } }]; [None] if it does not end. *)
Fixpoint timers_loop (fuel : nat) (t : T) : option (list (list Z) * T) :=
  match fuel with
  | O => None
  | S fuel =>
      match update_timers t with
      | (WriteToNetwork pkt, t) => '(pkts, t) ← timers_loop fuel t; Some (pkt :: pkts, t)
      | (_, t) => Some ([], t)
      end
  end.
Definition drain_timers `{!TunnLaws T} (t : T) : option (list (list Z) * T) := timers_loop (S (due t)) t.

Definition with_tunnel (p : Peer) (t : T) : Peer := MkPeer t (endpoint p) (allowed_ips p) (last_seen p).
Definition set_pc (c : main_pc) (s : server) : server :=
  Server (peers s) c (enc s) (timer s) (strace s) (chans s).
Definition set_tunnel (hex : list Z) (p : Peer) (t : T) (s : server) : server :=
  Server (<[hex := with_tunnel p t]> (peers s)) (pc s) (enc s) (timer s) (strace s) (chans s).
Definition act (a : list saction) (s : server) : server :=
  Server (peers s) (pc s) (enc s) (timer s) (strace s ++ a) (chans s).
Definition set_chans (m : gmap (list Z) (list (list Z))) (s : server) : server :=
  Server (peers s) (pc s) (enc s) (timer s) (strace s) m.

Context `{!TunnLaws T}.

(** Steps 1 and 2 of the loop: find the peer, note where it is. *)
Definition step_recv (raw : list Z) (src : SocketAddr) (now : Z) (s : server) : server :=
  let s := act [ARecv raw src] s in
  match find_peer (peers s) src with
  | None => s
  | Some (hex, p) =>
      Server (<[hex := MkPeer (tunnel p) (Some src) (allowed_ips p) now]> (peers s))
        (PDecap hex raw src) (enc s) (timer s) (strace s) (chans s)
  end.

(** Step 3. *)
Definition step_decap (hex raw : list Z) (src : SocketAddr) (p : Peer) (s : server) : server :=
  let '(r, t) := decapsulate (ip src) raw (tunnel p) in
  let s := act [ADecap hex raw src r] (set_tunnel hex p t s) in
  match r with
  | WriteToNetwork pkt => set_pc (PTimers hex src None) (act [ASend pkt src] s)
  | WriteToTunnelV4 pkt | WriteToTunnelV6 pkt => set_pc (PTimers hex src (Some pkt)) s
  | TDone | TErr => set_pc (PTimers hex src None) s
  end.

(** Step 4, and the return to the top of the loop where nothing was decrypted. *)
Definition step_timers (hex : list Z) (src : SocketAddr) (ip_owned : option (list Z)) (p : Peer)
    (s : server) : option server :=
  '(pkts, t) ← drain_timers (tunnel p);
  let s := act ((fun pkt => ASend pkt src) <$> pkts) (set_tunnel hex p t s) in
  Some (set_pc (match ip_owned with Some pkt => PDeliver hex pkt | None => PRecv end) s).

(** [stack_tx.send(ip_pkt).await], whose error is ignored: the packet is lost if the
    stack has ended; [None] while its channel is full. *)
Definition send_stack (hex ip_pkt : list Z) (s : server) : option server :=
  match chans s !! hex with
  | None => Some s
  | Some q =>
      if decide (length q < STACK_CHANNEL)%nat
      then Some (act [ADeliver hex ip_pkt] (set_chans (<[hex := q ++ [ip_pkt]]> (chans s)) s))
      else None
  end.

(** Steps 6 and 7. *)
Definition step_deliver (hex ip_pkt : list Z) (p : Peer) (s : server) : option server :=
  match packet_src_ip ip_pkt with
  | Done a =>
      if allows (allowed_ips p) a then set_pc PRecv <$> send_stack hex ip_pkt s
      else Some (set_pc PRecv s)
  | _ => None
  end.

(** One step; [None] where the label cannot happen (where the loop waits for a stack,
    and where the code would panic or loop, which [server_delivers_authentic] excludes). *)
Definition wstep (s : server) (l : label) : option server :=
  match l with
  | LRecv raw src now => match pc s with PRecv => Some (step_recv raw src now s) | _ => None end
  | LDecap =>
      match pc s with
      | PDecap hex raw src => p ← peers s !! hex; Some (step_decap hex raw src p s)
      | _ => None
      end
  | LTimers =>
      match pc s with
      | PTimers hex src o => p ← peers s !! hex; step_timers hex src o p s
      | _ => None
      end
  | LDeliver =>
      match pc s with
      | PDeliver hex pkt => p ← peers s !! hex; step_deliver hex pkt p s
      | _ => None
      end
  | LEncRead hex pkt =>
      p ← peers s !! hex;
      match enc s !! hex, endpoint p with
      | None, Some ep => Some (Server (peers s) (pc s) (<[hex := (pkt, ep)]> (enc s)) (timer s) (strace s) (chans s))
      | None, None => Some s
      | Some _, _ => None
      end
  | LEncSend hex =>
      p ← peers s !! hex;
      '(pkt, ep) ← enc s !! hex;
      let '(r, t) := encapsulate pkt (tunnel p) in
      let s := set_tunnel hex p t (Server (peers s) (pc s) (delete hex (enc s)) (timer s) (strace s) (chans s)) in
      Some (match r with WriteToNetwork ct => act [ASend ct ep] s | _ => s end)
  | LTimerRead hex =>
      p ← peers s !! hex;
      match timer s, endpoint p with
      | None, Some ep => Some (Server (peers s) (pc s) (enc s) (Some (hex, ep)) (strace s) (chans s))
      | None, None => Some s
      | Some _, _ => None
      end
  | LTimerRun =>
      '(hex, ep) ← timer s;
      p ← peers s !! hex;
      '(pkts, t) ← drain_timers (tunnel p);
      Some (act ((fun pkt => ASend pkt ep) <$> pkts)
        (set_tunnel hex p t (Server (peers s) (pc s) (enc s) None (strace s) (chans s))))
  | LStackTake hex =>
      match chans s !! hex with
      | Some (pkt :: q) => Some (act [ATake hex pkt] (set_chans (<[hex := q]> (chans s)) s))
      | _ => None
      end
  | LStackGone hex => _ ← chans s !! hex; Some (set_chans (delete hex (chans s)) s)
  end.

Fixpoint wrun (s : server) (ls : list label) : option server :=
  match ls with [] => Some s | l :: ls => s' ← wstep s l; wrun s' ls end.

(** ** Building the peers *)

(** A peer as the configuration has it. *)
Definition configured (cs : list WireGuardPeerConfig) (hex : list Z) (nets : list Network) : Prop :=
  exists c bs, c ∈ cs /\ decode_key (public_key c) = Done bs /\ length bs = 32%nat /\
    hex = hex_encode bs /\ parse_networks (cfg_allowed_ips c) = Done nets.

Lemma build_peer_sound priv now idx c hex p : build_peer priv now idx c = Done (hex, p) ->
  endpoint p = None /\ configured [c] hex (allowed_ips p).
Proof.
  unfold build_peer. destruct (decode_key (public_key c)) as [bs| |] eqn:Ek; try done. simpl.
  unfold try_32 at 1. case_decide as Hl; [|done]. simpl.
  destruct (build_psk c) as [psk| |]; try done. simpl.
  destruct (parse_networks (cfg_allowed_ips c)) as [nets| |] eqn:En; try done. simpl. intros [= <- <-].
  split; [done|]. exists c, bs. split_and!; try done. by left.
Qed.

Lemma build_peers_sound priv now idx cs m ps :
  (build_peers priv now idx cs m).2 = Done ps -> forall hex p, ps !! hex = Some p ->
  m !! hex = Some p \/ endpoint p = None /\ configured cs hex (allowed_ips p).
Proof.
  revert idx m. induction cs as [|c cs IH]; intros idx m; simpl; [intros [= <-]; auto|].
  destruct (build_peer priv now idx c) as [[h q]| |] eqn:Eb; try done.
  destruct (build_peers priv now (idx + 1) cs (<[h := q]> m)) as [sp o] eqn:Er. simpl. intros -> hex p Hp.
  assert (Hsub : forall nets cs', configured cs' hex nets -> cs' ⊆ c :: cs -> configured (c :: cs) hex nets).
  { intros nets cs' (c' & bs & Hin & Hrest) Hsub. exists c', bs. split; [by apply Hsub|done]. }
  destruct (IH (idx + 1) (<[h := q]> m) ltac:(by rewrite Er) hex p Hp) as [Hm|[He Hc]].
  - apply lookup_insert_Some in Hm as [[<- <-]|[_ Hm]]; [|by left]. right.
    destruct (build_peer_sound _ _ _ _ _ _ Eb) as [He Hc]. split; [done|]. apply (Hsub _ _ Hc).
    intros x ->%list_elem_of_singleton. by left.
  - right. split; [done|]. apply (Hsub _ _ Hc). intros x Hx. by right.
Qed.

(** The entries that are read, up to the first that is not. *)
Fixpoint readable (priv : list Z) (now idx : Z) (cs : list WireGuardPeerConfig) : list (list Z) :=
  match cs with
  | [] => []
  | c :: cs => match build_peer priv now idx c with Done (h, _) => h :: readable priv now (idx + 1) cs | _ => [] end
  end.

Lemma build_peers_spawned priv now idx cs m : (build_peers priv now idx cs m).1 = readable priv now idx cs.
Proof.
  revert idx m. induction cs as [|c cs IH]; intros idx m; simpl; [done|].
  destruct (build_peer priv now idx c) as [[h q]| |]; [|done..].
  specialize (IH (idx + 1) (<[h := q]> m)). destruct (build_peers _ _ _ _ _) as [sp o]. simpl in *. by rewrite IH.
Qed.

(** ** The timers *)

Lemma timers_loop_ends fuel t : (due t < fuel)%nat -> exists pkts t', timers_loop fuel t = Some (pkts, t').
Proof.
  revert t. induction fuel as [|fuel IH]; intros t Hd; [lia|]. simpl.
  destruct (update_timers t) as [[| |pkt|pkt|pkt] t1] eqn:E; eauto.
  pose proof (due_less _ _ _ E). destruct (IH t1) as (pkts & t' & ->); [lia|]. simpl. eauto.
Qed.

Lemma drain_timers_ends t : exists pkts t', drain_timers t = Some (pkts, t').
Proof. apply timers_loop_ends. lia. Qed.

(** ** The invariant *)

Definition seen (tr : list saction) (a : SocketAddr) : Prop := exists raw, ARecv raw a ∈ tr.
(** The packet came out of the peer's tunnel. *)
Definition opened_by (tr : list saction) (hex pkt : list Z) : Prop :=
  exists raw src r, ADecap hex raw src r ∈ tr /\ (r = WriteToTunnelV4 pkt \/ r = WriteToTunnelV6 pkt).

(** When an action may follow others. *)
Definition sjust (ps0 : gmap (list Z) Peer) (tr : list saction) (e : saction) : Prop :=
  match e with
  | ARecv _ _ => True
  | ADecap _ raw src _ => ARecv raw src ∈ tr
  | ASend _ a => seen tr a
  | ADeliver hex pkt => opened_by tr hex pkt /\
      exists p a, ps0 !! hex = Some p /\ packet_src_ip pkt = Done a /\ allows (allowed_ips p) a = true
  | ATake hex pkt => ADeliver hex pkt ∈ tr
  end.

Definition pc_ok (ps : gmap (list Z) Peer) (tr : list saction) (c : main_pc) : Prop :=
  match c with
  | PRecv => True
  | PDecap hex raw src => is_Some (ps !! hex) /\ ARecv raw src ∈ tr
  | PTimers hex src o => is_Some (ps !! hex) /\ seen tr src /\ forall pkt, o = Some pkt -> opened_by tr hex pkt
  | PDeliver hex pkt => is_Some (ps !! hex) /\ opened_by tr hex pkt
  end.

Definition peer_ok (ps0 : gmap (list Z) Peer) (tr : list saction) (hex : list Z) (p : Peer) : Prop :=
  (exists p0, ps0 !! hex = Some p0 /\ allowed_ips p = allowed_ips p0) /\
  forall a, endpoint p = Some a -> seen tr a.

Record winv (ps0 : gmap (list Z) Peer) (s : server) : Prop := {
  w_peers hex p : peers s !! hex = Some p -> peer_ok ps0 (strace s) hex p;
  w_pc : pc_ok (peers s) (strace s) (pc s);
  w_enc hex pkt ep : enc s !! hex = Some (pkt, ep) -> is_Some (peers s !! hex) /\ seen (strace s) ep;
  w_timer hex ep : timer s = Some (hex, ep) -> is_Some (peers s !! hex) /\ seen (strace s) ep;
  w_chans hex q pkt : chans s !! hex = Some q -> pkt ∈ q -> ADeliver hex pkt ∈ strace s;
  w_trace : history_ok (sjust ps0) (strace s);
}.

Lemma seen_sub tr tr' a : tr ⊆ tr' -> seen tr a -> seen tr' a.
Proof. intros Hs [raw ?]. exists raw. auto. Qed.
Lemma opened_sub tr tr' hex pkt : tr ⊆ tr' -> opened_by tr hex pkt -> opened_by tr' hex pkt.
Proof. intros Hs (raw & src & r & ? & ?). exists raw, src, r. auto. Qed.
Lemma peer_ok_sub ps0 tr tr' hex p : tr ⊆ tr' -> peer_ok ps0 tr hex p -> peer_ok ps0 tr' hex p.
Proof. intros Hs [? He]. split; [done|]. intros a Ha. eapply seen_sub; eauto. Qed.
Lemma pc_ok_sub ps ps' tr tr' c : tr ⊆ tr' -> (forall hex, is_Some (ps !! hex) -> is_Some (ps' !! hex)) ->
  pc_ok ps tr c -> pc_ok ps' tr' c.
Proof.
  intros Hs Hp. destruct c; simpl; [done|..].
  - intros [? ?]. auto.
  - intros (? & ? & ?). split_and!; [auto|by eapply seen_sub|]. intros. eapply opened_sub; eauto.
  - intros [? ?]. split; [auto|by eapply opened_sub].
Qed.

(** The invariant after a change of one peer and some actions. *)
Lemma winv_step ps0 s hex p c es :
  winv ps0 s -> peer_ok ps0 (strace s ++ es) hex p -> is_Some (peers s !! hex) ->
  pc_ok (<[hex := p]> (peers s)) (strace s ++ es) c ->
  (forall e tr', e ∈ es -> strace s ⊆ tr' -> sjust ps0 tr' e) ->
  winv ps0 (Server (<[hex := p]> (peers s)) c (enc s) (timer s) (strace s ++ es) (chans s)).
Proof.
  intros [] Hp Hin Hc He.
  assert (Hsub : strace s ⊆ strace s ++ es) by (intros x Hx; apply elem_of_app; by left).
  assert (Hdom : forall h, is_Some (peers s !! h) -> is_Some (<[hex := p]> (peers s) !! h)).
  { intros h Hh. destruct (decide (h = hex)) as [->|]; [rewrite lookup_insert_eq; eauto|by rewrite lookup_insert_ne]. }
  constructor; simpl; try done.
  - intros h q. rewrite lookup_insert_Some. intros [[<- <-]|[_ Hq]]; [done|]. eapply peer_ok_sub; eauto.
  - intros h pkt ep Hh. destruct (w_enc0 _ _ _ Hh). split; [auto|by eapply seen_sub].
  - intros h ep Hh. destruct (w_timer0 _ _ Hh). split; [auto|by eapply seen_sub].
  - intros h q pkt Hq Hin'. apply Hsub. by eapply w_chans0.
  - by apply history_ok_app.
Qed.

Lemma find_peer_in ps src hex p : (forall l, order l ≡ₚ l) -> find_peer ps src = Some (hex, p) -> ps !! hex = Some p.
Proof.
  intros Hperm. unfold find_peer. destruct (List.find _ _) as [hp|] eqn:Ef.
  - intros [= ->]. apply List.find_some in Ef as [Hin _]. apply list_elem_of_In in Hin.
    rewrite Hperm in Hin. by apply elem_of_map_to_list.
  - intros Eh%head_Some_elem_of. rewrite Hperm in Eh. by apply elem_of_map_to_list.
Qed.

(** The main loop waits for the stack of a peer: it has a packet for it that the AllowedIPs
    let through, and the channel to the stack is full. *)
Definition waits_for (hex : list Z) (s : server) : Prop :=
  exists pkt p a q, pc s = PDeliver hex pkt /\ peers s !! hex = Some p /\ packet_src_ip pkt = Done a /\
    allows (allowed_ips p) a = true /\ chans s !! hex = Some q /\ (STACK_CHANNEL <= length q)%nat.

Section steps.
Hypothesis order_perm : forall l, order l ≡ₚ l.
Context (ps0 : gmap (list Z) Peer).

Lemma winv_pc s c : winv ps0 s -> pc_ok (peers s) (strace s) c -> winv ps0 (set_pc c s).
Proof. intros [] Hc. by constructor. Qed.

Lemma winv_act s es : winv ps0 s -> (forall e tr', e ∈ es -> strace s ⊆ tr' -> sjust ps0 tr' e) -> winv ps0 (act es s).
Proof.
  intros [] He. assert (Hsub : strace s ⊆ strace s ++ es) by (intros x Hx; apply elem_of_app; by left).
  constructor; simpl; try done.
  - intros h q Hq. eapply peer_ok_sub; eauto.
  - by eapply pc_ok_sub.
  - intros h pkt ep Hh. destruct (w_enc0 _ _ _ Hh). split; [auto|by eapply seen_sub].
  - intros h ep Hh. destruct (w_timer0 _ _ Hh). split; [auto|by eapply seen_sub].
  - intros h q pkt Hq Hin'. apply Hsub. by eapply w_chans0.
  - by apply history_ok_app.
Qed.

Lemma winv_tunnel s hex p t : winv ps0 s -> peers s !! hex = Some p -> winv ps0 (set_tunnel hex p t s).
Proof.
  intros Hs Hp. unfold set_tunnel. rewrite <- (app_nil_r (strace s)).
  apply winv_step; [done| |eauto| |].
  - rewrite app_nil_r. exact (w_peers ps0 s Hs hex p Hp).
  - rewrite app_nil_r. eapply pc_ok_sub; [done| |apply Hs]. intros h Hh.
    destruct (decide (h = hex)) as [->|]; [rewrite lookup_insert_eq; eauto|by rewrite lookup_insert_ne].
  - intros e tr' He. by apply elem_of_nil in He.
Qed.

Lemma set_tunnel_in s hex p t : is_Some (peers (set_tunnel hex p t s) !! hex).
Proof. simpl. rewrite lookup_insert_eq. eauto. Qed.

(** What the steps of the main loop add to the trace. *)
Lemma sends_just (tr : list saction) (pkts : list (list Z)) a : seen tr a ->
  forall e tr', e ∈ ((fun pkt => ASend pkt a) <$> pkts) -> tr ⊆ tr' -> sjust ps0 tr' e.
Proof. intros Hs e tr' (pkt & -> & _)%list_elem_of_fmap Hsub. simpl. by eapply seen_sub. Qed.

Lemma step_recv_inv raw src now s : winv ps0 s -> pc s = PRecv -> winv ps0 (step_recv raw src now s).
Proof.
  intros Hs Hpc. unfold step_recv. cbv zeta.
  assert (Hs1 : winv ps0 (act [ARecv raw src] s)).
  { apply winv_act; [done|]. by intros e tr' ->%list_elem_of_singleton _. }
  destruct (find_peer _ src) as [[hex p]|] eqn:Ef; [|done].
  apply (find_peer_in _ _ _ _ order_perm) in Ef. simpl in Ef.
  assert (Hin : ARecv raw src ∈ strace s ++ [ARecv raw src]) by (apply elem_of_app; right; by left).
  destruct (w_peers _ _ Hs1 hex p Ef) as [Hal _].
  pose proof (winv_step ps0 (act [ARecv raw src] s) hex
    (MkPeer (tunnel p) (Some src) (allowed_ips p) now) (PDecap hex raw src) [] Hs1) as Hw.
  simpl in Hw. rewrite app_nil_r in Hw. apply Hw.
  - split; [done|]. intros a [= <-]. by exists raw.
  - eauto.
  - split; [rewrite lookup_insert_eq; eauto|done].
  - intros e tr' He. by apply elem_of_nil in He.
Qed.

Lemma step_decap_inv hex raw src p s :
  winv ps0 s -> pc s = PDecap hex raw src -> peers s !! hex = Some p -> winv ps0 (step_decap hex raw src p s).
Proof.
  intros Hs Hpc Hp. pose proof (w_pc _ _ Hs) as Hc. rewrite Hpc in Hc. destruct Hc as [_ Hr].
  unfold step_decap. destruct (decapsulate (ip src) raw (tunnel p)) as [r t].
  assert (Hs1 : winv ps0 (act [ADecap hex raw src r] (set_tunnel hex p t s))).
  { apply winv_act; [by apply winv_tunnel|]. intros e tr' ->%list_elem_of_singleton Hsub. by apply Hsub. }
  assert (Hseen : seen (strace s ++ [ADecap hex raw src r]) src) by (exists raw; apply elem_of_app; by left).
  pose proof (set_tunnel_in s hex p t) as Hin.
  destruct r as [| |pkt|pkt|pkt]; (apply winv_pc; [try done|]); try by split_and!.
  - apply winv_act; [done|]. intros e tr' ->%list_elem_of_singleton Hsub. by eapply seen_sub.
  - split_and!; [done|eapply seen_sub; [|done]; intros x Hx; apply elem_of_app; by left|done].
  - split_and!; [done..|]. intros ? [= <-]. exists raw, src, (WriteToTunnelV4 pkt). split; [|by left].
    apply elem_of_app. right. by left.
  - split_and!; [done..|]. intros ? [= <-]. exists raw, src, (WriteToTunnelV6 pkt). split; [|by right].
    apply elem_of_app. right. by left.
Qed.

Lemma step_timers_inv hex src o p s s' :
  winv ps0 s -> pc s = PTimers hex src o -> peers s !! hex = Some p -> step_timers hex src o p s = Some s' ->
  winv ps0 s'.
Proof.
  intros Hs Hpc Hp. pose proof (w_pc _ _ Hs) as Hc. rewrite Hpc in Hc. destruct Hc as (_ & Hseen & Ho).
  unfold step_timers. destruct (drain_timers (tunnel p)) as [[pkts t]|]; [|done]. simpl. intros [= <-].
  apply winv_pc.
  - apply winv_act; [by apply winv_tunnel|]. by apply sends_just.
  - destruct o as [pkt|]; [|done]. split; [apply set_tunnel_in|].
    eapply opened_sub; [|by apply Ho]. intros x Hx. apply elem_of_app. by left.
Qed.

(** A change of the channels, whose packets were all delivered. *)
Lemma winv_chans s m : winv ps0 s ->
  (forall hex q pkt, m !! hex = Some q -> pkt ∈ q -> ADeliver hex pkt ∈ strace s) -> winv ps0 (set_chans m s).
Proof. intros [] Hm. by constructor. Qed.

Lemma send_stack_inv hex pkt s s' : winv ps0 s -> (forall tr', strace s ⊆ tr' -> sjust ps0 tr' (ADeliver hex pkt)) ->
  send_stack hex pkt s = Some s' -> winv ps0 s'.
Proof.
  intros Hs Hj. unfold send_stack. destruct (chans s !! hex) as [q|] eqn:Eq; [|by intros [= <-]].
  case_decide; [|done]. intros [= <-].
  assert (Hs1 : winv ps0 (act [ADeliver hex pkt] s)).
  { apply winv_act; [done|]. intros e tr' ->%list_elem_of_singleton. apply Hj. }
  apply (winv_chans (act [ADeliver hex pkt] s) _ Hs1). simpl. intros h q' p [[<- <-]|[_ Hq]]%lookup_insert_Some Hp.
  - apply elem_of_app. apply elem_of_app in Hp as [Hp| ->%list_elem_of_singleton]; [|right; by left].
    left. by eapply w_chans.
  - apply elem_of_app. left. by eapply w_chans.
Qed.

Lemma step_deliver_inv hex pkt p s s' :
  winv ps0 s -> pc s = PDeliver hex pkt -> peers s !! hex = Some p -> step_deliver hex pkt p s = Some s' ->
  winv ps0 s'.
Proof.
  intros Hs Hpc Hp. pose proof (w_pc _ _ Hs) as Hc. rewrite Hpc in Hc. destruct Hc as [_ Ho].
  destruct (w_peers _ _ Hs hex p Hp) as [(p0 & Hp0 & Hal) _].
  unfold step_deliver. destruct (packet_src_ip pkt) as [a| |] eqn:Ea; try done.
  destruct (allows (allowed_ips p) a) eqn:Ew; [|intros [= <-]; by apply winv_pc].
  destruct (send_stack hex pkt s) as [s1|] eqn:Es; [|done]. intros [= <-]. apply winv_pc; [|done].
  eapply send_stack_inv; [done| |done]. intros tr' Hsub. split; [by eapply opened_sub|]. exists p0, a. by rewrite <- Hal.
Qed.

(** Replacing what the tasks have read. *)
Lemma winv_tasks s en ti :
  winv ps0 s ->
  (forall hex pkt ep, en !! hex = Some (pkt, ep) -> is_Some (peers s !! hex) /\ seen (strace s) ep) ->
  (forall hex ep, ti = Some (hex, ep) -> is_Some (peers s !! hex) /\ seen (strace s) ep) ->
  winv ps0 (Server (peers s) (pc s) en ti (strace s) (chans s)).
Proof. intros [] He Ht. by constructor. Qed.

Lemma wstep_inv s l s' : winv ps0 s -> wstep s l = Some s' -> winv ps0 s'.
Proof.
  intros Hs. destruct l as [raw src now| | | |hex pkt|hex|hex| |hex|hex]; simpl.
  - destruct (pc s) eqn:Hpc; try done. intros [= <-]. by apply step_recv_inv.
  - destruct (pc s) as [|hex raw src| |] eqn:Hpc; try done. destruct (peers s !! hex) as [p|] eqn:Hp; [|done].
    simpl. intros [= <-]. by apply step_decap_inv.
  - destruct (pc s) as [| |hex src o|] eqn:Hpc; try done. destruct (peers s !! hex) as [p|] eqn:Hp; [|done].
    simpl. by apply step_timers_inv.
  - destruct (pc s) as [| | |hex pkt] eqn:Hpc; try done. destruct (peers s !! hex) as [p|] eqn:Hp; [|done].
    simpl. by apply step_deliver_inv.
  - destruct (peers s !! hex) as [p|] eqn:Hp; [|done]. simpl.
    destruct (enc s !! hex) eqn:En; [done|]. destruct (endpoint p) as [ep|] eqn:Ep; intros [= <-]; [|done].
    apply winv_tasks; [done| |apply Hs]. intros h q a. rewrite lookup_insert_Some.
    intros [[<- [= <- <-]]|[_ Hq]]; [|by eapply w_enc]. split; [eauto|].
    by apply (proj2 (w_peers _ _ Hs hex p Hp)).
  - destruct (peers s !! hex) as [p|] eqn:Hp; [|done]. simpl.
    destruct (enc s !! hex) as [[pkt ep]|] eqn:En; [|done]. simpl.
    destruct (encapsulate pkt (tunnel p)) as [r t] eqn:Ec.
    destruct (w_enc _ _ Hs _ _ _ En) as [_ Hseen].
    assert (Hs1 : winv ps0 (set_tunnel hex p t (Server (peers s) (pc s) (delete hex (enc s)) (timer s) (strace s) (chans s)))).
    { apply winv_tunnel; [|done]. apply winv_tasks; [done| |apply Hs].
      intros h q a [_ Hq]%lookup_delete_Some. by eapply w_enc. }
    intros [= <-]. destruct r; try exact Hs1. apply winv_act; [done|].
    intros e tr' ->%list_elem_of_singleton Hsub. by eapply seen_sub.
  - destruct (peers s !! hex) as [p|] eqn:Hp; [|done]. simpl.
    destruct (timer s) eqn:En; [done|]. destruct (endpoint p) as [ep|] eqn:Ep; intros [= <-]; [|done].
    apply winv_tasks; [done|apply Hs|]. intros h a [= <- <-]. split; [eauto|].
    by apply (proj2 (w_peers _ _ Hs hex p Hp)).
  - destruct (timer s) as [[hex ep]|] eqn:En; [|done]. simpl.
    destruct (w_timer _ _ Hs _ _ En) as [[p Hp] Hseen]. rewrite Hp. simpl.
    destruct (drain_timers (tunnel p)) as [[pkts t]|]; [|done]. simpl. intros [= <-].
    apply winv_act; [|by apply sends_just]. apply winv_tunnel; [|done]. apply winv_tasks; [done|apply Hs|done].
  - destruct (chans s !! hex) as [[|pkt q]|] eqn:Eq; try done. intros [= <-].
    assert (Hin : ADeliver hex pkt ∈ strace s) by (eapply (w_chans _ _ Hs hex _ pkt Eq); by left).
    apply (winv_act (set_chans _ s)); [apply winv_chans; [done|]|].
    + intros h q' p [[<- <-]|[_ Hq]]%lookup_insert_Some Hp; eapply (w_chans _ _ Hs); try done. by right.
    + intros e tr' ->%list_elem_of_singleton Hsub. by apply Hsub.
  - destruct (chans s !! hex) as [q|] eqn:Eq; [|done]. intros [= <-]. apply winv_chans; [done|].
    intros h q' p [_ Hq]%lookup_delete_Some. by apply (w_chans _ _ Hs).
Qed.

Lemma wrun_inv s ls s' : winv ps0 s -> wrun s ls = Some s' -> winv ps0 s'.
Proof.
  revert s. induction ls as [|l ls IH]; intros s Hs; simpl; [by intros [= <-]|].
  destruct (wstep s l) as [s1|] eqn:E; [|done]. simpl. apply IH. by eapply wstep_inv.
Qed.

Lemma winv0 : (forall hex p, ps0 !! hex = Some p -> endpoint p = None) -> winv ps0 (server0 ps0).
Proof.
  intros He. constructor; simpl; try done.
  - intros hex p Hp. split; [eauto|]. intros a Ha. rewrite (He hex p Hp) in Ha. done.
  - intros hex q pkt Hq Hp. rewrite lookup_fmap in Hq. destruct (ps0 !! hex); [|done]. injection Hq as <-.
    by apply elem_of_nil in Hp.
  - apply history_ok_nil.
Qed.

Lemma packet_src_ip_total pkt : exists a, packet_src_ip pkt = Done a.
Proof.
  unfold packet_src_ip. destruct pkt as [|b r]; [eexists; reflexivity|]. cbv beta iota zeta delta [hd_error].
  case_decide as H4; [rewrite ipv4_at_ok by lia; eauto|]. case_decide as H6; [|eexists; reflexivity].
  rewrite slice_ok by lia. cbn [mbind outcome_bind bind_outcome].
  rewrite ipv6_from_slice_ok by (rewrite length_take, length_drop; lia). eauto.
Qed.

(** In the middle of a datagram the main loop can take its next step, unless it waits
    for a stack. *)
Lemma main_progress s : winv ps0 s -> pc s <> PRecv ->
  (exists l s', l ∈ [LDecap; LTimers; LDeliver] /\ wstep s l = Some s') \/ exists hex, waits_for hex s.
Proof.
  intros Hs Hpc. pose proof (w_pc _ _ Hs) as Hc. destruct (pc s) as [|hex raw src|hex src o|hex pkt] eqn:Epc; [done|..].
  - left. destruct Hc as [[p Hp] _]. exists LDecap. eexists. split; [by left|]. simpl. rewrite Epc, Hp. done.
  - left. destruct Hc as [[p Hp] _]. destruct (drain_timers_ends (tunnel p)) as (pkts & t & Ed).
    exists LTimers. eexists. split; [right; by left|]. simpl. rewrite Epc, Hp. simpl. unfold step_timers. by rewrite Ed.
  - destruct Hc as [[p Hp] _]. destruct (packet_src_ip_total pkt) as [a Ea].
    assert (E : wstep s LDeliver = step_deliver hex pkt p s) by (simpl; by rewrite Epc, Hp).
    destruct (step_deliver hex pkt p s) as [s'|] eqn:Ed.
    + left. exists LDeliver, s'. split; [right; right; by left|done].
    + right. exists hex. unfold step_deliver in Ed. rewrite Ea in Ed.
      destruct (allows (allowed_ips p) a) eqn:Ew; [|done]. unfold send_stack in Ed.
      destruct (chans s !! hex) as [q|] eqn:Eq; [|done]. case_decide; [done|]. exists pkt, p, a, q. split_and!; try done. lia.
Qed.

End steps.

(** ** The channels to the stacks *)

(** What the server put into the channel of a peer's stack, and what the stack took. *)
Definition delivered (hex : list Z) (tr : list saction) : list (list Z) :=
  omap (fun e => match e with ADeliver h pkt => if decide (h = hex) then Some pkt else None | _ => None end) tr.
Definition taken (hex : list Z) (tr : list saction) : list (list Z) :=
  omap (fun e => match e with ATake h pkt => if decide (h = hex) then Some pkt else None | _ => None end) tr.

(** The channel holds what was delivered and not yet taken, in order, within its bound. *)
Definition chan_inv (s : server) : Prop := forall hex,
  match chans s !! hex with
  | Some q => delivered hex (strace s) = taken hex (strace s) ++ q /\ (length q <= STACK_CHANNEL)%nat
  | None => taken hex (strace s) `prefix_of` delivered hex (strace s)
  end.

Definition off_channel (e : saction) : Prop := match e with ADeliver _ _ | ATake _ _ => False | _ => True end.

Lemma off_channel_nil hex es : Forall off_channel es -> delivered hex es = [] /\ taken hex es = [].
Proof. induction 1 as [|e es He _ [E1 E2]]; [done|]. by destruct e. Qed.

(** A step that leaves the channels as they are. *)
Lemma chan_inv_same s s' es : chan_inv s -> chans s' = chans s -> strace s' = strace s ++ es -> Forall off_channel es ->
  chan_inv s'.
Proof.
  intros Hs Ec Et He hex. destruct (off_channel_nil hex es He) as [E1 E2]. specialize (Hs hex).
  unfold delivered, taken in *. by rewrite Ec, Et, !omap_app, E1, E2, !app_nil_r.
Qed.

Lemma chan_inv_put s hex pkt q : chan_inv s -> chans s !! hex = Some q -> (length q < STACK_CHANNEL)%nat ->
  chan_inv (act [ADeliver hex pkt] (set_chans (<[hex := q ++ [pkt]]> (chans s)) s)).
Proof.
  intros Hs Hq Hl h. pose proof (Hs h) as Hh. simpl. unfold delivered, taken in *. rewrite !omap_app. simpl.
  destruct (decide (hex = h)) as [<-|Hne].
  - rewrite lookup_insert_eq. rewrite Hq in Hh. destruct Hh as [-> _]. rewrite app_nil_r, <- app_assoc, length_app.
    split; [done|]. simpl. lia.
  - rewrite lookup_insert_ne by done. by rewrite !app_nil_r.
Qed.

Lemma chan_inv_take s hex pkt q : chan_inv s -> chans s !! hex = Some (pkt :: q) ->
  chan_inv (act [ATake hex pkt] (set_chans (<[hex := q]> (chans s)) s)).
Proof.
  intros Hs Hq h. pose proof (Hs h) as Hh. simpl. unfold delivered, taken in *. rewrite !omap_app. simpl.
  destruct (decide (hex = h)) as [<-|Hne].
  - rewrite lookup_insert_eq. rewrite Hq in Hh. destruct Hh as [-> Hl]. rewrite app_nil_r, <- app_assoc.
    split; [done|]. simpl in Hl. lia.
  - rewrite lookup_insert_ne by done. by rewrite !app_nil_r.
Qed.

Lemma chan_inv_gone s hex : chan_inv s -> chan_inv (set_chans (delete hex (chans s)) s).
Proof.
  intros Hs h. pose proof (Hs h) as Hh. simpl. destruct (decide (hex = h)) as [<-|Hne]; [|by rewrite lookup_delete_ne].
  rewrite lookup_delete_eq. destruct (chans s !! hex) as [q|]; [|done]. destruct Hh as [-> _]. by exists q.
Qed.

Lemma sends_off_channel (pkts : list (list Z)) a : Forall off_channel ((fun pkt => ASend pkt a) <$> pkts).
Proof. by apply Forall_fmap, Forall_true. Qed.

(** What a step does to the trace and the channels. *)
Lemma wstep_chans s l s' : wstep s l = Some s' ->
  (chans s' = chans s /\ exists es, strace s' = strace s ++ es /\ Forall off_channel es) \/
  (exists hex pkt q, chans s !! hex = Some q /\ (length q < STACK_CHANNEL)%nat /\
    chans s' = <[hex := q ++ [pkt]]> (chans s) /\ strace s' = strace s ++ [ADeliver hex pkt]) \/
  (exists hex pkt q, l = LStackTake hex /\ chans s !! hex = Some (pkt :: q) /\
    chans s' = <[hex := q]> (chans s) /\ strace s' = strace s ++ [ATake hex pkt]) \/
  (exists hex, l = LStackGone hex /\ chans s' = delete hex (chans s) /\ strace s' = strace s).
Proof.
  assert (H0 : forall s' es, chans s' = chans s -> strace s' = strace s ++ es -> Forall off_channel es ->
    chans s' = chans s /\ exists es, strace s' = strace s ++ es /\ Forall off_channel es) by eauto.
  destruct l as [raw src now| | | |hex pkt|hex|hex| |hex|hex]; simpl.
  - destruct (pc s); try done. intros [= <-]. left. unfold step_recv. simpl.
    destruct (find_peer _ _) as [[hex p]|]; apply (H0 _ [ARecv raw src]); try done; by repeat constructor.
  - destruct (pc s) as [|hex raw src| |]; try done. destruct (peers s !! hex) as [p|]; [|done]. simpl. intros [= <-]. left.
    unfold step_decap. destruct (decapsulate _ _ _) as [[| |pkt|pkt|pkt] t];
      [apply (H0 _ [ADecap hex raw src TDone])|apply (H0 _ [ADecap hex raw src TErr])
      |apply (H0 _ [ADecap hex raw src (WriteToNetwork pkt); ASend pkt src])
      |apply (H0 _ [ADecap hex raw src (WriteToTunnelV4 pkt)])|apply (H0 _ [ADecap hex raw src (WriteToTunnelV6 pkt)])];
      try done; try (by repeat constructor); simpl; by rewrite <- app_assoc.
  - destruct (pc s) as [| |hex src o|]; try done. destruct (peers s !! hex) as [p|]; [|done]. simpl.
    unfold step_timers. destruct (drain_timers _) as [[pkts t]|]; [|done]. intros [= <-]. left.
    eapply H0; [done..|apply sends_off_channel].
  - destruct (pc s) as [| | |hex pkt]; try done. destruct (peers s !! hex) as [p|]; [|done]. simpl.
    unfold step_deliver. destruct (packet_src_ip pkt) as [a| |]; try done.
    destruct (allows _ _); [|intros [= <-]; left; by apply (H0 _ []); [|simpl; rewrite app_nil_r|]].
    unfold send_stack. destruct (chans s !! hex) as [q|] eqn:Eq;
      [|intros [= <-]; left; by apply (H0 _ []); [|simpl; rewrite app_nil_r|]].
    case_decide; [|done]. intros [= <-]. right. left. by exists hex, pkt, q.
  - destruct (peers s !! hex) as [p|]; [|done]. simpl.
    destruct (enc s !! hex); [done|]. destruct (endpoint p); intros [= <-]; left;
      by apply (H0 _ []); [|simpl; rewrite app_nil_r|].
  - destruct (peers s !! hex) as [p|]; [|done]. simpl. destruct (enc s !! hex) as [[pkt ep]|]; [|done]. simpl.
    destruct (encapsulate _ _) as [[| |ct|ct|ct] t]; intros [= <-]; left;
      try (by apply (H0 _ []); [|simpl; rewrite app_nil_r|]).
    eapply H0; [done..|]. by repeat constructor.
  - destruct (peers s !! hex) as [p|]; [|done]. simpl.
    destruct (timer s); [done|]. destruct (endpoint p); intros [= <-]; left;
      by apply (H0 _ []); [|simpl; rewrite app_nil_r|].
  - destruct (timer s) as [[hex ep]|]; [|done]. simpl. destruct (peers s !! hex) as [p|]; [|done]. simpl.
    destruct (drain_timers _) as [[pkts t]|]; [|done]. intros [= <-]. left. eapply H0; [done..|apply sends_off_channel].
  - destruct (chans s !! hex) as [[|pkt q]|] eqn:Eq; try done. intros [= <-]. right. right. left. by exists hex, pkt, q.
  - destruct (chans s !! hex) as [q|] eqn:Eq; [|done]. intros [= <-]. right. right. right. by exists hex.
Qed.

Lemma wstep_chan_inv s l s' : chan_inv s -> wstep s l = Some s' -> chan_inv s'.
Proof.
  intros Hs [(Ec & es & Et & He)|[(hex & pkt & q & Hq & Hl & Ec & Et)|[(hex & pkt & q & _ & Hq & Ec & Et)
    |(hex & _ & Ec & Et)]]]%wstep_chans; intros h; rewrite ?Ec, ?Et.
  - pose proof (chan_inv_same s s' es Hs Ec Et He h) as Hh. by rewrite Ec, Et in Hh.
  - exact (chan_inv_put s hex pkt q Hs Hq Hl h).
  - exact (chan_inv_take s hex pkt q Hs Hq h).
  - exact (chan_inv_gone s hex Hs h).
Qed.

Lemma wrun_chan_inv s ls s' : chan_inv s -> wrun s ls = Some s' -> chan_inv s'.
Proof.
  revert s. induction ls as [|l ls IH]; intros s Hs; simpl; [by intros [= <-]|].
  destruct (wstep s l) as [s1|] eqn:E; [|done]. simpl. apply IH. by eapply wstep_chan_inv.
Qed.

Lemma chan_inv0 ps0 : chan_inv (server0 ps0).
Proof. intros hex. simpl. rewrite lookup_fmap. destruct (ps0 !! hex); simpl; [split; [done|lia]|by exists []]. Qed.

Lemma taken_delivered ps0 ls s hex : wrun (server0 ps0) ls = Some s ->
  taken hex (strace s) `prefix_of` delivered hex (strace s).
Proof.
  intros Hr. pose proof (wrun_chan_inv _ _ _ (chan_inv0 ps0) Hr hex) as Hc.
  destruct (chans s !! hex) as [q|]; [destruct Hc as [-> _]; by exists q|done].
Qed.

(** The wait ends as soon as the stack takes a packet. *)
Lemma waiting_goes_on hex s : chan_inv s -> waits_for hex s ->
  exists s1 s2, wstep s (LStackTake hex) = Some s1 /\ wstep s1 LDeliver = Some s2 /\ pc s2 = PRecv.
Proof.
  intros Hs (pkt & p & a & q & Hpc & Hp & Ha & Hal & Hq & Hl). specialize (Hs hex). rewrite Hq in Hs. destruct Hs as [_ Hb].
  destruct q as [|pkt0 q]; [simpl in Hl; unfold STACK_CHANNEL in Hl; lia|].
  assert (E1 : wstep s (LStackTake hex) = Some (act [ATake hex pkt0] (set_chans (<[hex := q]> (chans s)) s)))
    by (simpl; by rewrite Hq).
  set (s1 := act _ _) in E1. exists s1.
  assert (E2 : wstep s1 LDeliver = set_pc PRecv <$> send_stack hex pkt s1).
  { simpl. rewrite Hpc. simpl. rewrite Hp. simpl. unfold step_deliver. by rewrite Ha, Hal. }
  rewrite E2. unfold send_stack. simpl. rewrite lookup_insert_eq, decide_True; [by eexists|]. simpl in Hb. lia.
Qed.

(** Until then nothing is received, from any peer. *)
Definition not_received (e : saction) : Prop := match e with ARecv _ _ => False | _ => True end.

Lemma waits_for_same hex s s' es : waits_for hex s -> pc s' = pc s -> chans s' !! hex = chans s !! hex ->
  peers s' !! hex = peers s !! hex \/ (exists p t, peers s !! hex = Some p /\ peers s' !! hex = Some (with_tunnel p t)) ->
  strace s' = strace s ++ es -> Forall not_received es ->
  waits_for hex s' /\ pc s' = pc s /\ forall raw src, ARecv raw src ∈ strace s' -> ARecv raw src ∈ strace s.
Proof.
  intros (pkt & p & a & q & Hpc & Hp & Ha & Hal & Hq & Hl) Epc Ech Hps Et He. split; [|split; [done|]].
  - destruct Hps as [Hps|(p1 & t & Hp1 & Hps)].
    + exists pkt, p, a, q. by rewrite Epc, Ech, Hps.
    + assert (p1 = p) as -> by congruence. exists pkt, (with_tunnel p t), a, q. by rewrite Epc, Ech, Hps.
  - intros raw src. rewrite Et, elem_of_app. intros [?|Hin]; [done|]. rewrite Forall_forall in He. by apply He in Hin.
Qed.

Lemma tunnel_peer (s : server) h hex p t : peers s !! h = Some p ->
  <[h := with_tunnel p t]> (peers s) !! hex = peers s !! hex \/
  (exists p0 t', peers s !! hex = Some p0 /\ <[h := with_tunnel p t]> (peers s) !! hex = Some (with_tunnel p0 t')).
Proof.
  intros Hp. destruct (decide (h = hex)) as [<-|]; [right; exists p, t; by rewrite lookup_insert_eq|left].
  by rewrite lookup_insert_ne.
Qed.

Lemma sends_not_received (pkts : list (list Z)) a : Forall not_received ((fun pkt => ASend pkt a) <$> pkts).
Proof. by apply Forall_fmap, Forall_true. Qed.

Lemma waiting_step hex s l s' : waits_for hex s -> wstep s l = Some s' -> l <> LStackTake hex -> l <> LStackGone hex ->
  waits_for hex s' /\ pc s' = pc s /\ forall raw src, ARecv raw src ∈ strace s' -> ARecv raw src ∈ strace s.
Proof.
  intros Hw. pose proof Hw as (pkt & p & a & q & Hpc & Hp & Ha & Hal & Hq & Hl).
  destruct l as [raw src now| | | |h ipkt|h|h| |h|h]; simpl; [by rewrite Hpc..| | | | | | |].
  - rewrite Hpc, Hp. simpl. unfold step_deliver. rewrite Ha, Hal. unfold send_stack. rewrite Hq, decide_False by lia. done.
  - destruct (peers s !! h) as [p1|]; [|done]. simpl.
    destruct (enc s !! h); [done|]. destruct (endpoint p1); intros [= <-] _ _;
      apply (waits_for_same hex s _ []); first [done|by left|by constructor|simpl; by rewrite app_nil_r].
  - destruct (peers s !! h) as [p1|] eqn:Hp1; [|done]. simpl. destruct (enc s !! h) as [[ip ep]|]; [|done]. simpl.
    destruct (encapsulate _ _) as [r t]. intros [= <-] _ _.
    destruct r as [| |ct|ct|ct]; [apply (waits_for_same hex s _ [])|apply (waits_for_same hex s _ [])
      |apply (waits_for_same hex s _ [ASend ct ep])|apply (waits_for_same hex s _ [])|apply (waits_for_same hex s _ [])];
      first [done|exact (tunnel_peer s h hex p1 t Hp1)|by repeat constructor|simpl; by rewrite app_nil_r].
  - destruct (peers s !! h) as [p1|]; [|done]. simpl.
    destruct (timer s); [done|]. destruct (endpoint p1); intros [= <-] _ _;
      apply (waits_for_same hex s _ []); first [done|by left|by constructor|simpl; by rewrite app_nil_r].
  - destruct (timer s) as [[h ep]|]; [|done]. simpl. destruct (peers s !! h) as [p1|] eqn:Hp1; [|done]. simpl.
    destruct (drain_timers _) as [[pkts t]|]; [|done]. intros [= <-] _ _.
    eapply waits_for_same; [done..|exact (tunnel_peer s h hex p1 t Hp1)|done|apply sends_not_received].
  - destruct (chans s !! h) as [[|pkt1 q1]|] eqn:Eq; try done. intros [= <-] Hne _.
    eapply waits_for_same; [done|done| |by left|done|by repeat constructor].
    simpl. rewrite lookup_insert_ne; [done|]. by intros ->.
  - destruct (chans s !! h) as [q1|] eqn:Eq; [|done]. intros [= <-] _ Hne.
    eapply (waits_for_same hex s _ []); [done|done| |by left| |by constructor].
    + simpl. rewrite lookup_delete_ne; [done|]. by intros ->.
    + simpl. by rewrite app_nil_r.
Qed.

(** A stack that takes nothing stops the receive loop for every peer. *)
Lemma stalled_stack_stops_all hex s ls s' : waits_for hex s -> LStackTake hex ∉ ls -> LStackGone hex ∉ ls ->
  wrun s ls = Some s' -> pc s' = pc s /\ forall raw src, ARecv raw src ∈ strace s' -> ARecv raw src ∈ strace s.
Proof.
  revert s. induction ls as [|l ls IH]; intros s Hw Ht Hg; simpl; [by intros [= <-]|].
  apply not_elem_of_cons in Ht as [Ht1 Ht]. apply not_elem_of_cons in Hg as [Hg1 Hg].
  destruct (wstep s l) as [s1|] eqn:E; [|done]. simpl. intros Hr.
  destruct (waiting_step hex s l s1 Hw E) as (Hw1 & E1 & H1); [done..|].
  destruct (IH s1 Hw1 Ht Hg Hr) as [E2 H2]. split; [by rewrite E2|by auto].
Qed.

(** The source address the AllowedIPs are checked against is the source of the
    flow the stack will see. *)
Lemma flow_src pkt k : flow_of pkt k -> packet_src_ip pkt = Done (ip (src k)).
Proof.
  assert (Hn : forall b n, b / 16 = n -> Z.shiftr b 4 = n) by (intros b n <-; by rewrite Z.shiftr_div_pow2 by lia).
  intros [(b & a & c & so & d_o & tail & rest & sp & dp & E & Hb & La & Lc & Ls & Ld & _ & _ & _ & _ & Es & _)
         |(b & a & c & so & d_o & sp & dp & rest & E & Hb & La & Lc & Ls & Ld & _ & _ & _ & Es & _)];
    rewrite Es; subst pkt; unfold packet_src_ip; cbv beta iota zeta delta [hd_error];
    rewrite (Hn _ _ Hb).
  - replace (b :: a ++ proto k :: c ++ so ++ d_o ++ tail)
      with ((b :: a ++ proto k :: c) ++ so ++ d_o ++ tail) by (simpl; by rewrite <- app_assoc).
    assert (Hl : length (b :: a ++ proto k :: c) = 12%nat) by (simpl; rewrite length_app; simpl; lia).
    rewrite decide_True by (split; [done|]; rewrite !length_app, Hl; lia).
    rewrite ipv4_at_ok by (rewrite !length_app; lia). rewrite drop_app_length' by done.
    by rewrite take_app_length'.
  - rewrite (decide_False (P := 6 = 4 /\ _)) by (intros [? _]; done).
    replace (b :: a ++ proto k :: c ++ so ++ d_o ++ be_bytes 2 sp ++ be_bytes 2 dp ++ rest)
      with ((b :: a ++ proto k :: c) ++ so ++ d_o ++ be_bytes 2 sp ++ be_bytes 2 dp ++ rest)
      by (simpl; by rewrite <- app_assoc).
    assert (Hl : length (b :: a ++ proto k :: c) = 8%nat) by (simpl; rewrite length_app; simpl; lia).
    rewrite decide_True by (split; [done|]; rewrite !length_app, Hl; lia).
    erewrite slice_app by (rewrite ?Hl, ?Ls; reflexivity). cbn [mbind outcome_bind bind_outcome].
    by rewrite ipv6_from_slice_ok.
Qed.

(** ** Properties *)

(** When an action of the server may follow others, in terms of its
    configuration. *)
Definition legitimate (cs : list WireGuardPeerConfig) (tr : list saction) (e : saction) : Prop :=
  match e with
  | ARecv _ _ => True
  | ADecap _ raw src _ => ARecv raw src ∈ tr
  | ASend _ a => seen tr a
  | ADeliver hex pkt => opened_by tr hex pkt /\
      exists nets a, configured cs hex nets /\ packet_src_ip pkt = Done a /\ allows nets a = true
  | ATake hex pkt => ADeliver hex pkt ∈ tr
  end.

Lemma server_inv priv now cs ps0 ls s :
  (forall l, order l ≡ₚ l) -> (build_peers priv now 0 cs ∅).2 = Done ps0 -> wrun (server0 ps0) ls = Some s ->
  winv ps0 s /\ forall hex p, ps0 !! hex = Some p -> configured cs hex (allowed_ips p).
Proof.
  intros Hperm Hb Hrun.
  assert (Hc : forall hex p, ps0 !! hex = Some p -> endpoint p = None /\ configured cs hex (allowed_ips p)).
  { intros hex p Hp. destruct (build_peers_sound _ _ _ _ _ _ Hb hex p Hp) as [He|]; [|done].
    by apply lookup_empty_Some in He. }
  split; [|intros; by apply Hc]. eapply wrun_inv; [done|apply winv0; intros; by eapply Hc|done].
Qed.

Lemma server_legitimate priv now cs ps0 ls s :
  (forall l, order l ≡ₚ l) -> (build_peers priv now 0 cs ∅).2 = Done ps0 -> wrun (server0 ps0) ls = Some s ->
  history_ok (legitimate cs) (strace s).
Proof.
  intros Hperm Hb Hrun. destruct (server_inv _ _ _ _ _ _ Hperm Hb Hrun) as [Hs Hc].
  intros pre e post E. pose proof (w_trace _ _ Hs pre e post E) as Hj.
  destruct e as [raw src|hex raw src r|pkt a|hex pkt|hex pkt]; try exact Hj. destruct Hj as (Ho & p & a & Hp & Ha & Hal).
  split; [done|]. exists (allowed_ips p), a. auto.
Qed.

(** C37: what a WireGuard server lets through.  Under every interleaving of the
    receive loop with the encryption tasks, the timer and the stacks: a packet is put
    into the channel of a peer's stack only if that peer's tunnel decrypted it from a
    received datagram, and its source address is in the AllowedIPs the configuration
    gives to that peer's key; nothing is sent except to the source of an earlier
    datagram; and the stack takes what was put in, in order, the channel holding the
    rest, at most 512 packets.  In the middle of a datagram the receive loop can take
    its next step (it neither panics nor loops in the timers; locks and the socket are
    taken as ready), with one exception: it waits while the channel of the peer the packet is for is full, and goes on as soon
    as that stack takes a packet ([stalled_stack_stops_all]: until then nothing is
    received from any peer). *)
Theorem server_delivers_authentic priv now cs ps0 ls s :
  (forall l, order l ≡ₚ l) -> (build_peers priv now 0 cs ∅).2 = Done ps0 -> wrun (server0 ps0) ls = Some s ->
  history_ok (legitimate cs) (strace s) /\
  (forall hex, taken hex (strace s) `prefix_of` delivered hex (strace s) /\
    forall q, chans s !! hex = Some q ->
      delivered hex (strace s) = taken hex (strace s) ++ q /\ (length q <= STACK_CHANNEL)%nat) /\
  (pc s <> PRecv ->
    (exists l s', l ∈ [LDecap; LTimers; LDeliver] /\ wstep s l = Some s') \/
    exists hex s1 s2, waits_for hex s /\ wstep s (LStackTake hex) = Some s1 /\ wstep s1 LDeliver = Some s2 /\ pc s2 = PRecv).
Proof.
  intros Hperm Hb Hrun. destruct (server_inv _ _ _ _ _ _ Hperm Hb Hrun) as [Hs _].
  pose proof (wrun_chan_inv _ _ _ (chan_inv0 ps0) Hrun) as Hc. split; [by eapply server_legitimate|split].
  - intros hex. specialize (Hc hex). destruct (chans s !! hex) as [q|]; [|done]. destruct Hc as [-> ?].
    split; [by eexists|]. by intros ? [= <-].
  - intros Hpc. destruct (main_progress ps0 s Hs Hpc) as [?|[hex Hw]]; [by left|right].
    destruct (waiting_goes_on hex s Hc Hw) as (s1 & s2 & ?). by exists hex, s1, s2.
Qed.

(** A peer stays within its AllowedIPs, from the socket to the relays.
    Whatever the server receives and however its tasks interleave, if a peer's
    stack is given packets the server delivered to that peer, then every
    connection and every datagram its relays make is for a flow whose source
    address is in the AllowedIPs of that peer. *)
Theorem peer_confined {N : Type} `{Smoltcp N} `{!SmoltcpLaws N}
    (order2 : forall V : Type, list (FlowKey * V) -> list (FlowKey * V)) priv now cs ps0 ls s hex n0 ms o st :
  (forall l, order l ≡ₚ l) -> (forall V l, order2 V l ≡ₚ l) ->
  (build_peers priv now 0 cs ∅).2 = Done ps0 -> wrun (server0 ps0) ls = Some s ->
  (forall t pkt, (t, Inbound pkt) ∈ ms -> bytes_ok pkt /\ ADeliver hex pkt ∈ strace s) ->
  run_actor order2 ms (actor_new n0) = (o, st) ->
  trace_ok (fun k => exists nets, configured cs hex nets /\ allows nets (ip (WgStack.src k)) = true) (trace st).
Proof.
  intros Hperm Hperm2 Hb Hrun Hms Hact. destruct (server_inv _ _ _ _ _ _ Hperm Hb Hrun) as [Hs Hc].
  destruct (run_actor_inv order2 Hperm2
    (fun k => exists nets, configured cs hex nets /\ allows nets (ip (WgStack.src k)) = true)
    ms (actor_new n0) o st (inv_new _ _)) as [Hi _]; [|done|exact (inv_trace _ _ Hi)].
  apply Forall_forall. intros [t [pkt|h d|h d|]] Hm; simpl; try done.
  destruct (Hms t pkt Hm) as [Hbytes Hd]. split; [done|]. intros k Hk.
  apply list_elem_of_split in Hd as (pre & post & E).
  destruct (w_trace _ _ Hs pre _ post E) as (_ & p & a & Hp & Ha & Hal).
  rewrite (flow_src pkt k Hk) in Ha. injection Ha as <-. eauto.
Qed.

(** A datagram that no tunnel accepts still sets the peer's endpoint: what the
    peer's stack sends next goes to the sender of that datagram. *)
Lemma spoofed_datagram_redirects hex p raw src now t1 pkts t2 pkt ct t3 :
  (forall l, order l ≡ₚ l) ->
  decapsulate (ip src) raw (tunnel p) = (TErr, t1) -> drain_timers t1 = Some (pkts, t2) ->
  encapsulate pkt t2 = (WriteToNetwork ct, t3) ->
  exists s, wrun (server0 {[hex := p]}) [LRecv raw src now; LDecap; LTimers; LEncRead hex pkt; LEncSend hex] = Some s /\
    ASend ct src ∈ strace s.
Proof.
  intros Hperm Hd Ht He.
  assert (Hf : find_peer {[hex := p]} src = Some (hex, p)).
  { unfold find_peer. rewrite map_to_list_singleton.
    rewrite (proj1 (Permutation_singleton_r _ _) (Hperm [(hex, p)])). simpl. by case_bool_decide. }
  assert (Hsame : forall x y : Peer, <[hex := y]> ({[hex := x]} : gmap (list Z) Peer) = {[hex := y]})
    by (intros; by rewrite insert_singleton, decide_True).
  set (q t := MkPeer t (Some src) (allowed_ips p) now).
  set (tr1 := [ARecv raw src; ADecap hex raw src TErr]).
  set (tr2 := tr1 ++ ((fun pkt => ASend pkt src) <$> pkts)).
  set (ch := (fun _ => []) <$> ({[hex := p]} : gmap (list Z) Peer) : gmap (list Z) (list (list Z))).
  assert (E1 : wstep (server0 {[hex := p]}) (LRecv raw src now) =
    Some (Server {[hex := q (tunnel p)]} (PDecap hex raw src) ∅ None [ARecv raw src] ch)).
  { unfold wstep, step_recv, server0. cbv zeta. cbn [pc act peers enc timer strace chans]. by rewrite Hf, Hsame. }
  assert (E2 : wstep (Server {[hex := q (tunnel p)]} (PDecap hex raw src) ∅ None [ARecv raw src] ch) LDecap =
    Some (Server {[hex := q t1]} (PTimers hex src None) ∅ None tr1 ch)).
  { unfold wstep. cbn [pc peers]. rewrite lookup_singleton_eq. cbn [mbind option_bind].
    unfold step_decap. cbn [q tunnel]. rewrite Hd. unfold set_pc, act, set_tunnel. cbn [peers pc enc timer strace chans].
    by rewrite Hsame. }
  assert (E3 : wstep (Server {[hex := q t1]} (PTimers hex src None) ∅ None tr1 ch) LTimers =
    Some (Server {[hex := q t2]} PRecv ∅ None tr2 ch)).
  { unfold wstep. cbn [pc peers]. rewrite lookup_singleton_eq. cbn [mbind option_bind].
    unfold step_timers. cbn [q tunnel]. rewrite Ht. cbn [mbind option_bind].
    unfold set_pc, act, set_tunnel. cbn [peers pc enc timer strace chans]. by rewrite Hsame. }
  assert (E4 : wstep (Server {[hex := q t2]} PRecv ∅ None tr2 ch) (LEncRead hex pkt) =
    Some (Server {[hex := q t2]} PRecv {[hex := (pkt, src)]} None tr2 ch)).
  { unfold wstep. cbn [peers]. by rewrite lookup_singleton_eq. }
  assert (E5 : wstep (Server {[hex := q t2]} PRecv {[hex := (pkt, src)]} None tr2 ch) (LEncSend hex) =
    Some (Server {[hex := q t3]} PRecv (delete hex {[hex := (pkt, src)]}) None (tr2 ++ [ASend ct src]) ch)).
  { unfold wstep. cbn [peers enc]. rewrite !lookup_singleton_eq. cbn [mbind option_bind q tunnel]. rewrite He.
    unfold act, set_tunnel. cbn [peers pc enc timer strace chans]. by rewrite Hsame. }
  eexists. split; [unfold wrun; rewrite E1; cbn [mbind option_bind]; rewrite E2; cbn [mbind option_bind];
    rewrite E3; cbn [mbind option_bind]; rewrite E4; cbn [mbind option_bind]; rewrite E5; reflexivity|].
  cbn [strace]. apply elem_of_app. right. by left.
Qed.

End server.

(** ** A concrete server

    Its tunnels open a datagram that starts with 1, and have one timer packet
    for every byte of their state. *)
#[export] Instance toy_tunn : Tunn (list Z) := {
  tunn_new _ _ _ _ _ := [6];
  decapsulate _ raw t :=
    match raw with
    | 1 :: pkt => (WriteToTunnelV4 pkt, t)
    | 2 :: _ => (WriteToNetwork [3], t)
    | _ => (TErr, t)
    end;
  encapsulate pkt t := (WriteToNetwork (1 :: pkt), t);
  update_timers t := match t with [] => (TDone, []) | b :: t => (WriteToNetwork [b], t) end;
}.
#[export] Instance toy_tunn_laws : TunnLaws (list Z).
Proof.
  refine {| due := @length Z |}. intros [|b t] pkt t'; simpl; [done|]. intros [= _ <-]. lia.
Defined.

Definition toy_contains (net addr : IpAddr) : bool := bool_decide (net = addr).
Definition toy_network (s : list Z) : option IpAddr := if decide (s = str "10.0.0.2") then Some (V4 [10; 0; 0; 2]) else None.
Definition toy_key : list Z := replicate 32 65.
Definition toy_cfg : list WireGuardPeerConfig := [PeerConfig toy_key None [str "10.0.0.2"] None []].
Definition toy_peers : gmap (list Z) (Peer (T := list Z) (Network := IpAddr)) :=
  {[hex_encode toy_key := Peer_new [6] [V4 [10; 0; 0; 2]] 0]}.
Definition toy_client : SocketAddr := SockAddr (V4 [9; 9; 9; 9]) 4000.
Definition toy_order {A} (l : list A) := l.
Definition toy_labels : list label :=
  [LRecv (1 :: demo_pkt 17 53) toy_client 5; LDecap; LTimers; LDeliver;
   LEncRead (hex_encode toy_key) [8]; LEncSend (hex_encode toy_key); LTimerRead (hex_encode toy_key);
   LRecv (1 :: demo_pkt 6 80) toy_client 6; LTimerRun; LDecap; LTimers; LDeliver;
   LStackTake (hex_encode toy_key); LRecv (1 :: demo_pkt 6 80) toy_client 7].
Definition toy_end : server (T := list Z) (Network := IpAddr) :=
  default (server0 ∅) (wrun toy_contains toy_order (server0 toy_peers) toy_labels).

Lemma toy_build : (build_peers toy_network Some [] 0 0 toy_cfg ∅).2 = Done toy_peers.
Proof. vm_compute. reflexivity. Qed.

Lemma toy_run : wrun toy_contains toy_order (server0 toy_peers) toy_labels = Some toy_end.
Proof. vm_compute. reflexivity. Qed.

Lemma toy_delivered pkt : pkt = demo_pkt 17 53 \/ pkt = demo_pkt 6 80 ->
  ADeliver (hex_encode toy_key) pkt ∈ strace toy_end.
Proof.
  intros Hp. apply (list_elem_of_lookup_2 _ (if decide (pkt = demo_pkt 17 53) then 3%nat else 7%nat)).
  by destruct Hp as [-> | ->]; vm_compute.
Qed.

Lemma server_delivers_authentic_witness :
  history_ok (legitimate toy_contains toy_network Some toy_cfg) (strace toy_end) /\
  ADeliver (hex_encode toy_key) (demo_pkt 6 80) ∈ strace toy_end /\
  taken (hex_encode toy_key) (strace toy_end) `prefix_of` delivered (hex_encode toy_key) (strace toy_end) /\
  taken (hex_encode toy_key) (strace toy_end) = [demo_pkt 17 53] /\ pc toy_end <> PRecv /\
  ((exists l s', l ∈ [LDecap; LTimers; LDeliver] /\ wstep toy_contains toy_order toy_end l = Some s') \/
   exists hex s1 s2, waits_for toy_contains hex toy_end /\ wstep toy_contains toy_order toy_end (LStackTake hex) = Some s1 /\
     wstep toy_contains toy_order s1 LDeliver = Some s2 /\ pc s2 = PRecv).
Proof.
  assert (Hpc : pc toy_end <> PRecv) by (vm_compute; discriminate).
  destruct (server_delivers_authentic toy_contains toy_network Some toy_order [] 0 toy_cfg toy_peers toy_labels toy_end)
    as (Hh & Hc & Hp).
  - intros l. reflexivity.
  - exact toy_build.
  - exact toy_run.
  - split; [exact Hh|]. split; [apply toy_delivered; by right|]. split; [apply Hc|]. split; [vm_compute; reflexivity|].
    split; [exact Hpc|exact (Hp Hpc)].
Defined.

(** A server whose stack has taken nothing for 513 packets: it waits. *)
Definition toy_datagram : list label := [LRecv (1 :: demo_pkt 17 53) toy_client 5; LDecap; LTimers].
Definition toy_flood : list label := mjoin (replicate STACK_CHANNEL (toy_datagram ++ [LDeliver])) ++ toy_datagram.
Definition toy_full : option (server (T := list Z) (Network := IpAddr)) :=
  wrun toy_contains toy_order (server0 toy_peers) toy_flood.

Lemma toy_stalls : exists s, toy_full = Some s /\ waits_for toy_contains (hex_encode toy_key) s /\
  forall ls s', LStackTake (hex_encode toy_key) ∉ ls -> LStackGone (hex_encode toy_key) ∉ ls ->
    wrun toy_contains toy_order s ls = Some s' ->
    forall raw src, ARecv raw src ∈ strace s' -> ARecv raw src ∈ strace s.
Proof.
  assert (E : (s ← toy_full; p ← peers s !! hex_encode toy_key; q ← chans s !! hex_encode toy_key;
    Some (pc s, allowed_ips p, length q)) =
    Some (PDeliver (hex_encode toy_key) (demo_pkt 17 53), [V4 [10; 0; 0; 2]], STACK_CHANNEL)) by (vm_compute; reflexivity).
  destruct toy_full as [s|]; [|done]. cbn [mbind option_bind] in E.
  destruct (peers s !! _) as [p|] eqn:Hp; [|done]. destruct (chans s !! _) as [q|] eqn:Hq; [|done].
  injection E as Epc Eal Ech.
  assert (Hw : waits_for toy_contains (hex_encode toy_key) s).
  { exists (demo_pkt 17 53), p, (V4 [10; 0; 0; 2]), q. rewrite Eal, Ech. by split_and!. }
  exists s. split_and!; [done|done|]. intros ls s' Ht Hg Hr. by apply (stalled_stack_stops_all _ _ _ _ _ _ Hw Ht Hg Hr).
Qed.

Lemma peer_confined_witness :
  trace demo_end.2 <> [] /\
  trace_ok (fun k => exists nets, configured toy_network Some toy_cfg (hex_encode toy_key) nets /\
    allows toy_contains nets (ip (WgStack.src k)) = true) (trace demo_end.2).
Proof.
  split; [vm_compute; discriminate|].
  apply (peer_confined toy_contains toy_network Some toy_order demo_order [] 0 toy_cfg toy_peers toy_labels toy_end
    (hex_encode toy_key) (∅ : toy) demo_msgs demo_end.1 demo_end.2).
  - intros l. reflexivity.
  - intros V l. reflexivity.
  - exact toy_build.
  - exact toy_run.
  - intros t pkt Hin. split; [by apply (demo_inbound t)|]. apply toy_delivered.
    unfold demo_msgs in Hin. rewrite !elem_of_cons in Hin.
    destruct Hin as [[= _ ->]|[[= _ ->]|[?|?%elem_of_nil]]]; auto; done.
  - unfold demo_end. by destruct (run_actor _ _ _).
Defined.
