(* ===== verification/Congestion.v ===== *)
(** * Hysteria 2's congestion control ([src/src/hysteria2/congestion.rs])

    Brutal sends at a configured rate whatever happens; only its window depends on
    round-trip times and losses.  The controllers of a connection and their
    clones share statistics behind a lock: the state is a store of statistics and
    the controllers that refer to them, and an event is one call by the QUIC
    library, with the clock's reading.  Durations are nanoseconds. *)
From Stdlib Require Import SpecFloat.
From S2P Require Import Prelude RustStd Float64.

Record BrutalConfig := MkBrutal { send_bps : Z }.
Definition BrutalConfig_default : BrutalConfig := MkBrutal (50 * 1024 * 1024).

Definition RTT_WINDOW : nat := 16.
Definition GAIN : f64 := f64_ratio 3 2.
Definition MAX_LOSS_RATIO : f64 := f64_ratio 1 10.

Record Stats := MkStats {
  ack_count : Z;
  loss_count : Z;
  window_start : Z;
  rtt_samples : list Z;
}.

Definition Stats_new (now : Z) : Stats := MkStats 0 0 now [].

Definition loss_ratio (s : Stats) : f64 :=
  let total := u64 (ack_count s + loss_count s) in
  if decide (total = 0) then S754_zero false else fdiv (f64_of_u64 (loss_count s)) (f64_of_u64 total).

(** The sum of [Duration]s panics above [2 ^ 64] seconds. *)
Definition avg_rtt (s : Stats) : outcome Z :=
  match rtt_samples s with
  | [] => Done 50000000
  | _ =>
      let sum := foldl Z.add 0 (rtt_samples s) in
      if decide (sum < 2 ^ 64 * 10 ^ 9) then Done (sum / Z.of_nat (length (rtt_samples s))) else Panic
  end.

Definition push_rtt (rtt : Z) (s : Stats) : Stats :=
  let l := if decide (RTT_WINDOW <= length (rtt_samples s))%nat then drop 1 (rtt_samples s) else rtt_samples s in
  MkStats (ack_count s) (loss_count s) (window_start s) (l ++ [rtt]).

Definition maybe_reset (now : Z) (s : Stats) : Stats :=
  if decide (10 ^ 9 <= now - window_start s) then MkStats 0 0 now (rtt_samples s) else s.

Definition as_secs_f64 (d : Z) : f64 :=
  fadd (f64_of_u64 (d / 10 ^ 9)) (fdiv (f64_of_u64 (d mod 10 ^ 9)) (f64_of_u64 (10 ^ 9))).

Definition clamp (x lo hi : Z) : Z := Z.max lo (Z.min hi x).

Definition MIN_WINDOW : Z := 32 * 1024.
Definition MAX_WINDOW : Z := 32 * 1024 * 1024.
Definition MAX_INITIAL_WINDOW : Z := 16 * 1024 * 1024.

(** [stats]: which statistics it refers to. *)
Record BrutalController := Controller { config : BrutalConfig; window : Z; stats_id : nat }.

Definition initial_window_of (c : BrutalConfig) : Z :=
  clamp (f64_to_u64 (fmul (fmul (f64_of_u64 (send_bps c)) (f64_ratio 1 20)) GAIN)) MIN_WINDOW MAX_INITIAL_WINDOW.

(** The window of [recalculate_window]. *)
Definition loss_factor (loss : f64) : f64 :=
  if flt MAX_LOSS_RATIO loss then fmax (fsub (f64_of_u64 1) loss) (f64_ratio 1 2) else GAIN.

Definition window_for (c : BrutalConfig) (rtt : Z) (loss : f64) : Z :=
  let rtt_secs := fmax (as_secs_f64 rtt) (f64_ratio 1 1000) in
  let base_window := fmul (f64_of_u64 (send_bps c)) rtt_secs in
  clamp (f64_to_u64 (fmul base_window (loss_factor loss))) MIN_WINDOW MAX_WINDOW.

Definition recalculate_window (s : Stats) (k : BrutalController) : outcome BrutalController :=
  rtt ← avg_rtt s;
  Done (Controller (config k) (window_for (config k) rtt (loss_ratio s)) (stats_id k)).

(** ** The calls *)

Record bstate := BState { stats : list Stats; controllers : list BrutalController }.

Inductive bevent :=
| Build (c : BrutalConfig) (now : Z)
| CloneBox (k : nat)
| OnAck (k : nat) (bytes rtt now : Z)
| OnCongestion (k : nat) (now : Z)
| OnSent (k : nat)
| OnMtuUpdate (k : nat).

Definition on_ack_stats (bytes rtt now : Z) (s : Stats) : Stats :=
  maybe_reset now (push_rtt rtt (MkStats (u64 (ack_count s + bytes)) (loss_count s) (window_start s) (rtt_samples s))).

Definition on_congestion_stats (now : Z) (s : Stats) : Stats :=
  maybe_reset now (MkStats (ack_count s) (u64 (loss_count s + 1)) (window_start s) (rtt_samples s)).

(** Updating the statistics under the lock, then the window. *)
Definition update (k : nat) (f : Stats -> Stats) (st : bstate) : outcome bstate :=
  match controllers st !! k with
  | None => Done st
  | Some c =>
      match stats st !! stats_id c with
      | None => Done st
      | Some s =>
          let s := f s in
          c ← recalculate_window s c;
          Done (BState (<[stats_id c := s]> (stats st)) (<[k := c]> (controllers st)))
      end
  end.

Definition bstep (e : bevent) (st : bstate) : outcome bstate :=
  match e with
  | Build c now =>
      Done (BState (stats st ++ [Stats_new now]) (controllers st ++ [Controller c (initial_window_of c) (length (stats st))]))
  | CloneBox k =>
      match controllers st !! k with
      | Some c => Done (BState (stats st) (controllers st ++ [c]))
      | None => Done st
      end
  | OnAck k bytes rtt now => update k (on_ack_stats bytes rtt now) st
  | OnCongestion k now => update k (on_congestion_stats now) st
  | OnSent _ | OnMtuUpdate _ => Done st
  end.

Fixpoint brun (es : list bevent) (st : bstate) : outcome bstate :=
  match es with [] => Done st | e :: es => st ← bstep e st; brun es st end.

Definition binit : bstate := BState [] [].

Example brutal_examples :
  initial_window_of (MkBrutal 12500000) = 937500 /\
  window_for (MkBrutal 12500000) 50000000 (S754_zero false) = 937500 /\
  window_for (MkBrutal 12500000) 50000000 (f64_ratio 1 4) = 468750.
Proof. vm_compute. split_and!; reflexivity. Qed.

(** ** Reference: which round-trip times a set of statistics has seen *)

Definition last_n {A} (n : nat) (l : list A) : list A := drop (length l - n) l.

(** The samples acknowledged on controllers that refer to statistics [i]; [ids]:
    what each controller refers to, [next]: how many statistics there are. *)
Fixpoint acked (es : list bevent) (ids : list nat) (next i : nat) : list Z :=
  match es with
  | [] => []
  | Build _ _ :: es => acked es (ids ++ [next]) (S next) i
  | CloneBox k :: es =>
      match ids !! k with
      | Some j => acked es (ids ++ [j]) next i
      | None => acked es ids next i
      end
  | OnAck k _ rtt _ :: es => (if decide (ids !! k = Some i) then [rtt] else []) ++ acked es ids next i
  | _ :: es => acked es ids next i
  end.

Lemma last_n_short {A} n (l : list A) : (length l <= n)%nat -> last_n n l = l.
Proof. intros H. unfold last_n. by replace (length l - n)%nat with 0%nat by lia. Qed.

Lemma last_n_length {A} n (l : list A) : (length (last_n n l) <= n)%nat.
Proof. unfold last_n. rewrite length_drop. lia. Qed.

(** Dropping early or late is the same. *)
Lemma last_n_app {A} n (l l' : list A) : last_n n (last_n n l ++ l') = last_n n (l ++ l').
Proof.
  unfold last_n. rewrite !length_app, length_drop.
  destruct (decide (length l <= n)%nat) as [Hl|Hl].
  { replace (length l - n)%nat with 0%nat by lia. rewrite drop_0. f_equal. lia. }
  transitivity (drop (length l + length l' - n) ((take (length l - n) l ++ drop (length l - n) l) ++ l'));
    [|by rewrite take_drop].
  rewrite <- app_assoc, (drop_app_ge (take _ _)) by (rewrite length_take; lia). f_equal. rewrite length_take. lia.
Qed.

Definition rtt_ok (e : bevent) : Prop :=
  match e with OnAck _ _ rtt _ => 0 <= rtt < 2 ^ 59 * 10 ^ 9 | _ => True end.

(** Samples are bounded in number and size, references are valid, windows lie
    between the limits. *)
Record binv (st : bstate) : Prop := {
  inv_samples : Forall (fun s => (length (rtt_samples s) <= RTT_WINDOW)%nat /\
                          Forall (fun r => 0 <= r < 2 ^ 59 * 10 ^ 9) (rtt_samples s)) (stats st);
  inv_ids : Forall (fun c => (stats_id c < length (stats st))%nat) (controllers st);
  inv_windows : Forall (fun c => MIN_WINDOW <= window c <= MAX_WINDOW) (controllers st);
}.

Lemma clamp_bounds x lo hi : lo <= hi -> lo <= clamp x lo hi <= hi.
Proof. unfold clamp. lia. Qed.

Lemma avg_rtt_ok s : (length (rtt_samples s) <= RTT_WINDOW)%nat ->
  Forall (fun r => 0 <= r < 2 ^ 59 * 10 ^ 9) (rtt_samples s) -> exists r, avg_rtt s = Done r.
Proof.
  intros Hl Hr. unfold avg_rtt. destruct (rtt_samples s) as [|r0 rs] eqn:E; [eauto|].
  assert (Hs : forall l a, Forall (fun r => 0 <= r < 2 ^ 59 * 10 ^ 9) l ->
    foldl Z.add a l <= a + Z.of_nat (length l) * (2 ^ 59 * 10 ^ 9)).
  { induction l as [|x l IH]; intros a Hf; simpl; [lia|]. apply Forall_cons in Hf as [Hx Hf]. specialize (IH (a + x) Hf). lia. }
  rewrite decide_True; [eauto|]. specialize (Hs (r0 :: rs) 0 Hr). unfold RTT_WINDOW in Hl. lia.
Qed.

Lemma push_rtt_samples rtt s : (length (rtt_samples s) <= RTT_WINDOW)%nat ->
  rtt_samples (push_rtt rtt s) = last_n RTT_WINDOW (rtt_samples s ++ [rtt]).
Proof.
  intros Hl. unfold push_rtt, last_n. cbn [rtt_samples]. rewrite length_app. cbn [length].
  case_decide as H.
  - replace (length (rtt_samples s) + 1 - RTT_WINDOW)%nat with 1%nat by lia. unfold RTT_WINDOW in *.
    destruct (rtt_samples s); [simpl in H; lia|done].
  - by replace (length (rtt_samples s) + 1 - RTT_WINDOW)%nat with 0%nat by lia.
Qed.

Lemma maybe_reset_samples now s : rtt_samples (maybe_reset now s) = rtt_samples s.
Proof. unfold maybe_reset. by case_decide. Qed.

(** What a call that updates statistics does. *)
Lemma update_spec k f st (g : list Z -> list Z) :
  binv st ->
  (forall s, rtt_samples (f s) = g (rtt_samples s)) ->
  (forall l, (length l <= RTT_WINDOW)%nat -> Forall (fun r => 0 <= r < 2 ^ 59 * 10 ^ 9) l ->
     (length (g l) <= RTT_WINDOW)%nat /\ Forall (fun r => 0 <= r < 2 ^ 59 * 10 ^ 9) (g l)) ->
  exists st', update k f st = Done st' /\ binv st' /\
    stats_id <$> controllers st' = stats_id <$> controllers st /\ length (stats st') = length (stats st) /\
    forall i, rtt_samples <$> stats st' !! i =
      (fun s => (if decide ((stats_id <$> controllers st) !! k = Some i) then g else id) (rtt_samples s)) <$> stats st !! i.
Proof.
  intros [Hs Hi Hw] Hf Hg. unfold update. rewrite list_lookup_fmap.
  destruct (controllers st !! k) as [c|] eqn:Ek.
  2:{ exists st. by split_and!. }
  pose proof (Forall_lookup_1 _ _ _ _ Hi Ek) as Hlt. simpl in Hlt.
  destruct (lookup_lt_is_Some_2 _ _ Hlt) as [s Es]. rewrite Es.
  destruct (Forall_lookup_1 _ _ _ _ Hs Es) as [Hl Hr]. destruct (Hg _ Hl Hr) as [Hl' Hr']. rewrite <- Hf in Hl', Hr'.
  unfold recalculate_window. destruct (avg_rtt_ok (f s) Hl' Hr') as [r ->]. cbn [mbind outcome_bind bind_outcome].
  assert (Hids : stats_id <$> <[k := Controller (config c) (window_for (config c) r (loss_ratio (f s))) (stats_id c)]> (controllers st)
      = stats_id <$> controllers st).
  { rewrite list_fmap_insert. apply list_insert_id. by rewrite list_lookup_fmap, Ek. }
  eexists. split; [reflexivity|]. cbn [stats controllers stats_id]. split_and!; [|done|by rewrite length_insert|].
  - constructor; cbn [stats controllers].
    + by apply Forall_insert.
    + rewrite length_insert. by apply Forall_insert.
    + apply Forall_insert; [done|]. cbn [window]. apply clamp_bounds. unfold MIN_WINDOW, MAX_WINDOW. lia.
  - intros i. destruct (decide (i = stats_id c)) as [->|Hne].
    + rewrite list_lookup_insert_eq by done. rewrite Es. simpl. rewrite Hf. by rewrite decide_True.
    + rewrite list_lookup_insert_ne by done. destruct (stats st !! i); [|done]. simpl. by rewrite decide_False by congruence.
Qed.

Lemma Forall_last_n {A} (P : A -> Prop) n l : Forall P l -> Forall P (last_n n l).
Proof. apply Forall_drop. Qed.

(** The samples of the statistics [i] after [st], if [es] are still to come. *)
Definition samples_then (es : list bevent) (st : bstate) (i : nat) : list Z :=
  last_n RTT_WINDOW
    (default [] (rtt_samples <$> stats st !! i) ++ acked es (stats_id <$> controllers st) (length (stats st)) i).

(** An event keeps the invariant, and accounts for its own sample. *)
Definition accounted (e : bevent) (st : bstate) : Prop :=
  exists st1, bstep e st = Done st1 /\ binv st1 /\ forall es i, samples_then es st1 i = samples_then (e :: es) st i.

Lemma accounted_build c now st : binv st -> accounted (Build c now) st.
Proof.
  intros [Hs Hi Hw]. eexists. split; [reflexivity|]. split.
  - constructor; cbn [stats controllers].
    + apply Forall_app. split; [done|]. apply Forall_singleton. simpl. split; [lia|constructor].
    + rewrite length_app. apply Forall_app. split; [eapply Forall_impl; [exact Hi|simpl; lia]|].
      apply Forall_singleton. simpl. lia.
    + apply Forall_app. split; [done|]. apply Forall_singleton. cbn [window]. unfold initial_window_of.
      pose proof (clamp_bounds (f64_to_u64 (fmul (fmul (f64_of_u64 (send_bps c)) (f64_ratio 1 20)) GAIN)) MIN_WINDOW MAX_INITIAL_WINDOW
        ltac:(unfold MIN_WINDOW, MAX_INITIAL_WINDOW; lia)) as Hc. unfold MAX_INITIAL_WINDOW, MAX_WINDOW in *. lia.
  - intros es i. unfold samples_then. cbn [stats controllers acked]. rewrite fmap_app, length_app, Nat.add_1_r. f_equal. f_equal.
    destruct (decide (i < length (stats st))%nat) as [Hlt|Hge]; [by rewrite lookup_app_l|].
    rewrite (lookup_ge_None_2 (stats st)) by lia. rewrite lookup_app_r by lia. simpl.
    destruct (i - length (stats st))%nat as [|j]; done.
Qed.

Lemma accounted_clone k st : binv st -> accounted (CloneBox k) st.
Proof.
  intros Hinv. unfold accounted. cbn [bstep]. destruct (controllers st !! k) as [c|] eqn:Ek.
  - destruct Hinv as [Hs Hi Hw]. eexists. split; [reflexivity|]. split.
    + constructor; cbn [stats controllers]; [done|..]; apply Forall_app; (split; [done|]); apply Forall_singleton.
      * apply (Forall_lookup_1 _ _ _ _ Hi Ek).
      * apply (Forall_lookup_1 _ _ _ _ Hw Ek).
    + intros es i. unfold samples_then. cbn [acked stats controllers]. rewrite list_lookup_fmap, Ek, fmap_app. done.
  - eexists. split; [reflexivity|]. split; [done|]. intros es i. unfold samples_then. cbn [acked].
    by rewrite list_lookup_fmap, Ek.
Qed.

Lemma accounted_ack k bytes rtt now st : binv st -> rtt_ok (OnAck k bytes rtt now) -> accounted (OnAck k bytes rtt now) st.
Proof.
  intros Hinv He. pose proof Hinv as [Hs Hi Hw].
  destruct (update_spec k (on_ack_stats bytes rtt now) st
      (fun l => if decide (length l <= RTT_WINDOW)%nat then last_n RTT_WINDOW (l ++ [rtt]) else rtt_samples (push_rtt rtt (MkStats 0 0 0 l)))
      Hinv) as (st1 & E1 & Hinv1 & Hids & Hlen & Hl).
  - intros s. unfold on_ack_stats. rewrite maybe_reset_samples. case_decide; [by rewrite push_rtt_samples|done].
  - intros l Hll Hr. rewrite decide_True by done. split; [apply last_n_length|].
      apply Forall_last_n, Forall_app. split; [done|]. by apply Forall_singleton.
  - exists st1. split; [exact E1|]. split; [done|]. intros es i. unfold samples_then. rewrite Hids, Hlen, Hl. cbn [acked].
    destruct (stats st !! i) as [s|] eqn:Es; simpl; [destruct (Forall_lookup_1 _ _ _ _ Hs Es) as [Hls _]|].
    + rewrite list_lookup_fmap. case_decide; [|done]. rewrite decide_True by done. rewrite last_n_app. by rewrite <- app_assoc.
    + case_decide as Hk; [|done]. exfalso. rewrite list_lookup_fmap in Hk.
      destruct (controllers st !! k) as [c|] eqn:Ek; [|done]. injection Hk as <-.
      apply lookup_ge_None in Es. pose proof (Forall_lookup_1 _ _ _ _ Hi Ek). simpl in *. lia.
Qed.

Lemma accounted_congestion k now st : binv st -> accounted (OnCongestion k now) st.
Proof.
  intros Hinv. destruct (update_spec k (on_congestion_stats now) st id Hinv) as (st1 & E1 & Hinv1 & Hids & Hlen & Hl).
  - intros s. unfold on_congestion_stats. by rewrite maybe_reset_samples.
  - done.
  - exists st1. split; [exact E1|]. split; [done|]. intros es i. unfold samples_then. rewrite Hids, Hlen, Hl. cbn [acked].
    f_equal. f_equal. destruct (stats st !! i); [|done]. simpl. by case_decide.
Qed.

Lemma accounted_event e st : binv st -> rtt_ok e -> accounted e st.
Proof.
  intros Hinv He. destruct e as [c now|k|k bytes rtt now|k now|k|k].
  - by apply accounted_build.
  - by apply accounted_clone.
  - by apply accounted_ack.
  - by apply accounted_congestion.
  - by exists st.
  - by exists st.
Qed.

Lemma brun_spec es st : binv st -> Forall rtt_ok es ->
  exists st', brun es st = Done st' /\ binv st' /\
    forall i s', stats st' !! i = Some s' -> rtt_samples s' = samples_then es st i.
Proof.
  revert st. induction es as [|e es IH]; intros st Hinv Hok.
  { exists st. split_and!; [done|done|]. intros i s' Hs. unfold samples_then. rewrite Hs. simpl. rewrite app_nil_r.
    symmetry. apply last_n_short. by apply (Forall_lookup_1 _ _ _ _ (inv_samples _ Hinv) Hs). }
  apply Forall_cons in Hok as [He Hok]. destruct (accounted_event e st Hinv He) as (st1 & E1 & Hinv1 & Hl).
  destruct (IH st1 Hinv1 Hok) as (st' & E & Hinv' & Hr). exists st'. cbn [brun]. rewrite E1.
  split_and!; [exact E|done|]. intros i s' Hs. by rewrite (Hr i s' Hs), Hl.
Qed.

(** ** Properties *)

(** C32: for every sequence of calls on a connection's controllers and their
    clones, with round-trip times below 2^59 seconds: no call panics; every window is
    between 32 KiB and 32 MiB; and the statistics a controller shares with its
    clones hold the last sixteen round-trip times acknowledged on any of them, in
    order. *)
Theorem brutal_windows es :
  Forall rtt_ok es ->
  exists st, brun es binit = Done st /\
    forall k c, controllers st !! k = Some c ->
      MIN_WINDOW <= window c <= MAX_WINDOW /\
      exists s, stats st !! stats_id c = Some s /\ rtt_samples s = last_n RTT_WINDOW (acked es [] 0 (stats_id c)).
Proof.
  intros Hok. destruct (brun_spec es binit) as (st & E & [Hs Hi Hw] & Hr); [by repeat constructor|done|].
  exists st. split; [done|]. intros k c Hk. split; [by apply (Forall_lookup_1 _ _ _ _ Hw Hk)|].
  destruct (lookup_lt_is_Some_2 _ _ (Forall_lookup_1 _ _ _ _ Hi Hk)) as [s Es].
  exists s. split; [done|]. by rewrite (Hr _ _ Es).
Qed.

(** A lost packet counts as 1 and an acknowledged one as its bytes: with one
    packet of 1200 bytes acknowledged and 99 lost, the window is the same as
    without losses. *)
Definition lossy : list bevent :=
  [Build (MkBrutal 12500000) 0; OnAck 0 1200 50000000 1] ++ repeat (OnCongestion 0 2) 99.

Lemma losses_not_noticed :
  (fun st => window <$> controllers st) <$> (match brun lossy binit with Done st => Some st | _ => None end) = Some [937500] /\
  window_for (MkBrutal 12500000) 50000000 (S754_zero false) = 937500.
Proof. vm_compute. split; reflexivity. Qed.

Lemma brutal_windows_witness :
  let es := [Build (MkBrutal 12500000) 0; OnAck 0 1200 40000000 1; CloneBox 0; OnAck 1 1200 60000000 2; OnCongestion 1 3] in
  exists st c, brun es binit = Done st /\ controllers st !! 0%nat = Some c /\
    MIN_WINDOW <= window c <= MAX_WINDOW /\ acked es [] 0 0 = [40000000; 60000000].
Proof.
  intros es. assert (Hok : Forall rtt_ok es) by (repeat constructor; simpl; lia).
  destruct (brutal_windows es Hok) as (st & E & H).
  exists st. destruct (controllers st !! 0%nat) as [c|] eqn:Ec.
  - exists c. split; [exact E|]. split; [reflexivity|]. destruct (H 0%nat c Ec) as [Hw _]. split; [exact Hw|reflexivity].
  - exfalso. vm_compute in E. injection E as <-. discriminate.
Defined.
