(* ===== verification/Config.v ===== *)
(** * The configuration ([src/src/config.rs], [src/src/wireguard/server.rs] for
    addresses)

    The data of the file (its TOML is serde's), defaults, the check of the tags,
    and bandwidths as text.  [MasqueradeConfig] is in [Masquerade],
    [TransportConfig] and [VlessTlsConfig] in [Listeners], [RealityConfig],
    [SocksUser], [AuthConfig], [ShadowsocksCipher] and [WireGuardPeerConfig] in
    the files of their servers. *)
From Stdlib Require Import SpecFloat.
From S2P Require Import Prelude RustStd Float64 TlsSetup Socks Reality Shadowsocks.
From S2P Require Import HysteriaServer Masquerade Listeners WgServer.

Record SocksConfig := MkSocks { socks_listen : list Z; socks_users : list SocksUser }.

(** Durations in nanoseconds. *)
Record TuicConfig := MkTuic {
  tuic_listen : list Z;
  tuic_users : gmap (list Z) (list Z);
  tuic_tls_config : option StandardTlsConfig;
  max_idle_time : Z;
  auth_timeout : Z;
  udp_timeout : Z;
  udp_relay_ipv6 : bool;
  max_udp_packet_size : Z;
}.

Record BandwidthConfig := Bandwidth { up : option (list Z); down : option (list Z) }.

Record Hysteria2Config := MkHysteria2 {
  hy2_listen : list Z;
  hy2_tls : StandardTlsConfig;
  hy2_auth : AuthConfig;
  bandwidth : BandwidthConfig;
  hy2_masquerade : MasqueradeConfig;
}.

Record VlessConfig := MkVless {
  vless_listen : list Z;
  vless_uuid : list Z;
  vless_transport : TransportConfig;
  vless_tls : option VlessTlsConfig;
}.

Record TrojanConfig := MkTrojan {
  trojan_listen : list Z;
  trojan_password : list Z;
  trojan_transport : TransportConfig;
  trojan_tls : option StandardTlsConfig;
}.

Record VmessConfig := MkVmess {
  vmess_listen : list Z;
  vmess_uuid : list Z;
  vmess_transport : TransportConfig;
  vmess_tls : option StandardTlsConfig;
}.

Record ShadowsocksConfig := MkShadowsocks {
  ss_listen : list Z;
  ss_password : list Z;
  ss_method : ShadowsocksCipher;
  ss_transport : TransportConfig;
  ss_tls : option StandardTlsConfig;
}.

Record AnyTlsConfig := MkAnyTls {
  anytls_listen : list Z;
  anytls_password : list Z;
  anytls_tls : StandardTlsConfig;
  padding_scheme : option (list Z);
}.

Record WireGuardConfig := MkWireGuard {
  wg_listen : list Z;
  wg_private_key : list Z;
  server_address : list (list Z);
  mtu : Z;
  wg_peers : list WireGuardPeerConfig;
}.

Inductive NodeInner :=
| Hysteria2 (c : Hysteria2Config)
| VlessNode (c : VlessConfig)
| VmessNode (c : VmessConfig)
| TrojanNode (c : TrojanConfig)
| ShadowsocksNode (c : ShadowsocksConfig)
| TuicNode (c : TuicConfig)
| WireguardNode (c : WireGuardConfig)
| AnytlsNode (c : AnyTlsConfig)
| SocksNode (c : SocksConfig).

Record NodeConfig := MkNode { tag : list Z; inner : NodeInner }.
Record LogConfig := MkLog { level : list Z }.
Record Config := MkConfig { log : LogConfig; node : list NodeConfig }.

(** ** Defaults *)

Definition default_log_level : list Z := str "info".
Definition default_masquerade_type : list Z := str "none".
Definition default_transport_type : list Z := str "tcp".
Definition default_ws_path : list Z := str "/".
Definition default_xhttp_path : list Z := str "/".
Definition default_wg_mtu : Z := 1420.
Definition default_ss_cipher : ShadowsocksCipher := Blake3Aes256Gcm.
Definition default_tuic_idle_time : Z := 30 * 10 ^ 9.
Definition default_tuic_auth_timeout : Z := 3 * 10 ^ 9.
Definition default_tuic_udp_timeout : Z := 30 * 10 ^ 9.
Definition default_tuic_max_udp_packet_size : Z := 65535.

Definition LogConfig_default : LogConfig := MkLog default_log_level.
Definition TransportConfig_default : TransportConfig :=
  Transport default_transport_type default_ws_path None default_xhttp_path None.
Definition BandwidthConfig_default : BandwidthConfig := Bandwidth None None.
Definition MasqueradeConfig_default : MasqueradeConfig := Masquerade [] None.

(** ** The file, as serde reads it

    A table [[x]] may stand for the array of one table. *)
Inductive OneOrMany (T : Type) := Many (v : list T) | One (t : T).
Arguments Many {T} _.
Arguments One {T} _.

Definition one_or_many {T} (d : outcome (OneOrMany T)) : outcome (list T) :=
  d ← d;
  match d with Many v => Done v | One t => Done [t] end.

(** The top of the file: what is there of the two fields, and whether it could be read. *)
Record ConfigFile := MkFile {
  file_log : option (outcome LogConfig);
  file_node : option (outcome (OneOrMany NodeConfig));
}.

Definition read_config (f : ConfigFile) : outcome Config :=
  log ← default (Done LogConfig_default) (file_log f);
  node ← match file_node f with Some d => one_or_many d | None => Done [] end;
  Done (MkConfig log node).

(** ** Checks *)

Definition is_empty (c : Config) : bool := bool_decide (node c = []).

Fixpoint first_duplicate (seen : gset (list Z)) (ns : list NodeConfig) : option (list Z) :=
  match ns with
  | [] => None
  | n :: ns => if decide (tag n ∈ seen) then Some (tag n) else first_duplicate ({[tag n]} ∪ seen) ns
  end.
Definition check_duplicate_tags (c : Config) : option (list Z) := first_duplicate ∅ (node c).

Lemma first_duplicate_spec seen ns t :
  first_duplicate seen ns = Some t <->
  exists l1 l2, tag <$> ns = l1 ++ t :: l2 /\ NoDup l1 /\ (forall u, u ∈ l1 -> u ∉ seen) /\ (t ∈ seen \/ t ∈ l1).
Proof.
  revert seen. induction ns as [|n ns IH]; intros seen; [|rewrite fmap_cons]; cbn [first_duplicate].
  { split; [done|]. by intros (l1 & l2 & E & _); destruct l1. }
  destruct (decide (tag n ∈ seen)) as [Hin|Hin].
  - split.
    + intros [= <-]. exists [], (tag <$> ns). split_and!; [done|constructor|set_solver|by left].
    + intros (l1 & l2 & E & _ & Hns & Ht). destruct l1 as [|u l1]; injection E as Eu _; [congruence|].
      subst u. exfalso. apply (Hns (tag n)); [by left|done].
  - rewrite IH. split.
    + intros (l1 & l2 & E & Hd & Hns & Ht). exists (tag n :: l1), l2. rewrite E. split_and!; [done| |set_solver|set_solver].
      constructor; [|done]. intros Hx. apply (Hns _ Hx). set_solver.
    + intros (l1 & l2 & E & Hd & Hns & Ht). destruct l1 as [|u l1]; injection E as Eu E.
      { subst t. destruct Ht as [?|Ht]; [done|by apply elem_of_nil in Ht]. }
      subst u. apply NoDup_cons in Hd as [Hu Hd]. exists l1, l2. split_and!; [done|done|set_solver|set_solver].
Qed.

(** The tag that is reported is the first that has been used before. *)
Lemma check_duplicate_tags_spec c t :
  check_duplicate_tags c = Some t <->
  exists l1 l2, tag <$> node c = l1 ++ t :: l2 /\ NoDup l1 /\ t ∈ l1.
Proof.
  unfold check_duplicate_tags. rewrite first_duplicate_spec. split; intros (l1 & l2 & ? & ? & H).
  - exists l1, l2. split_and!; [done|done|set_solver].
  - exists l1, l2. split_and!; [done|done|set_solver|by right].
Qed.

Lemma check_duplicate_tags_none c : check_duplicate_tags c = None <-> NoDup (tag <$> node c).
Proof.
  unfold check_duplicate_tags. generalize (node c). intros ns.
  enough (H : forall seen, first_duplicate seen ns = None <-> NoDup (tag <$> ns) /\ forall u, u ∈ tag <$> ns -> u ∉ seen).
  { rewrite H. set_solver. }
  induction ns as [|n ns IH]; intros seen; [|rewrite fmap_cons]; cbn [first_duplicate].
  { split; [|done]. intros _. split; [constructor|]. intros u Hu. by apply elem_of_nil in Hu. }
  destruct (decide (tag n ∈ seen)) as [Hin|Hin].
  - split; [done|]. intros [_ H]. exfalso. apply (H (tag n)); [by left|done].
  - rewrite IH, NoDup_cons. set_solver.
Qed.

(** ** Bandwidths *)

(** [str::to_lowercase], as far as it yields an ASCII character: the letters,
    the Kelvin sign and the dotted capital I.  What other characters become is no
    ASCII, and every reader below refuses it. *)
Fixpoint to_lowercase (bs : list Z) : list Z :=
  match bs with
  | 0xE2 :: 0x84 :: 0xAA :: r => 107 :: to_lowercase r
  | 0xC4 :: 0xB0 :: r => 0x69 :: 0xCC :: 0x87 :: to_lowercase r
  | c :: r => lower c :: to_lowercase r
  | [] => []
  end.

Definition parse_bps (s : list Z) : option Z :=
  let s := filter (fun c => c <> 32) (to_lowercase (trim s)) in
  let scaled_by factor n := (fun v => f64_to_u64 (fdiv (fmul v (f64_of_u64 factor)) (f64_of_u64 8))) <$> parse_f64 n in
  match strip_suffix (str "gbps") s with
  | Some n => scaled_by (10 ^ 9) n
  | None =>
      match strip_suffix (str "mbps") s with
      | Some n => scaled_by (10 ^ 6) n
      | None =>
          match strip_suffix (str "kbps") s with
          | Some n => scaled_by (10 ^ 3) n
          | None =>
              match strip_suffix (str "bps") s with
              | Some n => parse_uint U64_MAX n
              | None => None
              end
          end
      end
  end.

Definition up_bps (b : BandwidthConfig) : option Z := up b ≫= parse_bps.
Definition down_bps (b : BandwidthConfig) : option Z := down b ≫= parse_bps.

Example parse_bps_examples :
  parse_bps (str "1000 mbps") = Some 125000000 /\ parse_bps (str " 1.5Gbps ") = Some 187500000 /\
  parse_bps (str "1000") = None /\ parse_bps (str "inf gbps") = Some U64_MAX /\ parse_bps (str "-1mbps") = Some 0 /\
  parse_bps (str "1e3 kbps") = Some 125000.
Proof. vm_compute. split_and!; reflexivity. Qed.

(** ** What a bandwidth means *)

Definition printable (c : Z) : Prop := 33 <= c < 127.

Lemma strip_all_none fuel ps bs : strip_any ps bs = None -> strip_all fuel ps bs = bs.
Proof. intros Hn. destruct fuel; simpl; [done|]. by rewrite Hn. Qed.

Lemma no_space c r : printable c ->
  strip_any white_space (c :: r) = None /\ strip_any (reverse <$> white_space) (c :: r) = None.
Proof.
  intros Hc. unfold printable in Hc. split.
  - unfold white_space. cbn [strip_any strip_prefix]. by rewrite !(proj2 (Z.eqb_neq _ _)) by lia.
  - set (ps := reverse <$> white_space). vm_compute in ps. subst ps. cbn [strip_any strip_prefix].
    by rewrite !(proj2 (Z.eqb_neq _ _)) by lia.
Qed.

Lemma trim_printable c l d : printable c -> printable d -> trim (c :: l ++ [d]) = c :: l ++ [d].
Proof.
  intros Hc Hd. unfold trim.
  rewrite (strip_all_none _ _ _ (proj1 (no_space c (l ++ [d]) Hc))).
  assert (E : reverse (c :: l ++ [d]) = d :: reverse (c :: l)) by (rewrite app_comm_cons, reverse_app; done).
  rewrite E, (strip_all_none _ _ _ (proj2 (no_space d _ Hd))), <- E. apply reverse_involutive.
Qed.

Lemma to_lowercase_lower bs : Forall (fun c => 32 <= c < 127 /\ lower c = c) bs -> to_lowercase bs = bs.
Proof.
  induction 1 as [|c r [Hc Hl] _ IH]; [done|].
  assert (E : to_lowercase (c :: r) = lower c :: to_lowercase r).
  { destruct c as [|p|p]; [lia| |lia]. cbn [to_lowercase].
    repeat (match goal with |- context [match ?p with _ => _ end] => is_var p; destruct p end; try (exfalso; lia); try reflexivity). }
  by rewrite E, Hl, IH.
Qed.

Lemma strip_suffix_app p l : strip_suffix p (l ++ p) = Some l.
Proof.
  unfold strip_suffix. rewrite reverse_app.
  assert (H : forall q r, strip_prefix q (q ++ r) = Some r).
  { intros q r. induction q as [|c q IH]; simpl; [done|]. by rewrite Z.eqb_refl. }
  rewrite H. simpl. by rewrite reverse_involutive.
Qed.

Definition digits_only (l : list Z) : Prop := Forall (fun d => 48 <= d <= 57) l.

(** The unit [a ++ "bps"] is not the unit [b ++ "bps"]. *)
Lemma strip_suffix_unit a b l : digits_only l -> 97 <= b <= 122 -> a <> [b] -> (length a <= 1)%nat ->
  strip_suffix ([b] ++ str "bps") (l ++ a ++ str "bps") = None.
Proof.
  intros Hl Hb Ha Hlen. unfold strip_suffix. rewrite !reverse_app.
  destruct a as [|c [|]]; [| |simpl in Hlen; lia].
  - simpl. destruct (reverse l) as [|d r] eqn:E; [done|].
    assert (48 <= d <= 57).
    { assert (Forall (fun d => 48 <= d <= 57) (reverse l)) as Hr by (by apply Forall_reverse).
      rewrite E in Hr. by apply Forall_cons in Hr as [? _]. }
    simpl. by rewrite (proj2 (Z.eqb_neq b d)) by lia.
  - simpl. rewrite (proj2 (Z.eqb_neq b c)); [done|]. intros ->. by apply Ha.
Qed.

(** What [parse_bps] looks at, for a number and a unit with or without a space. *)
Lemma normal_bps v sp unit : 0 <= v -> (sp = [] \/ sp = [32]) -> (unit = [] \/ exists c, unit = [c] /\ 97 <= c <= 122) ->
  filter (fun c => c <> 32) (to_lowercase (trim (dec v ++ sp ++ unit ++ str "bps"))) = dec v ++ unit ++ str "bps".
Proof.
  intros Hv Hsp Hu. pose proof (dec_fuel_digits 20 v Hv) as Hd. fold (dec v) in Hd.
  assert (Ht : trim (dec v ++ sp ++ unit ++ str "bps") = dec v ++ sp ++ unit ++ str "bps").
  { pose proof (dec_not_nil v). destruct (dec v) as [|d ds]; [done|]. apply Forall_cons in Hd as [Hd _].
    change (str "bps") with ([98; 112] ++ [115]). rewrite !app_assoc, <- !app_comm_cons.
    apply trim_printable; unfold printable; lia. }
  rewrite Ht, to_lowercase_lower.
  - rewrite !filter_app.
    assert (Hid : forall l, Forall (fun c => c <> 32) l -> filter (fun c => c <> 32) l = l)
      by (induction 1; [done|]; rewrite filter_cons_True by done; congruence).
    rewrite (Hid (dec v)) by (eapply Forall_impl; [exact Hd|]; simpl; lia).
    rewrite (Hid unit) by (destruct Hu as [->|(c & -> & ?)]; repeat constructor; lia).
    destruct Hsp as [-> | ->]; reflexivity.
  - assert (Hc : forall c, 48 <= c <= 57 \/ 97 <= c <= 122 \/ c = 32 -> 32 <= c < 127 /\ lower c = c).
    { intros c Hc. split; [lia|]. unfold lower. destruct (_ && _) eqn:E; [|done]. apply andb_true_iff in E as [?%Z.leb_le ?%Z.leb_le]. lia. }
    rewrite !Forall_app. split_and!.
    + eapply Forall_impl; [exact Hd|]. simpl. auto.
    + destruct Hsp as [-> | ->]; [done|]. apply Forall_singleton, Hc. auto.
    + destruct Hu as [->|(c & -> & ?)]; [done|]. apply Forall_singleton, Hc. auto.
    + change (str "bps") with [98; 112; 115]. rewrite !Forall_cons. split_and!; try apply Hc; try done; right; left; lia.
Qed.


