(* ===== verification/HysteriaAuth.v ===== *)
(** * Hysteria 2: the answers to an authentication request
    ([gen_padding] of [src/src/hysteria2/auth.rs]; [send_auth_ok] and [send_auth_fail] of
    [src/src/hysteria2/server.rs])

    [HysteriaServer.auth_phase] decides which answer is sent; this file is what the
    client then sees. *)
From S2P Require Import Prelude RustStd NetAddr Config HysteriaServer Masquerade.

(** [thread_rng]: the length drawn from a range, and the [i]-th index below [n]. *)
Record rng := Rng { gen_len : Z -> Z -> Z; gen_char : nat -> nat -> nat }.
Definition rng_ok (r : rng) : Prop :=
  (forall lo hi, lo < hi -> lo <= gen_len r lo hi < hi) /\ forall i n, (0 < n)%nat -> (gen_char r i n < n)%nat.

Definition CHARS : list Z := str "abcdefghijklmnopqrstuvwxyzABCDEFGHIJKLMNOPQRSTUVWXYZ0123456789".

Definition gen_padding (r : rng) (min max : Z) : outcome (list Z) :=
  random_text CHARS (fun i => gen_char r i (length CHARS)) (Z.to_nat (gen_len r min max)).

Section answers.
(** Whether the library takes a text as the value of a header. *)
Context (header_value : list Z -> bool).

Definition build_response (status : Z) (hs : list header) : outcome h3_action :=
  if forallb (fun h => header_value h.2) hs then Done (SendResponse status hs) else Fail (EBail "http error").

(** [send_response(resp).await?; finish().await?]: what is sent, up to the first step that
    fails, and the result. *)
Fixpoint send_all (ok : h3_action -> bool) (acts : list h3_action) : list h3_action * outcome unit :=
  match acts with
  | [] => ([], Done tt)
  | a :: acts =>
      if ok a then let '(sent, o) := send_all ok acts in (a :: sent, o) else ([], Fail EIo)
  end.

Definition send_answer (ok : h3_action -> bool) (resp : outcome h3_action) : list h3_action * outcome unit :=
  match resp with
  | Done a => send_all ok [a; Finish]
  | Fail e => ([], Fail e)
  | Panic => ([], Panic)
  end.

Definition send_auth_ok (r : rng) (ok : h3_action -> bool) (cc : list Z) : list h3_action * outcome unit :=
  send_answer ok
    (pad ← gen_padding r 256 2048;
     build_response 233 [(str "hysteria-udp", str "true"); (str "hysteria-cc-rx", cc); (str "hysteria-padding", pad)]).

Definition send_auth_fail (r : rng) (ok : h3_action -> bool) : list h3_action * outcome unit :=
  send_answer ok
    (pad ← gen_padding r 64 256;
     build_response 403 [(str "hysteria-padding", pad)]).

(** ** Properties *)

Context (header_value_ok : forall v, Forall printable v -> header_value v = true).

Definition padding_ok (min max : Z) (pad : list Z) : Prop :=
  min <= Z.of_nat (length pad) < max /\ Forall (fun c => c ∈ CHARS) pad.

Lemma gen_padding_spec r min max :
  rng_ok r -> 0 <= min < max -> exists pad, gen_padding r min max = Done pad /\ padding_ok min max pad.
Proof.
  intros [Hl Hc] Hm. destruct (random_text_spec CHARS (fun i => gen_char r i (length CHARS)) (Z.to_nat (gen_len r min max)))
    as (pad & E & Hn & Hp); [intros i; apply Hc; apply Nat.ltb_lt; reflexivity|].
  exists pad. split; [done|]. split; [|done]. specialize (Hl min max ltac:(lia)). lia.
Qed.

Lemma padding_valid min max pad : padding_ok min max pad -> header_value pad = true.
Proof.
  intros [_ Hp]. apply header_value_ok. eapply Forall_impl; [exact Hp|]. simpl. intros c Hc.
  assert (Hall : Forall printable CHARS) by (apply (bool_decide_eq_true_1 (Forall printable CHARS)); vm_compute; reflexivity).
  rewrite Forall_forall in Hall. by apply Hall.
Qed.

Lemma cc_rx_spec d : from_option (fun bps => 0 <= bps < 2 ^ 64) True d ->
  header_value (cc_rx d) = true /\ parse_uint (2 ^ 64 - 1) (cc_rx d) = Some (default 0 d).
Proof.
  intros Hd. destruct d as [bps|]; simpl in *.
  - split; [|apply parse_uint_dec; lia]. apply header_value_ok.
    eapply Forall_impl; [apply (dec_fuel_digits 20 bps); lia|]. unfold printable. simpl. lia.
  - split; [|done]. apply header_value_ok. by repeat constructor.
Qed.

(** What an authenticated client reads: status 233, that UDP is offered, the configured
    bandwidth as a number it can parse (0 for none), and padding of 256 to 2047
    letters and digits; and another: 403 and 64 to 255 of padding, nothing else.  No
    step before the sending fails, so that the answer is sent if the connection
    takes it. *)
Theorem auth_answers r ok d :
  rng_ok r -> from_option (fun bps => 0 <= bps < 2 ^ 64) True d ->
  (exists pad, padding_ok 256 2048 pad /\
     parse_uint (2 ^ 64 - 1) (cc_rx d) = Some (default 0 d) /\
     send_auth_ok r ok (cc_rx d) =
       send_all ok [SendResponse 233 [(str "hysteria-udp", str "true"); (str "hysteria-cc-rx", cc_rx d); (str "hysteria-padding", pad)];
                    Finish]) /\
  (exists pad, padding_ok 64 256 pad /\
     send_auth_fail r ok = send_all ok [SendResponse 403 [(str "hysteria-padding", pad)]; Finish]).
Proof.
  intros Hr Hd. destruct (gen_padding_spec r 256 2048 Hr ltac:(lia)) as (p1 & E1 & H1), (gen_padding_spec r 64 256 Hr ltac:(lia)) as (p2 & E2 & H2).
  destruct (cc_rx_spec d Hd) as [Hv Hp]. split.
  - exists p1. split; [done|]. split; [done|]. unfold send_auth_ok. rewrite E1. cbn [mbind outcome_bind bind_outcome].
    unfold build_response. cbn [forallb snd]. by rewrite (header_value_ok (str "true")), Hv, (padding_valid _ _ _ H1) by (by repeat constructor).
  - exists p2. split; [done|]. unfold send_auth_fail. rewrite E2. cbn [mbind outcome_bind bind_outcome].
    unfold build_response. cbn [forallb snd]. by rewrite (padding_valid _ _ _ H2).
Qed.
End answers.

(** A run of both, on a connection that is gone after the response. *)
Example demo_answers :
  let r := Rng (fun lo _ => lo) (fun _ _ => 1%nat) in
  (fun a => match a with SendResponse s hs => (s, hs.*1) | _ => (0, []) end) <$>
    (send_auth_ok (fun _ => true) r (fun _ => true) (str "5")).1 =
  [(233, [str "hysteria-udp"; str "hysteria-cc-rx"; str "hysteria-padding"]); (0, [])] /\
  (send_auth_fail (fun _ => true) r (fun a => if a is Finish then false else true)).2 = Fail EIo.
Proof. vm_compute. split; reflexivity. Qed.
