(* ===== verification/Servers.v ===== *)
(** * The servers over TCP: from the configuration to every connection
    ([run] of [src/src/vless/listener.rs], [src/src/trojan/mod.rs],
    [src/src/shadowsocks/server.rs], [src/src/vmess/mod.rs], [src/src/socks/mod.rs], [src/src/anytls/server.rs])

    A server reads its configuration, sets up TLS and its listening socket, and
    then starts one task per connection.  Tasks share nothing but configuration;
    a panic ends its task only.  What comes in is a sequence of accepted
    connections and errors.  With the XHTTP transport the accepted connections
    are fed to the XHTTP server ([XhttpServer]), and the tasks run on the logical streams it
    hands out: an argument here, which [XhttpStreams] makes of a run of that server. *)
From S2P Require Import Prelude RustStd NetAddr TlsSetup Net Target Aead.
From S2P Require Import AnyTlsPadding AnyTls AnyTlsConn.
From S2P Require Import Socks Vless Shadowsocks Vmess Trojan Reality Websocket.
From S2P Require Import Listeners Config.

(** Everything a connection's task meets besides its input: the network, what
    a peek returns, the certificate of a Reality connection, clock and targets;
    for AnyTLS, how the connection's tasks are scheduled. *)
Record link := Link {
  l_env : env;
  l_peek : nat;
  l_cert : CertWorld;
  l_ss : Shadowsocks.world;
  l_vmess : Vmess.world;
  l_sched : list alabel;
}.

Inductive accepted := Accept (s : conn) (l : link) | AcceptError.

(** A task: its connection when it starts, its result, the connection at its end. *)
Record task := Task { t_in : conn; t_link : link; t_out : outcome unit; t_end : conn }.

Definition run_task (h : link -> M conn unit) (s : conn) (l : link) : task :=
  let '(o, s') := h l s in Task s l o s'.

(** The tasks started, and the result of [run] if it has returned. *)
Record served := Served { tasks : list task; ended : Datatypes.option (outcome unit) }.

(** [loop { let (stream, peer) = listener.accept().await?; spawn(..) }]. *)
Fixpoint accept_loop (handle : link -> M conn unit) (evs : list accepted) : served :=
  match evs with
  | [] => Served [] None
  | AcceptError :: _ => Served [] (Some (Fail EIo))
  | Accept s l :: evs =>
      let r := accept_loop handle evs in
      Served (run_task handle s l :: tasks r) (ended r)
  end.

(** The feeding task of the XHTTP transport goes on after an error. *)
Fixpoint feed_loop (feed : link -> M conn unit) (evs : list accepted) : list task :=
  match evs with
  | [] => []
  | AcceptError :: evs => feed_loop feed evs
  | Accept s l :: evs => run_task feed s l :: feed_loop feed evs
  end.

(** The logical streams so far, and whether there will be no more. *)
Record streams := Streams { logical : list (conn * link); closed : bool }.

Definition serve (tr : TransportConfig) (feed handle process : link -> M conn unit) (evs : list accepted)
    (xs : streams) : served :=
  if decide (transport_type tr = str "xhttp") then
    Served (feed_loop feed evs ++ ((fun x => run_task process x.1 x.2) <$> logical xs))
      (if closed xs then Some (Done tt) else None)
  else accept_loop handle evs.

(** A server whose set-up fails starts nothing. *)
Definition after_setup {A} (setup : outcome A) (run : A -> served) : served :=
  match setup with
  | Done a => run a
  | Fail e => Served [] (Some (Fail e))
  | Panic => Served [] (Some Panic)
  end.

Definition map_err {A} (e : error) (o : outcome A) : outcome A :=
  match o with Fail _ => Fail e | _ => o end.

Section servers.
(** [TcpListener::bind]; the crates of the servers. *)
Context (bind : SocketAddr -> outcome unit).
Context `{TlsLib} `{Layers} `{RealityCrypto} `{Vmess.Crypto} `{Aead ShadowsocksCipher}.
Context (sha224 : list Z -> list Z) (derive_key : list Z -> list Z) (base64 : list Z -> Datatypes.option (list Z)).
(** For AnyTLS: hashes, and the random generator of padding schemes. *)
Context (gen_range : list Z -> Z -> Z -> Z) (sha256 md5 : list Z -> list Z).

Definition listen_on (listen : list Z) : outcome unit :=
  addr ← parse_socket_addr listen;
  bind addr.

(** The acceptor of a server with optional standard TLS: whether there is one. *)
Definition build_tls (tls : Datatypes.option StandardTlsConfig) : outcome bool :=
  match tls with
  | None => Done false
  | Some t =>
      _ ← build_standard (cert_path t) (key_path t) (self_signed_domain t);
      Done true
  end.

(** [feed_plain], or [feed_tls] after the handshake. *)
Definition feed_standard (tls : bool) (l : link) : M conn unit := if tls then tls_accept else mret tt.

Definition trojan_run (cfg : TrojanConfig) (evs : list accepted) (xs : streams) : served :=
  after_setup
    (tls ← build_tls (trojan_tls cfg);
     _ ← listen_on (trojan_listen cfg);
     Done tls)
    (fun tls =>
       serve (trojan_transport cfg) (feed_standard tls)
         (fun l => trojan_handle sha224 (l_env l) (trojan_transport cfg) tls (trojan_password cfg))
         (fun l => Trojan.process sha224 (l_env l) (trojan_password cfg))
         evs xs).

Definition shadowsocks_run (cfg : ShadowsocksConfig) (evs : list accepted) (xs : streams) : served :=
  after_setup
    (master_key ← decode_master_key base64 (ss_password cfg) (key_len (ss_method cfg));
     tls ← build_tls (ss_tls cfg);
     _ ← listen_on (ss_listen cfg);
     Done (master_key, tls))
    (fun '(master_key, tls) =>
       serve (ss_transport cfg) (feed_standard tls)
         (fun l => shadowsocks_handle_conn (l_env l) derive_key (ss_transport cfg) tls (ss_method cfg) master_key (l_ss l))
         (fun l => Shadowsocks.process (l_env l) derive_key (ss_method cfg) master_key (l_ss l))
         evs xs).

Definition vmess_run (cfg : VmessConfig) (evs : list accepted) (xs : streams) : served :=
  after_setup
    (uuid ← parse_uuid (vmess_uuid cfg);
     tls ← build_tls (vmess_tls cfg);
     _ ← listen_on (vmess_listen cfg);
     Done (vmess_cmd_key uuid, tls))
    (fun '(cmd_key, tls) =>
       serve (vmess_transport cfg) (feed_standard tls)
         (fun l => vmess_handle (l_env l) (vmess_transport cfg) tls cmd_key (l_vmess l))
         (fun l => Vmess.process (l_env l) cmd_key (l_vmess l))
         evs xs).

(** VLESS: the acceptor made for Reality is not used.  [reality::build]: the
    configuration is checked, and a placeholder made. *)
Definition reality_build (r : RealityConfig) : outcome ServerConfig :=
  _ ← Reality.build r;
  build_placeholder_config (Reality.server_name r).

Definition vless_acceptor (tls : Datatypes.option VlessTlsConfig) : outcome bool :=
  match tls with
  | None => Done false
  | Some (VlessTls t) =>
      _ ← build_standard (cert_path t) (key_path t) (self_signed_domain t);
      Done true
  | Some (VlessReality r) =>
      _ ← reality_build r;
      Done true
  end.

Definition vless_feed (tls : Datatypes.option VlessTlsConfig) (acceptor : bool) (l : link) : M conn unit :=
  match tls with
  | None => mret tt
  | Some (VlessTls _) => if acceptor then tls_accept else mret tt
  | Some (VlessReality cfg) => reality_accept (l_env l) (l_cert l) cfg (l_peek l)
  end.

Definition vless_run (cfg : VlessConfig) (evs : list accepted) (xs : streams) : served :=
  after_setup
    (uuid_bytes ← map_err (EBail "vless: invalid UUID in config") (parse_uuid (vless_uuid cfg));
     acceptor ← vless_acceptor (vless_tls cfg);
     _ ← listen_on (vless_listen cfg);
     Done (uuid_bytes, acceptor))
    (fun '(uuid_bytes, acceptor) =>
       serve (vless_transport cfg) (vless_feed (vless_tls cfg) acceptor)
         (fun l => vless_handle_conn (l_env l) (l_cert l) (l_peek l) (vless_transport cfg) (vless_tls cfg) acceptor uuid_bytes)
         (fun l => process_vless_stream (l_env l) uuid_bytes)
         evs xs).

(** AnyTLS: the hash of the password, the acceptor, the padding scheme.  The acceptor
    is there after a successful set-up. *)
Definition anytls_setup (cfg : AnyTlsConfig) : outcome (list Z * ServerConfig * PaddingScheme) :=
  let password_hash := sha256 (anytls_password cfg) in
  let t := anytls_tls cfg in
  tls_cfg ← build_standard (cert_path t) (key_path t) (self_signed_domain t);
  padding ← new_default gen_range md5;
  padding ← match padding_scheme cfg with
            | Some scheme_str =>
                let '(p, ok) := update gen_range md5 padding scheme_str in
                if ok then Done p else Fail (EBail "invalid padding_scheme in config")
            | None => Done padding
            end;
  _ ← listen_on (anytls_listen cfg);
  Done (password_hash, tls_cfg, padding).

(** [handle_conn]; the padding scheme does not change any more. *)
Definition anytls_handle_conn (padding : PaddingScheme) (password_hash : list Z) (l : link) : M conn unit :=
  _ ← tls_accept;
  session_conn (l_env l) padding password_hash (l_sched l).

Definition anytls_run (cfg : AnyTlsConfig) (evs : list accepted) : served :=
  after_setup (anytls_setup cfg)
    (fun '(password_hash, _, padding) => accept_loop (anytls_handle_conn padding password_hash) evs).

Definition socks_run (cfg : SocksConfig) (evs : list accepted) : served :=
  after_setup (listen_on (socks_listen cfg))
    (fun _ => accept_loop (fun l => Socks.handle (l_env l) (socks_users cfg)) evs).

End servers.

(** ** Which tasks there are *)

Definition from_accept (evs : list accepted) (h : link -> M conn unit) (k : task) : Prop :=
  exists s l, Accept s l ∈ evs /\ k = run_task h s l.
Definition from_stream (xs : streams) (h : link -> M conn unit) (k : task) : Prop :=
  exists s l, (s, l) ∈ logical xs /\ k = run_task h s l.

Lemma accept_loop_tasks h evs k : k ∈ tasks (accept_loop h evs) -> from_accept evs h k.
Proof.
  induction evs as [|[s l|] evs IH]; simpl; try by intros ?%elem_of_nil.
  intros [->|Hk]%elem_of_cons; [exists s, l; split; [by left|done]|].
  destruct (IH Hk) as (s' & l' & ? & ?). exists s', l'. split; [by right|done].
Qed.

Lemma feed_loop_tasks h evs k : k ∈ feed_loop h evs -> from_accept evs h k.
Proof.
  induction evs as [|[s l|] evs IH]; simpl; try by intros ?%elem_of_nil.
  - intros [->|Hk]%elem_of_cons; [exists s, l; split; [by left|done]|].
    destruct (IH Hk) as (s' & l' & ? & ?). exists s', l'. split; [by right|done].
  - intros Hk. destruct (IH Hk) as (s' & l' & ? & ?). exists s', l'. split; [by right|done].
Qed.

Lemma serve_tasks tr feed handle process evs xs k :
  k ∈ tasks (serve tr feed handle process evs xs) ->
  (transport_type tr = str "xhttp" /\ (from_accept evs feed k \/ from_stream xs process k)) \/
  (transport_type tr <> str "xhttp" /\ from_accept evs handle k).
Proof.
  unfold serve. case_decide as Ht; cbn [tasks].
  - intros [Hk|Hk]%elem_of_app; left; (split; [done|]).
    + left. by apply feed_loop_tasks.
    + right. apply list_elem_of_fmap in Hk as ([s l] & -> & Hk). by exists s, l.
  - intros Hk. right. split; [done|]. by apply accept_loop_tasks.
Qed.

(** Without errors of [accept], a server goes on: every connection has its task. *)
Lemma accept_loop_serves h evs : AcceptError ∉ evs ->
  ended (accept_loop h evs) = None /\
  forall s l, Accept s l ∈ evs -> run_task h s l ∈ tasks (accept_loop h evs).
Proof.
  induction evs as [|[s l|] evs IH]; intros He; simpl.
  - split; [done|]. by intros s l ?%elem_of_nil.
  - destruct IH as [IHe IHt]; [set_solver|]. split; [done|]. intros s' l' [[= <- <-]|Hin]%elem_of_cons; [by left|].
    right. by apply IHt.
  - set_solver.
Qed.

Lemma run_task_eq h s l : exists o s', h l s = (o, s') /\ run_task h s l = Task s l o s'.
Proof. unfold run_task. destruct (h l s) as [o s']. eauto. Qed.

(** ** What a task of a server does

    [received tr tls raw p]: the protocol's stream [p] of a task that starts with
    [raw]. *)
Definition received (tr : TransportConfig) (tls : bool) `{Layers} (raw p : list Z) : Prop :=
  if decide (transport_type tr = str "xhttp") then p = raw else carried tr tls raw p.

(** Bytes come in; the clock is not past the year 10^11. *)
Definition input_ok (s : conn) (l : link) : Prop := bytes_ok (c_in s) /\ 0 <= Vmess.w_now (l_vmess l) < 2 ^ 62.
Definition inputs_ok (evs : list accepted) (xs : streams) : Prop :=
  (forall s l, Accept s l ∈ evs -> input_ok s l) /\ (forall s l, (s, l) ∈ logical xs -> input_ok s l).

Section tasks.
Context `{LayersLaws}.

(** The three kinds of tasks, for a protocol whose [process] obeys [P]; [P] holds of
    a task that does nothing visible. *)
Lemma serve_task (tr : TransportConfig) (tls : bool) unknown (process : link -> M conn unit) (P : list Z -> task -> Prop)
    evs xs k :
  inputs_ok evs xs ->
  k ∈ tasks (serve tr (feed_standard tls) (fun l => _ ← open_io unknown tr tls; process l) process evs xs) ->
  (forall s0 l s o s', input_ok s l -> c_trace s = c_trace s0 -> process l s = (o, s') -> P (c_in s) (Task s0 l o s')) ->
  (c_trace (t_end k) = c_trace (t_in k) /\ t_out k <> Panic) \/
  exists p, received tr tls (c_in (t_in k)) p /\ P p k.
Proof.
  intros [Ha Hx] Hk HP. unfold received. apply serve_tasks in Hk as [[Ht [(s & l & Hin & ->)|(s & l & Hin & ->)]]|[Ht (s & l & Hin & ->)]].
  - left. destruct tls; [|done]. destruct (run_task_eq (feed_standard true) s l) as (o & s' & E & ->).
    by destruct (tls_accept_spec s _ _ (proj1 (Ha _ _ Hin)) E) as (T & P0 & _).
  - right. destruct (run_task_eq process s l) as (o & s' & E & ->). exists (c_in s). rewrite decide_True by done.
    split; [done|]. by apply HP; [apply (Hx _ _ Hin)| |].
  - destruct (run_task_eq (fun l => _ ← open_io unknown tr tls; process l) s l) as (o & s' & E & ->).
    destruct (layered _ _ _ _ _ (carried tr tls (c_in s)) (fun o1 s1 => open_io_spec unknown tr tls s o1 s1 (proj1 (Ha _ _ Hin))) E)
      as [?|(s1 & T & C & Hb1 & E4)]; [by left|].
    right. exists (c_in s1). rewrite decide_False by done. split; [done|]. apply HP; [|done|done]. split; [done|apply (Ha _ _ Hin)].
Qed.

End tasks.

(** ** Who is connected where

    For each server: the targets a connection is entitled to, by the configuration
    and what the client sent. *)
Definition has_tls (tls : Datatypes.option StandardTlsConfig) : bool :=
  match tls with Some _ => true | None => false end.

Section grants.
Context `{TlsLib} `{Layers} `{RealityCrypto} `{Vmess.Crypto} `{Aead ShadowsocksCipher}.
Context (sha224 : list Z -> list Z) (derive_key : list Z -> list Z) (base64 : list Z -> Datatypes.option (list Z)).
Context (sha256 : list Z -> list Z).

(** A request under the hash of the configured password. *)
Definition trojan_grants (cfg : TrojanConfig) (s : conn) (l : link) (t : list Z) : Prop :=
  exists p h port crlf rest,
    received (trojan_transport cfg) (has_tls (trojan_tls cfg)) (c_in s) p /\
    host_ok h /\ port_ok port /\ length crlf = 2%nat /\
    p = trojan_wire sha224 (trojan_password cfg) h port crlf ++ rest /\ t = target_text h port.

(** A salt and a fresh request header sealed under the configured key. *)
Definition shadowsocks_grants (cfg : ShadowsocksConfig) (s : conn) (l : link) (t : list Z) : Prop :=
  exists mk p salt k header w rest n',
    decode_master_key base64 (ss_password cfg) (key_len (ss_method cfg)) = Done mk /\
    received (ss_transport cfg) (has_tls (ss_tls cfg)) (c_in s) p /\
    length salt = salt_len (ss_method cfg) /\
    derive_session_subkey derive_key mk salt (salt_len (ss_method cfg)) = Done k /\
    p = salt ++ w ++ rest /\ sealed (ss_method cfg) k (replicate 12 0) [header] w n' /\
    parse_request_header (Shadowsocks.w_now (l_ss l)) header STREAM_TYPE_REQUEST = Done t.

(** A fresh request header sealed under the key of the configured UUID. *)
Definition vmess_grants (cfg : VmessConfig) (s : conn) (l : link) (t : list Z) : Prop :=
  exists uuid p auth_id nonce header w rest req,
    parse_uuid (vmess_uuid cfg) = Done uuid /\
    received (vmess_transport cfg) (has_tls (vmess_tls cfg)) (c_in s) p /\
    p = w ++ rest /\ request_wire (vmess_cmd_key uuid) auth_id nonce header w /\
    validate_auth_id (Vmess.w_now (l_vmess l)) auth_id (vmess_cmd_key uuid) = Done tt /\
    parse_plain_header header = Done req /\ t = Vmess.target req.

(** A TCP request for the configured UUID; or, for a client Reality does not
    recognise, the decoy. *)
Definition vless_grants (cfg : VlessConfig) (s : conn) (l : link) (t : list Z) : Prop :=
  (exists uuid p addons h port rest,
     parse_uuid (vless_uuid cfg) = Done uuid /\
     (if decide (transport_type (vless_transport cfg) = str "xhttp") then p = c_in s
      else exists q, vless_opened (l_cert l) (l_peek l) (vless_tls cfg) s q /\ upgraded (vless_transport cfg) q p) /\
     Vless.wire_ok uuid addons CMD_TCP h port /\ p = Vless.wire uuid addons CMD_TCP h port ++ rest /\
     t = target_text h port) \/
  (exists r, vless_tls cfg = Some (VlessReality r) /\
     (forall a, verify_reality_client (peek_client_hello (l_peek l) s) r <> Done a) /\ t = Reality.dest r).

(** The configured login (or none if there are no users) and a connect request. *)
Definition socks_grants (cfg : SocksConfig) (s : conn) (l : link) (t : list Z) : Prop :=
  exists methods sub rsv h port rest,
    Socks.authorised (socks_users cfg) methods sub /\ host_ok h /\ port_ok port /\
    c_in s = Socks.greeting_wire methods ++ sub ++ Socks.socks_request_wire Socks.CMD_CONNECT rsv h port ++ rest /\
    t = target_text h port.

(** A stream of a session under the password's hash that starts with the address. *)
Definition anytls_grants (cfg : AnyTlsConfig) (s : conn) (l : link) (t : list Z) : Prop :=
  exists p pad pre sid d post rest host port data,
    tls_open (c_in s) = Some p /\
    p = credential (sha256 (anytls_password cfg)) pad ++ AnyTlsConn.wire (pre ++ AnyTls.Frame CMD_SYN sid d :: post) ++ rest /\
    host_ok host /\ port_ok port /\
    stream_bytes sid post = host_wire 1 3 4 host ++ be_bytes 2 port ++ data /\ t = target_text host port.

(** Whom an AnyTLS server talks to. *)
Definition anytls_knows (cfg : AnyTlsConfig) (s : conn) : Prop :=
  exists p pad rest, tls_open (c_in s) = Some p /\ p = credential (sha256 (anytls_password cfg)) pad ++ rest.

End grants.

(** A task connects at most once, to a target its client is entitled to; with
    [silent], a client that is not entitled sees and causes nothing at all. *)
Definition gated (silent : bool) (grants : conn -> link -> list Z -> Prop) (k : task) : Prop :=
  exists l, c_trace (t_end k) = c_trace (t_in k) ++ l /\
    ((connects l = [] /\ (silent = true -> l = [])) \/
     exists t, connects l = [t] /\ grants (t_in k) (t_link k) t).

(** A task of many streams: every connection is one its client is entitled to, and a
    client that [knows] nothing sees and causes nothing at all. *)
Definition gated_streams (knows : conn -> Prop) (grants : conn -> link -> list Z -> Prop) (k : task) : Prop :=
  exists l, c_trace (t_end k) = c_trace (t_in k) ++ l /\ (l <> [] -> knows (t_in k)) /\
    forall t, t ∈ connects l -> grants (t_in k) (t_link k) t.

Lemma gated_nothing silent G k : c_trace (t_end k) = c_trace (t_in k) -> gated silent G k.
Proof. intros E. exists []. rewrite app_nil_r. split; [done|by left]. Qed.

Lemma gated_connect silent (G : conn -> link -> list Z -> Prop) k t l :
  c_trace (t_end k) = c_trace (t_in k) ++ EvConnect t :: l -> connects l = [] -> G (t_in k) (t_link k) t ->
  gated silent G k.
Proof. intros E Hl HG. eexists. split; [exact E|]. right. exists t. cbn [connects]. simpl. by rewrite Hl. Qed.

Section gates.
Context (bind : SocketAddr -> outcome unit).
Context `{TlsLib} `{LayersLaws} `{RealityCrypto} `{Vmess.CryptoLaws} `{AeadLaws ShadowsocksCipher}.
Context (sha224 : list Z -> list Z) (derive_key : list Z -> list Z) (base64 : list Z -> Datatypes.option (list Z)).
Context (sha224_ok : forall p, length (sha224 p) = 28%nat /\ bytes_ok (sha224 p)).
Context (derive_key_ok : forall ikm, length (derive_key ikm) = 32%nat).

Lemma build_tls_Done tls b : build_tls tls = Done b -> b = has_tls tls.
Proof. destruct tls as [t|]; simpl; [|by intros [= <-]]. destruct (build_standard _ _ _); [by intros [= <-]|done..]. Qed.

Lemma after_setup_tasks {A} (setup : outcome A) run k :
  k ∈ tasks (after_setup setup run) -> exists a, setup = Done a /\ k ∈ tasks (run a).
Proof. destruct setup as [a| |]; simpl; [by exists a|by intros ?%elem_of_nil..]. Qed.

Lemma trojan_gated cfg evs xs k :
  inputs_ok evs xs -> k ∈ tasks (trojan_run bind sha224 cfg evs xs) -> gated true (trojan_grants sha224 cfg) k.
Proof.
  intros Hin Hk. apply after_setup_tasks in Hk as (tls & Hs & Hk).
  apply bind_Done_iff in Hs as (b & Hb & (u & _ & [= <-])%bind_Done_iff). apply build_tls_Done in Hb as ->.
  destruct (serve_task _ _ (EBail "trojan: unknown transport") (fun l => Trojan.process sha224 (l_env l) (trojan_password cfg))
    (fun p k => c_trace (t_end k) = c_trace (t_in k) \/ exists h port crlf rest t l, host_ok h /\ port_ok port /\ length crlf = 2%nat /\
       p = trojan_wire sha224 (trojan_password cfg) h port crlf ++ rest /\ t = target_text h port /\
       c_trace (t_end k) = c_trace (t_in k) ++ EvConnect t :: l /\ connects l = []) evs xs k Hin Hk)
    as [[T _]|(p & Hp & [T|(h & port & crlf & rest & t & l & ? & ? & ? & ? & ? & T & Hl)])].
  - intros s0 l s o s' [Hb Hw] T E. destruct (trojan_process_actions sha224 sha224_ok _ _ s o s' Hb E) as [_ [T'|(h & port & crlf & rest & ? & ? & ? & ? & Hr)]].
    + left. simpl. congruence.
    + right. exists h, port, crlf, rest, (target_text h port). cbn [t_end t_in]. rewrite <- T. cbv zeta in Hr.
      destruct (env_connect (l_env l) (c_trace s) (target_text h port)); [destruct Hr as [Hr _]|..]; rewrite Hr, <- ?app_assoc;
        eexists; (split_and!; [done|done|done|done|done|reflexivity|done]).
  - by apply gated_nothing.
  - by apply gated_nothing.
  - eapply gated_connect; [exact T|done|]. by exists p, h, port, crlf, rest.
Qed.

Lemma shadowsocks_gated cfg evs xs k :
  inputs_ok evs xs -> k ∈ tasks (shadowsocks_run bind derive_key base64 cfg evs xs) ->
  gated true (shadowsocks_grants derive_key base64 cfg) k.
Proof.
  intros Hin Hk. apply after_setup_tasks in Hk as ([mk tls] & Hs & Hk).
  apply bind_Done_iff in Hs as (mk' & Hmk & (b & Hb & (u & _ & [= -> ->])%bind_Done_iff)%bind_Done_iff).
  apply build_tls_Done in Hb as ->.
  destruct (serve_task _ _ (EBail "shadowsocks: unknown transport")
    (fun l => Shadowsocks.process (l_env l) derive_key (ss_method cfg) mk (l_ss l))
    (fun p k => c_trace (t_end k) = c_trace (t_in k) \/ exists salt key header w rest n' t l,
       length salt = salt_len (ss_method cfg) /\ derive_session_subkey derive_key mk salt (salt_len (ss_method cfg)) = Done key /\
       p = salt ++ w ++ rest /\ sealed (ss_method cfg) key (replicate 12 0) [header] w n' /\
       parse_request_header (Shadowsocks.w_now (l_ss (t_link k))) header STREAM_TYPE_REQUEST = Done t /\
       c_trace (t_end k) = c_trace (t_in k) ++ EvConnect t :: l /\ connects l = []) evs xs k Hin Hk)
    as [[T _]|(p & Hp & [T|(salt & key & header & w & rest & n' & t & l & ? & ? & ? & ? & ? & T & Hl)])].
  - intros s0 l s o s' [Hb Hw] T E. destruct (process_actions derive_key derive_key_ok _ _ _ _ s o s' Hb E) as [_ [T'|Hr]].
    + left. simpl. congruence.
    + right. destruct Hr as (salt & key & header & w & rest & n' & t & l' & Hr). exists salt, key, header, w, rest, n', t, l'.
      cbn [t_end t_in t_link]. rewrite <- T. exact Hr.
  - by apply gated_nothing.
  - by apply gated_nothing.
  - eapply gated_connect; [exact T|done|]. by exists mk, p, salt, key, header, w, rest, n'.
Qed.

Lemma vmess_gated cfg evs xs k :
  inputs_ok evs xs -> k ∈ tasks (vmess_run bind cfg evs xs) -> gated true (vmess_grants cfg) k.
Proof.
  intros Hin Hk. apply after_setup_tasks in Hk as ([ck tls] & Hs & Hk).
  apply bind_Done_iff in Hs as (uuid & Hu & (b & Hb & (u & _ & [= <- ->])%bind_Done_iff)%bind_Done_iff).
  apply build_tls_Done in Hb as ->.
  destruct (serve_task _ _ (EBail "unknown transport")
    (fun l => Vmess.process (l_env l) (vmess_cmd_key uuid) (l_vmess l))
    (fun p k => c_trace (t_end k) = c_trace (t_in k) \/ exists auth_id nonce header w rest req l,
       p = w ++ rest /\ request_wire (vmess_cmd_key uuid) auth_id nonce header w /\
       validate_auth_id (Vmess.w_now (l_vmess (t_link k))) auth_id (vmess_cmd_key uuid) = Done tt /\
       parse_plain_header header = Done req /\
       c_trace (t_end k) = c_trace (t_in k) ++ EvConnect (Vmess.target req) :: l /\ connects l = []) evs xs k Hin Hk)
    as [[T _]|(p & Hp & [T|(a & n & header & w & rest & req & l & ? & ? & ? & ? & T & Hl)])].
  - intros s0 l s o s' [Hb Hw] T E.
    destruct (vmess_process_actions _ _ _ s o s' Hb Hw E) as [[T' _]|(a & n & header & w & rest & Hc & Hr & Hv & [(T' & _)|(req & l' & Hp & _ & T' & Hl)])].
    + left. simpl. congruence.
    + left. simpl. congruence.
    + right. exists a, n, header, w, rest, req, l'. cbn [t_end t_in t_link]. by rewrite <- T.
  - by apply gated_nothing.
  - by apply gated_nothing.
  - eapply gated_connect; [exact T|done|]. by exists uuid, p, a, n, header, w, rest, req.
Qed.

Lemma decoyed_gated silent (G : conn -> link -> list Z -> Prop) dest k :
  decoyed (l_env (t_link k)) dest (t_in k) (t_end k) -> G (t_in k) (t_link k) dest -> gated silent G k.
Proof.
  unfold decoyed. intros Hd HG.
  destruct (env_connect _ (c_trace (t_in k)) dest); rewrite <- ?app_assoc in Hd; (eapply gated_connect; [exact Hd|done|done]).
Qed.

Lemma vless_gated cfg evs xs k :
  inputs_ok evs xs -> k ∈ tasks (vless_run bind cfg evs xs) -> gated true (vless_grants cfg) k.
Proof.
  intros [Ha Hx] Hk. apply after_setup_tasks in Hk as ([uuid acc] & Hs & Hk).
  apply bind_Done_iff in Hs as (uuid' & Hu & (b & Hacc & (u & _ & [= -> ->])%bind_Done_iff)%bind_Done_iff).
  assert (Huuid : parse_uuid (vless_uuid cfg) = Done uuid) by (destruct (parse_uuid _); simpl in Hu; congruence).
  apply serve_tasks in Hk as [[Ht [(s & l & Hin & ->)|(s & l & Hin & ->)]]|[Ht (s & l & Hin & ->)]].
  - unfold vless_feed. destruct (run_task_eq (vless_feed (vless_tls cfg) acc) s l) as (o & s' & E & E2).
    unfold vless_feed in E2. rewrite E2. clear E2.
    assert (Hb : bytes_ok (c_in s)) by apply (Ha _ _ Hin).
    destruct (tls_layer_spec (l_env l) (l_cert l) (l_peek l) (vless_tls cfg) true s o s' Hb) as [[T _]|(_ & r & Hr & Hn & Hd)].
    + unfold vless_feed in E. destruct (vless_tls cfg) as [[std|r]|]; [|exact E|exact E].
      simpl in Hacc. destruct (build_standard _ _ _); [|done..]. injection Hacc as <-. exact E.
    + by apply gated_nothing.
    + eapply decoyed_gated; [exact Hd|]. right. by exists r.
  - destruct (run_task_eq (fun l => process_vless_stream (l_env l) uuid) s l) as (o & s' & E & ->).
    destruct (process_vless_stream_actions _ _ s o s' (proj1 (Hx _ _ Hin)) E) as [T|(addons & h & port & rest & Hw & Hc & Hr)];
      [by apply gated_nothing|].
    assert (exists l', c_trace s' = c_trace s ++ EvConnect (target_text h port) :: l' /\ connects l' = []) as (l' & T & Hl).
    { cbv zeta in Hr. destruct (env_connect _ _ _); [destruct (env_write_ok _ _); [destruct Hr as [Hr _]|]|..];
        rewrite Hr, <- ?app_assoc; eexists; (split; [reflexivity|done]). }
    eapply gated_connect; [exact T|done|]. left. exists uuid, (c_in s), addons, h, port, rest. cbn [t_in t_link].
    by rewrite decide_True.
  - destruct (run_task_eq (fun l => vless_handle_conn (l_env l) (l_cert l) (l_peek l) (vless_transport cfg) (vless_tls cfg) acc uuid) s l)
      as (o & s' & E & ->).
    destruct (vless_handle_gate _ _ _ _ _ _ _ s o s' (proj1 (Ha _ _ Hin)) E)
      as [T|[(r & Hr & Hn & Hd)|(q & p & addons & h & port & rest & l' & Hq & Hp & Hw & Hc & T & Hl)]].
    + by apply gated_nothing.
    + eapply decoyed_gated; [exact Hd|]. right. by exists r.
    + eapply gated_connect; [exact T|done|]. left. exists uuid, p, addons, h, port, rest. cbn [t_in t_link].
      rewrite decide_False by done. split_and!; try done. by exists q.
Qed.

Lemma connects_writes l : Forall Socks.is_write l -> connects l = [].
Proof. induction 1 as [|e l He _ IH]; [done|]. simpl. destruct e; try done. Qed.

Lemma socks_gated cfg evs k :
  inputs_ok evs (Streams [] false) -> k ∈ tasks (socks_run bind cfg evs) -> gated false (socks_grants cfg) k.
Proof.
  intros [Ha _] Hk. apply after_setup_tasks in Hk as (u & _ & Hk). apply accept_loop_tasks in Hk as (s & l & Hin & ->).
  destruct (run_task_eq (fun l => Socks.handle (l_env l) (socks_users cfg)) s l) as (o & s' & E & ->).
  destruct (Socks.socks_handle_gate _ _ s o s' (proj1 (Ha _ _ Hin)) E) as (_ & t & T & Hr).
  exists t. cbn [t_end t_in t_link]. split; [done|].
  destruct Hr as [Hw|(methods & sub & rsv & h & port & rest & l1 & l2 & Hauth & Hh & Hp & Hc & Hl)].
  - left. split; [by apply connects_writes|done].
  - right. destruct Hl as (-> & Hl1 & Hl2). exists (target_text h port). split; [|by exists methods, sub, rsv, h, port, rest].
    rewrite !connects_app, (connects_writes l1 Hl1).
    destruct Hl2 as [Hl2|(up & down & _ & ->)]; [by rewrite (connects_writes l2 Hl2)|done].
Qed.

Lemma anytls_gated gen_range sha256 md5 cfg evs k :
  inputs_ok evs (Streams [] false) -> k ∈ tasks (anytls_run bind gen_range sha256 md5 cfg evs) ->
  gated_streams (anytls_knows sha256 cfg) (anytls_grants sha256 cfg) k.
Proof.
  intros [Ha _] Hk. apply after_setup_tasks in Hk as ([[hash t] padding] & Hs & Hk).
  assert (hash = sha256 (anytls_password cfg)) as ->.
  { apply bind_Done_iff in Hs as (tc & _ & (p & _ & (p' & _ & (u & _ & [= <- _ _])%bind_Done_iff)%bind_Done_iff)%bind_Done_iff). done. }
  apply accept_loop_tasks in Hk as (s & l & Hin & ->).
  destruct (run_task_eq (anytls_handle_conn padding (sha256 (anytls_password cfg))) s l) as (o & s' & E & ->).
  unfold gated_streams. cbn [t_end t_in t_link].
  destruct (layered tls_accept _ s o s' (fun p => tls_open (c_in s) = Some p)
    (fun o1 s1 => tls_accept_spec s o1 s1 (proj1 (Ha _ _ Hin))) E) as [[T _]|(s1 & T & C & Hb1 & E1)].
  { exists []. rewrite app_nil_r. split_and!; [done|done|by intros t' ?%elem_of_nil]. }
  destruct (session_conn_gate _ _ _ _ s1 o s' Hb1 E1) as (_ & tr & Htr & Hg). exists tr. rewrite <- T. split; [done|].
  destruct Hg as [->|(pad & fs & rest & Hc & _ & Hg)]; [by split; [|intros t' ?%elem_of_nil]|]. split.
  - intros _. by exists (c_in s1), pad, (AnyTlsConn.wire fs ++ rest).
  - intros t' (pre & sid & d & post & host & port & data & -> & ? & ? & ? & ?)%Hg.
    by exists (c_in s1), pad, pre, sid, d, post, rest, host, port, data.
Qed.

End gates.
