(* ===== verification/XhttpStreams.v ===== *)
(** * XHTTP: the streams a server's tasks run on
    ([accept] and [XhttpStream] of [src/src/common/transport/xhttp.rs], as [run] of the servers over TCP uses them)

    A run of the XHTTP server ([XhttpServer.steps]) brings forth the logical streams on
    which the servers start their tasks: [logical_streams].  Each of them delivers what
    requests the router let in have put on its pipe ([brought]). *)
From S2P Require Import Prelude RustStd Net Target Aead Shadowsocks Vmess Reality Listeners Servers Xhttp XhttpServer.

(** ** What a stream delivers *)

(** A reader stops at the first read of no bytes, which is the end of the stream. *)
Fixpoint before_end (rs : list poll) : list poll :=
  match rs with
  | [] => []
  | Ready [] :: _ => []
  | r :: rs => r :: before_end rs
  end.

Lemma before_end_prefix rs : before_end rs `prefix_of` rs.
Proof.
  induction rs as [|[|[|b bs]] rs IH]; simpl; [done|by apply prefix_cons| |by apply prefix_cons].
  apply prefix_nil.
Qed.

Lemma got_prefix rs rs' : rs `prefix_of` rs' -> got rs `prefix_of` got rs'.
Proof. intros [k ->]. exists (got k). unfold got. by rewrite bind_app. Qed.

(** The data of a packet, and of what arrives for a request's body, are bytes. *)
Definition packet_ok (u : UploadPacket) : Prop := match u with Chunk d | Packet _ d => bytes_ok d | Eof => True end.
Definition label_ok (l : xlabel) : Prop := match l with XFrame _ (FData d) => bytes_ok d | _ => True end.

#[export] Instance label_ok_dec l : Decision (label_ok l).
Proof. destruct l as [| | | |r []| | | | | | | | |]; simpl; apply _. Defined.

Section stream.
Context {H : Type} `{MinHeapLaws H}.

Definition stream_bytes (t : XhttpStream H) : Prop :=
  Forall (fun e => bytes_ok (data e)) (h_entries (heap t)) /\ bytes_ok (leftover t) /\ bytes_ok (stream_buf t).
Definition poll_ok (r : poll) : Prop := match r with Ready bs => bytes_ok bs | Pending => True end.

Lemma bytes_split n (d : list Z) : bytes_ok d -> bytes_ok (take n d) /\ bytes_ok (drop n d).
Proof. intros Hd. split; [by apply Forall_take|by apply Forall_drop]. Qed.

Lemma poll_buffered_bytes n t r t' :
  poll_buffered n t = Some (r, t') -> stream_bytes t -> poll_ok r /\ stream_bytes t' /\ up_rx t' = up_rx t.
Proof.
  destruct t as [rx cl h ns lo sb ef]. intros E (Hh & Hl & Hs). simpl in *.
  destruct (bytes_split n lo Hl) as [Hl1 Hl2], (bytes_split n sb Hs) as [Hs1 Hs2].
  case_decide; [by simplify_eq/=|]. case_decide; [by simplify_eq/=|].
  destruct (h_pop h) as [[e h']|] eqn:Ep; simpl in E; [|done]. case_decide; [|done]. simplify_eq/=.
  apply pop_some in Ep as [Hp _]. rewrite Hp in Hh. apply Forall_cons in Hh as [He Hh].
  destruct (bytes_split n (data e) He). by split_and!.
Qed.

Lemma poll_read_loop_bytes rx n t r t' :
  poll_read_loop rx n t = (r, t') -> up_rx t = rx -> Forall packet_ok rx -> stream_bytes t ->
  poll_ok r /\ stream_bytes t' /\ Forall packet_ok (up_rx t').
Proof.
  revert t. induction rx as [|u rx IH]; intros t; destruct (poll_buffered n t) as [[r1 t1]|] eqn:Eb; simpl; rewrite Eb.
  - intros [= <- <-] Er Hrx Ht. destruct (poll_buffered_bytes _ _ _ _ Eb Ht) as (? & ? & E). by rewrite E, Er.
  - destruct t as [rx0 cl h ns lo sb ef]. intros E Er _ Ht. simpl in Er. subst rx0.
    destruct ef, cl; simplify_eq/=; by split_and!.
  - intros [= <- <-] Er Hrx Ht. destruct (poll_buffered_bytes _ _ _ _ Eb Ht) as (? & ? & E). by rewrite E, Er.
  - destruct t as [rx0 cl h ns lo sb ef]. intros E Er [Hu Hrx]%Forall_cons Ht. simpl in Er. subst rx0.
    pose proof Ht as (Hh & Hl & Hs). simpl in Hh, Hl, Hs. destruct ef; [simplify_eq/=; split_and!; [done..|by constructor]|].
    destruct u as [d|s d|]; [|eapply (IH _ E); [done|done|]|].
    + destruct (bytes_split n d Hu). by simplify_eq/=.
    + split_and!; [|done|done]. simpl. rewrite entries_push. by constructor.
    + by simplify_eq/=.
Qed.

Lemma xrun_bytes es t rs t' :
  xrun t es = (rs, t') -> Forall packet_ok (arrivals es) -> Forall packet_ok (up_rx t) -> stream_bytes t -> bytes_ok (got rs).
Proof.
  revert t rs t'. induction es as [|[u|cl n] es IH]; intros t rs t'; cbn [xrun].
  - by intros [= <- <-].
  - intros E [Hu Ha]%Forall_cons Hrx Ht. eapply (IH _ _ _ E Ha); [|done]. simpl. apply Forall_app. split; [done|by constructor].
  - destruct (poll_read n (set_closed cl t)) as [r t1] eqn:Er, (xrun t1 es) as [rs1 t2] eqn:Ex. intros [= <- <-] Ha Hrx Ht.
    destruct (poll_read_loop_bytes _ n (set_closed cl t) r t1 Er eq_refl Hrx Ht) as (Hr & Ht1 & Hrx1).
    unfold got. simpl. apply Forall_app. split; [by destruct r|]. by eapply IH.
Qed.

Lemma stream_new_bytes : stream_bytes XhttpStream_new.
Proof. split_and!; [|done|done]. simpl. by rewrite entries_empty. Qed.
End stream.

(** ** The streams that are handed out *)

Section streams.
Context {H : Type} `{MinHeap H} (cfg : XhttpConfig).

(** The pipes that [accept] hands out during a run, in order. *)
Fixpoint accepted_pipes (st : server H) (ls : list xlabel) : list nat :=
  match ls with
  | [] => []
  | l :: ls =>
      match xstep cfg st l with
      | Some st' =>
          match l, x_ready st with
          | XAccept, n :: _ => n :: accepted_pipes st' ls
          | _, _ => accepted_pipes st' ls
          end
      | None => []
      end
  end.

(** What the stream of pipe [n] has delivered. *)
Definition delivered (st : server H) (n : nat) : list Z :=
  match x_pipes st !! n with Some p => got (before_end (p_reads p)) | None => [] end.

(** The streams of a run; the server itself keeps a sender of the queue, so that [accept]
    does not report an end. *)
Definition logical_streams (ls : list xlabel) (links : nat -> link) : Datatypes.option streams :=
  st ← steps cfg server_new ls;
  Some (Streams ((fun n => (Conn (delivered st n) [], links n)) <$> accepted_pipes server_new ls) false).

(** Where a stream comes from: there is a pipe whose packets are what the stream was given
    to read, in the order in which they came; and these are, of requests that
    the router let in, what they may give to this pipe, or a timer's end. *)
Definition brought (ls : list xlabel) (s : conn) : Prop :=
  exists (st : server H) n p,
    steps cfg server_new ls = Some st /\ x_pipes st !! n = Some p /\
    c_in s = got (before_end (p_reads p)) /\
    (exists es, Forall read_some es /\ xrun XhttpStream_new es = (p_reads p, p_stream p) /\ arrivals es = (p_given p).*2) /\
    (forall r, sent_by st r n <> [] -> rightful (view_of cfg ls st r) n) /\
    (forall u, (ByTimer, u) ∈ p_given p -> u = Eof).

(** ** Every stream once *)

Definition handed_out (s : stage) : Prop := s = WithProtocol \/ s = Dropped.
Definition out (st : server H) (n : nat) : Prop := exists s, stage_of st n = Some s /\ handed_out s.

Lemma out_pipe st k p p' n :
  x_pipes st !! k = Some p -> (handed_out (p_stage p) -> handed_out (p_stage p')) -> out st n -> out (set_pipe k p' st) n.
Proof.
  intros Ep Hs (s & Es & Ho). unfold out, stage_of in *. simpl. destruct (decide (n = k)) as [->|Hk].
  - rewrite lookup_insert_eq. rewrite Ep in Es. injection Es as <-. eexists. split; [done|]. by apply Hs.
  - rewrite lookup_insert_ne by done. by exists s.
Qed.

Lemma out_add st q n : x_pipes st !! x_next st = None -> out st n -> out (add_pipe q st) n.
Proof.
  intros Hn (s & Es & Ho). exists s. split; [|done]. unfold stage_of in *. simpl.
  destruct (decide (n = x_next st)) as [->|Hk]; [by rewrite Hn in Es|by rewrite lookup_insert_ne by done].
Qed.

Lemma out_send who k u st b st1 n : send_up who k u st = Some (b, st1) -> out st n -> out st1 n.
Proof. intros (p & Ep & ->)%send_up_ok Ho. destruct b; [|done]. by eapply out_pipe. Qed.

Lemma out_timer k st st' n : on_timer k st = Some st' -> out st n -> out st' n.
Proof.
  unfold on_timer. intros E Ho. destruct (x_timers st !! k) as [[| | |m]|], (x_pipes st !! k) as [q|]; try done;
    try (destruct (p_name q); simpl in E; [|done]); try (destruct (map_locked st); [done|]);
    try (destruct (x_names st !! _)); try (by injection E as <-);
    (destruct (send_up ByTimer m Eof st) as [[b st1]|] eqn:Es; simpl in E; [|done]); injection E as <-;
    exact (out_send _ _ _ _ _ _ n Es Ho).
Qed.

Lemma out_step ls st l st' n : server_ok cfg ls st -> xstep cfg st l = Some st' -> out st n -> out st' n.
Proof.
  intros (_ & Hp & _) E Ho. pose proof (next_fresh st Hp) as Hf.
  destruct l as [r req|r|r|r|r f|r|r|r|r|k| |k j|k buf|k]; simpl in E.
  - unfold on_request in E. destruct (x_handlers st !! r); [done|]. injection E as <-.
    destruct (handle_request cfg req) as [| |[|]|[|] ?]; try exact Ho. by apply (out_add st).
  - unfold on_enter in E. destruct (x_handlers st !! r) as [[]|]; try done. destruct (map_locked st); [done|].
    unfold get_or_create_session in E. destruct (x_names st !! sid); injection E as <-; [exact Ho|]. by apply (out_add st).
  - unfold on_session in E. destruct (x_handlers st !! r) as [[|k kd| | | | |]|]; try done.
    destruct (x_pipes st !! k) as [q|] eqn:Eq; simpl in E; [|done]. destruct (session_locked st k); [done|]. injection E as <-.
    unfold session_get, session_post. destruct kd as [|[s|]]; [case_decide as Hs; [|exact Ho]|by destruct (parse_uint _ s)|exact Ho].
    apply (out_pipe st k q); [done| |exact Ho]. rewrite Hs. by intros [?|?].
  - unfold on_offer in E. destruct (x_handlers st !! r) as [[]|]; try done. case_decide; [|done]. by injection E as <-.
  - unfold on_body_frame in E. destruct (x_handlers st !! r) as [[]|], (x_pumps st !! r) as [[]|]; try done; by injection E as <-.
  - unfold on_send in E. destruct (x_handlers st !! r) as [[]|]; try done.
    destruct (send_up _ _ _ st) as [[b st1]|] eqn:Es; simpl in E; [|done]. injection E as <-. exact (out_send _ _ _ _ _ _ n Es Ho).
  - unfold on_pump in E. destruct (x_pumps st !! r) as [[]|]; try done;
      (destruct (send_up _ _ _ st) as [[b st1]|] eqn:Es; simpl in E; [|done]); injection E as <-; exact (out_send _ _ _ _ _ _ n Es Ho).
  - unfold on_abort in E. destruct (x_handlers st !! r) as [[| |k| | | |]|]; try done; try (by injection E as <-).
    destruct (x_pipes st !! k) as [q|] eqn:Eq; simpl in E; [|done]. injection E as <-.
    apply (out_pipe st k q); [done| |exact Ho]. by right.
  - unfold on_body in E. destruct (x_handlers st !! r) as [[| | | | |resp|]|]; try done. destruct (resp_body resp) as [|k]; [by injection E as <-|].
    destruct (x_pipes st !! k) as [q|] eqn:Eq; simpl in E; [|done]. destruct (p_down q); [destruct (negb _); [by injection E as <-|done]|].
    injection E as <-. by apply (out_pipe st k q).
  - by eapply out_timer.
  - unfold accept in E. destruct (x_ready st) as [|k rest]; [done|]. destruct (x_pipes st !! k) as [q|] eqn:Eq; simpl in E; [|done].
    injection E as <-. apply (out_pipe (set_ready rest st) k q); [done| |exact Ho]. by left.
  - unfold on_read in E. destruct (x_pipes st !! k) as [q|] eqn:Eq; simpl in E; [|done]. case_decide; [|done].
    destruct (poll_read j _). injection E as <-. by apply (out_pipe st k q).
  - unfold on_write, poll_write in E. destruct (x_pipes st !! k) as [q|] eqn:Eq; simpl in E; [|done]. case_decide; [|done].
    destruct (down_receiver st k); [|by injection E as <-]. case_decide; [|done]. injection E as <-. by apply (out_pipe st k q).
  - unfold on_drop in E. destruct (x_pipes st !! k) as [q|] eqn:Eq; simpl in E; [|done]. case_decide; [|done]. injection E as <-.
    apply (out_pipe st k q); [done| |exact Ho]. by right.
Qed.

(** [accept] hands out a stream that it had not handed out. *)
Lemma accept_out ls st st' n rest :
  server_ok cfg ls st -> xstep cfg st XAccept = Some st' -> x_ready st = n :: rest -> ~ out st n /\ out st' n.
Proof.
  intros (_ & _ & (_ & _ & Hready & _)) E Er. simpl in E. unfold accept in E. rewrite Er in E.
  destruct (Hready n) as [Hs _]; [rewrite Er; by left|]. split.
  - intros (s & Es & Ho). rewrite Hs in Es. injection Es as <-. by destruct Ho.
  - destruct (x_pipes st !! n) as [p|] eqn:Ep; simpl in E; [|done]. injection E as <-.
    exists WithProtocol. split; [|by left]. unfold stage_of. simpl. by rewrite lookup_insert_eq.
Qed.

Lemma accepted_pipes_out ls0 st ls st' :
  server_ok cfg ls0 st -> steps cfg st ls = Some st' ->
  NoDup (accepted_pipes st ls) /\ (forall n, n ∈ accepted_pipes st ls -> ~ out st n /\ out st' n) /\
  forall n, out st n -> out st' n.
Proof.
  revert ls0 st. induction ls as [|l ls IH]; intros ls0 st Hok; cbn [steps accepted_pipes].
  { intros [= <-]. split_and!; [constructor|by intros n ?%elem_of_nil|done]. }
  destruct (xstep cfg st l) as [st1|] eqn:E; [|done]. simpl. intros Hs.
  destruct (IH _ _ (xstep_ok cfg _ _ _ _ E Hok) Hs) as (Hnd & Hin & Hout).
  assert (Hstep : forall n, out st n -> out st1 n) by (intros n; by eapply out_step).
  assert (Hrest : forall n, n ∈ accepted_pipes st1 ls -> ~ out st n /\ out st' n).
  { intros n Hn. destruct (Hin n Hn) as [Hno ?]. split; [|done]. intros Ho. by apply Hno, Hstep. }
  destruct l; try (by split_and!; eauto). destruct (x_ready st) as [|n rest] eqn:Er; [by split_and!; eauto|].
  destruct (accept_out _ _ _ _ _ Hok E Er) as [Hn Hn1]. split_and!; [|intros m [->|Hm]%elem_of_cons|]; eauto.
  constructor; [|done]. intros Hm. by destruct (Hin n Hm).
Qed.

Lemma accepted_once ls (st : server H) :
  steps cfg server_new ls = Some st ->
  NoDup (accepted_pipes server_new ls) /\ forall n, n ∈ accepted_pipes server_new ls -> is_Some (x_pipes st !! n).
Proof.
  intros Hs. destruct (accepted_pipes_out [] server_new ls st (server_new_ok cfg) Hs) as (Hnd & Hin & _). split; [done|].
  intros n Hn. destruct (Hin n Hn) as [_ (s & Es & _)]. unfold stage_of in Es. by destruct (x_pipes st !! n).
Qed.

(** There is a stream for every pipe handed out, each pipe once. *)
Definition one_each (ls : list xlabel) (xs : streams) : Prop :=
  NoDup (accepted_pipes server_new ls) /\ length (logical xs) = length (accepted_pipes server_new ls).

Lemma logical_each ls links xs : logical_streams ls links = Some xs -> closed xs = false /\ one_each ls xs.
Proof.
  unfold logical_streams. destruct (steps cfg server_new ls) as [st|] eqn:Hs; [|done]. simpl. intros [= <-]. split; [done|].
  split; [by apply (accepted_once ls st)|]. cbn [logical]. by rewrite length_fmap.
Qed.

(** Every stream has been brought. *)
Lemma logical_brought ls links xs s l :
  logical_streams ls links = Some xs -> (s, l) ∈ logical xs -> brought ls s /\ exists n, l = links n.
Proof.
  unfold logical_streams. destruct (steps cfg server_new ls) as [st|] eqn:Hs; [|done]. simpl. intros [= <-].
  intros (n & E & Hn)%list_elem_of_fmap. injection E as -> ->. split; [|by exists n].
  destruct (accepted_once ls st Hs) as [_ Hin]. destruct (Hin n Hn) as [p Ep].
  pose proof (reachable_ok cfg ls st Hs) as (Hr & [Hp _] & _). destruct (Hp n p Ep) as [_ (_ & Ht & Hes)].
  exists st, n, p. split_and!; [done|done| |done| |done].
  - cbn [c_in]. unfold delivered. by rewrite Ep.
  - intros r. apply (Hr r).
Qed.
End streams.

(** ** What a stream delivers is bytes *)

Section bytes.
Context {H : Type} `{MinHeapLaws H} (cfg : XhttpConfig).

Lemma frames_bytes r ls : Forall label_ok ls -> Forall (fun d => bytes_ok d) (frames_of r ls).
Proof.
  rewrite !Forall_forall. intros Hls d (l & Hl & E)%list_elem_of_omap. specialize (Hls l Hl).
  destruct l as [| | | |r' [d'| | |]| | | | | | | | |]; simpl in E; try done. case_decide; [|done]. by injection E as ->.
Qed.

Lemma chunks_ok fs : Forall (fun d => bytes_ok d) fs -> Forall packet_ok (Chunk <$> fs).
Proof. induction 1; by constructor. Qed.

Lemma rightful_ok ls (st : server H) r n :
  Forall label_ok ls -> rightful (view_of cfg ls st r) n -> Forall packet_ok (sent_by st r n).
Proof.
  intros Hls. pose proof (frames_bytes r ls Hls) as Hf. pose proof (chunks_ok _ Hf) as Hc.
  unfold rightful. cbn [v_sent v_frames view_of]. intros [(_ & _ & [k E])|(sid & _ & [(_ & [k E])|(q & s & _ & _ & ->)])].
  - assert (Ha : Forall packet_ok ((Chunk <$> frames_of r ls) ++ [Eof])) by (apply Forall_app; split; [done|by constructor]).
    rewrite E in Ha. by apply Forall_app in Ha as [Ha _].
  - rewrite E in Hc. by apply Forall_app in Hc as [Hc _].
  - constructor; [|done]. simpl. by apply Forall_concat.
Qed.

Lemma given_ok ls (st : server H) n p :
  Forall label_ok ls -> server_ok cfg ls st -> x_pipes st !! n = Some p -> Forall packet_ok (p_given p).*2.
Proof.
  intros Hls (Hr & [Hp _] & _) Ep. destruct (Hp n p Ep) as [_ (_ & Ht & _)].
  apply Forall_forall. intros u ([[r|] u'] & -> & Hu)%list_elem_of_fmap; cbn [snd]; [|by rewrite (Ht _ Hu)].
  assert (Hs : u' ∈ sent_by st r n).
  { unfold sent_by. rewrite Ep. apply list_elem_of_fmap. exists (ByRequest r, u'). split; [done|]. by apply list_elem_of_filter. }
  destruct (Hr r) as (_ & _ & Hright). assert (Hne : sent_by st r n <> []) by (intros E; rewrite E in Hs; by apply elem_of_nil in Hs).
  pose proof (rightful_ok ls st r n Hls (Hright n Hne)) as Hall. rewrite Forall_forall in Hall. by apply Hall.
Qed.

Lemma stream_delivers_bytes ls (st : server H) n :
  Forall label_ok ls -> steps cfg server_new ls = Some st -> bytes_ok (delivered st n).
Proof.
  intros Hls Hs. pose proof (reachable_ok cfg ls st Hs) as Hok. unfold delivered.
  destruct (x_pipes st !! n) as [p|] eqn:Ep; [|done]. pose proof (given_ok ls st n p Hls Hok Ep) as Hg.
  destruct Hok as (_ & [Hp _] & _). destruct (Hp n p Ep) as [_ (_ & _ & es & _ & Hx & Ha)]. rewrite <- Ha in Hg.
  pose proof (xrun_bytes es _ _ _ Hx Hg (List.Forall_nil _) stream_new_bytes) as Hb.
  destruct (got_prefix _ _ (before_end_prefix (p_reads p))) as [k E]. rewrite E in Hb. by apply Forall_app in Hb as [Hb _].
Qed.

(** The streams are inputs the servers' theorems apply to. *)
Lemma logical_inputs ls links xs :
  Forall label_ok ls -> (forall n, 0 <= Vmess.w_now (l_vmess (links n)) < 2 ^ 62) ->
  logical_streams (H := H) cfg ls links = Some xs -> forall s l, (s, l) ∈ logical xs -> input_ok s l.
Proof.
  intros Hls Hl. unfold logical_streams. destruct (steps cfg server_new ls) as [st|] eqn:Hs; [|done]. simpl. intros [= <-] s l.
  intros (n & E & _)%list_elem_of_fmap. injection E as -> ->. split; [|apply Hl]. by eapply stream_delivers_bytes.
Qed.
End bytes.

(** The stream of [XhttpServer.demo_labels]. *)
#[local] Existing Instance list_heap.
Example demo_streams links :
  (fun xs => (fun x => c_in x.1) <$> logical xs) <$> logical_streams demo_cfg demo_labels links = Some [[1; 2; 3]].
Proof. vm_compute. reflexivity. Qed.
