(* ===== verification/UdpServers.v ===== *)
(** * The servers over UDP: set-up and accept loops of Hysteria 2 and TUIC
    ([run] of [src/src/hysteria2/server.rs] and [src/src/tuic/server.rs]), and the whole
    server of WireGuard ([run] of [src/src/wireguard/server.rs] with the stacks it
    starts, those included that a failed set-up leaves behind).

    quinn's endpoint is the sequence of connections it delivers; what arrives on a
    connection and how its tasks interleave is the connection's schedule, a list of
    labels of its step relation ([HysteriaConn.hstep], [Tuic.tstep]).  A schedule that
    cannot happen makes the whole run [None]. *)
From S2P Require Import Prelude RustStd Net Target Hysteria HysteriaServer HysteriaConn Tuic TuicConn.
From S2P Require Import NetAddr TlsSetup WgIface WgStack WgServer Config Servers.

(** ** The accept loops *)

Inductive incoming (L : Type) := Incoming (x : L) | HandshakeError | EndpointClosed.
Arguments Incoming {L}.
Arguments HandshakeError {L}.
Arguments EndpointClosed {L}.

(** The tasks, each with the schedule of its connection and its state, and the result of
    [run] if it has returned. *)
Record qserved (L S : Type) := QServed { qtasks : list (L * S); qended : option (outcome unit) }.
Arguments QServed {L S}.
Arguments qtasks {L S}.
Arguments qended {L S}.

(** [while let Some(incoming) = endpoint.accept().await]; a connection whose handshake
    fails ends its own task. *)
Fixpoint endpoint_loop {L S} (handle : L -> option S) (evs : list (incoming L)) : option (qserved L S) :=
  match evs with
  | [] => Some (QServed [] None)
  | EndpointClosed :: _ => Some (QServed [] (Some (Done tt)))
  | HandshakeError :: evs => endpoint_loop handle evs
  | Incoming x :: evs =>
      st ← handle x;
      r ← endpoint_loop handle evs;
      Some (QServed ((x, st) :: qtasks r) (qended r))
  end.

(** [run]: its set-up, then the loop. *)
Definition after_qsetup {A L S} (setup : outcome A) (run : option (qserved L S)) : option (qserved L S) :=
  match setup with
  | Done _ => run
  | Fail e => Some (QServed [] (Some (Fail e)))
  | Panic => Some (QServed [] (Some Panic))
  end.

(** ** Set-up *)

Section servers.
Context (bind : NetAddr.SocketAddr -> outcome unit).
Context `{TlsLib}.

(** What is set of quinn's transport; durations in nanoseconds, [None] for what
    keeps quinn's default. *)
Record QuicParams := MkQuic {
  max_bidi_streams : Z;
  max_uni_streams : Datatypes.option Z;
  stream_receive_window : Datatypes.option Z;
  receive_window : Datatypes.option Z;
  idle_timeout : Z;
  keep_alive : Datatypes.option Z;
  brutal_rate : Datatypes.option Z;
}.

Definition STREAM_RECEIVE_WINDOW : Z := 8 * 1024 * 1024.
Definition CONN_RECEIVE_WINDOW : Z := 20 * 1024 * 1024.
Definition MAX_IDLE_TIMEOUT : Z := 30 * 10 ^ 9.
Definition MAX_INCOMING_STREAMS : Z := 1024.

(** Hysteria 2: TLS, and Brutal if a rate is configured. *)
Definition hysteria2_setup (cfg : Hysteria2Config) : outcome (ServerConfig * QuicParams) :=
  tls_config ← build_hy2_tls (hy2_tls cfg);
  let brutal_bps := up_bps (bandwidth cfg) in
  let transport := MkQuic MAX_INCOMING_STREAMS None (Some STREAM_RECEIVE_WINDOW) (Some CONN_RECEIVE_WINDOW)
    MAX_IDLE_TIMEOUT (Some (10 * 10 ^ 9)) brutal_bps in
  _ ← listen_on bind (hy2_listen cfg);
  Done (tls_config, transport).

(** TUIC; [idle_timeout_ok]: whether quinn takes the duration. *)
Definition tuic_setup (idle_timeout_ok : Z -> bool) (cfg : TuicConfig) : outcome (ServerConfig * QuicParams) :=
  crypto ← tuic_tls (tuic_tls_config cfg);
  if idle_timeout_ok (max_idle_time cfg) then
    let transport := MkQuic 512 (Some 512) None None (max_idle_time cfg) None None in
    _ ← listen_on bind (tuic_listen cfg);
    Done (crypto, transport)
  else Fail (EBail "invalid max_idle_time").

(** *** WireGuard *)

(** smoltcp's [IpCidr]; its constructor is an argument. *)
Context {Cidr : Type} (cidr_new : IpAddr -> Z -> outcome Cidr).

Definition parse_ip_cidr (s : list Z) : outcome Cidr :=
  match rsplit_once 47 s with
  | None => Fail (EBail "invalid CIDR")
  | Some (ip_str, plen) =>
      plen ← ok_or EParse (parse_uint 255 plen);
      ip ← parse_ip ip_str;
      cidr_new ip plen
  end.

(** [filter_map(|s| parse_ip_cidr(s).ok())]: what does not parse is left out. *)
Fixpoint server_cidrs (ss : list (list Z)) : outcome (list Cidr) :=
  match ss with
  | [] => Done []
  | s :: ss =>
      match parse_ip_cidr s with
      | Panic => Panic
      | Fail _ => server_cidrs ss
      | Done c => cs ← server_cidrs ss; Done (c :: cs)
      end
  end.

Context {T : Type} `{Tunn T} {Network : Type} (parse_network : list Z -> Datatypes.option Network)
  (b64_decode : list Z -> Datatypes.option (list Z)).

(** Up to the loop over the peers. *)
Definition wireguard_keys (cfg : WireGuardConfig) : outcome (list Z * list Cidr) :=
  priv_bytes ← decode_key b64_decode (wg_private_key cfg);
  private_key ← try_32 priv_bytes;
  cidrs ← server_cidrs (server_address cfg);
  Done (private_key, cidrs).

(** The stacks that are started (the key of their peer, and the addresses of the interface),
    and what the set-up comes to: an error after the loop over the peers has begun does not
    undo the stacks it has started. *)
Definition wireguard_setup (now : Z) (cfg : WireGuardConfig) :
    list (list Z * list Cidr) * outcome (list Cidr * gmap (list Z) (Peer (T := T) (Network := Network))) :=
  match wireguard_keys cfg with
  | Done (private_key, cidrs) =>
      let '(spawned, o) := build_peers parse_network b64_decode private_key now 0 (wg_peers cfg) ∅ in
      ((fun pub_hex => (pub_hex, cidrs)) <$> spawned,
       peer_map ← o;
       _ ← listen_on bind (wg_listen cfg);
       Done (cidrs, peer_map))
  | Fail e => ([], Fail e)
  | Panic => ([], Panic)
  end.

(** The stacks whose sender is replaced by that of a later peer with the same key. *)
Fixpoint replaced {A} (spawned : list (list Z * A)) : list (list Z * A) :=
  match spawned with
  | [] => []
  | (pub_hex, x) :: spawned =>
      if decide (pub_hex ∈ spawned.*1) then (pub_hex, x) :: replaced spawned else replaced spawned
  end.

(** *** The servers over QUIC *)

Definition hysteria2_run (cfg : Hysteria2Config) (evs : list (incoming (list hlabel))) : option (qserved (list hlabel) hconn) :=
  after_qsetup (hysteria2_setup cfg) (endpoint_loop (hrun (hy2_auth cfg) (down_bps (bandwidth cfg)) hconn0) evs).

(** What surrounds a TUIC connection: its TLS exporter and the network. *)
Record tuic_link := TuicLink {
  tl_exporter : list Z -> list Z -> option (list Z);
  tl_lookup_host : list tevent -> list Z -> Z -> option (list Tuic.SocketAddr);
  tl_connect_ok : list tevent -> Tuic.SocketAddr -> bool;
  tl_bind_ok : list tevent -> bool;
  tl_send_ok : list tevent -> Tuic.SocketAddr -> bool;
}.

(** [Connection::new]: the users and options of the configuration. *)
Definition tuic_env (cfg : TuicConfig) (l : tuic_link) : tenv :=
  TEnv (tuic_users cfg) (tl_exporter l) (Config.udp_relay_ipv6 cfg)
    (tl_lookup_host l) (tl_connect_ok l) (tl_bind_ok l) (tl_send_ok l).

Definition tuic_schedule : Type := tuic_link * list Tuic.label.
Definition tuic_run (idle_timeout_ok : Z -> bool) (cfg : TuicConfig) (evs : list (incoming tuic_schedule))
    : option (qserved tuic_schedule tstate) :=
  after_qsetup (tuic_setup idle_timeout_ok cfg) (endpoint_loop (fun x => trun (tuic_env cfg x.1) tstate0 x.2) evs).
End servers.

(** ** The WireGuard server *)

(** The packets among the messages of a stack. *)
Definition inbound (ms : list (Z * Msg)) : list (list Z) :=
  omap (fun m => match m.2 with Inbound pkt => Some pkt | _ => None end) ms.
Section wireguard.
Context (bind : NetAddr.SocketAddr -> outcome unit).
Context {Cidr : Type} (cidr_new : IpAddr -> Z -> outcome Cidr).
Context {T : Type} `{Tunn T} `{!TunnLaws T} {Network : Type}.
Context (contains : Network -> IpAddr -> bool) (parse_network : list Z -> option Network) (b64_decode : list Z -> option (list Z)).
Context (order : list (list Z * Peer (T := T) (Network := Network)) -> list (list Z * Peer (T := T) (Network := Network))).
(** [VirtualIface::new] hands the addresses to smoltcp. *)
Context {N : Type} `{Smoltcp N} (flow_order : forall V : Type, list (FlowKey * V) -> list (FlowKey * V)) (new_net : list Cidr -> N).

(** The schedule of the server's tasks, the messages its stacks take (packets and
    those of their relays and timers), whether the socket fails in the end, and the times at
    which the stacks without a sender take their ticks. *)
Record wg_inputs := WgInputs {
  wi_now : Z;
  wi_labels : list WgServer.label;
  wi_stacks : gmap (list Z) (list (Z * Msg));
  wi_recv_error : bool;
  wi_orphans : list (list Z);
}.

(** What a stack does. *)
Definition stack_run (cidrs : list Cidr) (ms : list (Z * Msg)) : outcome unit * actor N :=
  run_actor flow_order ms (actor_new (new_net cidrs)).

(** A stack no packet reaches, because nobody has its sender any more, runs on: every
    tenth of a second its timer sends it a tick. *)
Definition orphan : Type := (list Z * list Cidr) * (outcome unit * actor N).
Definition orphan_run (x : list Z * list Cidr) (ticks : list Z) : orphan :=
  (x, stack_run x.2 ((fun t => (t, Tick)) <$> ticks)).
Definition orphan_runs (xs : list (list Z * list Cidr)) (ticks : list (list Z)) : option (list orphan) :=
  if decide (length ticks = length xs) then Some (zip_with orphan_run xs ticks) else None.

(** [run] has returned an error of its set-up, or serves; in both cases with the stacks
    without a sender. *)
Inductive wg_served :=
| WgStopped (o : outcome unit) (orphans : list orphan)
| WgServing (s : server (T := T) (Network := Network)) (stacks : gmap (list Z) (outcome unit * actor N))
    (orphans : list orphan) (ended : option (outcome unit)).

(** A stack handles the packets it takes from its channel, in order. *)
Definition fed (s : server (T := T) (Network := Network)) (hex : list Z) (ms : list (Z * Msg)) : Prop :=
  is_Some (peers s !! hex) /\ inbound ms `prefix_of` taken hex (strace s).

(** A channel is closed only by the end of its stack, and a stack ends only by a panic. *)
Definition gone_ok (stacks : gmap (list Z) (outcome unit * actor N)) (s : server (T := T) (Network := Network))
    (hex : list Z) : bool :=
  match chans s !! hex, stacks !! hex with
  | Some _, _ => true
  | None, Some (Panic, _) => true
  | None, _ => false
  end.

Definition receiving (s : server (T := T) (Network := Network)) : bool := match pc s with PRecv => true | _ => false end.

Definition wireguard_run (cfg : WireGuardConfig) (i : wg_inputs) : option wg_served :=
  let '(spawned, o) := wireguard_setup bind cidr_new parse_network b64_decode (wi_now i) cfg in
  match o with
  | Done (server_cidrs, peer_map) =>
      orphans ← orphan_runs (replaced spawned) (wi_orphans i);
      s ← wrun contains order (server0 peer_map) (wi_labels i);
      let stacks := stack_run server_cidrs <$> wi_stacks i in
      if decide (map_Forall (fed s) (wi_stacks i) /\ map_Forall (fun hex _ => gone_ok stacks s hex = true) (peers s) /\
           (wi_recv_error i = true -> receiving s = true)) then
        Some (WgServing s stacks orphans (if wi_recv_error i then Some (Fail EIo) else None))
      else None
  | Fail e => WgStopped (Fail e) <$> orphan_runs spawned (wi_orphans i)
  | Panic => WgStopped Panic <$> orphan_runs spawned (wi_orphans i)
  end.
End wireguard.

(** ** What the servers do *)

(** The schedules before the endpoint closes. *)
Fixpoint before_closed {L} (evs : list (incoming L)) : list L :=
  match evs with
  | [] | EndpointClosed :: _ => []
  | HandshakeError :: evs => before_closed evs
  | Incoming x :: evs => x :: before_closed evs
  end.
Definition closes {L} (evs : list (incoming L)) : bool := existsb (fun e => if e is EndpointClosed then true else false) evs.

Lemma endpoint_loop_spec {L S} (handle : L -> option S) evs q :
  endpoint_loop handle evs = Some q ->
  (qtasks q).*1 = before_closed evs /\ qended q = (if closes evs then Some (Done tt) else None) /\
  Forall (fun t => handle t.1 = Some t.2) (qtasks q).
Proof.
  revert q. induction evs as [|[x| |] evs IH]; intros q; cbn [endpoint_loop before_closed closes existsb].
  - by intros [= <-].
  - destruct (handle x) as [st|] eqn:Eh; [|done]. destruct (endpoint_loop handle evs) as [r|]; [|done].
    cbn [mbind option_bind]. intros [= <-]. destruct (IH r eq_refl) as (E1 & E2 & E3). cbn [qtasks qended].
    split_and!; [by rewrite fmap_cons, E1|done|by constructor].
  - apply IH.
  - by intros [= <-].
Qed.

Lemma after_qsetup_tasks {A L S} (setup : outcome A) (handle : L -> option S) evs q :
  after_qsetup setup (endpoint_loop handle evs) = Some q ->
  Forall (fun t => handle t.1 = Some t.2 /\ t.1 ∈ before_closed evs) (qtasks q).
Proof.
  unfold after_qsetup. destruct setup; [|by intros [= <-]..]. intros (E1 & _ & Hf)%endpoint_loop_spec.
  rewrite <- E1. apply Forall_forall. intros t Ht. rewrite Forall_forall in Hf. split; [by apply Hf|]. by apply list_elem_of_fmap_2.
Qed.

(** A task for every connection until the endpoint closes; or nothing, and an error. *)
Definition quic_serves_or_reports {L S} (ready : Prop) (evs : list (incoming L)) (q : qserved L S) : Prop :=
  (ready -> (qtasks q).*1 = before_closed evs /\ qended q = if closes evs then Some (Done tt) else None) /\
  (~ ready -> qtasks q = [] /\ exists o, qended q = Some o /\ o <> Done tt).

Lemma after_qsetup_outcome {A L S} (setup : outcome A) (handle : L -> option S) evs q ready :
  (ready <-> exists a, setup = Done a) -> after_qsetup setup (endpoint_loop handle evs) = Some q -> quic_serves_or_reports ready evs q.
Proof.
  intros Hr Hq. split; intros Hready.
  - apply Hr in Hready as [a ->]. apply endpoint_loop_spec in Hq as (? & ? & _). done.
  - unfold after_qsetup in Hq. destruct setup as [a| |]; [destruct Hready; apply Hr; by exists a|injection Hq as <-; split; [done|]; by eexists..].
Qed.

(** A Hysteria 2 connection of a server with the configuration [cfg]. *)
Definition hysteria_confines (cfg : Hysteria2Config) (t : list hlabel * hconn) : Prop :=
  after_auth (hy2_auth cfg) t.1 (hc_trace t.2) /\ Forall (asked_for t.1) (hc_trace t.2).

Definition tuic_confines (cfg : TuicConfig) (t : tuic_schedule * tstate) : Prop :=
  let '((l, ls), st) := t in
  (t_trace st <> [] -> exists u password token rest, t_auth st = Some u /\
     tuic_users cfg !! u = Some password /\ tl_exporter l u password = Some token /\
     LUni ([VERSION; CMD_AUTHENTICATE] ++ (u ++ token) ++ rest) ∈ ls) /\
  Forall (event_ok (tuic_env cfg l) ls (assoc_of st)) (t_trace st).

Lemma hysteria2_gated `{TlsLib} bind cfg evs q : hysteria2_run bind cfg evs = Some q -> Forall (hysteria_confines cfg) (qtasks q).
Proof.
  intros Hq%after_qsetup_tasks. eapply Forall_impl; [exact Hq|]. intros [ls st] [Hr _].
  split; [by eapply hrun_after_auth|by eapply hrun_asked].
Qed.

Lemma tuic_gated `{TlsLib} bind idle_ok cfg evs q :
  (forall l ls, Incoming (l, ls) ∈ evs -> Forall Tuic.label_ok ls) ->
  tuic_run bind idle_ok cfg evs = Some q -> Forall (tuic_confines cfg) (qtasks q).
Proof.
  intros Hok Hq%after_qsetup_tasks. eapply Forall_impl; [exact Hq|]. intros [[l ls] st] [Hr Hin]. cbn [fst snd] in Hr, Hin.
  assert (Hls : Forall Tuic.label_ok ls).
  { clear -Hok Hin. apply (Hok l). induction evs as [|[x| |] evs IH]; cbn [before_closed] in Hin; try (by apply elem_of_nil in Hin).
    - apply elem_of_cons in Hin as [<-|Hin]; [by left|]. right. apply IH; [|done]. intros l' ls' Hi. apply (Hok l'). by right.
    - right. apply IH; [|done]. intros l' ls' Hi. apply (Hok l'). by right. }
  split; [by apply (trun_authenticated (tuic_env cfg l))|]. by destruct (confined_reachable _ ls st Hls Hr).
Qed.

Section confinement.
Context {Cidr : Type} (cidr_new : IpAddr -> Z -> outcome Cidr).
Context {T : Type} `{Tunn T} `{!TunnLaws T} {Network : Type}.
Context (contains : Network -> IpAddr -> bool) (parse_network : list Z -> option Network) (b64_decode : list Z -> option (list Z)).
Context (order : list (list Z * Peer (T := T) (Network := Network)) -> list (list Z * Peer (T := T) (Network := Network))).
Context {N : Type} `{Smoltcp N} `{!SmoltcpLaws N} (flow_order : forall V : Type, list (FlowKey * V) -> list (FlowKey * V)) (new_net : list Cidr -> N).
Context (order_perm : forall l, order l ≡ₚ l) (flow_order_perm : forall V l, flow_order V l ≡ₚ l).

(** The flows a peer of the configuration may have: their source is in its AllowedIPs. *)
Definition peer_flow (cfg : WireGuardConfig) (hex : list Z) (k : FlowKey) : Prop :=
  exists nets, configured parse_network b64_decode (wg_peers cfg) hex nets /\ allows contains nets (ip (WgStack.src k)) = true.

(** A stack no packet reaches: it makes no connection and sends no datagram, and goes on
    without end. *)
Definition idle (x : orphan (Cidr := Cidr) (N := N)) : Prop := x.2.1 = Done tt /\ Forall encrypts (trace x.2.2).

Definition wireguard_confines (cfg : WireGuardConfig) (r : wg_served (Cidr := Cidr) (T := T) (Network := Network) (N := N)) : Prop :=
  match r with
  | WgStopped _ orphans => Forall idle orphans
  | WgServing s stacks orphans _ =>
      history_ok (legitimate contains parse_network b64_decode (wg_peers cfg)) (strace s) /\
      map_Forall (fun hex r => trace_ok (peer_flow cfg hex) (trace r.2)) stacks /\
      Forall idle orphans
  end.

Lemma delivered_in hex pkt tr : pkt ∈ delivered hex tr -> ADeliver hex pkt ∈ tr.
Proof.
  unfold delivered. rewrite list_elem_of_omap. intros (e & He & Hp). destruct e as [| | |h p|]; try done.
  case_decide; [|done]. injection Hp as ->. by subst.
Qed.

Lemma inbound_in t pkt ms : (t, Inbound pkt) ∈ ms -> pkt ∈ inbound ms.
Proof. intros Hm. unfold inbound. rewrite list_elem_of_omap. by exists (t, Inbound pkt). Qed.

Lemma orphan_idle x ticks : idle (orphan_run flow_order new_net x ticks).
Proof.
  unfold orphan_run, idle, stack_run. cbn [fst snd].
  destruct (quiet_ticks flow_order flow_order_perm ticks (actor_new (new_net x.2))) as (s' & es & -> & _ & Et & He); [done|].
  cbn [fst snd]. by rewrite Et.
Qed.

Lemma orphans_idle xs ticks os : orphan_runs flow_order new_net xs ticks = Some os -> os.*1 = xs /\ Forall idle os.
Proof.
  unfold orphan_runs. case_decide as Hl; [|done]. intros [= <-]. revert ticks Hl.
  induction xs as [|x xs IH]; intros [|t ts]; try done. simpl. intros [= Hl]. destruct (IH ts Hl) as [E Hf].
  split; [by f_equal|]. constructor; [apply orphan_idle|done].
Qed.

(** The stacks of a set-up: those of the peers up to the first that cannot be read. *)
Definition started_stacks (now : Z) (cfg : WireGuardConfig) : list (list Z * list Cidr) :=
  match wireguard_keys cidr_new b64_decode cfg with
  | Done (private_key, cidrs) =>
      (fun hex => (hex, cidrs)) <$> readable (T := T) parse_network b64_decode private_key now 0 (wg_peers cfg)
  | _ => []
  end.

Lemma wireguard_setup_stacks bind now cfg :
  (wireguard_setup (T := T) bind cidr_new parse_network b64_decode now cfg).1 = started_stacks now cfg.
Proof.
  unfold wireguard_setup, started_stacks. destruct (wireguard_keys _ _ cfg) as [[pk cidrs]| |]; [|done..].
  rewrite <- (build_peers_spawned parse_network b64_decode pk now 0 (wg_peers cfg) ∅). by destruct (build_peers _ _ _ _ _ _ _).
Qed.

(** When the set-up succeeds. *)
Lemma wireguard_setup_Done bind now cfg cidrs ps :
  (wireguard_setup (T := T) bind cidr_new parse_network b64_decode now cfg).2 = Done (cidrs, ps) <->
  exists private_key, wireguard_keys cidr_new b64_decode cfg = Done (private_key, cidrs) /\
    (build_peers parse_network b64_decode private_key now 0 (wg_peers cfg) ∅).2 = Done ps /\
    listen_on bind (wg_listen cfg) = Done tt.
Proof.
  unfold wireguard_setup. destruct (wireguard_keys _ _ cfg) as [[pk cs]| |].
  - destruct (build_peers _ _ _ _ _ _ _) as [sp o] eqn:Eb. cbn [snd]. split.
    + intros (m & -> & Hl)%bind_Done_iff. apply bind_Done_iff in Hl as ([] & Hl & [= <- <-]). exists pk. by rewrite Eb.
    + intros (k & [= <- <-] & Hb & Hl). rewrite Eb in Hb. cbn [snd] in Hb. by rewrite Hb, Hl.
  - split; [done|]. by intros (? & ? & _).
  - split; [done|]. by intros (? & ? & _).
Qed.

Lemma wireguard_gated bind cfg i r :
  map_Forall (fun _ ms => forall t pkt, (t, Inbound pkt) ∈ ms -> bytes_ok pkt) (wi_stacks i) ->
  wireguard_run bind cidr_new contains parse_network b64_decode order flow_order new_net cfg i = Some r ->
  wireguard_confines cfg r.
Proof.
  intros Hok. unfold wireguard_run.
  destruct (wireguard_setup _ _ _ _ _ cfg) as [sp [[cidrs ps]| |]] eqn:Es;
    [|by intros (os & [_ Ho]%orphans_idle & ->)%fmap_Some..].
  apply (f_equal snd) in Es. apply wireguard_setup_Done in Es as (pk & _ & Hb & _).
  destruct (orphan_runs _ _ _ _) as [os|] eqn:Eo; [|done]. apply orphans_idle in Eo as [_ Ho]. cbn [mbind option_bind].
  destruct (wrun _ _ _ _) as [s|] eqn:Er; [|done]. cbn [mbind option_bind]. case_decide as Hf; [|done]. intros [= <-].
  destruct Hf as [Hf _]. split_and!; [by eapply server_legitimate| |done].
  intros hex x Hx. rewrite lookup_fmap in Hx. destruct (wi_stacks i !! hex) as [ms|] eqn:Em; [|done].
  injection Hx as <-. unfold stack_run. destruct (run_actor flow_order ms _) as [o st] eqn:Ea.
  eapply (peer_confined contains parse_network b64_decode order flow_order); [exact order_perm|exact flow_order_perm|exact Hb|exact Er| |exact Ea].
  intros t pkt Hm. split; [by eapply (Hok hex ms Em)|]. apply delivered_in. destruct (Hf hex ms Em) as [_ [l E]].
  destruct (taken_delivered contains order _ _ _ hex Er) as [l' ->].
  rewrite E. apply elem_of_app. left. apply elem_of_app. left. by eapply inbound_in.
Qed.
End confinement.
