(* ===== verification/Main.v ===== *)
(** * The program: command line and start of the servers ([src/src/main.rs])

    [main] decides what the process does; for the nodes it starts, [node_run] is
    their server ([Servers], [UdpServers]; with the XHTTP transport its tasks run on the
    streams of [XhttpStreams]). *)
From S2P Require Import Prelude RustStd Net Target HysteriaConn Tuic TuicConn WgIface WgStack.
From S2P Require Import NetAddr TlsSetup Aead AnyTlsPadding AnyTls AnyTlsConn.
From S2P Require Import WgServer UdpServers Socks Vless Shadowsocks Vmess Trojan Reality.
From S2P Require Import Websocket Listeners Config Xhttp XhttpServer Servers XhttpStreams.

(** ** The command line *)

Definition DEFAULT_CONFIG : list Z := str "config.toml".

(** The arguments after the program's name. *)
Fixpoint config_arg (args : list (list Z)) : list Z :=
  match args with
  | a :: ((path :: _) as rest) => if decide (a = str "-c") then path else config_arg rest
  | _ => DEFAULT_CONFIG
  end.
Definition parse_config_arg (args : list (list Z)) : list Z := config_arg (drop 1 args).

Inductive command := WireguardKeypair | RealityKeypair | GenerateUuid | GeneratePassword (length : Z).

Inductive main_result :=
| Generate (c : command)
| Usage                                                    (** exit status 1 *)
| Stopped (o : outcome unit)                               (** [main] returns an error *)
| Running (nodes : list NodeConfig).

Definition generate_command (args : list (list Z)) : main_result :=
  match args !! 2%nat with
  | Some c =>
      if decide (c = str "wireguard-keypair") then Generate WireguardKeypair
      else if decide (c = str "reality-keypair") then Generate RealityKeypair
      else if decide (c = str "uuid") then Generate GenerateUuid
      else if decide (c = str "password") then
        Generate (GeneratePassword (default 16 (args !! 3%nat ≫= parse_uint (2 ^ 64 - 1))))
      else Usage
  | None => Usage
  end.

Section main.
(** The file system, and the TOML parser. *)
Context (read_to_string : list Z -> outcome (list Z)) (toml : list Z -> outcome ConfigFile).

Definition load (path : list Z) : outcome Config :=
  content ← read_to_string path;
  file ← toml content;
  read_config file.

Definition main (args : list (list Z)) : main_result :=
  if decide (args !! 1%nat = Some (str "generate")) then generate_command args
  else
    match load (parse_config_arg args) with
    | Fail e => Stopped (Fail e)
    | Panic => Stopped Panic
    | Done cfg =>
        if is_empty cfg then Stopped (Fail (EBail "no nodes configured"))
        else
          match check_duplicate_tags cfg with
          | Some dup => Stopped (Fail (EBail "duplicate node tag"))
          | None => Running (node cfg)
          end
    end.
End main.

(** ** The nodes' servers *)

Section nodes.
Context (bind : SocketAddr -> outcome unit).
Context `{TlsLib} `{Layers} `{RealityCrypto} `{Vmess.Crypto} `{Aead ShadowsocksCipher}.
Context (sha224 : list Z -> list Z) (derive_key : list Z -> list Z) (base64 : list Z -> Datatypes.option (list Z)).

Context (gen_range : list Z -> Z -> Z -> Z) (sha256 md5 : list Z -> list Z).

(** The server of a node, where its connections are TCP connections. *)
Definition tcp_run (n : NodeInner) (evs : list accepted) (xs : streams) : Datatypes.option served :=
  match n with
  | VlessNode c => Some (vless_run bind c evs xs)
  | VmessNode c => Some (vmess_run bind c evs xs)
  | TrojanNode c => Some (trojan_run bind sha224 c evs xs)
  | ShadowsocksNode c => Some (shadowsocks_run bind derive_key base64 c evs xs)
  | SocksNode c => Some (socks_run bind c evs)
  | AnytlsNode c => Some (anytls_run bind gen_range sha256 md5 c evs)
  | _ => None
  end.

(** The XHTTP server of a node with this transport. *)
Definition xhttp_config (tr : TransportConfig) : Datatypes.option XhttpConfig :=
  if decide (transport_type tr = str "xhttp") then Some {| cfg_path := xhttp_path tr; cfg_host := xhttp_host tr |} else None.
Definition node_xhttp (n : NodeInner) : Datatypes.option XhttpConfig :=
  match n with
  | VlessNode c => xhttp_config (vless_transport c)
  | VmessNode c => xhttp_config (vmess_transport c)
  | TrojanNode c => xhttp_config (trojan_transport c)
  | ShadowsocksNode c => xhttp_config (ss_transport c)
  | _ => None
  end.
Definition via_xhttp (n : NodeInner) : bool := if node_xhttp n is Some _ then true else false.

(** The XHTTP server's heap of packets. *)
Context {Heap : Type} `{MinHeap Heap}.

(** What the servers over UDP rely on: quinn's timeouts, and for WireGuard smoltcp, boringtun, the
    crates of networks, and the orders in which hash maps are iterated. *)
Context (idle_timeout_ok : Z -> bool).
Context {Cidr : Type} (cidr_new : IpAddr -> Z -> outcome Cidr).
Context {T : Type} `{Tunn T} `{!TunnLaws T} {Network : Type}.
Context (contains : Network -> IpAddr -> bool) (parse_network : list Z -> Datatypes.option Network).
Context (order : list (list Z * Peer (T := T) (Network := Network)) -> list (list Z * Peer (T := T) (Network := Network))).
Context {N : Type} `{Smoltcp N} (flow_order : forall V : Type, list (FlowKey * V) -> list (FlowKey * V)) (new_net : list Cidr -> N).

(** All that reaches a node's server. *)
Record arrivals := Arrivals {
  w_accepts : list accepted;
  w_xhttp : list xlabel;       (** requests, bodies, timers, reads and writes of the XHTTP server *)
  w_links : nat -> link;       (** what the task of a pipe's stream meets *)
  w_hysteria : list (incoming (list hlabel));
  w_tuic : list (incoming tuic_schedule);
  w_wireguard : wg_inputs;
}.

Inductive node_served :=
| OverTcp (sv : served)
| HysteriaServed (q : qserved (list hlabel) hconn)
| TuicServed (q : qserved tuic_schedule tstate)
| WireguardServed (r : wg_served (Cidr := Cidr) (T := T) (Network := Network) (N := N)).

(** The logical streams of a node's server. *)
Definition node_streams (n : NodeInner) (w : arrivals) : Datatypes.option streams :=
  match node_xhttp n with
  | Some cfg => logical_streams (H := Heap) cfg (w_xhttp w) (w_links w)
  | None => Some (Streams [] false)
  end.

(** The task of a node. *)
Definition node_run (n : NodeInner) (w : arrivals) : Datatypes.option node_served :=
  match n with
  | Hysteria2 c => HysteriaServed <$> hysteria2_run bind c (w_hysteria w)
  | TuicNode c => TuicServed <$> tuic_run bind idle_timeout_ok c (w_tuic w)
  | WireguardNode c =>
      WireguardServed <$> wireguard_run bind cidr_new contains parse_network base64 order flow_order new_net c (w_wireguard w)
  | _ => xs ← node_streams n w; OverTcp <$> tcp_run n (w_accepts w) xs
  end.

(** The targets a connection is entitled to, where it carries one request. *)
Definition node_grants (n : NodeInner) (s : conn) (l : link) (t : list Z) : Prop :=
  match n with
  | VlessNode c => vless_grants c s l t
  | VmessNode c => vmess_grants c s l t
  | TrojanNode c => trojan_grants sha224 c s l t
  | ShadowsocksNode c => shadowsocks_grants derive_key base64 c s l t
  | SocksNode c => socks_grants c s l t
  | _ => False
  end.

(** SOCKS answers whoever speaks SOCKS. *)
Definition node_silent (n : NodeInner) : bool := match n with SocksNode _ => false | _ => true end.

(** What a task of the node may do. *)
Definition node_gate (n : NodeInner) (k : task) : Prop :=
  match n with
  | AnytlsNode c => gated_streams (anytls_knows sha256 c) (anytls_grants sha256 c) k
  | _ => gated (node_silent n) (node_grants n) k
  end.

(** Where a task's input comes from: an accepted connection, or a stream of the node's XHTTP server. *)
Definition came_in (n : NodeInner) (w : arrivals) (k : task) : Prop :=
  Accept (t_in k) (t_link k) ∈ w_accepts w \/
  exists cfg, node_xhttp n = Some cfg /\ brought (H := Heap) cfg (w_xhttp w) (t_in k).

(** What everything a node's server does is confined to. *)
Definition node_confined (n : NodeInner) (w : arrivals) (r : node_served) : Prop :=
  match n, r with
  | Hysteria2 c, HysteriaServed q => Forall (hysteria_confines c) (qtasks q)
  | TuicNode c, TuicServed q => Forall (tuic_confines c) (qtasks q)
  | WireguardNode c, WireguardServed r => wireguard_confines contains parse_network base64 c r
  | _, OverTcp sv => Forall (fun k => node_gate n k /\ came_in n w k) (tasks sv)
  | _, _ => False
  end.

(** What arrives is made of bytes. *)
Definition arrivals_ok (w : arrivals) : Prop :=
  (forall s l, Accept s l ∈ w_accepts w -> input_ok s l) /\
  (Forall XhttpStreams.label_ok (w_xhttp w) /\ forall p, 0 <= Vmess.w_now (l_vmess (w_links w p)) < 2 ^ 62) /\
  (forall l ls, Incoming (l, ls) ∈ w_tuic w -> Forall Tuic.label_ok ls) /\
  map_Forall (fun _ ms => forall t pkt, (t, Inbound pkt) ∈ ms -> bytes_ok pkt) (wi_stacks (w_wireguard w)).

(** ** Whether a node's server can start *)

Definition succeeds {A} (o : outcome A) : Prop := exists a, o = Done a.

(** Its keys, peers and padding scheme can be read, its TLS set up, its address parsed and
    bound. *)
Definition node_ready (now : Z) (n : NodeInner) : Prop :=
  match n with
  | Hysteria2 c => succeeds (build_hy2_tls (hy2_tls c)) /\ succeeds (listen_on bind (hy2_listen c))
  | TuicNode c =>
      succeeds (tuic_tls (tuic_tls_config c)) /\ idle_timeout_ok (max_idle_time c) = true /\ succeeds (listen_on bind (tuic_listen c))
  | WireguardNode c =>
      (exists k, (decode_key base64 (wg_private_key c) ≫= try_32) = Done k /\
         succeeds (build_peers (T := T) parse_network base64 k now 0 (wg_peers c) ∅).2) /\
      succeeds (server_cidrs cidr_new (server_address c)) /\ succeeds (listen_on bind (wg_listen c))
  | VlessNode c => succeeds (parse_uuid (vless_uuid c)) /\ succeeds (vless_acceptor (vless_tls c)) /\ succeeds (listen_on bind (vless_listen c))
  | VmessNode c => succeeds (parse_uuid (vmess_uuid c)) /\ succeeds (build_tls (vmess_tls c)) /\ succeeds (listen_on bind (vmess_listen c))
  | TrojanNode c => succeeds (build_tls (trojan_tls c)) /\ succeeds (listen_on bind (trojan_listen c))
  | ShadowsocksNode c =>
      succeeds (decode_master_key base64 (ss_password c) (key_len (ss_method c))) /\
      succeeds (build_tls (ss_tls c)) /\ succeeds (listen_on bind (ss_listen c))
  | SocksNode c => succeeds (listen_on bind (socks_listen c))
  | AnytlsNode c =>
      succeeds (build_standard (cert_path (anytls_tls c)) (key_path (anytls_tls c)) (self_signed_domain (anytls_tls c))) /\
      (forall scheme, padding_scheme c = Some scheme -> is_Some (from_bytes gen_range md5 scheme)) /\
      succeeds (listen_on bind (anytls_listen c))
  end.
End nodes.

(** ** Properties *)

Lemma main_Running rd toml args ns :
  main rd toml args = Running ns ->
  args !! 1%nat <> Some (str "generate") /\
  exists cfg, load rd toml (parse_config_arg args) = Done cfg /\ ns = node cfg /\ ns <> [] /\ NoDup (tag <$> ns).
Proof.
  unfold main. case_decide as Hg.
  { unfold generate_command. destruct (args !! 2%nat); [|done]. repeat (case_decide; [done|]). done. }
  destruct (load rd toml (parse_config_arg args)) as [cfg| |]; [|done..]. unfold is_empty.
  case_bool_decide as He; [done|]. destruct (check_duplicate_tags cfg) eqn:Ed; [done|]. intros [= <-].
  split; [done|]. exists cfg. split_and!; try done. by apply check_duplicate_tags_none.
Qed.

(** ** Errors of a server *)

(** What a task started with, in the order of the tasks. *)
Definition started (sv : served) : list (conn * link) := (fun k => (t_in k, t_link k)) <$> tasks sv.

(** The connections accepted before the first error; all of them. *)
Fixpoint before_error (evs : list accepted) : list (conn * link) :=
  match evs with
  | Accept s l :: evs => (s, l) :: before_error evs
  | _ => []
  end.
Fixpoint all_accepted (evs : list accepted) : list (conn * link) :=
  match evs with
  | [] => []
  | Accept s l :: evs => (s, l) :: all_accepted evs
  | AcceptError :: evs => all_accepted evs
  end.

Definition accept_fails (evs : list accepted) : bool := existsb (fun e => if e is AcceptError then true else false) evs.

Definition serves (xhttp : bool) (evs : list accepted) (xs : streams) (sv : served) : Prop :=
  if xhttp then
    started sv = all_accepted evs ++ logical xs /\ ended sv = if closed xs then Some (Done tt) else None
  else
    started sv = before_error evs /\ ended sv = if accept_fails evs then Some (Fail EIo) else None.

Lemma started_run h s l : (t_in (run_task h s l), t_link (run_task h s l)) = (s, l).
Proof. unfold run_task. by destruct (h l s). Qed.

Lemma accept_loop_outcome h evs xs : serves false evs xs (accept_loop h evs).
Proof.
  unfold serves. induction evs as [|[s l|] evs [IH1 IH2]]; cbn [accept_loop before_error].
  - done.
  - unfold started in *. cbn [tasks ended]. by rewrite fmap_cons, IH1, started_run, IH2.
  - done.
Qed.

Lemma feed_loop_started h evs : (fun k => (t_in k, t_link k)) <$> feed_loop h evs = all_accepted evs.
Proof. induction evs as [|[s l|] evs IH]; [done| |done]. cbn [feed_loop all_accepted]. by rewrite fmap_cons, started_run, IH. Qed.

Lemma serve_outcome tr feed handle process evs xs :
  serves (if xhttp_config tr is Some _ then true else false) evs xs (serve tr feed handle process evs xs).
Proof.
  unfold serve, serves, xhttp_config. case_decide as Ht.
  - split; [|done]. unfold started. cbn [tasks]. rewrite fmap_app, feed_loop_started. f_equal.
    induction (logical xs) as [|[s l] ys IH]; [done|]. cbn [fst snd]. by rewrite !fmap_cons, started_run, IH.
  - apply (accept_loop_outcome _ _ xs).
Qed.

(** Started, or nothing started and an error reported. *)
Definition serves_or_reports (ready : Prop) (xhttp : bool) (evs : list accepted) (xs : streams) (sv : served) : Prop :=
  (ready -> serves xhttp evs xs sv) /\ (~ ready -> tasks sv = [] /\ exists o, ended sv = Some o /\ o <> Done tt).

Lemma after_setup_outcome {A} (setup : outcome A) run ready xhttp evs xs :
  (ready <-> succeeds setup) -> (forall a, serves xhttp evs xs (run a)) ->
  serves_or_reports ready xhttp evs xs (after_setup setup run).
Proof.
  intros Hr Hrun. split; intros Hready.
  - apply Hr in Hready as [a ->]. apply Hrun.
  - destruct setup as [a|e|]; [destruct Hready; apply Hr; by exists a|..]; (split; [done|]); by eexists.
Qed.

Lemma after_setup_either {A} (setup : outcome A) run xhttp evs xs :
  (forall a, serves xhttp evs xs (run a)) -> serves xhttp evs xs (after_setup setup run) \/ tasks (after_setup setup run) = [].
Proof. intros Hrun. destruct setup as [a| |]; [left; apply Hrun|by right..]. Qed.

(** Every task has a connection or a stream of its own. *)
Lemma serves_from xhttp evs xs sv k :
  serves xhttp evs xs sv -> k ∈ tasks sv ->
  Accept (t_in k) (t_link k) ∈ evs \/ (xhttp = true /\ (t_in k, t_link k) ∈ logical xs).
Proof.
  assert (Hall : forall x, x ∈ all_accepted evs -> Accept x.1 x.2 ∈ evs).
  { intros x. induction evs as [|[s l|] evs IH]; cbn [all_accepted]; [by intros ?%elem_of_nil| |intros ?%IH; by right].
    intros [->|?%IH]%elem_of_cons; [by left|by right]. }
  assert (Hbefore : forall x, x ∈ before_error evs -> Accept x.1 x.2 ∈ evs).
  { intros x. clear Hall. induction evs as [|[s l|] evs IH]; cbn [before_error]; [by intros ?%elem_of_nil| |by intros ?%elem_of_nil].
    intros [->|?%IH]%elem_of_cons; [by left|by right]. }
  intros Hs Hk. assert (Hin : (t_in k, t_link k) ∈ started sv) by (apply list_elem_of_fmap; by exists k).
  destruct xhttp, Hs as [E _]; rewrite E in Hin; [apply elem_of_app in Hin as [Hin|Hin]; [left; exact (Hall _ Hin)|by right]|].
  left. exact (Hbefore _ Hin).
Qed.

Lemma succeeds_bind {A B} (o : outcome A) (f : A -> outcome B) :
  succeeds (o ≫= f) <-> exists a, o = Done a /\ succeeds (f a).
Proof.
  split.
  - intros [b (a & Ha & Hb)%bind_Done_iff]. exists a. split; [done|by exists b].
  - intros (a & -> & Hb). done.
Qed.

Lemma succeeds_step {A B} (o : outcome A) (f : A -> outcome B) P :
  (forall a, succeeds (f a) <-> P) -> (succeeds (o ≫= f) <-> succeeds o /\ P).
Proof. intros Hf. rewrite succeeds_bind. split; [intros (a & -> & Ha%Hf); by split; [exists a|]|intros [[a ->] ?]; exists a; by rewrite Hf]. Qed.

Lemma succeeds_last {A B} (o : outcome A) (f : A -> outcome B) :
  (forall a, succeeds (f a)) -> (succeeds (o ≫= f) <-> succeeds o).
Proof. intros Hf. rewrite (succeeds_step o f True) by (intros a; split; [done|intros _; apply Hf]). tauto. Qed.

(** A set-up succeeds if its steps do. *)
Ltac setup_steps := cbn [node_ready]; repeat first [apply succeeds_last; intros; by eexists | apply succeeds_step; intros].

Lemma succeeds_map_err {A} e (o : outcome A) : succeeds (map_err e o) <-> succeeds o.
Proof. destruct o as [a| |]; simpl; (split; intros [b ?]; [by exists b|by exists b] || done). Qed.

Lemma accepted_ok evs xs : inputs_ok evs xs -> inputs_ok evs (Streams [] false).
Proof. intros [Ha _]. split; [done|]. by intros s l ?%elem_of_nil. Qed.

Section gate.
Context (bind : SocketAddr -> outcome unit).
Context `{TlsLib} `{LayersLaws} `{RealityCrypto} `{Vmess.CryptoLaws} `{AeadLaws ShadowsocksCipher}.
Context (sha224 : list Z -> list Z) (derive_key : list Z -> list Z) (base64 : list Z -> Datatypes.option (list Z)).

Context (gen_range : list Z -> Z -> Z -> Z) (sha256 md5 : list Z -> list Z).
Context {Heap : Type} `{MinHeapLaws Heap} (idle_timeout_ok : Z -> bool).
Context {Cidr : Type} (cidr_new : IpAddr -> Z -> outcome Cidr).
Context {T : Type} `{Tunn T} `{!TunnLaws T} {Network : Type}.
Context (contains : Network -> IpAddr -> bool) (parse_network : list Z -> Datatypes.option Network).
Context (order : list (list Z * Peer (T := T) (Network := Network)) -> list (list Z * Peer (T := T) (Network := Network))).
Context {N : Type} `{Smoltcp N} `{!SmoltcpLaws N} (flow_order : forall V : Type, list (FlowKey * V) -> list (FlowKey * V)) (new_net : list Cidr -> N).

#[local] Notation tcp_run := (tcp_run bind sha224 derive_key base64 gen_range sha256 md5).
#[local] Notation node_run := (node_run bind sha224 derive_key base64 gen_range sha256 md5 idle_timeout_ok cidr_new
  contains parse_network order flow_order new_net).
#[local] Notation node_gate := (node_gate sha224 derive_key base64 sha256).
#[local] Notation node_confined := (node_confined sha224 derive_key base64 sha256 contains parse_network).
#[local] Notation node_ready := (node_ready bind base64 gen_range md5 idle_timeout_ok cidr_new (T := T) parse_network).

Lemma tcp_from n evs xs sv k :
  tcp_run n evs xs = Some sv -> k ∈ tasks sv ->
  Accept (t_in k) (t_link k) ∈ evs \/ (via_xhttp n = true /\ (t_in k, t_link k) ∈ logical xs).
Proof.
  intros Hr Hk. enough (serves (via_xhttp n) evs xs sv \/ tasks sv = []) as [Hs|E];
    [by eapply serves_from|rewrite E in Hk; by apply elem_of_nil in Hk|].
  destruct n as [c|c|c|c|c|c|c|c|c]; try done; injection Hr as <-; apply after_setup_either;
    intros; repeat case_match; first [apply serve_outcome|apply accept_loop_outcome].
Qed.

Lemma node_streams_came n w xs k :
  node_streams (Heap := Heap) n w = Some xs -> via_xhttp n = true -> (t_in k, t_link k) ∈ logical xs -> came_in (Heap := Heap) n w k.
Proof.
  unfold node_streams, via_xhttp. destruct (node_xhttp n) as [cfg|] eqn:Ex; [|done]. intros Hs _ Hk. right. exists cfg. split; [done|].
  by destruct (logical_brought cfg _ _ _ _ _ Hs Hk).
Qed.

Lemma node_streams_ok n w xs : arrivals_ok w -> node_streams (Heap := Heap) n w = Some xs -> inputs_ok (w_accepts w) xs.
Proof.
  intros (Ha & [Hx Hl] & _) Hs. split; [done|]. unfold node_streams in Hs. destruct (node_xhttp n) as [cfg|].
  - by eapply (logical_inputs cfg).
  - injection Hs as <-. by intros s l ?%elem_of_nil.
Qed.

Lemma tcp_gated n evs xs sv :
  (forall p, length (sha224 p) = 28%nat /\ bytes_ok (sha224 p)) -> (forall ikm, length (derive_key ikm) = 32%nat) ->
  inputs_ok evs xs -> tcp_run n evs xs = Some sv -> Forall (node_gate n) (tasks sv).
Proof.
  intros Hsha Hd Hin Hr. apply Forall_forall. intros k Hk.
  destruct n as [c|c|c|c|c|c|c|c|c]; try done; injection Hr as <-; cbn [Main.node_gate node_silent node_grants].
  - by eapply vless_gated.
  - by eapply vmess_gated.
  - by eapply trojan_gated.
  - by eapply shadowsocks_gated.
  - eapply anytls_gated; [done|exact (accepted_ok _ _ Hin)|exact Hk].
  - eapply socks_gated; [exact (accepted_ok _ _ Hin)|exact Hk].
Qed.

(** What the node's server over TCP does. *)
Lemma tcp_confined n w (r : node_served (Cidr := Cidr) (T := T) (Network := Network) (N := N)) :
  (forall p, length (sha224 p) = 28%nat /\ bytes_ok (sha224 p)) -> (forall ikm, length (derive_key ikm) = 32%nat) ->
  arrivals_ok w -> Some r = (xs ← node_streams (Heap := Heap) n w; OverTcp <$> tcp_run n (w_accepts w) xs) ->
  exists sv, r = OverTcp sv /\ Forall (fun k => node_gate n k /\ came_in (Heap := Heap) n w k) (tasks sv).
Proof.
  intros Hsha Hd Hok Hr. symmetry in Hr. apply bind_Some in Hr as (xs & Hxs & (sv & Hsv & ->)%fmap_Some). exists sv. split; [done|].
  pose proof (tcp_gated n _ _ _ Hsha Hd (node_streams_ok n w xs Hok Hxs) Hsv) as Hg. rewrite Forall_forall in Hg.
  apply Forall_forall. intros k Hk. split; [by apply Hg|].
  destruct (tcp_from _ _ _ _ _ Hsv Hk) as [?|[Hx Hin]]; [by left|by eapply node_streams_came].
Qed.

(** C1: the program as a whole, from the command line to every connection of every
    server.  If it runs, then with the nodes of the configuration file it was told to
    read, at least one and with different tags.  And whatever arrives, over any
    transport, whatever the network, the clocks, the schedules and the other
    connections do, a node's server is confined to its node's configuration.  Of the
    VLESS, VMess, Trojan, Shadowsocks, AnyTLS and SOCKS servers, a connection's task
    makes at most one connection (of AnyTLS: one per stream), and only to a target
    its client is entitled to (the request it proves with the configured
    password, UUID, key or login; or the decoy); except for SOCKS, a client that is entitled to nothing
    sees and causes nothing at all.  A Hysteria 2 connection proxies only after a request with
    the configured password, and a TUIC connection does anything only after a configured user's
    token; both do only what the client's own streams and datagrams ask for.  The WireGuard
    server delivers and relays only packets of configured peers, opened by the peer's own tunnel, from
    its AllowedIPs. *)
Theorem program_gate read_to_string toml args ns :
  (forall p, length (sha224 p) = 28%nat /\ bytes_ok (sha224 p)) ->
  (forall ikm, length (derive_key ikm) = 32%nat) ->
  (forall l, order l ≡ₚ l) -> (forall V l, flow_order V l ≡ₚ l) ->
  main read_to_string toml args = Running ns ->
  (exists cfg, load read_to_string toml (parse_config_arg args) = Done cfg /\ ns = node cfg /\ ns <> [] /\ NoDup (tag <$> ns)) /\
  forall n w r, n ∈ ns -> arrivals_ok w -> node_run (inner n) w = Some r -> node_confined (inner n) w r.
Proof.
  intros Hsha Hd Ho Hfo Hm. apply main_Running in Hm as [_ Hcfg]. split; [done|].
  intros n w r _ Hok Hr. pose proof Hok as (_ & _ & Ht & Hw).
  destruct (inner n) as [c|c|c|c|c|c|c|c|c]; unfold Main.node_run in Hr;
    try (destruct (tcp_confined _ _ _ Hsha Hd Hok (eq_sym Hr)) as (sv & -> & Hsv); exact Hsv); apply fmap_Some in Hr as (x & Hx & ->); cbn [Main.node_confined].
  - by eapply hysteria2_gated.
  - by eapply tuic_gated.
  - by eapply wireguard_gated.
Qed.

Lemma anytls_setup_ready c : node_ready 0 (AnytlsNode c) <-> succeeds (anytls_setup bind gen_range sha256 md5 c).
Proof.
  cbn [node_ready]. unfold anytls_setup. cbv zeta. apply iff_sym, succeeds_step. intros tls_cfg.
  destruct (default_parses gen_range md5) as (s & E & _). unfold new_default. rewrite E. cbn [mbind outcome_bind bind_outcome].
  destruct (padding_scheme c) as [scheme|].
  - unfold update. destruct (from_bytes gen_range md5 scheme) as [p|] eqn:Ep; cbn [mbind outcome_bind bind_outcome].
    + rewrite succeeds_last by (intros _; by eexists). split; [|tauto]. intros Hl. split; [|done].
      intros ? [= <-]. by rewrite Ep.
    + split; [by intros [? ?]|]. intros [Hs _]. destruct (Hs scheme eq_refl) as [p Hp]. congruence.
  - cbn [mbind outcome_bind bind_outcome]. rewrite succeeds_last by (intros _; by eexists). split; [|tauto]. by split.
Qed.

Lemma tcp_outcome now n evs xs sv : tcp_run n evs xs = Some sv -> serves_or_reports (node_ready now n) (via_xhttp n) evs xs sv.
Proof.
  intros Hr. destruct n as [c|c|c|c|c|c|c|c|c]; try done; injection Hr as <-; apply after_setup_outcome;
    try (intros; repeat case_match; first [apply serve_outcome|apply accept_loop_outcome]).
  + cbn [Main.node_ready]. rewrite <- (succeeds_map_err (EBail "vless: invalid UUID in config")). symmetry. setup_steps.
  + symmetry. setup_steps.
  + symmetry. setup_steps.
  + symmetry. setup_steps.
  + apply anytls_setup_ready.
  + done.
Qed.

Lemma hysteria2_setup_ready now c : node_ready now (Hysteria2 c) <-> succeeds (hysteria2_setup bind c).
Proof. symmetry. setup_steps. Qed.

Lemma tuic_setup_ready now c : node_ready now (TuicNode c) <-> succeeds (tuic_setup bind idle_timeout_ok c).
Proof.
  symmetry. cbn [Main.node_ready]. apply succeeds_step. intros crypto. destruct (idle_timeout_ok (max_idle_time c)).
  - rewrite succeeds_last by (intros _; by eexists). tauto.
  - split; [by intros [? ?]|by intros [? _]].
Qed.

Lemma wireguard_setup_ready now c :
  node_ready now (WireguardNode c) <-> succeeds (wireguard_setup (T := T) bind cidr_new parse_network base64 now c).2.
Proof.
  cbn [Main.node_ready]. split.
  - intros ((k & Hk & [ps Hps]) & [cs Hcs] & [[] Hu]). exists (cs, ps). apply wireguard_setup_Done. exists k.
    split; [|by split]. unfold wireguard_keys. apply bind_Done_iff in Hk as (bs & Hbs & Hk).
    rewrite Hbs. cbn [mbind outcome_bind bind_outcome]. rewrite Hk. cbn [mbind outcome_bind bind_outcome].
    by rewrite Hcs.
  - intros [[cs ps] (k & Hk & Hb & Hu)%wireguard_setup_Done]. unfold wireguard_keys in Hk.
    apply bind_Done_iff in Hk as (bs & Hbs & Hk). apply bind_Done_iff in Hk as (k' & Hk' & Hk).
    apply bind_Done_iff in Hk as (cs' & Hcs & [= -> ->]). split; [|split; [by exists cs|by exists tt]].
    exists k. rewrite Hbs. split; [exact Hk'|by exists ps].
Qed.

(** The WireGuard server serves; or it reports an error, and the stacks of the peers it had
    read before run on, without effect. *)
Definition wireguard_serves_or_reports (ready : Prop) (c : WireGuardConfig) (i : wg_inputs)
    (r : wg_served (Cidr := Cidr) (T := T) (Network := Network) (N := N)) : Prop :=
  let stacks0 := started_stacks cidr_new (T := T) parse_network base64 (wi_now i) c in
  (ready -> exists s stacks orphans, r = WgServing s stacks orphans (if wi_recv_error i then Some (Fail EIo) else None) /\
     orphans.*1 = replaced stacks0 /\ Forall idle orphans) /\
  (~ ready -> exists o orphans, r = WgStopped o orphans /\ o <> Done tt /\ orphans.*1 = stacks0 /\ Forall idle orphans).

(** What a node's server makes of what arrives. *)
Definition node_outcome (n : NodeInner) (w : arrivals) (r : node_served (Cidr := Cidr) (T := T) (Network := Network) (N := N)) : Prop :=
  let ready := node_ready (wi_now (w_wireguard w)) n in
  match r with
  | OverTcp sv =>
      exists xs, node_streams (Heap := Heap) n w = Some xs /\ closed xs = false /\
        (forall cfg, node_xhttp n = Some cfg -> one_each (H := Heap) cfg (w_xhttp w) xs) /\
        serves_or_reports ready (via_xhttp n) (w_accepts w) xs sv
  | HysteriaServed q => quic_serves_or_reports ready (w_hysteria w) q
  | TuicServed q => quic_serves_or_reports ready (w_tuic w) q
  | WireguardServed r => if n is WireguardNode c then wireguard_serves_or_reports ready c (w_wireguard w) r else False
  end.

Lemma wireguard_outcome w c r : (forall V l, flow_order V l ≡ₚ l) ->
  node_run (WireguardNode c) w = Some (WireguardServed r) -> node_outcome (WireguardNode c) w (WireguardServed r).
Proof.
  intros Hfo. unfold Main.node_run. intros (x & Hx & [= <-])%fmap_Some.
  cbn [node_outcome]. unfold wireguard_serves_or_reports. rewrite wireguard_setup_ready.
  pose proof (wireguard_setup_stacks cidr_new (T := T) parse_network base64 bind (wi_now (w_wireguard w)) c) as Hst.
  unfold wireguard_run in Hx. destruct (wireguard_setup _ _ _ _ _ c) as [sp [[cidrs ps]|e|]]; cbn [fst snd] in *; subst sp.
  - split; [|intros Hn; destruct Hn; by eexists]. intros _. destruct (orphan_runs _ _ _ _) as [os|] eqn:Eo; [|done].
    apply (orphans_idle flow_order new_net Hfo) in Eo as [Eo Ho]. cbn [mbind option_bind] in Hx.
    destruct (wrun _ _ _ _) as [s|]; [|done].
    cbn [mbind option_bind] in Hx. case_decide; [|done]. injection Hx as <-. by eexists _, _, os.
  - split; [by intros [? ?]|]. apply fmap_Some in Hx as (os & [Eo Ho]%(orphans_idle flow_order new_net Hfo) & ->).
    intros _. by eexists _, os.
  - split; [by intros [? ?]|]. apply fmap_Some in Hx as (os & [Eo Ho]%(orphans_idle flow_order new_net Hfo) & ->).
    intros _. by eexists _, os.
Qed.

Lemma tcp_node_outcome n w (r : node_served (Cidr := Cidr) (T := T) (Network := Network) (N := N)) :
  Some r = (xs ← node_streams (Heap := Heap) n w; OverTcp <$> tcp_run n (w_accepts w) xs) -> node_outcome n w r.
Proof.
  intros Hr. symmetry in Hr. apply bind_Some in Hr as (xs & Hxs & (sv & Hsv & ->)%fmap_Some). exists xs. split; [done|].
  assert (Hx : closed xs = false /\ forall cfg, node_xhttp n = Some cfg -> one_each (H := Heap) cfg (w_xhttp w) xs).
  { unfold node_streams in Hxs. destruct (node_xhttp n) as [cfg|]; [|by injection Hxs as <-].
    destruct (logical_each cfg _ _ _ Hxs). split; [done|]. by intros ? [= <-]. }
  destruct Hx. split_and!; [done|done|]. by apply tcp_outcome.
Qed.

(** C12: errors of a server.  If its keys, peers, TLS, padding scheme and address are good, then
    there is a task for every connection accepted before [accept] fails,
    in order, whatever becomes of the other tasks (their errors and panics included),
    and the server goes on, or returns the error of [accept]; with the XHTTP
    transport, for every connection and, once, for every stream that its XHTTP server hands
    out, errors of [accept] notwithstanding, and it does not end; over QUIC, for every
    connection whose handshake succeeds, until the endpoint closes, which is no error;
    and the WireGuard server runs until its socket fails, and then returns that error.
    Otherwise the server returns an error (or panics in its set-up, where a configured prefix length
    is one smoltcp refuses) and serves no connection, no stream and no datagram;
    of a WireGuard server, the stacks of the peers read before the error (all of them, if it
    is the address that is bad) have been started and are not stopped: they run on, and never
    connect or send anything.  The same happens to the stack of a peer whose key a later peer
    has again. *)
Theorem node_serves_or_reports n w r :
  (forall V l, flow_order V l ≡ₚ l) -> node_run n w = Some r -> node_outcome n w r.
Proof.
  intros Hfo Hr. destruct n as [c|c|c|c|c|c|c|c|c]; pose proof Hr as Hx; unfold Main.node_run in Hx;
    try (by apply tcp_node_outcome); apply fmap_Some in Hx as (x & Hx & ->).
  - apply (after_qsetup_outcome _ _ _ _ _ (hysteria2_setup_ready 0 c) Hx).
  - apply (after_qsetup_outcome _ _ _ _ _ (tuic_setup_ready 0 c) Hx).
  - by apply wireguard_outcome.
Qed.

End gate.

(** ** Concrete instances *)

#[export] Instance toy_tls : TlsLib := {
  read_file _ := Done [1];
  pem_certs f := Done [f];
  pem_key f := Done (Some f);
  self_signed d := Done (d, d);
  key_try_from k := Done k;
  single_cert _ _ := true;
}.

(** Five servers. *)
Definition demo_vless (uuid : list Z) : NodeInner := VlessNode (MkVless (str "0.0.0.0:443") uuid TransportConfig_default None).
Definition demo_vless_xhttp : NodeInner :=
  VlessNode (MkVless (str "0.0.0.0:447") (hex_encode demo_uuid) (Transport (str "xhttp") default_ws_path None (str "/ray") None) None).
Definition demo_tls_config : StandardTlsConfig := StandardTls None None None.
Definition demo_hysteria : Hysteria2Config :=
  MkHysteria2 (str "0.0.0.0:444") demo_tls_config (HysteriaServer.Password (str "pw")) (Bandwidth None None)
    (Masquerade.Masquerade [] None).
Definition demo_tuic : TuicConfig := MkTuic (str "0.0.0.0:445") {[Tuic.toy_uuid := str "secret"]} None 30 3 60 false 1500.
Definition demo_wireguard : WireGuardConfig := MkWireGuard (str "0.0.0.0:446") WgServer.toy_key [] 1420 WgServer.toy_cfg.
Definition demo_nodes : list NodeConfig :=
  [MkNode (str "a") (demo_vless (hex_encode demo_uuid)); MkNode (str "b") (Hysteria2 demo_hysteria);
   MkNode (str "c") (TuicNode demo_tuic); MkNode (str "d") (WireguardNode demo_wireguard);
   MkNode (str "e") demo_vless_xhttp].

(** The file has its nodes in an array, or a table of one. *)
Definition demo_toml (content : list Z) : outcome ConfigFile :=
  Done (MkFile None (Some (Done (match content with [] => Many demo_nodes | _ => One (MkNode (str "a") (demo_vless (hex_encode demo_uuid))) end)))).
Definition demo_args : list (list Z) := [str "ruproxy"; str "-c"; str "my.toml"].
Definition demo_files (path : list Z) : outcome (list Z) := if decide (path = str "my.toml") then Done [] else Fail EIo.
Definition demo_link : link := Link demo_env 0 (MkCert [] (fun _ => Panic)) Shadowsocks.toy_world Vmess.toy_world [].

(** A VLESS client with the configured UUID and one with another; a Hysteria 2
    connection, and one whose handshake fails; a TUIC connection; a WireGuard peer. *)
Definition demo_evs : list accepted := [Accept demo_conn demo_link; Accept (Conn (repeat 0 40) []) demo_link].
Definition demo_tuic_link : tuic_link :=
  TuicLink (fun _ _ => Some Tuic.toy_token) (fun _ _ _ => Some [Tuic.V4 [10; 0; 0; 1] 53]) (fun _ _ => true) (fun _ => true) (fun _ _ => true).
Definition demo_xhttp : list xlabel :=
  demo_post 0 (str "/ray/ab/0") [take 20 (c_in demo_conn); drop 20 (c_in demo_conn)] ++
  [XRequest 1 (demo_request GET (str "/ray/ab")); XEnter 1; XSession 1; XOffer 1; XAccept; XRead 0 100].
Definition demo_world : arrivals := Arrivals demo_evs demo_xhttp (fun _ => demo_link)
  [HandshakeError; Incoming hy_labels; EndpointClosed] [Incoming (demo_tuic_link, tuic_labels)]
  (WgInputs 0 WgServer.toy_labels {[hex_encode WgServer.toy_key := [(0, Inbound (demo_pkt 17 53)); (1, Tick)]]} false []).

Definition demo_run : NodeInner -> arrivals -> Datatypes.option node_served :=
  @node_run (fun _ => Done tt) toy_tls toy_layers toy_reality Vmess.toy_crypto Shadowsocks.toy toy_sha224 toy_derive
    (fun s => Some s) (fun _ a _ => a) (fun s => s) (fun s => s) (list PktEntry) list_heap (fun _ => true) unit (fun _ _ => Done tt)
    (list Z) toy_tunn toy_tunn_laws IpAddr toy_contains toy_network WgServer.toy_order WgStack.toy toy_stack demo_order (fun _ => ∅).
Definition demo_confined : NodeInner -> arrivals -> node_served (Cidr := unit) (T := list Z) (Network := IpAddr) (N := WgStack.toy) -> Prop :=
  @node_confined toy_layers toy_reality Vmess.toy_crypto Shadowsocks.toy toy_sha224 toy_derive (fun s => Some s) (fun s => s)
    (list PktEntry) list_heap unit (list Z) IpAddr toy_contains toy_network WgStack.toy.

(** What the five servers do. *)
Definition demo_traces (r : node_served (Cidr := unit) (T := list Z) (Network := IpAddr) (N := WgStack.toy)) :=
  match r with
  | OverTcp sv => ((fun k => connects (c_trace (t_end k))) <$> tasks sv, [], [], 0%nat)
  | HysteriaServed q => ([], (fun t => hc_trace t.2) <$> qtasks q, [], 0%nat)
  | TuicServed q => ([], [], (fun t => t_trace t.2) <$> qtasks q, 0%nat)
  | WireguardServed (WgServing s stacks _ _) => ([], [], [], length (strace s))
  | WireguardServed _ => ([], [], [], 0%nat)
  end.
Example demo_runs :
  (fun n => demo_traces <$> demo_run (inner n) demo_world) <$> demo_nodes =
  [Some ([[str "a.example:443"]; []], [], [], 0%nat); Some ([], [hy_trace], [], 0%nat);
   Some ([], [], [tuic_trace], 0%nat); Some ([], [], [], 10%nat); Some ([[]; []; [str "a.example:443"]], [], [], 0%nat)].
Proof. vm_compute. reflexivity. Qed.

Lemma demo_world_ok : arrivals_ok demo_world.
Proof.
  split_and!.
  - intros s l Hs. repeat (apply elem_of_cons in Hs as [Hs|Hs]);
      [injection Hs as -> ->|injection Hs as -> ->|apply elem_of_nil in Hs; destruct Hs];
      (split; [apply (bool_decide_eq_true_1 (bytes_ok _)); vm_compute; reflexivity|vm_compute; split; [discriminate|reflexivity]]).
  - apply (bool_decide_eq_true_1 (Forall XhttpStreams.label_ok demo_xhttp)). vm_compute. reflexivity.
  - intros p. vm_compute. split; [discriminate|reflexivity].
  - intros l ls Hl. apply list_elem_of_singleton in Hl. injection Hl as -> ->.
    apply (bool_decide_eq_true_1 (Forall Tuic.label_ok tuic_labels)). vm_compute. reflexivity.
  - apply map_Forall_singleton. intros t pkt Hm. repeat (apply elem_of_cons in Hm as [Hm|Hm]); [injection Hm as _ ->|done|by apply elem_of_nil in Hm].
    apply (bool_decide_eq_true_1 (bytes_ok _)). vm_compute. reflexivity.
Qed.

Lemma demo_runs_all : Forall (fun n => is_Some (demo_run (inner n) demo_world)) demo_nodes.
Proof.
  apply (bool_decide_eq_true_1 _). vm_compute. reflexivity.
Qed.

Lemma program_gate_witness :
  Forall (fun n => exists r, demo_run (inner n) demo_world = Some r /\ demo_confined (inner n) demo_world r) demo_nodes.
Proof.
  apply Forall_forall. intros n Hn. destruct (proj1 (Forall_forall _ _) demo_runs_all n Hn) as [r Er].
  exists r. split; [exact Er|].
    eapply (@program_gate (fun _ => Done tt) toy_tls toy_layers toy_layers_laws toy_reality Vmess.toy_crypto
      Vmess.toy_crypto_laws Shadowsocks.toy Shadowsocks.toy_laws toy_sha224 toy_derive (fun s => Some s) (fun _ a _ => a)
      (fun s => s) (fun s => s) (list PktEntry) list_heap list_heap_laws (fun _ => true) unit (fun _ _ => Done tt) (list Z) toy_tunn toy_tunn_laws IpAddr toy_contains toy_network
      WgServer.toy_order WgStack.toy toy_stack WgStack.toy_laws demo_order (fun _ => ∅)
      demo_files demo_toml demo_args demo_nodes toy_sha_ok (fun ikm => length_be_bytes 32 _)
      (fun l => reflexivity l) (fun V l => reflexivity l) eq_refl); [exact Hn|exact demo_world_ok|exact Er].
Defined.

(** [accept] fails after the first connection; the same with an identifier that is
    none; and a WireGuard server whose peer can be read, but not its address. *)
Definition demo_errors : arrivals := Arrivals [Accept demo_conn demo_link; AcceptError; Accept demo_conn demo_link] [] (fun _ => demo_link)
  [] [] (WgInputs 0 [] ∅ false [[0; 100]]).
Definition demo_result (n : NodeInner) : node_served (Cidr := unit) (T := list Z) (Network := IpAddr) (N := WgStack.toy) :=
  default (OverTcp (Served [] None)) (demo_run n demo_errors).
Definition demo_served (uuid : list Z) : served :=
  match demo_result (demo_vless uuid) with OverTcp sv => sv | _ => Served [] None end.
Definition demo_unbound : WireGuardConfig := MkWireGuard (str "nowhere") WgServer.toy_key [] 1420 WgServer.toy_cfg.
Definition demo_stopped : wg_served (Cidr := unit) (T := list Z) (Network := IpAddr) (N := WgStack.toy) :=
  match demo_result (WireguardNode demo_unbound) with WireguardServed r => r | _ => WgStopped Panic [] end.

Lemma node_serves_or_reports_witness :
  (started (demo_served (hex_encode demo_uuid)) = [(demo_conn, demo_link)] /\ ended (demo_served (hex_encode demo_uuid)) = Some (Fail EIo)) /\
  (tasks (demo_served []) = [] /\ exists o, ended (demo_served []) = Some o /\ o <> Done tt) /\
  exists o orphan, demo_stopped = WgStopped o [orphan] /\ o <> Done tt /\ orphan.1 = (hex_encode WgServer.toy_key, []) /\ idle orphan.
Proof.
  pose (thm n r := @node_serves_or_reports (fun _ => Done tt) toy_tls toy_layers toy_reality Vmess.toy_crypto
    Shadowsocks.toy toy_sha224 toy_derive (fun s => Some s) (fun _ a _ => a) (fun s => s) (fun s => s) (list PktEntry) list_heap (fun _ => true) unit
    (fun _ _ => Done tt) (list Z) toy_tunn toy_tunn_laws IpAddr toy_contains toy_network WgServer.toy_order WgStack.toy toy_stack demo_order
    (fun _ => ∅) n demo_errors r (fun V l => reflexivity l)).
  split; [|split].
  - destruct (thm (demo_vless (hex_encode demo_uuid)) (OverTcp (demo_served (hex_encode demo_uuid))) eq_refl) as (xs & _ & _ & _ & Hs & _).
    apply Hs. split; [|split]; [exists demo_uuid|exists false|exists tt]; vm_compute; reflexivity.
  - destruct (thm (demo_vless []) (OverTcp (demo_served [])) eq_refl) as (xs & _ & _ & _ & _ & Hs).
    apply Hs. intros [[u Hu] _]. vm_compute in Hu. discriminate Hu.
  - destruct (thm (WireguardNode demo_unbound) (WireguardServed demo_stopped) eq_refl) as [_ Hs].
    destruct Hs as (o & os & E & Ho & Hos & Hi).
    + intros (_ & _ & [u Hu]). vm_compute in Hu. discriminate Hu.
    + assert (Hk : os.*1 = [(hex_encode WgServer.toy_key, [])]) by (rewrite Hos; vm_compute; reflexivity).
      destruct os as [|x [|y os]]; [discriminate Hk| |discriminate Hk]. injection Hk as Hx.
      exists o, x. split_and!; [exact E|exact Ho|exact Hx|]. exact (proj1 (Forall_cons_1 _ _ _ Hi)).
Defined.
