(* ===== verification/Generate.v ===== *)
(** * [ruproxy generate]: passwords and keys ([src/src/generate.rs])

    Each command prints lines.  The theorem: what is printed as a value for the
    configuration is accepted by the servers. *)
From S2P Require Import Prelude RustStd NetAddr TlsSetup Net Target Aead Reality Config.
From S2P Require Import WgIface WgStack WgServer UdpServers Servers.

Definition CHARSET : list Z := str "abcdefghijklmnopqrstuvwxyzABCDEFGHIJKLMNOPQRSTUVWXYZ0123456789".

(** [gen_range i]: the [i]-th draw below the size of the character set. *)
Definition password (gen_range : nat -> nat) (length : nat) : outcome (list Z) := random_text CHARSET gen_range length.

(** [println!] of a UUID and of a password. *)
Definition uuid (display : list Z) : list (list Z) := [display].
Definition password_lines (gen_range : nat -> nat) (length : nat) : outcome (list (list Z)) :=
  pwd ← password gen_range length;
  Done [pwd].

Record wg_keys := WgKeys { server_priv_b64 : list Z; server_pub_b64 : list Z; client_priv_b64 : list Z; client_pub_b64 : list Z }.
Record reality_keys := RealityKeys { private_b64 : list Z; public_b64 : list Z; short_id : list Z }.

(** A value in quotation marks. *)
Definition quoted (v : list Z) : list Z := [34] ++ v ++ [34].

Section generate.
(** X25519 public keys and base64 are crates; the secrets are random. *)
Context (public : list Z -> list Z) (standard_encode url_safe_encode : list Z -> list Z).

Definition wg_generate (server_priv client_priv : list Z) : wg_keys :=
  WgKeys (standard_encode server_priv) (standard_encode (public server_priv))
    (standard_encode client_priv) (standard_encode (public client_priv)).

Definition wireguard_keypair (server_priv client_priv : list Z) : list (list Z) :=
  let k := wg_generate server_priv client_priv in
  [ str "=== WireGuard 密钥对 ===";
    [];
    str "# ── 服务端（填入 ruproxy config.toml）──";
    str "[wireguard]";
    str "private_key    = " ++ quoted (server_priv_b64 k);
    str "# 对应公钥（填入客户端 wg0.conf [Peer] PublicKey）：";
    str "# " ++ server_pub_b64 k;
    [];
    str "# ── 客户端 1（wg0.conf）──";
    str "[Interface]";
    str "PrivateKey = " ++ client_priv_b64 k;
    str "Address    = 10.0.0.2/24";
    str "DNS        = 1.1.1.1";
    [];
    str "[Peer]";
    str "PublicKey           = " ++ server_pub_b64 k;
    str "Endpoint            = 你的服务器IP:51820";
    str "AllowedIPs          = 0.0.0.0/0, ::/0";
    str "PersistentKeepalive = 25";
    [];
    str "# ── 将客户端公钥填入服务端 config.toml ──";
    str "[[wireguard.peers]]";
    str "public_key  = " ++ quoted (client_pub_b64 k);
    str "allowed_ips = [" ++ quoted (str "10.0.0.2/32") ++ str "]" ].

Definition reality_generate (private short_id_bytes : list Z) : reality_keys :=
  RealityKeys (url_safe_encode private) (url_safe_encode (public private)) (hex_encode short_id_bytes).

Definition reality_keypair (private short_id_bytes : list Z) : list (list Z) :=
  let k := reality_generate private short_id_bytes in
  [ str "=== Reality 密钥对 ===";
    [];
    str "# ── 服务端（填入 ruproxy config.toml）──────────────────────────────";
    str "# 注意：服务端只需 private_key，public_key 仅客户端使用";
    str "[[vless]]";
    str "listen = " ++ quoted (str "0.0.0.0:443");
    str "uuid   = " ++ quoted (str "你的UUID");
    [];
    str "[vless.tls]";
    str "type        = " ++ quoted (str "reality");
    str "private_key = " ++ quoted (private_b64 k);
    str "short_ids   = [" ++ quoted (short_id k) ++ str "]";
    str "dest        = " ++ quoted (str "www.microsoft.com:443");
    str "server_name = " ++ quoted (str "www.microsoft.com");
    [];
    str "# ── 客户端（Xray / sing-box）────────────────────────────────────────";
    str "# public_key = " ++ quoted (public_b64 k);
    str "# short_id   = " ++ quoted (short_id k);
    [];
    str "# ── 原始值 ──────────────────────────────────────────────────────────";
    str "private_key (服务端) : " ++ private_b64 k;
    str "public_key  (客户端) : " ++ public_b64 k;
    str "short_id             : " ++ short_id k ].

Lemma trim_all_printable l : Forall printable l -> trim l = l.
Proof.
  intros Hl. destruct l as [|c l]; [done|]. apply Forall_cons in Hl as [Hc Hl].
  destruct l as [|d l _] using rev_ind.
  - unfold trim. rewrite (strip_all_none _ _ _ (proj1 (no_space c [] Hc))).
    cbv zeta. change (reverse [c]) with [c]. rewrite (strip_all_none _ _ _ (proj2 (no_space c [] Hc))). reflexivity.
  - apply Forall_app in Hl as [_ Hd]. apply trim_printable; [done|]. exact (Forall_inv Hd).
Qed.

(** C33: what the program generates it accepts.  A printed password has the
    requested length and only letters and digits.  The printed WireGuard text has a
    line with a private key and one with a peer's public key, and a server with that
    key and that peer (and parseable networks) starts, its addresses and socket
    permitting.  The printed Reality text has lines with a private key and a short
    identifier, and a VLESS server with them passes the checks at its start, and is
    left with its placeholder certificate.  Assumed of base64: it decodes what it
    encodes, and its output is printable. *)
Theorem generated_keys_accepted `{RealityCrypto} `{TlsLib} {Cidr T Network : Type} `{Tunn T}
    bind (cidr_new : IpAddr -> Z -> outcome Cidr) (parse_network : list Z -> Datatypes.option Network) b64_decode
    gen_range n server client sid dest server_name now cidrs nets wcfg pcfg cs :
  (forall i, (gen_range i < length CHARSET)%nat) ->
  (forall b, bytes_ok b -> b64_decode (standard_encode b) = Some b /\ Forall printable (standard_encode b)) ->
  (forall b, bytes_ok b -> url_safe_no_pad_decode (url_safe_encode b) = Some b /\ Forall printable (url_safe_encode b)) ->
  (forall b, bytes_ok b -> hex_decode (hex_encode b) = Some b) ->
  bytes_ok server /\ length server = 32%nat -> bytes_ok (public client) /\ length (public client) = 32%nat ->
  bytes_ok sid /\ length sid = 8%nat ->
  let wg := wg_generate server client in
  let re := reality_generate server sid in
  wg_private_key wcfg = server_priv_b64 wg -> wg_peers wcfg = [pcfg] ->
  WgServer.public_key pcfg = client_pub_b64 wg -> pre_shared_key pcfg = None -> cfg_allowed_ips pcfg = cidrs ->
  parse_networks parse_network cidrs = Done nets ->
  server_cidrs cidr_new (server_address wcfg) = Done cs -> listen_on bind (wg_listen wcfg) = Done tt ->
  (exists p, password_lines gen_range n = Done [p] /\ length p = n /\ Forall (fun c => c ∈ CHARSET) p) /\
  [str "private_key    = " ++ quoted (server_priv_b64 wg); str "public_key  = " ++ quoted (client_pub_b64 wg)]
    ⊆ wireguard_keypair server client /\
  (exists peer, wireguard_setup bind cidr_new parse_network b64_decode now wcfg =
     ([(hex_encode (public client), cs)], Done (cs, {[hex_encode (public client) := peer]})) /\ allowed_ips peer = nets) /\
  [str "private_key = " ++ quoted (private_b64 re); str "short_ids   = [" ++ quoted (short_id re) ++ str "]"]
    ⊆ reality_keypair server sid /\
  reality_build (MkReality dest server_name (private_b64 re) [short_id re]) = build_placeholder_config server_name.
Proof.
  intros Hg Hb Hu Hh [Hsb Hs] [Hpb Hp] [Hlb Hl] wg re Hk Hps Hpk Hpsk Hai Hn Hcs Hlo.
  assert (Hdk : forall b, bytes_ok b -> decode_key b64_decode (standard_encode b) = Done b).
  { intros b Hbo. unfold decode_key. destruct (Hb b Hbo) as [Hd Hpr]. by rewrite trim_all_printable, Hd by done. }
  split; [|split; [|split; [|split]]].
  - destruct (random_text_spec CHARSET gen_range n Hg) as (p & E & Hpw). exists p. unfold password_lines, password. by rewrite E.
  - intros l Hin. rewrite !elem_of_cons in Hin. unfold wireguard_keypair. rewrite !elem_of_cons. tauto.
  - eexists. unfold wireguard_setup, wireguard_keys. rewrite Hk. cbn [server_priv_b64 wg wg_generate]. rewrite Hdk by done.
    cbn [mbind outcome_bind bind_outcome]. unfold try_32. rewrite decide_True by done. cbn [mret outcome_ret mbind outcome_bind bind_outcome].
    rewrite Hcs, Hps. cbn [mbind outcome_bind bind_outcome build_peers]. unfold build_peer. rewrite Hpk.
    cbn [client_pub_b64 wg wg_generate]. rewrite Hdk by done. cbn [mbind outcome_bind bind_outcome]. unfold try_32.
    rewrite decide_True by done. cbn [mret outcome_ret mbind outcome_bind bind_outcome]. unfold build_psk. rewrite Hpsk.
    cbn [mret outcome_ret mbind outcome_bind bind_outcome]. rewrite Hai, Hn. cbn [mret outcome_ret mbind outcome_bind bind_outcome].
    rewrite Hlo. cbn [mret outcome_ret mbind outcome_bind bind_outcome]. rewrite insert_empty. split; [reflexivity|done].
  - intros l Hin. rewrite !elem_of_cons in Hin. unfold reality_keypair. rewrite !elem_of_cons. tauto.
  - unfold reality_build, Reality.build, base64_url_decode. cbn [private_key short_ids private_b64 short_id re reality_generate].
    destruct (Hu server Hsb) as [Hd Hpr]. rewrite trim_all_printable, Hd by done. cbn [mbind outcome_bind bind_outcome].
    rewrite decide_False by (intros Hne; by apply Hne). cbn [check_short_ids]. rewrite Hh by done. cbn [ok_or mbind outcome_bind bind_outcome].
    rewrite decide_False by lia. done.
Qed.

(** The printed configurations have no table the program reads: its servers
    are the entries of [[node]]. *)
Theorem printed_configuration_has_no_node server client sid :
  str "[[node]]" ∉ wireguard_keypair server client /\ str "[[node]]" ∉ reality_keypair server sid.
Proof. split; unfold wireguard_keypair, reality_keypair; rewrite !not_elem_of_cons; repeat (split; [done|]); apply not_elem_of_nil. Qed.

End generate.

(** ** Concrete instances *)

#[local] Instance generate_tls : TlsLib := {
  read_file _ := Done [1];
  pem_certs f := Done [f];
  pem_key f := Done (Some f);
  self_signed d := Done (d, d);
  key_try_from k := Done k;
  single_cert _ _ := true;
}.

(** Hexadecimal stands for base64. *)
Definition hex_value (c : Z) : Z := if c <? 58 then c - 48 else c - 87.
Fixpoint unhex (s : list Z) : Datatypes.option (list Z) :=
  match s with
  | [] => Some []
  | h :: l :: r => bs ← unhex r; Some (hex_value h * 16 + hex_value l :: bs)
  | _ => None
  end.

Lemma unhex_encode b : bytes_ok b -> unhex (hex_encode b) = Some b /\ Forall printable (hex_encode b).
Proof.
  assert (Hd : forall d, 0 <= d < 16 -> hex_value (hex_digit d) = d /\ printable (hex_digit d)).
  { intros d Hd. unfold hex_value, hex_digit, printable. destruct (d <? 10) eqn:E;
      (destruct (_ <? 58) eqn:E2; lia). }
  induction 1 as [|c r Hc _ [IH1 IH2]]; [by split|]. unfold byte_ok in Hc.
  change (hex_encode (c :: r)) with (hex_digit (c / 16) :: hex_digit (c mod 16) :: hex_encode r).
  destruct (Hd (c / 16) ltac:(dlia)) as [E1 P1]. destruct (Hd (c mod 16) ltac:(dlia)) as [E2 P2].
  split; [|by apply Forall_cons_2, Forall_cons_2]. cbn [unhex]. rewrite IH1. simpl. rewrite E1, E2. do 2 f_equal. dlia.
Qed.

Definition hex_reality : RealityCrypto := {|
  x25519 := @x25519 toy_reality;
  hkdf_sha256 := @hkdf_sha256 toy_reality;
  hmac_sha512 := @hmac_sha512 toy_reality;
  url_safe_no_pad_decode := unhex;
  standard_decode := unhex;
  hex_decode := unhex;
  reality_aead := @reality_aead toy_reality;
|}.

Definition demo_peer : WireGuardPeerConfig := PeerConfig (hex_encode (replicate 32 7)) None [] None [].
Definition demo_wg : WireGuardConfig := MkWireGuard (str "0.0.0.0:51820") (hex_encode (replicate 32 9)) [] 1420 [demo_peer].

Lemma generated_keys_accepted_witness :
  exists peers, wireguard_setup (T := list Z) (Cidr := unit) (Network := unit) (fun _ => Done tt) (fun _ _ => Done tt)
    (fun _ => Some tt) unhex 0 demo_wg = ([(hex_encode (replicate 32 7), [])], Done ([], peers)).
Proof.
  destruct (@generated_keys_accepted (fun _ => replicate 32 7) hex_encode hex_encode hex_reality generate_tls unit (list Z) unit toy_tunn
    (fun _ => Done tt) (fun _ _ => Done tt) (fun _ => Some tt) unhex (fun _ => 0%nat) 3%nat (replicate 32 9) (replicate 32 9)
    (replicate 8 5) [] [] 0 [] [] demo_wg demo_peer []
    (fun _ => ltac:(apply Nat.ltb_lt; reflexivity)) unhex_encode unhex_encode (fun b Hb => proj1 (unhex_encode b Hb))
    ltac:(split; [apply (bool_decide_eq_true (bytes_ok _)); vm_compute; reflexivity|reflexivity])
    ltac:(split; [apply (bool_decide_eq_true (bytes_ok _)); vm_compute; reflexivity|reflexivity])
    ltac:(split; [apply (bool_decide_eq_true (bytes_ok _)); vm_compute; reflexivity|reflexivity])
    eq_refl eq_refl eq_refl eq_refl eq_refl eq_refl eq_refl eq_refl) as (_ & _ & (peer & E & _) & _).
  eexists. exact E.
Defined.
